(** * The mint core of gonuts (mint/mint.go), embedded in Rocq

    The Go methods of [Mint] are written as functions in a state-and-error
    monad over the repository ([Store]).  Unsigned 64-bit integers are [Z]
    with the wrap-around written out; Go maps are [gmap]; repository tables
    are lists of rows.  Code of the packages [cashu], [crypto], [nut10],
    [nut11], [lightning] and [storage], which mint.go calls but which is kept
    elsewhere, is taken as a parameter ([Libs], [lightning.Client]) or
    modelled from the specification (the repository operations). *)

From stdpp Require Import base list strings gmap.
From Stdlib Require Import ZArith Lia.

Local Open Scope string_scope.
Local Open Scope Z_scope.

(** ** Machine integers *)

Definition uint64_modulus : Z := 2 ^ 64.

Definition wrap64 (z : Z) : Z := z mod uint64_modulus.

Definition add64 (a b : Z) : Z := wrap64 (a + b).

Definition sub64 (a b : Z) : Z := wrap64 (a - b).

Definition is_uint64 (z : Z) : Prop := 0 <= z < uint64_modulus.

(** ** Constants of mint.go *)

Definition BOLT11_METHOD : string := "bolt11".
Definition SAT_UNIT : string := "sat".

(** ** Errors *)

(** Modelled from the spec: the error codes of package cashu that mint.go
    passes to [BuildCashuError] (section 7: LightningBackendErr, DBErr and
    the standard error). *)
Inductive ErrCode :=
| StandardErrCode
| LightningBackendErrCode
| DBErrCode.

(** Modelled from the spec: the error values of package cashu and nut11
    that mint.go returns, the taxonomy of section 7 under the names mint.go
    uses.  [BuildCashuError msg code] keeps the fixed part of the message;
    [GoPanic] is a run-time panic. *)
Inductive Error :=
| PaymentMethodNotSupportedErr
| UnitNotSupportedErr
| QuoteNotExistErr
| MintQuoteRequestNotPaid
| MintQuoteAlreadyIssued
| OutputsOverQuoteAmountErr
| InvalidBlindedMessageAmount
| BlindedMessageAlreadySigned
| InactiveKeysetSignatureRequest
| UnknownKeysetErr
| InvalidProofErr
| NoProofsProvided
| ProofPendingErr
| ProofAlreadyUsedErr
| DuplicateProofs
| InsufficientProofsAmount
| MeltQuoteAlreadyPaid
| MeltQuotePending
| MeltAmountExceededErr
| StandardErr
| BuildCashuError (msg : string) (code : ErrCode)
| InvalidWitness
| NotEnoughSignaturesErr
| EmptyPubkeysErr
| SigAllOnlySwap
| AllSigAllFlagsErr
| SigAllKeysMustBeEqualErr
| NSigsMustBeEqualErr
| GoPanic (msg : string).

(** ** Quote states (nut04, nut05) and the Lightning client *)

Module nut04.
(** Modelled from the spec: the state of a mint quote, declared in package
    nut04 (section 3: state in Unpaid, Paid, Issued). *)
Inductive State := Unpaid | Paid | Issued.

Definition State_eqb (a b : State) : bool :=
  match a, b with
  | Unpaid, Unpaid | Paid, Paid | Issued, Issued => true
  | _, _ => false
  end.
End nut04.

Module nut05.
(** Modelled from the spec: the state of a melt quote, declared in package
    nut05 (section 3: state in Unpaid, Pending, Paid). *)
Inductive State := Unpaid | Pending | Paid.

Definition State_eqb (a b : State) : bool :=
  match a, b with
  | Unpaid, Unpaid | Pending, Pending | Paid, Paid => true
  | _, _ => false
  end.
End nut05.

Module lightning.
(** Modelled from the spec: the status of a payment (section 6: status in
    Pending, Succeeded, Failed). *)
Inductive State := Succeeded | Failed | Pending.

(** Modelled from the spec: the invoice record of the backend (section 6),
    with the fields the CLN client fills and the preimage. *)
Record Invoice := {
  PaymentRequest : string;
  PaymentHash : string;
  Preimage : string;
  Settled : bool;
  Amount : Z;
  Expiry : Z
}.

(** Modelled from the spec: the answer of [SendPayment] and
    [OutgoingPaymentStatus] (section 6): a status and a preimage. *)
Record PaymentStatus := {
  PaymentPreimage : string;
  Status : State
}.

(** Modelled from the spec: the interface [lightning.Client] (section 6),
    with the methods mint.go calls on the melt and mint paths.  Every Go
    method returns a value and an error; the error is [Some msg] with its
    [Error()] text. *)
Record Client := {
  InvoiceStatus : string -> Invoice * option string;
  SendPayment : string -> Z -> PaymentStatus * option string;
  OutgoingPaymentStatus : string -> PaymentStatus * option string;
  FeeReserve : Z -> Z
}.

(** Calls made to the backend, recorded in the order they happen. *)
Inductive Call :=
| CallInvoiceStatus (hash : string)
| CallSendPayment (request : string) (maxFee : Z)
| CallOutgoingPaymentStatus (hash : string).
End lightning.

(** ** Data of package cashu, crypto and storage

    The structs are declared in packages kept elsewhere; each has the fields
    mint.go reads and writes. *)

(** Modelled from the spec: [cashu.Proof] (section 3: amount, keyset id,
    secret, C) and its witness (section 4.9). *)
Record Proof := {
  Proof_Amount : Z;
  Proof_Id : string;
  Proof_Secret : string;
  Proof_C : string;
  Proof_Witness : string
}.

(** Modelled from the spec: [cashu.BlindedMessage] (section 3: amount,
    keyset id, B_, witness). *)
Record BlindedMessage := {
  BlindedMessage_Amount : Z;
  BlindedMessage_B_ : string;
  BlindedMessage_Id : string;
  BlindedMessage_Witness : string
}.

(** Modelled from the spec: [cashu.DLEQProof] (section 3: e, s). *)
Record DLEQProof := { DLEQ_E : string; DLEQ_S : string }.

(** Modelled from the spec: [cashu.BlindedSignature] (section 3: amount,
    keyset id, C_, DLEQ). *)
Record BlindedSignature := {
  BlindedSignature_Amount : Z;
  BlindedSignature_C_ : string;
  BlindedSignature_Id : string;
  BlindedSignature_DLEQ : DLEQProof
}.

(** Modelled from the spec: [crypto.KeyPair], the key pair of one amount
    (section 3); the private key is its scalar. *)
Record KeyPair := { PrivateKey : Z; PublicKey : string }.

(** Modelled from the spec: [crypto.MintKeyset] (section 3): id, unit,
    active flag, the map from amount to key pair, and the input fee. *)
Record MintKeyset := {
  MintKeyset_Id : string;
  MintKeyset_Unit : string;
  MintKeyset_Active : bool;
  MintKeyset_Keys : gmap Z KeyPair;
  MintKeyset_InputFeePpk : Z
}.

(** Modelled from the spec: [storage.MintQuote] (section 3), with the
    fields [RequestMintQuote] fills. *)
Record MintQuote := {
  MintQuote_Id : string;
  MintQuote_Amount : Z;
  MintQuote_PaymentRequest : string;
  MintQuote_PaymentHash : string;
  MintQuote_State : nut04.State;
  MintQuote_Expiry : Z
}.

(** Modelled from the spec: [storage.MeltQuote] (section 3), with the
    fields [RequestMeltQuote] fills and the preimage. *)
Record MeltQuote := {
  MeltQuote_Id : string;
  MeltQuote_InvoiceRequest : string;
  MeltQuote_PaymentHash : string;
  MeltQuote_Amount : Z;
  MeltQuote_FeeReserve : Z;
  MeltQuote_State : nut05.State;
  MeltQuote_Expiry : Z;
  MeltQuote_Preimage : string
}.

(** Modelled from the spec: [storage.DBProof], a row of the pending or of
    the spent table (section 3): the proof, its [Y] and the owning quote. *)
Record DBProof := {
  DBProof_Y : string;
  DBProof_Amount : Z;
  DBProof_Id : string;
  DBProof_Secret : string;
  DBProof_C : string;
  DBProof_MeltQuoteId : string
}.

(** Modelled from the spec: the limits of the configuration (section 4.5,
    4.6: MintingSettings.MaxAmount, MeltingSettings.MaxAmount, MaxBalance). *)
Record MintMethodSettings := { MinAmount : Z; MaxAmount : Z }.

(** Modelled from the spec: [MintLimits], see [MintMethodSettings]. *)
Record MintLimits := {
  MaxBalance : Z;
  MintingSettings : MintMethodSettings;
  MeltingSettings : MintMethodSettings
}.

(** Modelled from the spec: [nut10.WellKnownSecret] (section 4.9: nonce,
    data, tags). *)
Record WellKnownSecret := {
  Secret_Nonce : string;
  Secret_Data : string;
  Secret_Tags : list (list string)
}.

(** Modelled from the spec: [nut11.P2PKTags] (section 4.9: sigflag, n_sigs,
    pubkeys, locktime, refund); keys are kept in hex. *)
Record P2PKTags := {
  Tags_Sigflag : string;
  Tags_NSigs : Z;
  Tags_Pubkeys : list string;
  Tags_Locktime : Z;
  Tags_Refund : list string
}.

(** Modelled from the spec: [nut11.P2PKWitness] (section 4.9: signatures). *)
Record P2PKWitness := { Signatures : list string }.

(** Modelled from the spec: the decoded invoice of [decodepay], with the
    two fields [RequestMeltQuote] reads (section 4.6). *)
Record Bolt11 := { MSatoshi : Z; Bolt11_PaymentHash : string }.

(** ** Library functions mint.go calls

    Functions of the packages [crypto], [nut10], [nut11], [cashu],
    [encoding/hex], [encoding/json], [secp256k1], [decodepay] and [time].
    They are parameters of the embedding: no property of the mint below
    depends on what they compute. *)
Record Libs := {
  HashToCurve : string -> option string;
  hex_DecodeString : string -> string + string;
  ParsePubKey : string -> string + string;
  Verify : string -> Z -> string -> bool;
  SignBlindedMessage : string -> Z -> string;
  GenerateDLEQ : Z -> string -> string -> string * string;
  sha256_Sum256 : string -> string;
  IsSecretP2PK : Proof -> bool;
  DeserializeSecret : string -> string + WellKnownSecret;
  json_Unmarshal_witness : string -> option P2PKWitness;
  ParseP2PKTags : list (list string) -> Error + P2PKTags;
  ParsePublicKey : string -> Error + string;
  HasValidSignatures : string -> P2PKWitness -> Z -> list string -> bool;
  ProofsSigAll : list Proof -> bool;
  IsSigAll : WellKnownSecret -> bool;
  PublicKeys : WellKnownSecret -> Error + list string;
  Decodepay : string -> string + Bolt11;
  GenerateRandomQuoteId : option string;
  time_Now_Unix : Z;
  quote_Expiry_Now : Z
}.

(** ** The repository

    [db_faults] is the schedule of repository failures: every repository
    call consumes its head, and fails when the head is [true].  An empty
    schedule is a repository that always answers.  [ln_calls] records the
    calls made to the Lightning backend, latest first. *)
Record Store := {
  mint_quotes : list MintQuote;
  melt_quotes : list MeltQuote;
  pending_proofs : list DBProof;
  used_proofs : list DBProof;
  blind_signatures : list (string * BlindedSignature);
  db_faults : list bool;
  ln_calls : list lightning.Call
}.

Record Mint := {
  activeKeysets : gmap string MintKeyset;
  keysets : gmap string MintKeyset;
  lightningClient : lightning.Client;
  limits : MintLimits
}.

Definition set_mint_quotes (f : list MintQuote -> list MintQuote) (st : Store) : Store :=
  {| mint_quotes := f (mint_quotes st); melt_quotes := melt_quotes st;
     pending_proofs := pending_proofs st; used_proofs := used_proofs st;
     blind_signatures := blind_signatures st; db_faults := db_faults st;
     ln_calls := ln_calls st |}.

Definition set_melt_quotes (f : list MeltQuote -> list MeltQuote) (st : Store) : Store :=
  {| mint_quotes := mint_quotes st; melt_quotes := f (melt_quotes st);
     pending_proofs := pending_proofs st; used_proofs := used_proofs st;
     blind_signatures := blind_signatures st; db_faults := db_faults st;
     ln_calls := ln_calls st |}.

Definition set_pending_proofs (f : list DBProof -> list DBProof) (st : Store) : Store :=
  {| mint_quotes := mint_quotes st; melt_quotes := melt_quotes st;
     pending_proofs := f (pending_proofs st); used_proofs := used_proofs st;
     blind_signatures := blind_signatures st; db_faults := db_faults st;
     ln_calls := ln_calls st |}.

Definition set_used_proofs (f : list DBProof -> list DBProof) (st : Store) : Store :=
  {| mint_quotes := mint_quotes st; melt_quotes := melt_quotes st;
     pending_proofs := pending_proofs st; used_proofs := f (used_proofs st);
     blind_signatures := blind_signatures st; db_faults := db_faults st;
     ln_calls := ln_calls st |}.

Definition set_blind_signatures
    (f : list (string * BlindedSignature) -> list (string * BlindedSignature))
    (st : Store) : Store :=
  {| mint_quotes := mint_quotes st; melt_quotes := melt_quotes st;
     pending_proofs := pending_proofs st; used_proofs := used_proofs st;
     blind_signatures := f (blind_signatures st); db_faults := db_faults st;
     ln_calls := ln_calls st |}.

Definition set_db_faults (fs : list bool) (st : Store) : Store :=
  {| mint_quotes := mint_quotes st; melt_quotes := melt_quotes st;
     pending_proofs := pending_proofs st; used_proofs := used_proofs st;
     blind_signatures := blind_signatures st; db_faults := fs;
     ln_calls := ln_calls st |}.

Definition log_call (c : lightning.Call) (st : Store) : Store :=
  {| mint_quotes := mint_quotes st; melt_quotes := melt_quotes st;
     pending_proofs := pending_proofs st; used_proofs := used_proofs st;
     blind_signatures := blind_signatures st; db_faults := db_faults st;
     ln_calls := c :: ln_calls st |}.

(** ** The monad: repository state, and an error or a result *)

Definition M (A : Type) : Type := Store -> (Error + A) * Store.

Definition ret {A} (a : A) : M A := fun st => (inr a, st).

Definition throw {A} (e : Error) : M A := fun st => (inl e, st).

Definition bind {A B} (c : M A) (k : A -> M B) : M B :=
  fun st =>
    match c st with
    | (inl e, st') => (inl e, st')
    | (inr a, st') => k a st'
    end.

#[global] Instance M_ret : MRet M := fun A a => ret a.
#[global] Instance M_bind : MBind M := fun A B k c => bind c k.

(** What a repository call gives back: rows, [sql.ErrNoRows], or another
    error. *)
Inductive DBResult (A : Type) :=
| DBOk (a : A)
| ErrNoRows
| DBFail.
Arguments DBOk {A} a.
Arguments ErrNoRows {A}.
Arguments DBFail {A}.

(** A repository call: consume one entry of the fault schedule, then run. *)
Definition db_call {A} (f : Store -> DBResult A * Store) : M (DBResult A) :=
  fun st =>
    match db_faults st with
    | true :: fs => (inr DBFail, set_db_faults fs st)
    | false :: fs => let '(r, st') := f (set_db_faults fs st) in (inr r, st')
    | [] => let '(r, st') := f st in (inr r, st')
    end.

Definition find_result {A} (o : option A) : DBResult A :=
  match o with
  | Some a => DBOk a
  | None => ErrNoRows
  end.

Definition mem_string (s : string) (l : list string) : bool :=
  existsb (String.eqb s) l.

(** ** Repository operations (interface [storage.MintDB])

    The storage driver is not part of the mint core.  Each operation below
    follows the specification's repository contract (section 6) and data
    model (section 3): quotes are looked up by id or payment hash, proofs
    by [Y], signatures by [B_]; an insert adds a row. *)

(** Modelled from the spec: [GetMintQuote] of the repository contract, the
    mint quote with that id, [sql.ErrNoRows] when there is none. *)
Definition GetMintQuote (id : string) : M (DBResult MintQuote) :=
  db_call (fun st =>
    (find_result (find (fun q => String.eqb (MintQuote_Id q) id) (mint_quotes st)), st)).

(** Modelled from the spec: [GetMintQuoteByPaymentHash] of the repository
    contract, the mint quote with that payment hash. *)
Definition GetMintQuoteByPaymentHash (hash : string) : M (DBResult MintQuote) :=
  db_call (fun st =>
    (find_result (find (fun q => String.eqb (MintQuote_PaymentHash q) hash) (mint_quotes st)), st)).

Definition MintQuote_with_State (s : nut04.State) (q : MintQuote) : MintQuote :=
  {| MintQuote_Id := MintQuote_Id q; MintQuote_Amount := MintQuote_Amount q;
     MintQuote_PaymentRequest := MintQuote_PaymentRequest q;
     MintQuote_PaymentHash := MintQuote_PaymentHash q;
     MintQuote_State := s; MintQuote_Expiry := MintQuote_Expiry q |}.

Definition update_mint_quote (id : string) (s : nut04.State) (st : Store) : Store :=
  set_mint_quotes
    (map (fun q => if String.eqb (MintQuote_Id q) id then MintQuote_with_State s q else q)) st.

(** Modelled from the spec: [UpdateMintQuoteState] of the repository
    contract, sets the state of the mint quote with that id. *)
Definition UpdateMintQuoteState (id : string) (s : nut04.State) : M (DBResult unit) :=
  db_call (fun st => (DBOk tt, update_mint_quote id s st)).

(** Modelled from the spec: [SaveMeltQuote] of the repository contract. *)
Definition SaveMeltQuote (q : MeltQuote) : M (DBResult unit) :=
  db_call (fun st => (DBOk tt, set_melt_quotes (fun l => (l ++ [q])%list) st)).

(** Modelled from the spec: [GetMeltQuote] of the repository contract. *)
Definition GetMeltQuote (id : string) : M (DBResult MeltQuote) :=
  db_call (fun st =>
    (find_result (find (fun q => String.eqb (MeltQuote_Id q) id) (melt_quotes st)), st)).

Definition MeltQuote_with (preimage : string) (s : nut05.State) (q : MeltQuote) : MeltQuote :=
  {| MeltQuote_Id := MeltQuote_Id q; MeltQuote_InvoiceRequest := MeltQuote_InvoiceRequest q;
     MeltQuote_PaymentHash := MeltQuote_PaymentHash q; MeltQuote_Amount := MeltQuote_Amount q;
     MeltQuote_FeeReserve := MeltQuote_FeeReserve q; MeltQuote_State := s;
     MeltQuote_Expiry := MeltQuote_Expiry q; MeltQuote_Preimage := preimage |}.

Definition update_melt_quote (id preimage : string) (s : nut05.State) (st : Store) : Store :=
  set_melt_quotes
    (map (fun q => if String.eqb (MeltQuote_Id q) id then MeltQuote_with preimage s q else q)) st.

(** Modelled from the spec: [UpdateMeltQuote] of the repository contract,
    sets the preimage and the state of the melt quote with that id. *)
Definition UpdateMeltQuote (id preimage : string) (s : nut05.State) : M (DBResult unit) :=
  db_call (fun st => (DBOk tt, update_melt_quote id preimage s st)).

(** Modelled from the spec: [GetPendingProofs] of the repository contract,
    the rows of the pending table whose [Y] is among those asked for. *)
Definition GetPendingProofs (Ys : list string) : M (DBResult (list DBProof)) :=
  db_call (fun st =>
    (DBOk (filter (fun p => mem_string (DBProof_Y p) Ys = true) (pending_proofs st)), st)).

(** Modelled from the spec: [GetProofsUsed] of the repository contract, the
    rows of the spent table whose [Y] is among those asked for. *)
Definition GetProofsUsed (Ys : list string) : M (DBResult (list DBProof)) :=
  db_call (fun st =>
    (DBOk (filter (fun p => mem_string (DBProof_Y p) Ys = true) (used_proofs st)), st)).

(** Modelled from the spec: the row stored for a proof, its fields and
    [Y = hash_to_curve(secret)] (section 3). *)
Definition toDBProof (L : Libs) (quoteId : string) (p : Proof) : option DBProof :=
  match HashToCurve L (Proof_Secret p) with
  | Some Y => Some {| DBProof_Y := Y; DBProof_Amount := Proof_Amount p;
                      DBProof_Id := Proof_Id p; DBProof_Secret := Proof_Secret p;
                      DBProof_C := Proof_C p; DBProof_MeltQuoteId := quoteId |}
  | None => None
  end.

Definition add_pending (rows : list DBProof) (st : Store) : Store :=
  set_pending_proofs (fun l => (l ++ rows)%list) st.

Definition add_used (rows : list DBProof) (st : Store) : Store :=
  set_used_proofs (fun l => (l ++ rows)%list) st.

Definition insert_rows (L : Libs) (quoteId : string) (proofs : list Proof)
    (add : list DBProof -> Store -> Store) (st : Store) : DBResult unit * Store :=
  match mapM (toDBProof L quoteId) proofs with
  | Some rows => (DBOk tt, add rows st)
  | None => (DBFail, st)
  end.

(** Modelled from the spec: [AddPendingProofs] of the repository contract,
    the proofs become rows of the pending table, keyed by [Y] and tagged
    with the quote id. *)
Definition AddPendingProofs (L : Libs) (proofs : list Proof) (quoteId : string)
    : M (DBResult unit) :=
  db_call (insert_rows L quoteId proofs add_pending).

Definition remove_pending (Ys : list string) (st : Store) : Store :=
  set_pending_proofs (filter (fun p => mem_string (DBProof_Y p) Ys = false)) st.

(** Modelled from the spec: [RemovePendingProofs] of the repository
    contract, deletes the rows of the pending table with these [Y]. *)
Definition RemovePendingProofs (Ys : list string) : M (DBResult unit) :=
  db_call (fun st => (DBOk tt, remove_pending Ys st)).

(** Modelled from the spec: [SaveProofs] of the repository contract, the
    proofs become rows of the spent table, keyed by [Y]. *)
Definition SaveProofs (L : Libs) (proofs : list Proof) : M (DBResult unit) :=
  db_call (insert_rows L "" proofs add_used).

(** Modelled from the spec: [SaveBlindSignature] of the repository
    contract, stores the signature under [B_]. *)
Definition SaveBlindSignature (B_ : string) (sig : BlindedSignature) : M (DBResult unit) :=
  db_call (fun st => (DBOk tt, set_blind_signatures (fun l => (l ++ [(B_, sig)])%list) st)).

Definition lookup_signature (B_ : string) (st : Store) : option BlindedSignature :=
  snd <$> find (fun r => String.eqb (fst r) B_) (blind_signatures st).

(** Modelled from the spec: [GetBlindSignature] of the repository contract,
    the signature stored under [B_], [sql.ErrNoRows] when there is none. *)
Definition GetBlindSignature (B_ : string) : M (DBResult BlindedSignature) :=
  db_call (fun st => (find_result (lookup_signature B_ st), st)).

(** Modelled from the spec: [GetBlindSignatures] of the repository
    contract, the stored signatures whose [B_] is among those asked for. *)
Definition GetBlindSignatures (B_s : list string) : M (DBResult (list BlindedSignature)) :=
  db_call (fun st =>
    (DBOk (snd <$> filter (fun r => mem_string (fst r) B_s = true) (blind_signatures st)), st)).

(** ** Calls to the Lightning backend *)

Definition ln_InvoiceStatus (m : Mint) (hash : string)
    : M (lightning.Invoice * option string) :=
  fun st => (inr (lightning.InvoiceStatus (lightningClient m) hash),
             log_call (lightning.CallInvoiceStatus hash) st).

Definition ln_SendPayment (m : Mint) (request : string) (maxFee : Z)
    : M (lightning.PaymentStatus * option string) :=
  fun st => (inr (lightning.SendPayment (lightningClient m) request maxFee),
             log_call (lightning.CallSendPayment request maxFee) st).

Definition ln_OutgoingPaymentStatus (m : Mint) (hash : string)
    : M (lightning.PaymentStatus * option string) :=
  fun st => (inr (lightning.OutgoingPaymentStatus (lightningClient m) hash),
             log_call (lightning.CallOutgoingPaymentStatus hash) st).

(** ** mint.go *)

(** The running sum of a [uint64] accumulator over a slice. *)
Definition sum64 {A} (f : A -> Z) (l : list A) : Z :=
  fold_left (fun acc x => add64 acc (f x)) l 0.

(** [signBlindedMessages]: points are kept in their hex serialisation, so
    [SignBlindedMessage] gives the hex of [C_] and [GenerateDLEQ] the hex of
    [e] and [s]. *)
Fixpoint signBlindedMessages (L : Libs) (m : Mint) (blindedMessages : list BlindedMessage)
    : M (list BlindedSignature) :=
  match blindedMessages with
  | [] => mret []
  | msg :: rest =>
    match keysets m !! BlindedMessage_Id msg with
    | None => throw UnknownKeysetErr
    | Some _ =>
      match activeKeysets m !! BlindedMessage_Id msg with
      | None => throw InactiveKeysetSignatureRequest
      | Some keyset =>
        match MintKeyset_Keys keyset !! BlindedMessage_Amount msg with
        | None => throw InvalidBlindedMessageAmount
        | Some key =>
          let k := PrivateKey key in
          match hex_DecodeString L (BlindedMessage_B_ msg) with
          | inl _ => throw StandardErr
          | inr B_bytes =>
            match ParsePubKey L B_bytes with
            | inl e => throw (BuildCashuError e StandardErrCode)
            | inr B_ =>
              let C_hex := SignBlindedMessage L B_ k in
              let '(e, s) := GenerateDLEQ L k B_ C_hex in
              let blindedSignature :=
                {| BlindedSignature_Amount := BlindedMessage_Amount msg;
                   BlindedSignature_C_ := C_hex;
                   BlindedSignature_Id := MintKeyset_Id keyset;
                   BlindedSignature_DLEQ := {| DLEQ_E := e; DLEQ_S := s |} |} in
              r ← SaveBlindSignature (BlindedMessage_B_ msg) blindedSignature;
              match r with
              | DBOk _ =>
                sigs ← signBlindedMessages L m rest;
                mret (blindedSignature :: sigs)
              | _ => throw (BuildCashuError "error saving signatures" DBErrCode)
              end
            end
          end
        end
      end
    end
  end.

(** [MintTokens], the branch taken when the invoice is paid. *)
Definition MintTokens_paid (L : Libs) (m : Mint) (mintQuote : MintQuote)
    (blindedMessages : list BlindedMessage) : M (list BlindedSignature) :=
  if nut04.State_eqb (MintQuote_State mintQuote) nut04.Issued then
    throw MintQuoteAlreadyIssued
  else
    let blindedMessagesAmount := sum64 BlindedMessage_Amount blindedMessages in
    let B_s := map BlindedMessage_B_ blindedMessages in
    if existsb (fun msg => blindedMessagesAmount <? BlindedMessage_Amount msg) blindedMessages
    then throw InvalidBlindedMessageAmount
    else if blindedMessagesAmount >? MintQuote_Amount mintQuote
    then throw OutputsOverQuoteAmountErr
    else
      r ← GetBlindSignatures B_s;
      match r with
      | DBOk sigs =>
        if (0 <? length sigs)%nat then throw BlindedMessageAlreadySigned else
        blindedSignatures ← signBlindedMessages L m blindedMessages;
        r ← UpdateMintQuoteState (MintQuote_Id mintQuote) nut04.Issued;
        match r with
        | DBOk _ => mret blindedSignatures
        | _ => throw (BuildCashuError "error getting quote state" DBErrCode)
        end
      | _ => throw (BuildCashuError "could not get signatures from db" DBErrCode)
      end.

(** [MintTokens] *)
Definition MintTokens (L : Libs) (m : Mint) (method id : string)
    (blindedMessages : list BlindedMessage) : M (list BlindedSignature) :=
  if negb (String.eqb method BOLT11_METHOD) then throw PaymentMethodNotSupportedErr else
  r ← GetMintQuote id;
  match r with
  | DBOk mintQuote =>
    invoicePaid ←
      (if nut04.State_eqb (MintQuote_State mintQuote) nut04.Unpaid then
         '(invoiceStatus, err) ← ln_InvoiceStatus m (MintQuote_PaymentHash mintQuote);
         match err with
         | Some _ => throw (BuildCashuError "error getting invoice status" LightningBackendErrCode)
         | None => mret (lightning.Settled invoiceStatus)
         end
       else mret true);
    if invoicePaid : bool then MintTokens_paid L m mintQuote blindedMessages
    else throw MintQuoteRequestNotPaid
  | _ => throw QuoteNotExistErr
  end.

(** [strings.Contains] *)
Fixpoint strings_Contains (s substr : string) : bool :=
  String.prefix substr s ||
  match s with
  | EmptyString => false
  | String _ s' => strings_Contains s' substr
  end.

(** [TransactionFees]: a keyset id that is not in the map gives Go's zero
    keyset, whose [InputFeePpk] is 0.  [uint] is taken as 64 bits wide. *)
Definition TransactionFees (m : Mint) (inputs : list Proof) : Z :=
  let fees :=
    sum64 (fun proof => default 0 (MintKeyset_InputFeePpk <$> keysets m !! Proof_Id proof))
          inputs in
  add64 fees 999 / 1000.

(** [verifyP2PKLockedProof]; [None] is Go's nil error. *)
Definition verifyP2PKLockedProof (L : Libs) (proof : Proof) : option Error :=
  match DeserializeSecret L (Proof_Secret proof) with
  | inl e => Some (BuildCashuError e StandardErrCode)
  | inr p2pkWellKnownSecret =>
    let p2pkWitness :=
      match json_Unmarshal_witness L (Proof_Witness proof) with
      | Some w => w
      | None => {| Signatures := [] |}
      end in
    match ParseP2PKTags L (Secret_Tags p2pkWellKnownSecret) with
    | inl e => Some e
    | inr p2pkTags =>
      let signaturesRequired := 1 in
      if (Tags_Locktime p2pkTags >? 0) && (time_Now_Unix L >? Tags_Locktime p2pkTags) then
        if (length (Tags_Refund p2pkTags) =? 0)%nat then None
        else
          let hash := sha256_Sum256 L (Proof_Secret proof) in
          if (length (Signatures p2pkWitness) <? 1)%nat then Some InvalidWitness
          else if negb (HasValidSignatures L hash p2pkWitness signaturesRequired
                          (Tags_Refund p2pkTags))
          then Some NotEnoughSignaturesErr
          else None
      else
        match ParsePublicKey L (Secret_Data p2pkWellKnownSecret) with
        | inl e => Some e
        | inr pubkey =>
          let keys := [pubkey] in
          let hash := sha256_Sum256 L (Proof_Secret proof) in
          match (if Tags_NSigs p2pkTags >? 0 then
                   if (length (Tags_Pubkeys p2pkTags) =? 0)%nat then inl EmptyPubkeysErr
                   else inr (Tags_NSigs p2pkTags, (keys ++ Tags_Pubkeys p2pkTags)%list)
                 else inr (signaturesRequired, keys)) with
          | inl e => Some e
          | inr (signaturesRequired, keys) =>
            if (length (Signatures p2pkWitness) <? 1)%nat then Some InvalidWitness
            else if negb (HasValidSignatures L hash p2pkWitness signaturesRequired keys)
            then Some NotEnoughSignaturesErr
            else None
          end
        end
    end
  end.

(** The first error of a loop that returns at the first failing element. *)
Fixpoint first_error {A} (f : A -> option Error) (l : list A) : option Error :=
  match l with
  | [] => None
  | x :: rest =>
    match f x with
    | Some e => Some e
    | None => first_error f rest
    end
  end.

(** [verifyP2PKBlindedMessages]: the body of its first loop. *)
Definition sameConditions (L : Libs) (pubkeys : list string) (signaturesRequired : Z)
    (proof : Proof) : option Error :=
  match DeserializeSecret L (Proof_Secret proof) with
  | inl e => Some (BuildCashuError e StandardErrCode)
  | inr secret =>
    if negb (IsSigAll L secret) then Some AllSigAllFlagsErr else
    match ParseP2PKTags L (Secret_Tags secret) with
    | inl e => Some e
    | inr p2pkTags =>
      let currentSignaturesRequired :=
        if Tags_NSigs p2pkTags >? 0 then Tags_NSigs p2pkTags else 1 in
      match PublicKeys L secret with
      | inl e => Some e
      | inr currentKeys =>
        if negb (bool_decide (pubkeys = currentKeys)) then Some SigAllKeysMustBeEqualErr
        else if negb (signaturesRequired =? currentSignaturesRequired)
        then Some NSigsMustBeEqualErr
        else None
      end
    end
  end.

(** [verifyP2PKBlindedMessages]: the body of its second loop. *)
Definition signedOutput (L : Libs) (pubkeys : list string) (signaturesRequired : Z)
    (bm : BlindedMessage) : option Error :=
  match hex_DecodeString L (BlindedMessage_B_ bm) with
  | inl e => Some (BuildCashuError e StandardErrCode)
  | inr B_bytes =>
    let hash := sha256_Sum256 L B_bytes in
    match json_Unmarshal_witness L (BlindedMessage_Witness bm) with
    | None => Some InvalidWitness
    | Some witness =>
      if (length (Signatures witness) <? 1)%nat then Some InvalidWitness
      else if negb (HasValidSignatures L hash witness signaturesRequired pubkeys)
      then Some NotEnoughSignaturesErr
      else None
    end
  end.

(** [verifyP2PKBlindedMessages]; [proofs[0]] of an empty slice panics. *)
Definition verifyP2PKBlindedMessages (L : Libs) (proofs : list Proof)
    (blindedMessages : list BlindedMessage) : option Error :=
  match proofs with
  | [] => Some (GoPanic "index out of range")
  | proof0 :: _ =>
    match DeserializeSecret L (Proof_Secret proof0) with
    | inl e => Some (BuildCashuError e StandardErrCode)
    | inr secret =>
      match PublicKeys L secret with
      | inl e => Some e
      | inr pubkeys =>
        match ParseP2PKTags L (Secret_Tags secret) with
        | inl e => Some e
        | inr p2pkTags =>
          let signaturesRequired :=
            if Tags_NSigs p2pkTags >? 0 then Tags_NSigs p2pkTags else 1 in
          match first_error (sameConditions L pubkeys signaturesRequired) proofs with
          | Some e => Some e
          | None => first_error (signedOutput L pubkeys signaturesRequired) blindedMessages
          end
        end
      end
    end
  end.

(** Modelled from the spec: [cashu.CheckDuplicateProofs] is kept in package
    cashu.  Section 4.3, step 4: "Duplicate [Y] within the submitted list",
    where [Y = hash_to_curve(secret)]. *)
Fixpoint has_duplicate (l : list (option string)) : bool :=
  match l with
  | [] => false
  | y :: rest => bool_decide (y ∈ rest) || has_duplicate rest
  end.

Definition CheckDuplicateProofs (L : Libs) (proofs : list Proof) : bool :=
  has_duplicate (map (fun p => HashToCurve L (Proof_Secret p)) proofs).

(** [verifyProofs]: the body of the loop over the proofs. *)
Definition verifyProof (L : Libs) (m : Mint) (proof : Proof) : option Error :=
  match keysets m !! Proof_Id proof with
  | None => Some UnknownKeysetErr
  | Some keyset =>
    match MintKeyset_Keys keyset !! Proof_Amount proof with
    | None => Some InvalidProofErr
    | Some key =>
      let k := PrivateKey key in
      match (if IsSecretP2PK L proof then verifyP2PKLockedProof L proof else None) with
      | Some e => Some e
      | None =>
        match hex_DecodeString L (Proof_C proof) with
        | inl e => Some (BuildCashuError e StandardErrCode)
        | inr Cbytes =>
          match ParsePubKey L Cbytes with
          | inl e => Some (BuildCashuError e StandardErrCode)
          | inr C => if negb (Verify L (Proof_Secret proof) k C) then Some InvalidProofErr else None
          end
        end
      end
    end
  end.

(** Rows of a query whose [sql.ErrNoRows] is tolerated. *)
Definition rows {A} (r : DBResult (list A)) : list A :=
  match r with
  | DBOk l => l
  | _ => []
  end.

(** [verifyProofs] *)
Definition verifyProofs (L : Libs) (m : Mint) (proofs : list Proof) (Ys : list string)
    : M unit :=
  if (length proofs =? 0)%nat then throw NoProofsProvided else
  r ← GetPendingProofs Ys;
  match r with
  | DBFail => throw (BuildCashuError "could not get pending proofs from db" DBErrCode)
  | _ =>
    if negb (length (rows r) =? 0)%nat then throw ProofPendingErr else
    r ← GetProofsUsed Ys;
    match r with
    | DBFail => throw (BuildCashuError "could not get used proofs from db" DBErrCode)
    | _ =>
      if negb (length (rows r) =? 0)%nat then throw ProofAlreadyUsedErr else
      if CheckDuplicateProofs L proofs then throw DuplicateProofs else
      match first_error (verifyProof L m) proofs with
      | Some e => throw e
      | None => mret tt
      end
    end
  end.

(** The first loop of [Swap] and [MeltTokens]: [Y] of every proof, in hex. *)
Definition hashProofs (L : Libs) (proofs : list Proof) : option (list string) :=
  mapM (fun proof => HashToCurve L (Proof_Secret proof)) proofs.

(** [Swap] *)
Definition Swap (L : Libs) (m : Mint) (proofs : list Proof)
    (blindedMessages : list BlindedMessage) : M (list BlindedSignature) :=
  let proofsAmount := sum64 Proof_Amount proofs in
  match hashProofs L proofs with
  | None => throw InvalidProofErr
  | Some Ys =>
    let blindedMessagesAmount := sum64 BlindedMessage_Amount blindedMessages in
    let B_s := map BlindedMessage_B_ blindedMessages in
    if existsb (fun msg => blindedMessagesAmount <? BlindedMessage_Amount msg) blindedMessages
    then throw InvalidBlindedMessageAmount
    else
      let fees := TransactionFees m proofs in
      if sub64 proofsAmount fees <? blindedMessagesAmount then throw InsufficientProofsAmount
      else
        _ ← verifyProofs L m proofs Ys;
        r ← GetBlindSignatures B_s;
        match r with
        | DBOk sigs =>
          if (0 <? length sigs)%nat then throw BlindedMessageAlreadySigned else
          _ ← (if ProofsSigAll L proofs then
                 match verifyP2PKBlindedMessages L proofs blindedMessages with
                 | Some e => throw e
                 | None => mret tt
                 end
               else mret tt);
          blindedSignatures ← signBlindedMessages L m blindedMessages;
          r ← SaveProofs L proofs;
          match r with
          | DBOk _ => mret blindedSignatures
          | _ => throw (BuildCashuError "error invalidating proofs. Could not save proofs to db"
                          DBErrCode)
          end
        | _ => throw (BuildCashuError "could not get signatures from db" DBErrCode)
        end
  end.

Definition MeltQuote_with_FeeReserve (request hash : string) (fee : Z) (q : MeltQuote)
    : MeltQuote :=
  {| MeltQuote_Id := MeltQuote_Id q; MeltQuote_InvoiceRequest := request;
     MeltQuote_PaymentHash := hash; MeltQuote_Amount := MeltQuote_Amount q;
     MeltQuote_FeeReserve := fee; MeltQuote_State := MeltQuote_State q;
     MeltQuote_Expiry := MeltQuote_Expiry q; MeltQuote_Preimage := MeltQuote_Preimage q |}.

(** [RequestMeltQuote]; [uint64(bolt11.MSatoshi)] converts an [int64]. *)
Definition RequestMeltQuote (L : Libs) (m : Mint) (method request unit : string)
    : M MeltQuote :=
  if negb (String.eqb method BOLT11_METHOD) then throw PaymentMethodNotSupportedErr else
  if negb (String.eqb unit SAT_UNIT) then throw UnitNotSupportedErr else
  match Decodepay L request with
  | inl _ => throw (BuildCashuError "invalid invoice" StandardErrCode)
  | inr bolt11 =>
    if MSatoshi bolt11 =? 0 then throw (BuildCashuError "invoice has no amount" StandardErrCode)
    else
      let satAmount := wrap64 (MSatoshi bolt11) / 1000 in
      if (MaxAmount (MeltingSettings (limits m)) >? 0)
         && (satAmount >? MaxAmount (MeltingSettings (limits m)))
      then throw MeltAmountExceededErr
      else
        match GenerateRandomQuoteId L with
        | None => throw StandardErr
        | Some quoteId =>
          let fee := lightning.FeeReserve (lightningClient m) satAmount in
          let meltQuote :=
            {| MeltQuote_Id := quoteId; MeltQuote_InvoiceRequest := request;
               MeltQuote_PaymentHash := Bolt11_PaymentHash bolt11;
               MeltQuote_Amount := satAmount; MeltQuote_FeeReserve := fee;
               MeltQuote_State := nut05.Unpaid; MeltQuote_Expiry := quote_Expiry_Now L;
               MeltQuote_Preimage := "" |} in
          r ← GetMintQuoteByPaymentHash (Bolt11_PaymentHash bolt11);
          let meltQuote :=
            match r with
            | DBOk mintQuote =>
              MeltQuote_with_FeeReserve (MintQuote_PaymentRequest mintQuote)
                (MintQuote_PaymentHash mintQuote) 0 meltQuote
            | _ => meltQuote
            end in
          r ← SaveMeltQuote meltQuote;
          match r with
          | DBOk _ => mret meltQuote
          | _ => throw (BuildCashuError "error saving melt quote to db" DBErrCode)
          end
        end
  end.

(** A repository write whose error is reported as a [DBErr] with [msg]. *)
Definition db_must (msg : string) (c : M (DBResult unit)) : M unit :=
  r ← c;
  match r with
  | DBOk _ => mret tt
  | _ => throw (BuildCashuError msg DBErrCode)
  end.

(** [settleQuotesInternally] *)
Definition settleQuotesInternally (m : Mint) (mintQuote : MintQuote) (meltQuote : MeltQuote)
    : M MeltQuote :=
  '(invoice, err) ← ln_InvoiceStatus m (MintQuote_PaymentHash mintQuote);
  match err with
  | Some _ =>
    throw (BuildCashuError "error getting invoice status from lightning backend"
             LightningBackendErrCode)
  | None =>
    let meltQuote := MeltQuote_with (lightning.Preimage invoice) nut05.Paid meltQuote in
    _ ← db_must "error updating melt quote state"
          (UpdateMeltQuote (MeltQuote_Id meltQuote) (MeltQuote_Preimage meltQuote)
             (MeltQuote_State meltQuote));
    let mintQuote := MintQuote_with_State nut04.Paid mintQuote in
    _ ← db_must "error updating mint quote state"
          (UpdateMintQuoteState (MintQuote_Id mintQuote) (MintQuote_State mintQuote));
    mret meltQuote
  end.

(** [settleProofs] *)
Definition settleProofs (L : Libs) (Ys : list string) (proofs : list Proof) : M unit :=
  _ ← db_must "error removing pending proofs" (RemovePendingProofs Ys);
  db_must "error invalidating proofs. Could not save proofs to db" (SaveProofs L proofs).

(** [MeltTokens], [case lightning.Failed] of the switch: the check of the
    outgoing payment. *)
Definition MeltTokens_probe (L : Libs) (m : Mint) (Ys : list string) (proofs : list Proof)
    (meltQuote : MeltQuote) : M MeltQuote :=
  '(paymentStatus, err) ← ln_OutgoingPaymentStatus m (MeltQuote_PaymentHash meltQuote);
  match lightning.Status paymentStatus with
  | lightning.Pending => mret meltQuote
  | _ =>
    meltQuote ←
      match err with
      | Some _ =>
        let meltQuote := MeltQuote_with (MeltQuote_Preimage meltQuote) nut05.Unpaid meltQuote in
        _ ← db_must "error updating melt quote state"
              (UpdateMeltQuote (MeltQuote_Id meltQuote) "" (MeltQuote_State meltQuote));
        _ ← db_must "error removing proofs from pending" (RemovePendingProofs Ys);
        mret meltQuote
      | None => mret meltQuote
      end;
    match lightning.Status paymentStatus with
    | lightning.Succeeded =>
      _ ← settleProofs L Ys proofs;
      let meltQuote :=
        MeltQuote_with (lightning.PaymentPreimage paymentStatus) nut05.Paid meltQuote in
      _ ← db_must "error updating melt quote state"
            (UpdateMeltQuote (MeltQuote_Id meltQuote) (lightning.PaymentPreimage paymentStatus)
               nut05.Paid);
      mret meltQuote
    | _ => mret meltQuote
    end
  end.

(** [MeltTokens], the [else] branch: the backend is asked to pay. *)
Definition MeltTokens_sendPayment (L : Libs) (m : Mint) (Ys : list string)
    (proofs : list Proof) (meltQuote : MeltQuote) : M MeltQuote :=
  '(sendPaymentResponse, err) ←
    ln_SendPayment m (MeltQuote_InvoiceRequest meltQuote) (MeltQuote_Amount meltQuote);
  match err with
  | Some msg =>
    if strings_Contains msg "payment error" then
      let meltQuote := MeltQuote_with (MeltQuote_Preimage meltQuote) nut05.Unpaid meltQuote in
      _ ← db_must "error updating melt quote state"
            (UpdateMeltQuote (MeltQuote_Id meltQuote) "" (MeltQuote_State meltQuote));
      _ ← db_must "error removing proofs from pending" (RemovePendingProofs Ys);
      mret meltQuote
    else MeltTokens_probe L m Ys proofs meltQuote
  | None =>
    match lightning.Status sendPaymentResponse with
    | lightning.Succeeded =>
      let meltQuote :=
        MeltQuote_with (lightning.PaymentPreimage sendPaymentResponse) nut05.Paid meltQuote in
      _ ← settleProofs L Ys proofs;
      _ ← db_must "error updating melt quote state"
            (UpdateMeltQuote (MeltQuote_Id meltQuote)
               (lightning.PaymentPreimage sendPaymentResponse) nut05.Paid);
      mret meltQuote
    | lightning.Pending => mret meltQuote
    | lightning.Failed => MeltTokens_probe L m Ys proofs meltQuote
    end
  end.

(** [MeltTokens], from the lock of the proofs on. *)
Definition MeltTokens_pay (L : Libs) (m : Mint) (Ys : list string) (proofs : list Proof)
    (meltQuote : MeltQuote) : M MeltQuote :=
  _ ← db_must "error setting proofs as pending in db"
        (AddPendingProofs L proofs (MeltQuote_Id meltQuote));
  let meltQuote := MeltQuote_with (MeltQuote_Preimage meltQuote) nut05.Pending meltQuote in
  _ ← db_must "error updating melt quote state"
        (UpdateMeltQuote (MeltQuote_Id meltQuote) "" nut05.Pending);
  r ← GetMintQuoteByPaymentHash (MeltQuote_PaymentHash meltQuote);
  match r with
  | DBOk mintQuote =>
    meltQuote ← settleQuotesInternally m mintQuote meltQuote;
    _ ← db_must "error removing pending proofs" (RemovePendingProofs Ys);
    _ ← db_must "error invalidating proofs. Could not save proofs to db" (SaveProofs L proofs);
    mret meltQuote
  | _ => MeltTokens_sendPayment L m Ys proofs meltQuote
  end.

(** [MeltTokens] *)
Definition MeltTokens (L : Libs) (m : Mint) (method quoteId : string) (proofs : list Proof)
    : M MeltQuote :=
  let proofsAmount := sum64 Proof_Amount proofs in
  match hashProofs L proofs with
  | None => throw InvalidProofErr
  | Some Ys =>
    if negb (String.eqb method BOLT11_METHOD) then throw PaymentMethodNotSupportedErr else
    r ← GetMeltQuote quoteId;
    match r with
    | DBOk meltQuote =>
      if nut05.State_eqb (MeltQuote_State meltQuote) nut05.Paid then throw MeltQuoteAlreadyPaid
      else if nut05.State_eqb (MeltQuote_State meltQuote) nut05.Pending
      then throw MeltQuotePending
      else
        _ ← verifyProofs L m proofs Ys;
        let fees := TransactionFees m proofs in
        if proofsAmount
             <? add64 (add64 (MeltQuote_Amount meltQuote) (MeltQuote_FeeReserve meltQuote)) fees
        then throw InsufficientProofsAmount
        else if ProofsSigAll L proofs then throw SigAllOnlySwap
        else MeltTokens_pay L m Ys proofs meltQuote
    | _ => throw QuoteNotExistErr
    end
  end.

(** [RestoreSignatures] *)
Fixpoint RestoreSignatures (blindedMessages : list BlindedMessage)
    : M (list BlindedMessage * list BlindedSignature) :=
  match blindedMessages with
  | [] => mret ([], [])
  | bm :: rest =>
    r ← GetBlindSignature (BlindedMessage_B_ bm);
    match r with
    | ErrNoRows => RestoreSignatures rest
    | DBFail => throw (BuildCashuError "could not get signature from db" DBErrCode)
    | DBOk sig =>
      '(outputs, signatures) ← RestoreSignatures rest;
      mret (bm :: outputs, sig :: signatures)
    end
  end.

(** ** Closed instances, for the examples

    A stand-in for the libraries: every secret hashes to a point, every hex
    string decodes, the signature of key [k] on [B_] is a tagged string, and
    a P2PK witness signature by key [k] on hash [h] is the string [k/h].  A
    secret ["P2PK:..."] is locked to [data-key], and the words after the
    colon say which tags it carries: [pubkeys] (the key [second-key]),
    [n_sigs=2], [expired] (a locktime in the past) and [refund] (the key
    [refund-key]). *)

Definition toy_count_signers (hash : string) (w : P2PKWitness) (keys : list string) : Z :=
  Z.of_nat (length (filter (fun k => mem_string (k +:+ "/" +:+ hash) (Signatures w) = true) keys)).

Definition toy_secret (s : string) : string + WellKnownSecret :=
  if String.prefix "P2PK:" s
  then inr {| Secret_Nonce := ""; Secret_Data := "data-key"; Secret_Tags := [[s]] |}
  else inl "not a well-known secret".

Definition toy_tags (tags : list (list string)) : Error + P2PKTags :=
  match tags with
  | [[s]] =>
    inr {| Tags_Sigflag := "SIG_INPUTS";
           Tags_NSigs := if strings_Contains s "n_sigs=2" then 2 else 0;
           Tags_Pubkeys := if strings_Contains s "pubkeys" then ["second-key"] else [];
           Tags_Locktime := if strings_Contains s "expired" then 1 else 0;
           Tags_Refund := if strings_Contains s "refund" then ["refund-key"] else [] |}
  | _ => inl InvalidWitness
  end.

Definition toyLibsWith (hashToCurve : string -> option string) : Libs :=
  {| HashToCurve := hashToCurve;
     hex_DecodeString := fun s => inr s;
     ParsePubKey := fun s => inr s;
     Verify := fun secret k C => String.eqb C ("C(" +:+ secret +:+ ")");
     SignBlindedMessage := fun B_ k => "C_(" +:+ B_ +:+ ")";
     GenerateDLEQ := fun k B_ C_ => ("e", "s");
     sha256_Sum256 := fun s => "H(" +:+ s +:+ ")";
     IsSecretP2PK := fun p => String.prefix "P2PK:" (Proof_Secret p);
     DeserializeSecret := toy_secret;
     json_Unmarshal_witness := fun w => Some {| Signatures := if String.eqb w "" then [] else [w] |};
     ParseP2PKTags := toy_tags;
     ParsePublicKey := fun s => inr s;
     HasValidSignatures := fun hash w n keys => n <=? toy_count_signers hash w keys;
     ProofsSigAll := fun _ => false;
     IsSigAll := fun _ => false;
     PublicKeys := fun s => inr [Secret_Data s];
     Decodepay := fun request => inr {| MSatoshi := 6000000; Bolt11_PaymentHash := "hash-" +:+ request |};
     GenerateRandomQuoteId := Some "melt-quote-1";
     time_Now_Unix := 1700000000;
     quote_Expiry_Now := 1700000600 |}.

Definition toyLibs : Libs := toyLibsWith (fun secret => Some ("Y(" +:+ secret +:+ ")")).

(** The same libraries, with a secret that does not hash to the curve. *)
Definition toyLibsBadSecret : Libs :=
  toyLibsWith (fun secret => if String.eqb secret "bad" then None
                             else Some ("Y(" +:+ secret +:+ ")")).

Definition toyKeys : gmap Z KeyPair :=
  {[ 1 := {| PrivateKey := 11; PublicKey := "K1" |};
     2 := {| PrivateKey := 12; PublicKey := "K2" |};
     4 := {| PrivateKey := 13; PublicKey := "K4" |};
     8192 := {| PrivateKey := 24; PublicKey := "K8192" |};
     2 ^ 63 := {| PrivateKey := 74; PublicKey := "K63" |} ]}.

Definition toyKeyset (feePpk : Z) : MintKeyset :=
  {| MintKeyset_Id := "009a1f293253e41e"; MintKeyset_Unit := "sat"; MintKeyset_Active := true;
     MintKeyset_Keys := toyKeys; MintKeyset_InputFeePpk := feePpk |}.

(** A backend that reports every payment as failed, without an error
    (what the CLN client does for a payment in status "failed"). *)
Definition failingClient : lightning.Client :=
  {| lightning.InvoiceStatus := fun hash =>
       ({| lightning.PaymentRequest := "lnbc-" +:+ hash; lightning.PaymentHash := hash;
           lightning.Preimage := "preimage-" +:+ hash; lightning.Settled := true;
           lightning.Amount := 6000; lightning.Expiry := 0 |}, None);
     lightning.SendPayment := fun _ _ =>
       ({| lightning.PaymentPreimage := ""; lightning.Status := lightning.Failed |}, None);
     lightning.OutgoingPaymentStatus := fun _ =>
       ({| lightning.PaymentPreimage := ""; lightning.Status := lightning.Failed |}, None);
     lightning.FeeReserve := fun amount => amount / 100 |}.

Definition noLimits : MintLimits :=
  {| MaxBalance := 0; MintingSettings := {| MinAmount := 0; MaxAmount := 0 |};
     MeltingSettings := {| MinAmount := 0; MaxAmount := 0 |} |}.

Definition toyMint (feePpk : Z) : Mint :=
  {| activeKeysets := {[ "009a1f293253e41e" := toyKeyset feePpk ]};
     keysets := {[ "009a1f293253e41e" := toyKeyset feePpk ]};
     lightningClient := failingClient;
     limits := noLimits |}.

Definition toyMintQuote (id : string) (amount : Z) (s : nut04.State) : MintQuote :=
  {| MintQuote_Id := id; MintQuote_Amount := amount;
     MintQuote_PaymentRequest := "lnbc-" +:+ id; MintQuote_PaymentHash := "hash-" +:+ id;
     MintQuote_State := s; MintQuote_Expiry := 0 |}.

Definition toyMeltQuote (id request : string) (amount : Z) (s : nut05.State) : MeltQuote :=
  {| MeltQuote_Id := id; MeltQuote_InvoiceRequest := request;
     MeltQuote_PaymentHash := "hash-" +:+ request; MeltQuote_Amount := amount;
     MeltQuote_FeeReserve := 0; MeltQuote_State := s; MeltQuote_Expiry := 0;
     MeltQuote_Preimage := "" |}.

Definition emptyStore : Store :=
  {| mint_quotes := []; melt_quotes := []; pending_proofs := []; used_proofs := [];
     blind_signatures := []; db_faults := []; ln_calls := [] |}.

Definition toyProof (amount : Z) (secret : string) : Proof :=
  {| Proof_Amount := amount; Proof_Id := "009a1f293253e41e"; Proof_Secret := secret;
     Proof_C := "C(" +:+ secret +:+ ")"; Proof_Witness := "" |}.

(** A proof for a keyset the mint does not have. *)
Definition strangerProof (amount : Z) (secret : string) : Proof :=
  {| Proof_Amount := amount; Proof_Id := "0192384aa"; Proof_Secret := secret;
     Proof_C := "C(" +:+ secret +:+ ")"; Proof_Witness := "" |}.

Definition toyMessage (amount : Z) (B_ : string) : BlindedMessage :=
  {| BlindedMessage_Amount := amount; BlindedMessage_B_ := B_;
     BlindedMessage_Id := "009a1f293253e41e"; BlindedMessage_Witness := "" |}.

Definition toySignature (amount : Z) (B_ : string) : BlindedSignature :=
  {| BlindedSignature_Amount := amount; BlindedSignature_C_ := "C_(" +:+ B_ +:+ ")";
     BlindedSignature_Id := "009a1f293253e41e";
     BlindedSignature_DLEQ := {| DLEQ_E := "e"; DLEQ_S := "s" |} |}.

(** ** Notions used in the statements *)

Definition find_mint_quote (id : string) (st : Store) : option MintQuote :=
  find (fun q => String.eqb (MintQuote_Id q) id) (mint_quotes st).

Definition find_melt_quote (id : string) (st : Store) : option MeltQuote :=
  find (fun q => String.eqb (MeltQuote_Id q) id) (melt_quotes st).

Definition find_mint_quote_by_hash (hash : string) (st : Store) : option MintQuote :=
  find (fun q => String.eqb (MintQuote_PaymentHash q) hash) (mint_quotes st).

(** The mint quote [id] is stored in state Issued. *)
Definition issued (id : string) (st : Store) : Prop :=
  exists q, find_mint_quote id st = Some q /\ MintQuote_State q = nut04.Issued.

(** The quote is paid and not issued: stored as Paid, or stored as Unpaid
    while the backend reports its invoice settled. *)
Definition paid_not_issued (m : Mint) (q : MintQuote) : Prop :=
  match MintQuote_State q with
  | nut04.Paid => True
  | nut04.Unpaid =>
    exists invoice,
      lightning.InvoiceStatus (lightningClient m) (MintQuote_PaymentHash q) = (invoice, None)
      /\ lightning.Settled invoice = true
  | nut04.Issued => False
  end.

(** A computation keeps an invariant of the repository. *)
Definition preserves (I : Store -> Prop) {A} (c : M A) : Prop :=
  forall st, I st -> I (c st).2.

(** A sequence of [MintTokens] calls, each given as (method, id, messages). *)
Fixpoint run_MintTokens (L : Libs) (m : Mint)
    (calls : list (string * string * list BlindedMessage)) (st : Store) : Store :=
  match calls with
  | [] => st
  | (method, id, blindedMessages) :: rest =>
    run_MintTokens L m rest (MintTokens L m method id blindedMessages st).2
  end.

Definition issuedStore : Store :=
  set_mint_quotes (fun _ => [toyMintQuote "quote-1" 8 nut04.Issued]) emptyStore.

Definition paidStore : Store :=
  set_mint_quotes (fun _ => [toyMintQuote "quote-1" 8 nut04.Paid]) emptyStore.

Definition unpaidStore : Store :=
  set_mint_quotes (fun _ => [toyMintQuote "quote-1" 8 nut04.Unpaid]) emptyStore.

(** [Y] is the key of a row of the pending table, of the spent table. *)
Definition is_pending (Y : string) (st : Store) : Prop :=
  exists row, row ∈ pending_proofs st /\ DBProof_Y row = Y.

Definition is_spent (Y : string) (st : Store) : Prop :=
  exists row, row ∈ used_proofs st /\ DBProof_Y row = Y.

Definition signedStore : Store :=
  set_blind_signatures
    (fun _ => [("B1", toySignature 4 "B1"); ("B3", toySignature 2 "B3")]) emptyStore.

(** The sum of a slice without wrap-around. *)
Definition total {A} (f : A -> Z) (l : list A) : Z :=
  foldr (fun x acc => f x + acc) 0 l.

(** The rows under which the repository stores a list of proofs. *)
Definition proof_rows (L : Libs) (quoteId : string) (proofs : list Proof) : list DBProof :=
  omap (toDBProof L quoteId) proofs.

Definition overflowMessages : list BlindedMessage :=
  [toyMessage (2 ^ 63) "B1"; toyMessage (2 ^ 63) "B2"; toyMessage (2 ^ 63) "B3"].

Definition bigQuoteStore : Store :=
  set_mint_quotes (fun _ => [toyMintQuote "quote-1" (2 ^ 63) nut04.Paid]) emptyStore.

(** The repository after a settlement: the rows of the proofs leave the
    pending table and enter the spent table, the melt quote is Paid. *)
Definition settled (L : Libs) (quoteId preimage : string) (Ys : list string)
    (proofs : list Proof) (st : Store) : Store :=
  update_melt_quote quoteId preimage nut05.Paid
    (add_used (proof_rows L "" proofs) (remove_pending Ys st)).

(** The repository after a failed payment: the melt quote is Unpaid again
    and the rows of the proofs leave the pending table. *)
Definition unlocked (quoteId : string) (Ys : list string) (st : Store) : Store :=
  remove_pending Ys (update_melt_quote quoteId "" nut05.Unpaid st).

(** The repository after the lock of [MeltTokens]. *)
Definition locked (L : Libs) (quoteId : string) (proofs : list Proof) (st : Store) : Store :=
  update_melt_quote quoteId "" nut05.Pending (add_pending (proof_rows L quoteId proofs) st).




Definition meltStore : Store :=
  set_melt_quotes (fun _ => [toyMeltQuote "melt-1" "inv" 6 nut05.Unpaid]) emptyStore.

(** A mint quote and a melt quote for the same invoice. *)
Definition internalStore (mintState : nut04.State) (faults : list bool) : Store :=
  set_db_faults faults
    (set_melt_quotes (fun _ => [toyMeltQuote "melt-1" "quote-1" 6000 nut05.Unpaid])
       (set_mint_quotes (fun _ => [toyMintQuote "quote-1" 6000 mintState]) emptyStore)).


(** The witness [verifyP2PKLockedProof] reads from a proof. *)
Definition p2pk_witness (L : Libs) (proof : Proof) : P2PKWitness :=
  match json_Unmarshal_witness L (Proof_Witness proof) with
  | Some w => w
  | None => {| Signatures := [] |}
  end.

(** The locktime is set and lies in the past. *)
Definition locktime_expired (L : Libs) (tags : P2PKTags) : Prop :=
  0 < Tags_Locktime tags /\ Tags_Locktime tags < time_Now_Unix L.

(** [required] valid signatures by [keys] over the hash of the secret: a
    witness without signatures is invalid, too few valid ones are not
    enough. *)
Definition signature_check (L : Libs) (proof : Proof) (required : Z) (keys : list string)
    : option Error :=
  if (length (Signatures (p2pk_witness L proof)) <? 1)%nat then Some InvalidWitness
  else if HasValidSignatures L (sha256_Sum256 L (Proof_Secret proof)) (p2pk_witness L proof)
            required keys
  then None
  else Some NotEnoughSignaturesErr.

(** A locked proof with the witness signature [witness]. *)
Definition lockedProof (secret witness : string) : Proof :=
  {| Proof_Amount := 1; Proof_Id := "009a1f293253e41e"; Proof_Secret := secret;
     Proof_C := "C(" +:+ secret +:+ ")"; Proof_Witness := witness |}.

(** A proof locked to [data-key] with a [pubkeys] tag and no [n_sigs],
    signed by the key of the [pubkeys] tag. *)
Definition secondKeyProof : Proof :=
  lockedProof "P2PK:pubkeys" "second-key/H(P2PK:pubkeys)".

(** A proof whose locktime has passed, with a refund key and [n_sigs] 2,
    signed by the refund key only. *)
Definition refundProof : Proof :=
  lockedProof "P2PK:expired,refund,n_sigs=2"
    "refund-key/H(P2PK:expired,refund,n_sigs=2)".

Definition toyTags (nsigs : Z) (pubkeys : list string) (locktime : Z) (refund : list string)
    : P2PKTags :=
  {| Tags_Sigflag := "SIG_INPUTS"; Tags_NSigs := nsigs; Tags_Pubkeys := pubkeys;
     Tags_Locktime := locktime; Tags_Refund := refund |}.

Definition toySecret (tags : string) : WellKnownSecret :=
  {| Secret_Nonce := ""; Secret_Data := "data-key"; Secret_Tags := [[tags]] |}.

(** ** The rest of mint.go: quotes, polling and the state of proofs *)

Module nut07.
(** Modelled from the spec: the state of a proof in the answer of the
    proof-state query (section 4.11: Unspent, Spent, and Pending, which is
    not exposed), and the pair of a [Y] and its state. *)
Inductive State := Unspent | Pending | Spent.

Record ProofState := { Y : string; ProofState_State : State }.
End nut07.

(** Modelled from the spec: [SaveMintQuote] of the repository contract. *)
Definition SaveMintQuote (q : MintQuote) : M (DBResult unit) :=
  db_call (fun st => (DBOk tt, set_mint_quotes (fun l => (l ++ [q])%list) st)).

(** Modelled from the spec: [GetPendingProofsByQuote] of the repository
    contract, the rows of the pending table tagged with that quote id. *)
Definition GetPendingProofsByQuote (quoteId : string) : M (DBResult (list DBProof)) :=
  db_call (fun st =>
    (DBOk (filter (fun p => String.eqb (DBProof_MeltQuoteId p) quoteId = true)
             (pending_proofs st)), st)).

(** The repository without its fault schedule: the tables and the log of
    the calls to the backend. *)
Definition tables (st : Store) : Store := set_db_faults [] st.

(** Modelled from the spec: what [RequestMintQuote] uses besides [Libs] and
    the methods of [lightning.Client] above: the method [CreateInvoice] of
    the backend (section 6), and the sum that [GetBalance] computes from the
    tables (section 6: "sum of quote-paid minus quote-melted"), which is
    left to the storage driver. *)
Record Issuer := {
  CreateInvoice : Z -> lightning.Invoice * option string;
  balance : Store -> Z
}.

(** Modelled from the spec: [GetBalance] of the repository contract. *)
Definition GetBalance (B : Issuer) : M (DBResult Z) :=
  db_call (fun st => (DBOk (balance B (tables st)), st)).

(** Modelled from the spec: the errors [RequestMintQuote] returns besides
    those of [Error]: the two policy errors of package cashu (section 7),
    and the error of a library or of the repository that is passed on as it
    is, here with the name of the call it comes from. *)
Inductive QuoteError :=
| CashuError (e : Error)
| MintAmountExceededErr
| MintingDisabled
| PassedOn (call : string).

(** The monad of [RequestMintQuote]: as [M], with the errors of
    [QuoteError]. *)
Definition MQ (A : Type) : Type := Store -> (QuoteError + A) * Store.

Definition throwQ {A} (e : QuoteError) : MQ A := fun st => (inl e, st).

#[global] Instance MQ_ret : MRet MQ := fun A a st => (inr a, st).
#[global] Instance MQ_bind : MBind MQ := fun A B k c st =>
  match c st with
  | (inl e, st') => (inl e, st')
  | (inr a, st') => k a st'
  end.

Definition liftQ {A} (c : M A) : MQ A := fun st =>
  match c st with
  | (inl e, st') => (inl (CashuError e), st')
  | (inr a, st') => (inr a, st')
  end.

(** [requestInvoice] *)
Definition requestInvoice (B : Issuer) (amount : Z) : string + lightning.Invoice :=
  match CreateInvoice B amount with
  | (_, Some err) => inl err
  | (invoice, None) => inr invoice
  end.

(** [RequestMintQuote], the check of the balance. *)
Definition RequestMintQuote_balance (B : Issuer) (m : Mint) (amount : Z) : MQ unit :=
  if MaxBalance (limits m) >? 0 then
    r ← liftQ (GetBalance B);
    match r with
    | DBOk balance =>
      if add64 balance amount >? MaxBalance (limits m) then throwQ MintingDisabled
      else mret tt
    | _ => throwQ (PassedOn "GetBalance")
    end
  else mret tt.

(** [RequestMintQuote]; [amount] is a [uint64]. *)
Definition RequestMintQuote (L : Libs) (B : Issuer) (m : Mint) (method : string)
    (amount : Z) (unit : string) : MQ MintQuote :=
  if negb (String.eqb method BOLT11_METHOD) then throwQ (CashuError PaymentMethodNotSupportedErr)
  else if negb (String.eqb unit SAT_UNIT) then throwQ (CashuError UnitNotSupportedErr)
  else if (MaxAmount (MintingSettings (limits m)) >? 0)
          && (amount >? MaxAmount (MintingSettings (limits m)))
  then throwQ MintAmountExceededErr
  else
    _ ← RequestMintQuote_balance B m amount;
    match requestInvoice B amount with
    | inl _ =>
      throwQ (CashuError (BuildCashuError "error generating payment request"
                            LightningBackendErrCode))
    | inr invoice =>
      match GenerateRandomQuoteId L with
      | None => throwQ (PassedOn "GenerateRandomQuoteId")
      | Some quoteId =>
        let mintQuote :=
          {| MintQuote_Id := quoteId; MintQuote_Amount := amount;
             MintQuote_PaymentRequest := lightning.PaymentRequest invoice;
             MintQuote_PaymentHash := lightning.PaymentHash invoice;
             MintQuote_State := nut04.Unpaid;
             MintQuote_Expiry := lightning.Expiry invoice |} in
        r ← liftQ (SaveMintQuote mintQuote);
        match r with
        | DBOk _ => mret mintQuote
        | _ => throwQ (CashuError (BuildCashuError "error saving mint quote to db" DBErrCode))
        end
      end
    end.

(** [GetMintQuoteState] *)
Definition GetMintQuoteState (m : Mint) (method quoteId : string) : M MintQuote :=
  if negb (String.eqb method BOLT11_METHOD) then throw PaymentMethodNotSupportedErr else
  r ← GetMintQuote quoteId;
  match r with
  | DBOk mintQuote =>
    if nut04.State_eqb (MintQuote_State mintQuote) nut04.Unpaid then
      '(status, err) ← ln_InvoiceStatus m (MintQuote_PaymentHash mintQuote);
      match err with
      | Some _ => throw (BuildCashuError "error getting invoice status" LightningBackendErrCode)
      | None =>
        if lightning.Settled status then
          let mintQuote := MintQuote_with_State nut04.Paid mintQuote in
          _ ← db_must "error getting quote state"
                (UpdateMintQuoteState (MintQuote_Id mintQuote) (MintQuote_State mintQuote));
          mret mintQuote
        else mret mintQuote
      end
    else mret mintQuote
  | _ => throw QuoteNotExistErr
  end.

(** The proof that [removePendingProofsForQuote] builds from a row: the
    witness is left at its zero value. *)
Definition proofOfRow (dbproof : DBProof) : Proof :=
  {| Proof_Amount := DBProof_Amount dbproof; Proof_Id := DBProof_Id dbproof;
     Proof_Secret := DBProof_Secret dbproof; Proof_C := DBProof_C dbproof;
     Proof_Witness := "" |}.

(** [removePendingProofsForQuote]; the error of the repository is returned
    as it is, so the result is that of the repository call that failed. *)
Definition removePendingProofsForQuote (quoteId : string) : M (DBResult (list Proof)) :=
  r ← GetPendingProofsByQuote quoteId;
  match r with
  | DBOk dbproofs =>
    let Ys := map DBProof_Y dbproofs in
    let proofs := map proofOfRow dbproofs in
    r ← RemovePendingProofs Ys;
    match r with
    | DBOk _ => mret (DBOk proofs)
    | ErrNoRows => mret ErrNoRows
    | DBFail => mret DBFail
    end
  | ErrNoRows => mret ErrNoRows
  | DBFail => mret DBFail
  end.

(** [GetMeltQuoteState] *)
Definition GetMeltQuoteState (L : Libs) (m : Mint) (method quoteId : string) : M MeltQuote :=
  if negb (String.eqb method BOLT11_METHOD) then throw PaymentMethodNotSupportedErr else
  r ← GetMeltQuote quoteId;
  match r with
  | DBOk meltQuote =>
    if nut05.State_eqb (MeltQuote_State meltQuote) nut05.Pending then
      '(paymentStatus, err) ← ln_OutgoingPaymentStatus m (MeltQuote_PaymentHash meltQuote);
      match lightning.Status paymentStatus with
      | lightning.Pending => mret meltQuote
      | _ =>
        meltQuote ←
          match err with
          | Some msg =>
            if match lightning.Status paymentStatus with
               | lightning.Failed => strings_Contains msg "payment failed"
               | _ => false
               end
            then
              let meltQuote :=
                MeltQuote_with (MeltQuote_Preimage meltQuote) nut05.Unpaid meltQuote in
              _ ← db_must "error updating melt quote state"
                    (UpdateMeltQuote (MeltQuote_Id meltQuote) "" (MeltQuote_State meltQuote));
              r ← removePendingProofsForQuote (MeltQuote_Id meltQuote);
              match r with
              | DBOk _ => mret meltQuote
              | _ => throw (BuildCashuError "error removing pending proofs for quote" DBErrCode)
              end
            else mret meltQuote
          | None => mret meltQuote
          end;
        match lightning.Status paymentStatus with
        | lightning.Succeeded =>
          r ← removePendingProofsForQuote (MeltQuote_Id meltQuote);
          match r with
          | DBOk proofs =>
            _ ← db_must "error invalidating proofs. Could not save proofs to db"
                  (SaveProofs L proofs);
            let meltQuote :=
              MeltQuote_with (lightning.PaymentPreimage paymentStatus) nut05.Paid meltQuote in
            _ ← db_must "error updating melt quote state"
                  (UpdateMeltQuote (MeltQuote_Id meltQuote)
                     (lightning.PaymentPreimage paymentStatus) nut05.Paid);
            mret meltQuote
          | _ => throw (BuildCashuError "error removing pending proofs for quote" DBErrCode)
          end
        | _ => mret meltQuote
        end
      end
    else mret meltQuote
  | _ => throw QuoteNotExistErr
  end.

(** [ProofsStateCheck] *)
Definition ProofsStateCheck (Ys : list string) : M (list nut07.ProofState) :=
  r ← GetProofsUsed Ys;
  match r with
  | DBFail => throw (BuildCashuError "could not get used proofs from db" DBErrCode)
  | _ =>
    let usedProofs := rows r in
    mret (map (fun y =>
                 let YSpent := existsb (fun proof => String.eqb (DBProof_Y proof) y) usedProofs in
                 {| nut07.Y := y;
                    nut07.ProofState_State := if YSpent then nut07.Spent else nut07.Unspent |})
              Ys)
  end.

(** ** Further notions used in the statements *)

(** What a computation does to the tables, whatever the fault schedule:
    started on tables [T], it ends with a result and tables related by
    [Q]. *)
Definition outcome {A} (c : M A) (T : Store) (Q : Error + A -> Store -> Prop) : Prop :=
  forall st, tables st = T -> Q (c st).1 (tables (c st).2).

(** The signature [signBlindedMessages] makes for a message: the keyset of
    the message is known and active, it has a key for the amount, and [B_]
    decodes to a point. *)
Definition signs (L : Libs) (m : Mint) (msg : BlindedMessage) (sig : BlindedSignature)
    : Prop :=
  exists keyset key B_bytes B_,
    is_Some (keysets m !! BlindedMessage_Id msg)
    /\ activeKeysets m !! BlindedMessage_Id msg = Some keyset
    /\ MintKeyset_Keys keyset !! BlindedMessage_Amount msg = Some key
    /\ hex_DecodeString L (BlindedMessage_B_ msg) = inr B_bytes
    /\ ParsePubKey L B_bytes = inr B_
    /\ sig = {| BlindedSignature_Amount := BlindedMessage_Amount msg;
                BlindedSignature_C_ := SignBlindedMessage L B_ (PrivateKey key);
                BlindedSignature_Id := MintKeyset_Id keyset;
                BlindedSignature_DLEQ :=
                  {| DLEQ_E := (GenerateDLEQ L (PrivateKey key) B_
                                  (SignBlindedMessage L B_ (PrivateKey key))).1;
                     DLEQ_S := (GenerateDLEQ L (PrivateKey key) B_
                                  (SignBlindedMessage L B_ (PrivateKey key))).2 |} |}.

(** The signature table with the rows [saved] added at its end. *)
Definition add_signatures (saved : list (string * BlindedSignature)) (st : Store) : Store :=
  set_blind_signatures (fun l => (l ++ saved)%list) st.

(** The input fee rate of the keyset of a proof, as [TransactionFees] reads
    it. *)
Definition feePpk (m : Mint) (proof : Proof) : Z :=
  default 0 (MintKeyset_InputFeePpk <$> keysets m !! Proof_Id proof).

(** Between two repositories, the quotes and the proof tables are the same:
    only the signature table and the log of backend calls may have grown. *)
Definition quiet (T T' : Store) : Prop :=
  mint_quotes T' = mint_quotes T
  /\ melt_quotes T' = melt_quotes T
  /\ pending_proofs T' = pending_proofs T
  /\ used_proofs T' = used_proofs T
  /\ (exists saved, blind_signatures T' = (blind_signatures T ++ saved)%list)
  /\ (exists calls, ln_calls T' = (calls ++ ln_calls T)%list).

(** A message for a keyset the mint does not have. *)
Definition strangerMessage (amount : Z) (B_ : string) : BlindedMessage :=
  {| BlindedMessage_Amount := amount; BlindedMessage_B_ := B_;
     BlindedMessage_Id := "0192384aa"; BlindedMessage_Witness := "" |}.

(** The state under which the melt quote [id] is stored. *)
Definition stored_state (id : string) (st : Store) : option nut05.State :=
  MeltQuote_State <$> find_melt_quote id st.

(** The pending table without the rows of the proofs [Ys]. *)
Definition released (Ys : list string) (st : Store) : list DBProof :=
  filter (fun p => mem_string (DBProof_Y p) Ys = false) (pending_proofs st).

(** What the payment of a melt may leave behind, started on tables [T] in
    which the proofs are locked.  When it answers with a quote, either the
    quote is as it was and the tables are untouched, or it is Unpaid and the
    proofs are released, or it is Paid and the proofs have moved to the
    spent table; the quote is stored in the state that is returned.  When
    it fails, the proofs are locked, released or spent. *)
Definition melt_post (L : Libs) (Ys : list string) (proofs : list Proof)
    (meltQuote : MeltQuote) (T : Store) (r : Error + MeltQuote) (T' : Store) : Prop :=
  is_Some (find_melt_quote (MeltQuote_Id meltQuote) T')
  /\ match r with
     | inl _ =>
       pending_proofs T' = pending_proofs T /\ used_proofs T' = used_proofs T
       \/ pending_proofs T' = released Ys T /\ used_proofs T' = used_proofs T
       \/ pending_proofs T' = released Ys T
          /\ used_proofs T' = (used_proofs T ++ proof_rows L "" proofs)%list
     | inr q' =>
       q' = meltQuote
       /\ pending_proofs T' = pending_proofs T /\ used_proofs T' = used_proofs T
       /\ melt_quotes T' = melt_quotes T
       \/ MeltQuote_State q' = nut05.Unpaid
          /\ pending_proofs T' = released Ys T /\ used_proofs T' = used_proofs T
          /\ stored_state (MeltQuote_Id meltQuote) T' = Some nut05.Unpaid
       \/ MeltQuote_State q' = nut05.Paid
          /\ pending_proofs T' = released Ys T
          /\ used_proofs T' = (used_proofs T ++ proof_rows L "" proofs)%list
          /\ stored_state (MeltQuote_Id meltQuote) T' = Some nut05.Paid
     end.

(** A request to the mint: one call of an exported method of mint.go. *)
Inductive Request :=
| DoRequestMintQuote (method : string) (amount : Z) (unit : string)
| DoGetMintQuoteState (method quoteId : string)
| DoMintTokens (method id : string) (blindedMessages : list BlindedMessage)
| DoSwap (proofs : list Proof) (blindedMessages : list BlindedMessage)
| DoRequestMeltQuote (method request unit : string)
| DoGetMeltQuoteState (method quoteId : string)
| DoMeltTokens (method quoteId : string) (proofs : list Proof)
| DoProofsStateCheck (Ys : list string)
| DoRestoreSignatures (blindedMessages : list BlindedMessage).

(** The repository after a request, whatever its answer. *)
Definition serve (L : Libs) (B : Issuer) (m : Mint) (request : Request) (st : Store) : Store :=
  match request with
  | DoRequestMintQuote method amount unit => (RequestMintQuote L B m method amount unit st).2
  | DoGetMintQuoteState method quoteId => (GetMintQuoteState m method quoteId st).2
  | DoMintTokens method id blindedMessages => (MintTokens L m method id blindedMessages st).2
  | DoSwap proofs blindedMessages => (Swap L m proofs blindedMessages st).2
  | DoRequestMeltQuote method request unit => (RequestMeltQuote L m method request unit st).2
  | DoGetMeltQuoteState method quoteId => (GetMeltQuoteState L m method quoteId st).2
  | DoMeltTokens method quoteId proofs => (MeltTokens L m method quoteId proofs st).2
  | DoProofsStateCheck Ys => (ProofsStateCheck Ys st).2
  | DoRestoreSignatures blindedMessages => (RestoreSignatures blindedMessages st).2
  end.

(** The repository after a sequence of requests. *)
Definition serve_all (L : Libs) (B : Issuer) (m : Mint) (requests : list Request)
    (st : Store) : Store :=
  fold_left (fun st request => serve L B m request st) requests st.

(** The spent table and the signature table of [st] begin with those of
    [T]: nothing was removed from them and nothing was changed. *)
Definition grown (T st : Store) : Prop :=
  used_proofs T `prefix_of` used_proofs st
  /\ blind_signatures T `prefix_of` blind_signatures st.

(** The rows of the pending table that belong to the melt quote [id]. *)
Definition quote_rows (id : string) (st : Store) : list DBProof :=
  filter (fun p => String.eqb (DBProof_MeltQuoteId p) id = true) (pending_proofs st).

(** The key of a row is the hash of its secret. *)
Definition well_keyed (L : Libs) (row : DBProof) : Prop :=
  HashToCurve L (DBProof_Secret row) = Some (DBProof_Y row).

(** The row under which a pending row is stored once it is spent. *)
Definition spent_row (row : DBProof) : DBProof :=
  {| DBProof_Y := DBProof_Y row; DBProof_Amount := DBProof_Amount row;
     DBProof_Id := DBProof_Id row; DBProof_Secret := DBProof_Secret row;
     DBProof_C := DBProof_C row; DBProof_MeltQuoteId := "" |}.

(** A backend like [failingClient], with the given answer to
    [OutgoingPaymentStatus]. *)
Definition pollingClient (answer : lightning.PaymentStatus * option string)
    : lightning.Client :=
  {| lightning.InvoiceStatus := lightning.InvoiceStatus failingClient;
     lightning.SendPayment := lightning.SendPayment failingClient;
     lightning.OutgoingPaymentStatus := fun _ => answer;
     lightning.FeeReserve := lightning.FeeReserve failingClient |}.

Definition pollingMint (answer : lightning.PaymentStatus * option string) : Mint :=
  {| activeKeysets := activeKeysets (toyMint 0); keysets := keysets (toyMint 0);
     lightningClient := pollingClient answer; limits := noLimits |}.

(** Two answers of the backend to [OutgoingPaymentStatus] for the same
    payment: still pending, and later succeeded. *)
Definition stillPending : lightning.PaymentStatus * option string :=
  ({| lightning.PaymentPreimage := ""; lightning.Status := lightning.Pending |}, None).

Definition nowSucceeded : lightning.PaymentStatus * option string :=
  ({| lightning.PaymentPreimage := "preimage-inv";
      lightning.Status := lightning.Succeeded |}, None).

(** The repository in which the melt of scenario C3 has left the quote
    Pending and the proofs locked. *)
Definition stuckStore : Store :=
  (MeltTokens toyLibs (toyMint 0) "bolt11" "melt-1" [toyProof 4 "s1"; toyProof 2 "s2"]
     meltStore).2.

(** A backend that accepts a payment as pending and later reports it as
    succeeded. *)
Definition slowClient : lightning.Client :=
  {| lightning.InvoiceStatus := lightning.InvoiceStatus failingClient;
     lightning.SendPayment := fun _ _ =>
       ({| lightning.PaymentPreimage := ""; lightning.Status := lightning.Pending |}, None);
     lightning.OutgoingPaymentStatus := fun hash =>
       ({| lightning.PaymentPreimage := "preimage-" +:+ hash;
           lightning.Status := lightning.Succeeded |}, None);
     lightning.FeeReserve := lightning.FeeReserve failingClient |}.

Definition slowMint : Mint :=
  {| activeKeysets := activeKeysets (toyMint 0); keysets := keysets (toyMint 0);
     lightningClient := slowClient; limits := noLimits |}.

(** An input of a SIG_ALL swap as [verifyP2PKBlindedMessages] wants it: a
    well-known secret with the SIG_ALL flag, locked to the keys [pubkeys]
    and asking for [required] signatures ([n_sigs], or 1 when it is not
    positive). *)
Definition sig_all_input (L : Libs) (pubkeys : list string) (required : Z) (proof : Proof)
    : Prop :=
  exists secret tags,
    DeserializeSecret L (Proof_Secret proof) = inr secret
    /\ IsSigAll L secret = true
    /\ ParseP2PKTags L (Secret_Tags secret) = inr tags
    /\ PublicKeys L secret = inr pubkeys
    /\ Z.max 1 (Tags_NSigs tags) = required.

(** An output signed as a SIG_ALL swap wants it: its witness holds at least
    one signature, and [required] valid ones by [pubkeys] over the hash of
    the decoded [B_]. *)
Definition signed_output (L : Libs) (pubkeys : list string) (required : Z)
    (bm : BlindedMessage) : Prop :=
  exists B_bytes witness,
    hex_DecodeString L (BlindedMessage_B_ bm) = inr B_bytes
    /\ json_Unmarshal_witness L (BlindedMessage_Witness bm) = Some witness
    /\ Signatures witness <> []
    /\ HasValidSignatures L (sha256_Sum256 L B_bytes) witness required pubkeys = true.

(** The stand-in libraries, with the SIG_ALL flag read off the text of the
    secret. *)
Definition toyLibsSigAll : Libs :=
  {| HashToCurve := HashToCurve toyLibs;
     hex_DecodeString := hex_DecodeString toyLibs;
     ParsePubKey := ParsePubKey toyLibs;
     Verify := Verify toyLibs;
     SignBlindedMessage := SignBlindedMessage toyLibs;
     GenerateDLEQ := GenerateDLEQ toyLibs;
     sha256_Sum256 := sha256_Sum256 toyLibs;
     IsSecretP2PK := IsSecretP2PK toyLibs;
     DeserializeSecret := DeserializeSecret toyLibs;
     json_Unmarshal_witness := json_Unmarshal_witness toyLibs;
     ParseP2PKTags := ParseP2PKTags toyLibs;
     ParsePublicKey := ParsePublicKey toyLibs;
     HasValidSignatures := HasValidSignatures toyLibs;
     ProofsSigAll := fun proofs =>
       existsb (fun p => strings_Contains (Proof_Secret p) "SIG_ALL") proofs;
     IsSigAll := fun secret =>
       match Secret_Tags secret with
       | [[tags]] => strings_Contains tags "SIG_ALL"
       | _ => false
       end;
     PublicKeys := PublicKeys toyLibs;
     Decodepay := Decodepay toyLibs;
     GenerateRandomQuoteId := GenerateRandomQuoteId toyLibs;
     time_Now_Unix := time_Now_Unix toyLibs;
     quote_Expiry_Now := quote_Expiry_Now toyLibs |}.

(** An output with a witness. *)
Definition signedMessage (amount : Z) (B_ witness : string) : BlindedMessage :=
  {| BlindedMessage_Amount := amount; BlindedMessage_B_ := B_;
     BlindedMessage_Id := "009a1f293253e41e"; BlindedMessage_Witness := witness |}.

(** The two proof tables agree: every pending row is keyed by the hash of
    its secret, and no [Y] is both pending and spent. *)
Definition consistent (L : Libs) (st : Store) : Prop :=
  Forall (well_keyed L) (pending_proofs st)
  /\ forall Y, is_pending Y st -> ~ is_spent Y st.

(** A backend that issues the same invoice for every amount, and a
    repository whose balance is zero. *)
Definition toyIssuer : Issuer :=
  {| CreateInvoice := fun amount =>
       ({| lightning.PaymentRequest := "lnbc-toy"; lightning.PaymentHash := "hash-toy";
           lightning.Preimage := ""; lightning.Settled := false;
           lightning.Amount := amount; lightning.Expiry := 0 |}, None);
     balance := fun _ => 0 |}.

(** A melt that stays pending, a poll that resolves it, then a swap of one
    of the melted proofs. *)
Definition meltPollSwap : list Request :=
  [DoMeltTokens "bolt11" "melt-1" [toyProof 4 "s1"; toyProof 2 "s2"];
   DoGetMeltQuoteState "bolt11" "melt-1";
   DoSwap [toyProof 4 "s1"] [toyMessage 4 "B1"]].

(** What [RequestMeltQuote] promises about a quote it returns for
    [request], on tables [T]: the invoice decodes, has an amount, and the
    quote is Unpaid, within the limit, priced by the backend or, when a mint
    quote for the same invoice is stored, free and bound to that quote. *)
Definition melt_quote_for (L : Libs) (m : Mint) (request : string) (T : Store)
    (quote : MeltQuote) : Prop :=
  exists bolt11 quoteId,
    Decodepay L request = inr bolt11
    /\ MSatoshi bolt11 <> 0
    /\ GenerateRandomQuoteId L = Some quoteId
    /\ MeltQuote_Id quote = quoteId
    /\ MeltQuote_Amount quote = wrap64 (MSatoshi bolt11) / 1000
    /\ MeltQuote_State quote = nut05.Unpaid
    /\ MeltQuote_Preimage quote = ""
    /\ (0 < MaxAmount (MeltingSettings (limits m)) ->
        MeltQuote_Amount quote <= MaxAmount (MeltingSettings (limits m)))
    /\ (MeltQuote_FeeReserve quote
        = lightning.FeeReserve (lightningClient m) (MeltQuote_Amount quote)
        /\ MeltQuote_InvoiceRequest quote = request
        /\ MeltQuote_PaymentHash quote = Bolt11_PaymentHash bolt11
        \/ exists mintQuote,
             find_mint_quote_by_hash (Bolt11_PaymentHash bolt11) T = Some mintQuote
             /\ MeltQuote_FeeReserve quote = 0
             /\ MeltQuote_InvoiceRequest quote = MintQuote_PaymentRequest mintQuote
             /\ MeltQuote_PaymentHash quote = MintQuote_PaymentHash mintQuote).

(** A backend like [failingClient] that reports every invoice as settled
    or not, as [settled] says. *)
Definition invoiceClient (settled : bool) : lightning.Client :=
  {| lightning.InvoiceStatus := fun hash =>
       ({| lightning.PaymentRequest := ""; lightning.PaymentHash := hash;
           lightning.Preimage := ""; lightning.Settled := settled;
           lightning.Amount := 0; lightning.Expiry := 0 |}, None);
     lightning.SendPayment := lightning.SendPayment failingClient;
     lightning.OutgoingPaymentStatus := lightning.OutgoingPaymentStatus failingClient;
     lightning.FeeReserve := lightning.FeeReserve failingClient |}.

Definition invoiceMint (settled : bool) : Mint :=
  {| activeKeysets := activeKeysets (toyMint 0); keysets := keysets (toyMint 0);
     lightningClient := invoiceClient settled; limits := noLimits |}.

(** The quote that [toyIssuer] and [toyLibs] give for 8 sat. *)
Definition requestedQuote : MintQuote :=
  {| MintQuote_Id := "melt-quote-1"; MintQuote_Amount := 8;
     MintQuote_PaymentRequest := "lnbc-toy"; MintQuote_PaymentHash := "hash-toy";
     MintQuote_State := nut04.Unpaid; MintQuote_Expiry := 0 |}.

Definition requestedStore : Store :=
  set_mint_quotes (fun _ => [requestedQuote]) emptyStore.

(** A postcondition: the repository satisfies [K] and a result satisfies
    [P]. *)
Definition kept (K : Store -> Prop) {A} (P : A -> Prop) (r : Error + A) (T : Store) : Prop :=
  K T /\ match r with
         | inr a => P a
         | inl _ => True
         end.

(** The melt quote [id] is stored as [q]. *)
Definition stored_as (id : string) (q : MeltQuote) (st : Store) : Prop :=
  find_melt_quote id st = Some q.

(** The repository with the melt quote of [meltStore] already paid. *)
Definition paidMeltStore : Store :=
  set_melt_quotes (fun _ => [toyMeltQuote "melt-1" "inv" 6 nut05.Paid]) emptyStore.

(** * Properties *)

(** ** The monad and the repository *)

Lemma bind_ok {A B} (c : M A) (k : A -> M B) st a st' :
  c st = (inr a, st') -> (c ≫= k) st = k a st'.
Proof. intros H. unfold mbind, M_bind, bind. now rewrite H. Qed.

Lemma db_call_healthy {A} (f : Store -> DBResult A * Store) st :
  db_faults st = [] -> db_call f st = (inr (f st).1, (f st).2).
Proof. intros H. unfold db_call. rewrite H. now destruct (f st). Qed.

Lemma db_must_healthy msg (f : Store -> DBResult unit * Store) st :
  db_faults st = [] -> (f st).1 = DBOk tt ->
  db_must msg (db_call f) st = (inr tt, (f st).2).
Proof.
  intros H Hok. unfold db_must.
  rewrite (bind_ok _ _ _ _ _ (db_call_healthy f st H)). now rewrite Hok.
Qed.

(** ** Quote tables *)

Lemma find_mint_quote_update id id' s l :
  find (fun q => String.eqb (MintQuote_Id q) id')
    (map (fun q => if String.eqb (MintQuote_Id q) id then MintQuote_with_State s q else q) l)
  = (fun q => if String.eqb (MintQuote_Id q) id then MintQuote_with_State s q else q)
      <$> find (fun q => String.eqb (MintQuote_Id q) id') l.
Proof.
  induction l as [|q l IH]; [reflexivity|].
  cbn [map find]. destruct (String.eqb (MintQuote_Id q) id) eqn:E; cbn.
  - destruct (String.eqb (MintQuote_Id q) id') eqn:E'; cbn; [now rewrite E | exact IH].
  - destruct (String.eqb (MintQuote_Id q) id') eqn:E'; cbn; [now rewrite E | exact IH].
Qed.

Lemma bind_inv {A B} (c : M A) (k : A -> M B) st b st' :
  (c ≫= k) st = (inr b, st') ->
  exists a st1, c st = (inr a, st1) /\ k a st1 = (inr b, st').
Proof.
  unfold mbind, M_bind, bind. destruct (c st) as [[e|a] st1]; [discriminate|].
  intros H. now exists a, st1.
Qed.

Section Preserves.
Context (I : Store -> Prop).

Lemma preserves_ret {A} (a : A) : preserves I (mret a).
Proof. intros st H. exact H. Qed.

Lemma preserves_throw {A} e : preserves I (@throw A e).
Proof. intros st H. exact H. Qed.

Lemma preserves_bind {A B} (c : M A) (k : A -> M B) :
  preserves I c -> (forall a, preserves I (k a)) -> preserves I (c ≫= k).
Proof.
  intros Hc Hk st H. unfold mbind, M_bind, bind.
  specialize (Hc st H). destruct (c st) as [[e|a] st1]; [exact Hc|].
  now apply Hk.
Qed.

Lemma preserves_db_call {A} (f : Store -> DBResult A * Store) :
  (forall fs st, I st -> I (set_db_faults fs st)) ->
  (forall st, I st -> I (f st).2) ->
  preserves I (db_call f).
Proof.
  intros Hfs Hf st H. unfold db_call.
  destruct (db_faults st) as [|[] fs]; cbn.
  - specialize (Hf st H). now destruct (f st).
  - now apply Hfs.
  - specialize (Hf _ (Hfs fs st H)). now destruct (f (set_db_faults fs st)).
Qed.

Lemma preserves_db_must msg (c : M (DBResult unit)) :
  preserves I c -> preserves I (db_must msg c).
Proof.
  intros Hc. unfold db_must. apply preserves_bind; [exact Hc|].
  intros []; first [apply preserves_ret | apply preserves_throw].
Qed.
End Preserves.

Lemma issued_update id id' st :
  issued id st -> issued id (update_mint_quote id' nut04.Issued st).
Proof.
  intros (q & Hq & Hs). unfold issued, find_mint_quote, update_mint_quote in *. cbn.
  rewrite find_mint_quote_update, Hq. cbn.
  destruct (String.eqb (MintQuote_Id q) id'); eexists; split; eauto.
Qed.

Lemma signBlindedMessages_preserves (I : Store -> Prop) L m bms :
  (forall fs st, I st -> I (set_db_faults fs st)) ->
  (forall f st, I st -> I (set_blind_signatures f st)) ->
  preserves I (signBlindedMessages L m bms).
Proof.
  intros Hfs Hsig. induction bms as [|msg rest IH]; cbn [signBlindedMessages].
  - apply preserves_ret.
  - repeat (case_match; try apply preserves_throw).
    apply preserves_bind.
    + apply preserves_db_call; [exact Hfs|]. intros st Hst. cbn. now apply Hsig.
    + intros []; try apply preserves_throw.
      apply preserves_bind; [exact IH|]. intros sigs. apply preserves_ret.
Qed.

Lemma MintTokens_preserves_issued L m method id' bms id :
  preserves (issued id) (MintTokens L m method id' bms).
Proof.
  unfold MintTokens.
  assert (Hfs : forall fs st, issued id st -> issued id (set_db_faults fs st)) by (intros; assumption).
  case_match; [apply preserves_throw|].
  apply preserves_bind.
  { apply preserves_db_call; [exact Hfs|]. intros st Hst; exact Hst. }
  intros [mintQuote| |]; try apply preserves_throw.
  apply preserves_bind.
  { case_match; [|apply preserves_ret].
    apply preserves_bind; [intros st Hst; exact Hst|].
    intros [invoice [e|]]; [apply preserves_throw|apply preserves_ret]. }
  intros [|]; [|apply preserves_throw]. unfold MintTokens_paid.
  repeat (case_match; try apply preserves_throw).
  apply preserves_bind.
  { apply preserves_db_call; [exact Hfs|]. intros st Hst; exact Hst. }
  intros [sigs| |]; try apply preserves_throw.
  case_match; [apply preserves_throw|].
  apply preserves_bind.
  { apply signBlindedMessages_preserves; [exact Hfs|]. intros f st Hst; exact Hst. }
  intros sigs'. apply preserves_bind.
  { apply preserves_db_call; [exact Hfs|]. intros st Hst. cbn. now apply issued_update. }
  intros []; first [apply preserves_ret | apply preserves_throw].
Qed.

Lemma preserves_run {A} (I : Store -> Prop) (c : M A) st r st' :
  preserves I c -> I st -> c st = (r, st') -> I st'.
Proof. intros Hc H E. specialize (Hc st H). now rewrite E in Hc. Qed.

Lemma GetMintQuote_healthy id st :
  db_faults st = [] ->
  GetMintQuote id st = (inr (find_result (find_mint_quote id st)), st).
Proof. intros H. unfold GetMintQuote. now rewrite db_call_healthy. Qed.

Lemma GetMintQuote_inv id st q st1 :
  GetMintQuote id st = (inr (DBOk q), st1) ->
  find_mint_quote id st1 = Some q /\ mint_quotes st1 = mint_quotes st
  /\ blind_signatures st1 = blind_signatures st.
Proof.
  unfold GetMintQuote, db_call, find_mint_quote.
  destruct (db_faults st) as [|[] fs]; cbn; intros E; try discriminate;
    injection E as Er <-; cbn;
    (destruct (find _ (mint_quotes st)); cbn in Er; [|discriminate]);
    now simplify_eq.
Qed.

Lemma find_mint_quote_Id id st q :
  find_mint_quote id st = Some q -> MintQuote_Id q = id.
Proof.
  unfold find_mint_quote. intros H. apply find_some in H as [_ H].
  now apply String.eqb_eq.
Qed.

Lemma UpdateMintQuoteState_issued id q st st' :
  find_mint_quote id st = Some q ->
  UpdateMintQuoteState (MintQuote_Id q) nut04.Issued st = (inr (DBOk tt), st') ->
  find_mint_quote id st' = Some (MintQuote_with_State nut04.Issued q)
  /\ blind_signatures st' = blind_signatures st.
Proof.
  intros Hq. pose proof (find_mint_quote_Id _ _ _ Hq) as Hid.
  assert (Hgoal : forall st0, mint_quotes st0 = mint_quotes st ->
    find_mint_quote id (update_mint_quote (MintQuote_Id q) nut04.Issued st0)
    = Some (MintQuote_with_State nut04.Issued q)).
  { intros st0 E. unfold find_mint_quote, update_mint_quote in *. cbn.
    rewrite find_mint_quote_update, E, Hq.
    cbn. now rewrite String.eqb_refl. }
  unfold UpdateMintQuoteState, db_call.
  destruct (db_faults st) as [|[] fs]; cbn; intros E; try discriminate;
    injection E as <-; (split; [now apply Hgoal | reflexivity]).
Qed.

Lemma MintTokens_on_issued L m id bms st :
  db_faults st = [] -> issued id st ->
  MintTokens L m BOLT11_METHOD id bms st = (inl MintQuoteAlreadyIssued, st).
Proof.
  intros Hh (q & Hq & Hs). unfold MintTokens. rewrite String.eqb_refl. cbn [negb].
  rewrite (bind_ok _ _ _ _ _ (GetMintQuote_healthy id st Hh)), Hq. cbn [find_result].
  unfold MintTokens_paid. rewrite Hs. reflexivity.
Qed.

Lemma MintTokens_on_issued_fails L m method id bms st :
  issued id st ->
  exists e st', MintTokens L m method id bms st = (inl e, st')
    /\ mint_quotes st' = mint_quotes st /\ blind_signatures st' = blind_signatures st.
Proof.
  intros (q & Hq & Hs). unfold MintTokens.
  destruct (negb (String.eqb method BOLT11_METHOD)); [now eexists _, _|].
  unfold mbind at 1, M_bind at 1, bind at 1, GetMintQuote, db_call.
  fold (find_mint_quote id st).
  destruct (db_faults st) as [|[] fs]; cbn.
  - rewrite Hq. cbn. unfold MintTokens_paid. rewrite Hs. now eexists _, _.
  - now eexists _, _.
  - unfold find_mint_quote in *. cbn. rewrite Hq. cbn. unfold MintTokens_paid.
    rewrite Hs. now eexists _, _.
Qed.

Lemma MintTokens_success_issued L m method id bms st sigs st' :
  MintTokens L m method id bms st = (inr sigs, st') -> issued id st'.
Proof.
  unfold MintTokens. case_match; [discriminate|].
  intros E. apply bind_inv in E as (r & st1 & E1 & E).
  destruct r as [q| |]; try discriminate.
  apply GetMintQuote_inv in E1 as (Hq & _ & _).
  set (I := fun st0 => find_mint_quote id st0 = Some q).
  assert (Hfs : forall fs st0, I st0 -> I (set_db_faults fs st0)) by (intros; assumption).
  apply bind_inv in E as (paid & st2 & E2 & E).
  assert (HI2 : I st2).
  { refine (preserves_run I _ _ _ _ _ Hq E2).
    match goal with |- preserves _ (if ?b then _ else _) => destruct b end;
      [|apply preserves_ret].
    apply preserves_bind; [intros st0 Hst; exact Hst|].
    intros [invoice [e|]]; [apply preserves_throw|apply preserves_ret]. }
  clear E2. destruct paid; [|discriminate]. unfold MintTokens_paid in E.
  repeat (case_match; try discriminate).
  apply bind_inv in E as (r & st3 & E3 & E).
  assert (HI3 : I st3).
  { refine (preserves_run I _ _ _ _ _ HI2 E3).
    apply preserves_db_call; [exact Hfs|]. intros st0 Hst; exact Hst. }
  destruct r as [old| |]; try discriminate.
  case_match; [discriminate|].
  apply bind_inv in E as (sigs' & st4 & E4 & E).
  assert (HI4 : I st4).
  { refine (preserves_run I _ _ _ _ _ HI3 E4).
    apply signBlindedMessages_preserves; [exact Hfs|]. intros f st0 Hst; exact Hst. }
  apply bind_inv in E as (r & st5 & E5 & E).
  destruct r as [[]| |]; try discriminate.
  inversion E; subst; clear E.
  destruct (UpdateMintQuoteState_issued _ _ _ _ HI4 E5) as [Hq' _].
  eexists; split; [exact Hq'|reflexivity].
Qed.

Lemma filter_mem_string_nil {A} (f : A -> string) (l : list A) :
  filter (fun r => mem_string (f r) [] = true) l = [].
Proof.
  induction l as [|r l IH]; [reflexivity|].
  rewrite filter_cons. destruct (decide _) as [Hd|_]; [discriminate Hd|exact IH].
Qed.

Lemma GetBlindSignatures_nil st :
  db_faults st = [] -> GetBlindSignatures [] st = (inr (DBOk []), st).
Proof.
  intros H. unfold GetBlindSignatures. rewrite db_call_healthy by exact H. cbn [fst snd].
  now rewrite (filter_mem_string_nil fst).
Qed.

Lemma UpdateMintQuoteState_healthy id s st :
  db_faults st = [] ->
  UpdateMintQuoteState id s st = (inr (DBOk tt), update_mint_quote id s st).
Proof. intros H. unfold UpdateMintQuoteState. now rewrite db_call_healthy. Qed.

Lemma MintTokens_paid_empty L m q st :
  db_faults st = [] -> MintQuote_State q <> nut04.Issued -> 0 <= MintQuote_Amount q ->
  MintTokens_paid L m q [] st = (inr [], update_mint_quote (MintQuote_Id q) nut04.Issued st).
Proof.
  intros Hh Hs Hamt. unfold MintTokens_paid.
  destruct (nut04.State_eqb (MintQuote_State q) nut04.Issued) eqn:E.
  { destruct (MintQuote_State q); try discriminate. congruence. }
  cbn [existsb map]. replace (sum64 BlindedMessage_Amount [] >? MintQuote_Amount q) with false
    by (symmetry; rewrite Z.gtb_ltb; apply Z.ltb_ge; exact Hamt).
  rewrite (bind_ok _ _ _ _ _ (GetBlindSignatures_nil st Hh)).
  cbn [length Nat.ltb Nat.leb signBlindedMessages].
  rewrite (bind_ok _ _ st [] st) by reflexivity.
  now rewrite (bind_ok _ _ _ _ _ (UpdateMintQuoteState_healthy _ _ st Hh)).
Qed.

(** C10. On a mint quote that is paid and not yet issued, [MintTokens] with
    method bolt11 and an empty list of blinded messages succeeds: it returns
    the empty list of signatures, stores no signature and leaves the quote
    Issued; from then on every [MintTokens] for that quote answers
    MintQuoteAlreadyIssued, so the whole amount of the quote is forfeited. *)
Theorem MintTokens_empty_list_issues L m id q st :
  db_faults st = [] ->
  find_mint_quote id st = Some q ->
  is_uint64 (MintQuote_Amount q) ->
  paid_not_issued m q ->
  exists st',
    MintTokens L m BOLT11_METHOD id [] st = (inr [], st')
    /\ find_mint_quote id st' = Some (MintQuote_with_State nut04.Issued q)
    /\ blind_signatures st' = blind_signatures st
    /\ forall blindedMessages,
         MintTokens L m BOLT11_METHOD id blindedMessages st'
         = (inl MintQuoteAlreadyIssued, st').
Proof.
  intros Hh Hq [Hamt _] Hpaid.
  assert (Hni : MintQuote_State q <> nut04.Issued).
  { unfold paid_not_issued in Hpaid. now destruct (MintQuote_State q). }
  assert (Hfin : forall st0, db_faults st0 = [] -> mint_quotes st0 = mint_quotes st ->
            blind_signatures st0 = blind_signatures st ->
            exists st', MintTokens_paid L m q [] st0 = (inr [], st')
              /\ find_mint_quote id st' = Some (MintQuote_with_State nut04.Issued q)
              /\ blind_signatures st' = blind_signatures st
              /\ forall bms, MintTokens L m BOLT11_METHOD id bms st'
                             = (inl MintQuoteAlreadyIssued, st')).
  { intros st0 Hh0 Hmq Hbs. eexists. split; [now apply MintTokens_paid_empty|].
    assert (Hq' : find_mint_quote id (update_mint_quote (MintQuote_Id q) nut04.Issued st0)
            = Some (MintQuote_with_State nut04.Issued q)).
    { unfold find_mint_quote, update_mint_quote in *. cbn.
      rewrite find_mint_quote_update, Hmq, Hq. cbn.
      now rewrite String.eqb_refl. }
    split; [exact Hq'|]. split; [exact Hbs|].
    intros bms. apply MintTokens_on_issued; [exact Hh0|].
    eexists; split; [exact Hq'|reflexivity]. }
  unfold MintTokens. rewrite String.eqb_refl. cbn [negb].
  rewrite (bind_ok _ _ _ _ _ (GetMintQuote_healthy id st Hh)), Hq. cbn [find_result].
  unfold paid_not_issued in Hpaid.
  destruct (MintQuote_State q) eqn:Hs; [| |contradiction]; cbn [nut04.State_eqb].
  - destruct Hpaid as (invoice & Hinv & Hset).
    rewrite (bind_ok _ _ _ true
               (log_call (lightning.CallInvoiceStatus (MintQuote_PaymentHash q)) st)).
    + now apply Hfin.
    + unfold ln_InvoiceStatus, mbind, M_bind, bind. rewrite Hinv. cbn. now rewrite Hset.
  - rewrite (bind_ok _ _ _ true st) by reflexivity. now apply Hfin.
Qed.

Lemma run_MintTokens_preserves_issued L m calls id st :
  issued id st -> issued id (run_MintTokens L m calls st).
Proof.
  revert st. induction calls as [|[[method id'] bms] rest IH]; intros st H; [exact H|].
  cbn [run_MintTokens]. apply IH. now apply MintTokens_preserves_issued.
Qed.

(** C1, as amended.  A successful [MintTokens] leaves the quote Issued.  Once
    a quote is Issued it stays Issued over any further [MintTokens] calls,
    and every such call for its id fails, writes no signature and leaves the
    quotes as they are: with method bolt11, on a repository that answers,
    the error is MintQuoteAlreadyIssued; with any other method it is
    PaymentMethodNotSupported. *)
Theorem MintTokens_issues_once L m id :
  (forall method blindedMessages st sigs st1,
     MintTokens L m method id blindedMessages st = (inr sigs, st1) -> issued id st1)
  /\ (forall st1 calls method blindedMessages,
        issued id st1 ->
        let st2 := run_MintTokens L m calls st1 in
        issued id st2
        /\ (exists e st3,
              MintTokens L m method id blindedMessages st2 = (inl e, st3)
              /\ mint_quotes st3 = mint_quotes st2
              /\ blind_signatures st3 = blind_signatures st2)
        /\ (method = BOLT11_METHOD -> db_faults st2 = [] ->
            MintTokens L m method id blindedMessages st2 = (inl MintQuoteAlreadyIssued, st2))
        /\ (method <> BOLT11_METHOD ->
            MintTokens L m method id blindedMessages st2
            = (inl PaymentMethodNotSupportedErr, st2))).
Proof.
  split.
  - intros method bms st sigs st1. apply MintTokens_success_issued.
  - intros st1 calls method bms H1 st2.
    assert (H2 : issued id st2) by now apply run_MintTokens_preserves_issued.
    split; [exact H2|]. split; [now apply MintTokens_on_issued_fails|]. split.
    + intros -> Hh. now apply MintTokens_on_issued.
    + intros Hne. unfold MintTokens.
      apply String.eqb_neq in Hne. now rewrite Hne.
Qed.

(** C1 as stated fails: a call for an Issued quote with a method other than
    bolt11 returns PaymentMethodNotSupported, not MintQuoteAlreadyIssued. *)
Lemma MintTokens_issued_other_method :
  ~ (forall L m method id blindedMessages st,
       db_faults st = [] -> issued id st ->
       (MintTokens L m method id blindedMessages st).1 = inl MintQuoteAlreadyIssued).
Proof.
  intros H.
  specialize (H toyLibs (toyMint 0) "strike" "quote-1" [] issuedStore eq_refl).
  assert (Hi : issued "quote-1" issuedStore).
  { exists (toyMintQuote "quote-1" 8 nut04.Issued). split; reflexivity. }
  specialize (H Hi). vm_compute in H. discriminate H.
Qed.

Lemma MintTokens_issues_once_witness :
  issued "quote-1"
    (MintTokens toyLibs (toyMint 0) "bolt11" "quote-1" [toyMessage 4 "B1"] paidStore).2
  /\ MintTokens toyLibs (toyMint 0) "bolt11" "quote-1" [toyMessage 2 "B2"]
       (run_MintTokens toyLibs (toyMint 0) [("bolt11", "quote-2", [])] issuedStore)
     = (inl MintQuoteAlreadyIssued, issuedStore).
Proof.
  destruct (MintTokens_issues_once toyLibs (toyMint 0) "quote-1") as [Hsuccess Hafter].
  split.
  - eapply (Hsuccess "bolt11" [toyMessage 4 "B1"] paidStore [toySignature 4 "B1"]).
    vm_compute. reflexivity.
  - assert (Hi : issued "quote-1" issuedStore).
    { exists (toyMintQuote "quote-1" 8 nut04.Issued). split; reflexivity. }
    destruct (Hafter issuedStore [("bolt11", "quote-2", [])] "bolt11"
                [toyMessage 2 "B2"] Hi) as (_ & _ & Hbolt & _).
    etransitivity; [apply Hbolt; [reflexivity | vm_compute; reflexivity]|].
    vm_compute. reflexivity.
Defined.

Lemma MintTokens_empty_list_issues_witness :
  exists st',
    MintTokens toyLibs (toyMint 0) BOLT11_METHOD "quote-1" [] unpaidStore = (inr [], st')
    /\ find_mint_quote "quote-1" st'
       = Some (MintQuote_with_State nut04.Issued (toyMintQuote "quote-1" 8 nut04.Unpaid))
    /\ blind_signatures st' = blind_signatures unpaidStore
    /\ forall blindedMessages,
         MintTokens toyLibs (toyMint 0) BOLT11_METHOD "quote-1" blindedMessages st'
         = (inl MintQuoteAlreadyIssued, st').
Proof.
  apply (MintTokens_empty_list_issues toyLibs (toyMint 0) "quote-1"
           (toyMintQuote "quote-1" 8 nut04.Unpaid) unpaidStore).
  - reflexivity.
  - reflexivity.
  - unfold is_uint64, uint64_modulus. cbn. lia.
  - eexists. split; reflexivity.
Defined.

(** ** Order of the checks of [MeltTokens] *)

Lemma hashProofs_None L proofs :
  hashProofs L proofs = None <-> exists proof, proof ∈ proofs /\ HashToCurve L (Proof_Secret proof) = None.
Proof. unfold hashProofs. rewrite mapM_None, Exists_exists. reflexivity. Qed.

Lemma hashProofs_is_Some L proofs :
  Forall (fun proof => is_Some (HashToCurve L (Proof_Secret proof))) proofs ->
  is_Some (hashProofs L proofs).
Proof. intros H. unfold hashProofs. apply mapM_is_Some. exact H. Qed.

(** C9. [MeltTokens] hashes every secret to the curve before any other
    check: a proof whose secret does not hash gives InvalidProof whatever
    the method, the quote id and the repository; when all secrets hash, a
    method other than bolt11 gives PaymentMethodNotSupported, whether or not
    the quote exists and whatever its state. *)
Theorem MeltTokens_check_order L m method quoteId proofs st :
  (forall proof, proof ∈ proofs -> HashToCurve L (Proof_Secret proof) = None ->
     MeltTokens L m method quoteId proofs st = (inl InvalidProofErr, st))
  /\ (Forall (fun proof => is_Some (HashToCurve L (Proof_Secret proof))) proofs ->
      method <> BOLT11_METHOD ->
      MeltTokens L m method quoteId proofs st = (inl PaymentMethodNotSupportedErr, st)).
Proof.
  split.
  - intros proof Hin Hnone. unfold MeltTokens.
    assert (E : hashProofs L proofs = None) by (apply hashProofs_None; eauto).
    now rewrite E.
  - intros Hall Hne. unfold MeltTokens.
    destruct (hashProofs_is_Some L proofs Hall) as [Ys E]. rewrite E.
    apply String.eqb_neq in Hne. now rewrite Hne.
Qed.

(** ** Order of the rejections of [verifyProofs] *)

Lemma mem_string_elem_of s l : mem_string s l = true <-> s ∈ l.
Proof.
  unfold mem_string. rewrite existsb_exists. split.
  - intros (x & Hin & E). apply String.eqb_eq in E. subst. now apply list_elem_of_In.
  - intros Hin. exists s. split; [now apply list_elem_of_In|apply String.eqb_refl].
Qed.

Lemma filter_rows_nil (Ys : list string) (l : list DBProof) :
  filter (fun p => mem_string (DBProof_Y p) Ys = true) l = []
  <-> forall row, row ∈ l -> DBProof_Y row ∉ Ys.
Proof.
  induction l as [|p l IH].
  - split; [intros _ row Hin; inversion Hin | reflexivity].
  - rewrite filter_cons. destruct (decide (mem_string (DBProof_Y p) Ys = true)) as [Hd|Hd].
    + split; [discriminate|]. intros H. exfalso.
      apply (H p); [left | now apply mem_string_elem_of].
    + rewrite IH. split; intros H row Hin.
      * apply elem_of_cons in Hin as [->|Hin]; [|now apply H].
        now rewrite <- mem_string_elem_of.
      * apply H. now right.
Qed.

Lemma has_duplicate_NoDup (l : list (option string)) :
  has_duplicate l = true <-> ~ NoDup l.
Proof.
  induction l as [|y l IH]; cbn [has_duplicate].
  - split; [discriminate|]. intros H. destruct H. constructor.
  - rewrite orb_true_iff, bool_decide_eq_true, IH, NoDup_cons. split.
    + intros [Hin|Hdup] [Hnin Hnd]; auto.
    + intros Hn. destruct (decide (y ∈ l)) as [Hin|Hnin]; [now left|].
      right. intros Hnd. apply Hn. now split.
Qed.

Lemma CheckDuplicateProofs_Ys L proofs Ys :
  hashProofs L proofs = Some Ys ->
  (CheckDuplicateProofs L proofs = true <-> ~ NoDup Ys).
Proof.
  intros E. unfold CheckDuplicateProofs. rewrite has_duplicate_NoDup.
  assert (Hmap : map (fun p => HashToCurve L (Proof_Secret p)) proofs = Some <$> Ys).
  { apply mapM_Some in E. induction E as [|p y ps ys Hy _ IH]; [reflexivity|].
    cbn. now rewrite Hy, IH. }
  rewrite Hmap. split; intros H Hnd; apply H.
  - apply (NoDup_fmap_2 _). exact Hnd.
  - eapply (NoDup_fmap_1 Some). exact Hnd.
Qed.

Lemma GetPendingProofs_healthy Ys st :
  db_faults st = [] ->
  GetPendingProofs Ys st
  = (inr (DBOk (filter (fun p => mem_string (DBProof_Y p) Ys = true) (pending_proofs st))), st).
Proof. intros H. unfold GetPendingProofs. now rewrite db_call_healthy. Qed.

Lemma GetProofsUsed_healthy Ys st :
  db_faults st = [] ->
  GetProofsUsed Ys st
  = (inr (DBOk (filter (fun p => mem_string (DBProof_Y p) Ys = true) (used_proofs st))), st).
Proof. intros H. unfold GetProofsUsed. now rewrite db_call_healthy. Qed.

Lemma length_eqb_0 {A} (l : list A) : (length l =? 0)%nat = bool_decide (l = []).
Proof. now destruct l. Qed.

(** [verifyProofs] on a repository that answers, as a cascade of tests. *)
Lemma verifyProofs_healthy L m proofs Ys st :
  db_faults st = [] ->
  verifyProofs L m proofs Ys st =
    (if bool_decide (proofs = []) then inl NoProofsProvided
     else if negb (bool_decide
                (filter (fun p => mem_string (DBProof_Y p) Ys = true) (pending_proofs st) = []))
     then inl ProofPendingErr
     else if negb (bool_decide
                (filter (fun p => mem_string (DBProof_Y p) Ys = true) (used_proofs st) = []))
     then inl ProofAlreadyUsedErr
     else if CheckDuplicateProofs L proofs then inl DuplicateProofs
     else match first_error (verifyProof L m) proofs with
          | Some e => inl e
          | None => inr tt
          end,
     st).
Proof.
  intros Hh. unfold verifyProofs. rewrite length_eqb_0.
  destruct (bool_decide (proofs = [])); [reflexivity|].
  rewrite (bind_ok _ _ _ _ _ (GetPendingProofs_healthy Ys st Hh)). cbn [rows].
  rewrite length_eqb_0.
  destruct (bool_decide (filter _ (pending_proofs st) = [])); [|reflexivity]. cbn [negb].
  rewrite (bind_ok _ _ _ _ _ (GetProofsUsed_healthy Ys st Hh)). cbn [rows].
  rewrite length_eqb_0.
  destruct (bool_decide (filter _ (used_proofs st) = [])); [|reflexivity]. cbn [negb].
  destruct (CheckDuplicateProofs L proofs); [reflexivity|].
  now destruct (first_error (verifyProof L m) proofs).
Qed.

Lemma some_row_in (Ys : list string) (l : list DBProof) :
  (exists Y, Y ∈ Ys /\ exists row, row ∈ l /\ DBProof_Y row = Y) ->
  bool_decide (filter (fun p => mem_string (DBProof_Y p) Ys = true) l = []) = false.
Proof.
  intros (Y & HY & row & Hrow & E). apply bool_decide_eq_false.
  rewrite filter_rows_nil. intros H. apply (H row Hrow). now rewrite E.
Qed.

Lemma no_row_in (Ys : list string) (l : list DBProof) :
  (forall Y, Y ∈ Ys -> ~ exists row, row ∈ l /\ DBProof_Y row = Y) ->
  bool_decide (filter (fun p => mem_string (DBProof_Y p) Ys = true) l = []) = true.
Proof.
  intros H. apply bool_decide_eq_true. rewrite filter_rows_nil.
  intros row Hrow Hin. apply (H _ Hin). now exists row.
Qed.

Lemma first_error_Forall {A} (f : A -> option Error) (l : list A) :
  Forall (fun x => f x = None) l -> first_error f l = None.
Proof. induction 1 as [|x l Hx _ IH]; [reflexivity|]. cbn. now rewrite Hx. Qed.

Lemma first_error_first {A} (f : A -> option Error) (passed : list A) x rest e :
  Forall (fun y => f y = None) passed -> f x = Some e ->
  first_error f (passed ++ x :: rest) = Some e.
Proof.
  intros Hpassed Hx. induction Hpassed as [|y l Hy _ IH]; cbn; [now rewrite Hx|].
  now rewrite Hy.
Qed.

(** C2. [verifyProofs] rejects in a fixed order, first match first: an empty
    list is NoProofsProvided; else a [Y] in the pending table is
    ProofPending; else a [Y] in the spent table is ProofAlreadyUsed; else a
    duplicate [Y] is DuplicateProofs; only then are the proofs checked one by
    one: when every proof passes its check the list is accepted, and
    otherwise the error is that of the first proof that fails, which is
    UnknownKeyset for an unknown keyset id, InvalidProof for an amount
    without key, the error of the P2PK check or of the parsing of the point
    after that, and InvalidProof for a failed BDHKE verification. *)
Theorem verifyProofs_rejection_order L m proofs Ys st :
  db_faults st = [] ->
  hashProofs L proofs = Some Ys ->
  (proofs = [] -> verifyProofs L m proofs Ys st = (inl NoProofsProvided, st))
  /\ (proofs <> [] -> (exists Y, Y ∈ Ys /\ is_pending Y st) ->
      verifyProofs L m proofs Ys st = (inl ProofPendingErr, st))
  /\ (proofs <> [] -> (forall Y, Y ∈ Ys -> ~ is_pending Y st) ->
      (exists Y, Y ∈ Ys /\ is_spent Y st) ->
      verifyProofs L m proofs Ys st = (inl ProofAlreadyUsedErr, st))
  /\ (proofs <> [] -> (forall Y, Y ∈ Ys -> ~ is_pending Y st) ->
      (forall Y, Y ∈ Ys -> ~ is_spent Y st) -> ~ NoDup Ys ->
      verifyProofs L m proofs Ys st = (inl DuplicateProofs, st))
  /\ (proofs <> [] -> (forall Y, Y ∈ Ys -> ~ is_pending Y st) ->
      (forall Y, Y ∈ Ys -> ~ is_spent Y st) -> NoDup Ys ->
      (Forall (fun proof => verifyProof L m proof = None) proofs ->
       verifyProofs L m proofs Ys st = (inr tt, st))
      /\ (forall passed proof rest e,
            proofs = (passed ++ proof :: rest)%list ->
            Forall (fun proof => verifyProof L m proof = None) passed ->
            verifyProof L m proof = Some e ->
            verifyProofs L m proofs Ys st = (inl e, st))
      /\ (forall passed proof rest,
            proofs = (passed ++ proof :: rest)%list ->
            Forall (fun proof => verifyProof L m proof = None) passed ->
            (keysets m !! Proof_Id proof = None ->
             verifyProofs L m proofs Ys st = (inl UnknownKeysetErr, st))
            /\ (forall keyset,
                  keysets m !! Proof_Id proof = Some keyset ->
                  MintKeyset_Keys keyset !! Proof_Amount proof = None ->
                  verifyProofs L m proofs Ys st = (inl InvalidProofErr, st))
            /\ (forall keyset key Cbytes C,
                  keysets m !! Proof_Id proof = Some keyset ->
                  MintKeyset_Keys keyset !! Proof_Amount proof = Some key ->
                  (if IsSecretP2PK L proof then verifyP2PKLockedProof L proof else None)
                  = None ->
                  hex_DecodeString L (Proof_C proof) = inr Cbytes ->
                  ParsePubKey L Cbytes = inr C ->
                  Verify L (Proof_Secret proof) (PrivateKey key) C = false ->
                  verifyProofs L m proofs Ys st = (inl InvalidProofErr, st))))
  /\ (forall proof, keysets m !! Proof_Id proof = None ->
        verifyProof L m proof = Some UnknownKeysetErr)
  /\ (forall proof keyset, keysets m !! Proof_Id proof = Some keyset ->
        MintKeyset_Keys keyset !! Proof_Amount proof = None ->
        verifyProof L m proof = Some InvalidProofErr)
  /\ (forall proof keyset key e,
        keysets m !! Proof_Id proof = Some keyset ->
        MintKeyset_Keys keyset !! Proof_Amount proof = Some key ->
        IsSecretP2PK L proof = true ->
        verifyP2PKLockedProof L proof = Some e ->
        verifyProof L m proof = Some e)
  /\ (forall proof keyset key,
        keysets m !! Proof_Id proof = Some keyset ->
        MintKeyset_Keys keyset !! Proof_Amount proof = Some key ->
        (if IsSecretP2PK L proof then verifyP2PKLockedProof L proof else None) = None ->
        (forall Cbytes, hex_DecodeString L (Proof_C proof) = inr Cbytes ->
                        exists msg, ParsePubKey L Cbytes = inl msg) ->
        exists msg, verifyProof L m proof = Some (BuildCashuError msg StandardErrCode))
  /\ (forall proof keyset key Cbytes C,
        keysets m !! Proof_Id proof = Some keyset ->
        MintKeyset_Keys keyset !! Proof_Amount proof = Some key ->
        (if IsSecretP2PK L proof then verifyP2PKLockedProof L proof else None) = None ->
        hex_DecodeString L (Proof_C proof) = inr Cbytes ->
        ParsePubKey L Cbytes = inr C ->
        verifyProof L m proof
        = if Verify L (Proof_Secret proof) (PrivateKey key) C then None
          else Some InvalidProofErr).
Proof.
  intros Hh HYs. rewrite (verifyProofs_healthy L m proofs Ys st Hh).
  split; [|split; [|split; [|split; [|split; [|split; [|split; [|split; [|split]]]]]]]].
  - intros ->. reflexivity.
  - intros Hne Hp. rewrite bool_decide_eq_false_2 by exact Hne.
    now rewrite (some_row_in Ys _ Hp).
  - intros Hne Hnp Hs. rewrite bool_decide_eq_false_2 by exact Hne.
    rewrite (no_row_in Ys _ Hnp). cbn [negb]. now rewrite (some_row_in Ys _ Hs).
  - intros Hne Hnp Hns Hdup. rewrite bool_decide_eq_false_2 by exact Hne.
    rewrite (no_row_in Ys _ Hnp), (no_row_in Ys _ Hns). cbn [negb].
    apply (CheckDuplicateProofs_Ys L proofs Ys HYs) in Hdup. now rewrite Hdup.
  - intros Hne Hnp Hns Hnd. rewrite bool_decide_eq_false_2 by exact Hne.
    rewrite (no_row_in Ys _ Hnp), (no_row_in Ys _ Hns). cbn [negb].
    destruct (CheckDuplicateProofs L proofs) eqn:E.
    { apply (CheckDuplicateProofs_Ys L proofs Ys HYs) in E. contradiction. }
    assert (Hfirst : forall passed proof rest e,
              proofs = (passed ++ proof :: rest)%list ->
              Forall (fun proof => verifyProof L m proof = None) passed ->
              verifyProof L m proof = Some e ->
              (match first_error (verifyProof L m) proofs with
               | Some e => inl e
               | None => inr tt
               end, st) = (inl e : Error + unit, st)).
    { intros passed proof rest e -> Hpassed Hproof.
      now rewrite (first_error_first _ passed proof rest e Hpassed Hproof). }
    split; [|split].
    + intros Hall. now rewrite (first_error_Forall _ _ Hall).
    + exact Hfirst.
    + intros passed proof rest Hsplit Hpassed. split; [|split].
      * intros E1. apply (Hfirst passed proof rest _ Hsplit Hpassed).
        unfold verifyProof. now rewrite E1.
      * intros keyset E1 E2. apply (Hfirst passed proof rest _ Hsplit Hpassed).
        unfold verifyProof. now rewrite E1, E2.
      * intros keyset key Cbytes C E1 E2 E3 E4 E5 E6.
        apply (Hfirst passed proof rest _ Hsplit Hpassed).
        unfold verifyProof. now rewrite E1, E2, E3, E4, E5, E6.
  - intros proof E. unfold verifyProof. now rewrite E.
  - intros proof keyset E1 E2. unfold verifyProof. now rewrite E1, E2.
  - intros proof keyset key e E1 E2 E3 E4. unfold verifyProof. now rewrite E1, E2, E3, E4.
  - intros proof keyset key E1 E2 E3 Hparse. unfold verifyProof. rewrite E1, E2, E3.
    destruct (hex_DecodeString L (Proof_C proof)) as [msg|Cbytes]; [now exists msg|].
    destruct (Hparse Cbytes eq_refl) as [msg E]. rewrite E. now exists msg.
  - intros proof keyset key Cbytes C E1 E2 E3 E4 E5. unfold verifyProof.
    rewrite E1, E2, E3, E4, E5. now destruct (Verify L _ _ _).
Qed.

Lemma MeltTokens_check_order_witness :
  MeltTokens toyLibsBadSecret (toyMint 0) "strike" "no-such-quote"
    [toyProof 1 "s1"; toyProof 2 "bad"] emptyStore = (inl InvalidProofErr, emptyStore)
  /\ MeltTokens toyLibsBadSecret (toyMint 0) "strike" "no-such-quote"
       [toyProof 1 "s1"; toyProof 2 "s2"] emptyStore
     = (inl PaymentMethodNotSupportedErr, emptyStore).
Proof.
  split.
  - apply (proj1 (MeltTokens_check_order toyLibsBadSecret (toyMint 0) "strike" "no-such-quote"
                    [toyProof 1 "s1"; toyProof 2 "bad"] emptyStore) (toyProof 2 "bad")).
    + right. left.
    + reflexivity.
  - apply (proj2 (MeltTokens_check_order toyLibsBadSecret (toyMint 0) "strike" "no-such-quote"
                    [toyProof 1 "s1"; toyProof 2 "s2"] emptyStore)).
    + repeat constructor; eexists; reflexivity.
    + discriminate.
Defined.

Lemma verifyProofs_rejection_order_witness :
  verifyProofs toyLibs (toyMint 0) [toyProof 1 "s1"; toyProof 1 "s1"] ["Y(s1)"; "Y(s1)"]
    emptyStore = (inl DuplicateProofs, emptyStore)
  /\ verifyProofs toyLibs (toyMint 0) [toyProof 1 "s1"; strangerProof 2 "s2"; toyProof 3 "s3"]
       ["Y(s1)"; "Y(s2)"; "Y(s3)"] emptyStore = (inl UnknownKeysetErr, emptyStore)
  /\ verifyProofs toyLibs (toyMint 0) [toyProof 1 "s1"; toyProof 3 "s3"; strangerProof 2 "s2"]
       ["Y(s1)"; "Y(s3)"; "Y(s2)"] emptyStore = (inl InvalidProofErr, emptyStore)
  /\ verifyProofs toyLibs (toyMint 0) [toyProof 1 "s1"; toyProof 2 "s2"]
       ["Y(s1)"; "Y(s2)"] emptyStore = (inr tt, emptyStore).
Proof.
  assert (Hfree : forall Y : string,
            ~ is_pending Y emptyStore /\ ~ is_spent Y emptyStore).
  { intros Y. split; intros (row & Hin & _); inversion Hin. }
  assert (Hdistinct : forall a b c : string, a <> b -> a <> c -> b <> c -> NoDup [a; b; c]).
  { intros a b c Hab Hac Hbc. apply NoDup_cons. split.
    - intros H. apply elem_of_cons in H as [H|H]; [contradiction|].
      apply list_elem_of_singleton in H. contradiction.
    - apply NoDup_cons. split; [|apply NoDup_singleton].
      intros H. apply list_elem_of_singleton in H. contradiction. }
  split; [|split; [|split]].
  - destruct (verifyProofs_rejection_order toyLibs (toyMint 0)
                [toyProof 1 "s1"; toyProof 1 "s1"] ["Y(s1)"; "Y(s1)"] emptyStore
                eq_refl eq_refl) as (_ & _ & _ & Hdup & _).
    apply Hdup.
    + discriminate.
    + intros Y _. apply Hfree.
    + intros Y _. apply Hfree.
    + intros Hnd. apply NoDup_cons in Hnd as [Hnin _]. apply Hnin. left.
  - destruct (verifyProofs_rejection_order toyLibs (toyMint 0)
                [toyProof 1 "s1"; strangerProof 2 "s2"; toyProof 3 "s3"]
                ["Y(s1)"; "Y(s2)"; "Y(s3)"] emptyStore eq_refl eq_refl)
      as (_ & _ & _ & _ & Hloop & _).
    destruct Hloop as (_ & _ & Hkinds).
    + discriminate.
    + intros Y _. apply Hfree.
    + intros Y _. apply Hfree.
    + apply Hdistinct; discriminate.
    + destruct (Hkinds [toyProof 1 "s1"] (strangerProof 2 "s2") [toyProof 3 "s3"] eq_refl)
        as (Hunknown & _).
      * repeat constructor.
      * apply Hunknown. reflexivity.
  - destruct (verifyProofs_rejection_order toyLibs (toyMint 0)
                [toyProof 1 "s1"; toyProof 3 "s3"; strangerProof 2 "s2"]
                ["Y(s1)"; "Y(s3)"; "Y(s2)"] emptyStore eq_refl eq_refl)
      as (_ & _ & _ & _ & Hloop & _).
    destruct Hloop as (_ & _ & Hkinds).
    + discriminate.
    + intros Y _. apply Hfree.
    + intros Y _. apply Hfree.
    + apply Hdistinct; discriminate.
    + destruct (Hkinds [toyProof 1 "s1"] (toyProof 3 "s3") [strangerProof 2 "s2"] eq_refl)
        as (_ & Hamount & _).
      * repeat constructor.
      * apply (Hamount (toyKeyset 0)); reflexivity.
  - destruct (verifyProofs_rejection_order toyLibs (toyMint 0)
                [toyProof 1 "s1"; toyProof 2 "s2"] ["Y(s1)"; "Y(s2)"] emptyStore
                eq_refl eq_refl) as (_ & _ & _ & _ & Hloop & _).
    destruct Hloop as (Hall & _).
    + discriminate.
    + intros Y _. apply Hfree.
    + intros Y _. apply Hfree.
    + apply NoDup_cons. split; [|apply NoDup_singleton].
      intros H. apply list_elem_of_singleton in H. discriminate.
    + apply Hall. repeat constructor.
Defined.

(** ** Restore *)

Lemma GetBlindSignature_healthy B_ st :
  db_faults st = [] ->
  GetBlindSignature B_ st = (inr (find_result (lookup_signature B_ st)), st).
Proof. intros H. unfold GetBlindSignature. now rewrite db_call_healthy. Qed.

Lemma RestoreSignatures_healthy blindedMessages st :
  db_faults st = [] ->
  RestoreSignatures blindedMessages st
  = (inr (filter (fun bm => is_Some (lookup_signature (BlindedMessage_B_ bm) st)) blindedMessages,
          omap (fun bm => lookup_signature (BlindedMessage_B_ bm) st) blindedMessages),
     st).
Proof.
  intros Hh. induction blindedMessages as [|bm rest IH]; [reflexivity|].
  cbn [RestoreSignatures omap list_omap].
  rewrite (bind_ok _ _ _ _ _ (GetBlindSignature_healthy _ st Hh)).
  rewrite filter_cons.
  destruct (lookup_signature (BlindedMessage_B_ bm) st) as [sig|] eqn:E; cbn [find_result].
  - rewrite (bind_ok _ _ _ _ _ IH). destruct (decide _) as [_|Hn]; [reflexivity|].
    destruct Hn. now eexists.
  - rewrite IH. destruct (decide _) as [[x Hx]|_]; [discriminate|reflexivity].
Qed.

Lemma stored_filter_fixed st (l : list BlindedMessage) :
  filter (fun bm => is_Some (lookup_signature (BlindedMessage_B_ bm) st))
    (filter (fun bm => is_Some (lookup_signature (BlindedMessage_B_ bm) st)) l)
  = filter (fun bm => is_Some (lookup_signature (BlindedMessage_B_ bm) st)) l.
Proof.
  induction l as [|bm rest IH]; [reflexivity|].
  rewrite filter_cons. destruct (decide _) as [Hs|Hn]; [|exact IH].
  rewrite filter_cons. destruct (decide _) as [_|Hn]; [|contradiction]. now rewrite IH.
Qed.

Lemma stored_omap_fixed st (l : list BlindedMessage) :
  omap (fun bm => lookup_signature (BlindedMessage_B_ bm) st)
    (filter (fun bm => is_Some (lookup_signature (BlindedMessage_B_ bm) st)) l)
  = omap (fun bm => lookup_signature (BlindedMessage_B_ bm) st) l.
Proof.
  induction l as [|bm rest IH]; [reflexivity|].
  rewrite filter_cons. cbn [omap list_omap].
  destruct (lookup_signature (BlindedMessage_B_ bm) st) as [sig|] eqn:E.
  - destruct (decide _) as [_|Hn]; [|destruct Hn; now eexists].
    cbn [omap list_omap]. rewrite E. now rewrite IH.
  - destruct (decide _) as [[x Hx]|_]; [discriminate|exact IH].
Qed.

(** C8. [RestoreSignatures] returns exactly the submitted messages whose
    [B_] has a stored signature, in their input order, each paired with the
    stored signature; restoring the returned outputs again gives the same
    outputs and signatures. *)
Theorem RestoreSignatures_idempotent blindedMessages st :
  db_faults st = [] ->
  exists outputs signatures,
    RestoreSignatures blindedMessages st = (inr (outputs, signatures), st)
    /\ outputs
       = filter (fun bm => is_Some (lookup_signature (BlindedMessage_B_ bm) st)) blindedMessages
    /\ Forall2 (fun bm sig => lookup_signature (BlindedMessage_B_ bm) st = Some sig)
         outputs signatures
    /\ RestoreSignatures outputs st = (inr (outputs, signatures), st).
Proof.
  intros Hh. eexists _, _. split; [now apply RestoreSignatures_healthy|].
  split; [reflexivity|]. split.
  - induction blindedMessages as [|bm rest IH]; [constructor|].
    rewrite filter_cons. cbn [omap list_omap].
    destruct (lookup_signature (BlindedMessage_B_ bm) st) as [sig|] eqn:E.
    + destruct (decide _) as [_|Hn]; [|destruct Hn; now eexists].
      constructor; [exact E|exact IH].
    + destruct (decide _) as [[x Hx]|_]; [discriminate|exact IH].
  - rewrite (RestoreSignatures_healthy _ st Hh).
    now rewrite stored_filter_fixed, stored_omap_fixed.
Qed.

Lemma RestoreSignatures_idempotent_witness :
  exists outputs signatures,
    RestoreSignatures [toyMessage 2 "B3"; toyMessage 1 "B2"; toyMessage 4 "B1"] signedStore
    = (inr (outputs, signatures), signedStore)
    /\ outputs
       = filter (fun bm => is_Some (lookup_signature (BlindedMessage_B_ bm) signedStore))
           [toyMessage 2 "B3"; toyMessage 1 "B2"; toyMessage 4 "B1"]
    /\ Forall2 (fun bm sig => lookup_signature (BlindedMessage_B_ bm) signedStore = Some sig)
         outputs signatures
    /\ RestoreSignatures outputs signedStore = (inr (outputs, signatures), signedStore).
Proof.
  apply (RestoreSignatures_idempotent
           [toyMessage 2 "B3"; toyMessage 1 "B2"; toyMessage 4 "B1"] signedStore).
  reflexivity.
Defined.

(** ** Sums of amounts *)

Lemma fold_add64 {A} (f : A -> Z) (l : list A) (a : Z) :
  fold_left (fun acc x => add64 acc (f x)) l (wrap64 a) = wrap64 (a + total f l).
Proof.
  revert a. induction l as [|x l IH]; intros a; cbn [fold_left total foldr].
  - now rewrite Z.add_0_r.
  - assert (E : add64 (wrap64 a) (f x) = wrap64 (a + f x))
      by (unfold add64, wrap64; apply Zplus_mod_idemp_l).
    rewrite E, IH. f_equal. fold (total f l). lia.
Qed.

Lemma sum64_wrap {A} (f : A -> Z) (l : list A) : sum64 f l = wrap64 (total f l).
Proof.
  unfold sum64. change 0 with (wrap64 0) at 1. now rewrite fold_add64.
Qed.

Lemma wrap64_small z : is_uint64 z -> wrap64 z = z.
Proof. intros H. unfold wrap64. now apply Z.mod_small. Qed.

Lemma total_nonneg {A} (f : A -> Z) (l : list A) :
  Forall (fun x => 0 <= f x) l -> 0 <= total f l.
Proof. induction 1; cbn [total foldr]; [lia|]. fold (total f l). lia. Qed.

Lemma sum64_exact {A} (f : A -> Z) (l : list A) :
  Forall (fun x => 0 <= f x) l -> total f l < uint64_modulus -> sum64 f l = total f l.
Proof.
  intros Hpos Hlt. rewrite sum64_wrap. apply wrap64_small. split; [|exact Hlt].
  now apply total_nonneg.
Qed.

(** Without wrap-around the fee is the ceiling of one thousandth of the
    summed fee rates. *)
Lemma TransactionFees_ceiling m inputs :
  let ppk := fun proof => default 0 (MintKeyset_InputFeePpk <$> keysets m !! Proof_Id proof) in
  Forall (fun proof => 0 <= ppk proof) inputs ->
  total ppk inputs + 999 < uint64_modulus ->
  TransactionFees m inputs = (total ppk inputs + 999) / 1000.
Proof.
  intros ppk Hpos Hlt. unfold TransactionFees. fold ppk.
  rewrite sum64_exact; [|exact Hpos|lia].
  unfold add64. rewrite wrap64_small; [reflexivity|].
  pose proof (total_nonneg ppk inputs Hpos). unfold is_uint64. lia.
Qed.

(** Without wrap-around, and with inputs that cover the fee, the test of
    [Swap] is the comparison of the sums. *)
Lemma Swap_fee_test_exact m proofs (blindedMessages : list BlindedMessage) :
  Forall (fun proof => 0 <= Proof_Amount proof) proofs ->
  Forall (fun bm => 0 <= BlindedMessage_Amount bm) blindedMessages ->
  total Proof_Amount proofs < uint64_modulus ->
  total BlindedMessage_Amount blindedMessages < uint64_modulus ->
  0 <= TransactionFees m proofs <= total Proof_Amount proofs ->
  (sub64 (sum64 Proof_Amount proofs) (TransactionFees m proofs)
     <? sum64 BlindedMessage_Amount blindedMessages)
  = (total Proof_Amount proofs
       <? total BlindedMessage_Amount blindedMessages + TransactionFees m proofs).
Proof.
  intros Hp Hb Hlp Hlb Hfee.
  rewrite (sum64_exact Proof_Amount proofs Hp Hlp).
  rewrite (sum64_exact BlindedMessage_Amount blindedMessages Hb Hlb).
  unfold sub64. rewrite wrap64_small by (unfold is_uint64; lia).
  destruct (Z.ltb_spec (total Proof_Amount proofs - TransactionFees m proofs)
              (total BlindedMessage_Amount blindedMessages));
    destruct (Z.ltb_spec (total Proof_Amount proofs)
                (total BlindedMessage_Amount blindedMessages + TransactionFees m proofs));
    try reflexivity; lia.
Qed.

(** ** Overflow of the outputs of [MintTokens] *)

(** The overflow test of [MintTokens] and [Swap] is exact for two outputs:
    when their sum overflows, the wrapped sum is below the first amount. *)
Lemma overflow_of_two_detected (x y : BlindedMessage) :
  is_uint64 (BlindedMessage_Amount x) -> is_uint64 (BlindedMessage_Amount y) ->
  total BlindedMessage_Amount [x; y] > 2 ^ 64 - 1 ->
  existsb (fun msg => sum64 BlindedMessage_Amount [x; y] <? BlindedMessage_Amount msg) [x; y]
  = true.
Proof.
  unfold is_uint64, uint64_modulus. intros Hx Hy Hsum. rewrite sum64_wrap.
  cbn [total foldr] in *. cbn [existsb]. apply orb_true_iff. left. apply Z.ltb_lt.
  unfold wrap64, uint64_modulus.
  replace (BlindedMessage_Amount x + (BlindedMessage_Amount y + 0))
    with (BlindedMessage_Amount x + BlindedMessage_Amount y - 2 ^ 64 + 1 * 2 ^ 64) by lia.
  rewrite Z.mod_add by lia. rewrite Z.mod_small; lia.
Qed.

(** C5, at the failing input.  Three blinded messages of 2^63 each sum to
    3 * 2^63 > 2^64 - 1; the [uint64] sum wraps to 2^63, which no single
    amount exceeds, so the overflow test of [MintTokens] passes: on a quote
    of 2^63 the three messages are signed, and on a smaller quote the error
    is OutputsOverQuoteAmount, not InvalidBlindedMessageAmount. *)
Theorem MintTokens_overflow_undetected :
  Forall (fun bm => is_uint64 (BlindedMessage_Amount bm)) overflowMessages
  /\ total BlindedMessage_Amount overflowMessages = 3 * 2 ^ 63
  /\ total BlindedMessage_Amount overflowMessages > 2 ^ 64 - 1
  /\ sum64 BlindedMessage_Amount overflowMessages = 2 ^ 63
  /\ (MintTokens toyLibs (toyMint 0) "bolt11" "quote-1" overflowMessages bigQuoteStore).1
     = inr [toySignature (2 ^ 63) "B1"; toySignature (2 ^ 63) "B2"; toySignature (2 ^ 63) "B3"]
  /\ (MintTokens toyLibs (toyMint 0) "bolt11" "quote-1" overflowMessages paidStore).1
     = inl OutputsOverQuoteAmountErr.
Proof.
  split; [|repeat split; vm_compute; reflexivity].
  repeat constructor; vm_compute; congruence.
Qed.

(** ** The fee test of [Swap] *)

(** C6, at the failing input.  With a fee rate of 2000 ppk one proof of
    amount 1 owes a fee of 2; the inputs (1) are less than the outputs (4)
    plus the fee, yet [proofsAmount - fees] wraps to 2^64 - 1 and [Swap]
    signs the outputs instead of failing with InsufficientProofsAmount. *)
Theorem Swap_fee_above_inputs :
  TransactionFees (toyMint 2000) [toyProof 1 "s1"] = 2
  /\ total Proof_Amount [toyProof 1 "s1"]
     < total BlindedMessage_Amount [toyMessage 4 "B1"]
       + TransactionFees (toyMint 2000) [toyProof 1 "s1"]
  /\ sub64 (sum64 Proof_Amount [toyProof 1 "s1"])
       (TransactionFees (toyMint 2000) [toyProof 1 "s1"]) = 2 ^ 64 - 1
  /\ (Swap toyLibs (toyMint 2000) [toyProof 1 "s1"] [toyMessage 4 "B1"] emptyStore).1
     = inr [toySignature 4 "B1"].
Proof. repeat split; vm_compute; reflexivity. Qed.

(** ** Repository calls of the melt path, on a repository that answers *)

Lemma proof_rows_mapM L quoteId proofs Ys :
  hashProofs L proofs = Some Ys ->
  mapM (toDBProof L quoteId) proofs = Some (proof_rows L quoteId proofs)
  /\ map DBProof_Y (proof_rows L quoteId proofs) = Ys.
Proof.
  unfold hashProofs, proof_rows. intros E. apply mapM_Some in E.
  induction E as [|p Y ps Ys' Hp _ [IH1 IH2]].
  - split; reflexivity.
  - cbn [omap list_omap].
    assert (Hrow : toDBProof L quoteId p
              = Some {| DBProof_Y := Y; DBProof_Amount := Proof_Amount p;
                        DBProof_Id := Proof_Id p; DBProof_Secret := Proof_Secret p;
                        DBProof_C := Proof_C p; DBProof_MeltQuoteId := quoteId |})
      by (unfold toDBProof; now rewrite Hp).
    rewrite Hrow. cbn [map DBProof_Y]. rewrite IH2. split; [|reflexivity].
    cbn [mapM]. rewrite Hrow, IH1. reflexivity.
Qed.


Lemma SaveProofs_healthy msg L proofs Ys st :
  db_faults st = [] -> hashProofs L proofs = Some Ys ->
  db_must msg (SaveProofs L proofs) st = (inr tt, add_used (proof_rows L "" proofs) st).
Proof.
  intros Hh HYs. unfold SaveProofs.
  destruct (proof_rows_mapM L "" proofs Ys HYs) as [E _].
  rewrite db_must_healthy; unfold insert_rows; rewrite ?E; auto.
Qed.

Lemma UpdateMeltQuote_healthy msg id preimage s st :
  db_faults st = [] ->
  db_must msg (UpdateMeltQuote id preimage s) st = (inr tt, update_melt_quote id preimage s st).
Proof. intros Hh. unfold UpdateMeltQuote. now rewrite db_must_healthy. Qed.

Lemma UpdateMintQuoteState_must_healthy msg id s st :
  db_faults st = [] ->
  db_must msg (UpdateMintQuoteState id s) st = (inr tt, update_mint_quote id s st).
Proof. intros Hh. unfold UpdateMintQuoteState. now rewrite db_must_healthy. Qed.

Lemma RemovePendingProofs_healthy msg Ys st :
  db_faults st = [] ->
  db_must msg (RemovePendingProofs Ys) st = (inr tt, remove_pending Ys st).
Proof. intros Hh. unfold RemovePendingProofs. now rewrite db_must_healthy. Qed.

Lemma GetMeltQuote_healthy id st :
  db_faults st = [] ->
  GetMeltQuote id st = (inr (find_result (find_melt_quote id st)), st).
Proof. intros H. unfold GetMeltQuote. now rewrite db_call_healthy. Qed.


Lemma settleProofs_healthy L Ys proofs st :
  db_faults st = [] -> hashProofs L proofs = Some Ys ->
  settleProofs L Ys proofs st
  = (inr tt, add_used (proof_rows L "" proofs) (remove_pending Ys st)).
Proof.
  intros Hh HYs. unfold settleProofs.
  rewrite (bind_ok _ _ _ _ _ (RemovePendingProofs_healthy _ Ys st Hh)).
  now apply (SaveProofs_healthy _ L proofs Ys).
Qed.

(** One repository write of the melt path, by the lemma [lem], on a
    repository that answers; [H] is the proof that the fault schedule is
    empty. *)
Ltac db_step lem H :=
  erewrite bind_ok by (eapply lem; solve [exact H | eassumption]).

(** ** Outcomes of the payment in [MeltTokens] *)

Section SendPayment.
Context (L : Libs) (m : Mint) (Ys : list string) (proofs : list Proof)
        (meltQuote : MeltQuote) (st : Store).
Hypothesis healthy : db_faults st = [].
Hypothesis hashed : hashProofs L proofs = Some Ys.

Let sent : Store :=
  log_call (lightning.CallSendPayment (MeltQuote_InvoiceRequest meltQuote)
              (MeltQuote_Amount meltQuote)) st.
Let probed (st0 : Store) : Store :=
  log_call (lightning.CallOutgoingPaymentStatus (MeltQuote_PaymentHash meltQuote)) st0.

(** The probe reports Pending: the quote and the proofs stay as they are. *)
Lemma probe_pending st0 response err :
  lightning.OutgoingPaymentStatus (lightningClient m) (MeltQuote_PaymentHash meltQuote)
  = (response, err) ->
  lightning.Status response = lightning.Pending ->
  MeltTokens_probe L m Ys proofs meltQuote st0 = (inr meltQuote, probed st0).
Proof.
  intros E Hs. unfold MeltTokens_probe, ln_OutgoingPaymentStatus, mbind, M_bind, bind.
  now rewrite E, Hs.
Qed.

(** The probe reports Succeeded without an error: the proofs are settled
    and the quote is Paid with the preimage. *)
Lemma probe_succeeded st0 response :
  db_faults st0 = [] ->
  lightning.OutgoingPaymentStatus (lightningClient m) (MeltQuote_PaymentHash meltQuote)
  = (response, None) ->
  lightning.Status response = lightning.Succeeded ->
  MeltTokens_probe L m Ys proofs meltQuote st0
  = (inr (MeltQuote_with (lightning.PaymentPreimage response) nut05.Paid meltQuote),
     settled L (MeltQuote_Id meltQuote) (lightning.PaymentPreimage response) Ys proofs
       (probed st0)).
Proof.
  intros Hh E Hs. unfold MeltTokens_probe, ln_OutgoingPaymentStatus.
  unfold mbind at 1, M_bind at 1, bind at 1. rewrite E, Hs.
  rewrite (bind_ok _ _ _ meltQuote (probed st0)) by reflexivity.
  db_step settleProofs_healthy Hh. db_step UpdateMeltQuote_healthy Hh. reflexivity.
Qed.

(** The probe comes back with an error and a status other than Pending
    and Succeeded: the quote is Unpaid and the proofs are unlocked. *)
Lemma probe_error st0 response msg :
  db_faults st0 = [] ->
  lightning.OutgoingPaymentStatus (lightningClient m) (MeltQuote_PaymentHash meltQuote)
  = (response, Some msg) ->
  lightning.Status response = lightning.Failed ->
  MeltTokens_probe L m Ys proofs meltQuote st0
  = (inr (MeltQuote_with (MeltQuote_Preimage meltQuote) nut05.Unpaid meltQuote),
     unlocked (MeltQuote_Id meltQuote) Ys (probed st0)).
Proof.
  intros Hh E Hs. unfold MeltTokens_probe, ln_OutgoingPaymentStatus.
  unfold mbind at 1, M_bind at 1, bind at 1. rewrite E, Hs.
  rewrite (bind_ok _ _ _ (MeltQuote_with (MeltQuote_Preimage meltQuote) nut05.Unpaid meltQuote)
             (unlocked (MeltQuote_Id meltQuote) Ys (probed st0))); [reflexivity|].
  db_step UpdateMeltQuote_healthy Hh. db_step RemovePendingProofs_healthy Hh. reflexivity.
Qed.

(** The probe reports Failed without an error: nothing is written, the
    quote and the proofs stay pending. *)
Lemma probe_failed_silently st0 response :
  lightning.OutgoingPaymentStatus (lightningClient m) (MeltQuote_PaymentHash meltQuote)
  = (response, None) ->
  lightning.Status response = lightning.Failed ->
  MeltTokens_probe L m Ys proofs meltQuote st0 = (inr meltQuote, probed st0).
Proof.
  intros E Hs. unfold MeltTokens_probe, ln_OutgoingPaymentStatus, mbind, M_bind, bind.
  now rewrite E, Hs.
Qed.

(** [SendPayment] fails with a "payment error": Unpaid, proofs unlocked. *)
Lemma send_payment_error response msg :
  lightning.SendPayment (lightningClient m) (MeltQuote_InvoiceRequest meltQuote)
    (MeltQuote_Amount meltQuote) = (response, Some msg) ->
  strings_Contains msg "payment error" = true ->
  MeltTokens_sendPayment L m Ys proofs meltQuote st
  = (inr (MeltQuote_with (MeltQuote_Preimage meltQuote) nut05.Unpaid meltQuote),
     unlocked (MeltQuote_Id meltQuote) Ys sent).
Proof.
  intros E Hc. unfold MeltTokens_sendPayment, ln_SendPayment.
  unfold mbind at 1, M_bind at 1, bind at 1. rewrite E, Hc.
  db_step UpdateMeltQuote_healthy healthy.
db_step RemovePendingProofs_healthy healthy. reflexivity.
Qed.

(** [SendPayment] fails with another error, or reports Failed: the probe
    decides. *)
Lemma send_other_error response msg :
  lightning.SendPayment (lightningClient m) (MeltQuote_InvoiceRequest meltQuote)
    (MeltQuote_Amount meltQuote) = (response, Some msg) ->
  strings_Contains msg "payment error" = false ->
  MeltTokens_sendPayment L m Ys proofs meltQuote st
  = MeltTokens_probe L m Ys proofs meltQuote sent.
Proof.
  intros E Hc. unfold MeltTokens_sendPayment, ln_SendPayment.
  unfold mbind at 1, M_bind at 1, bind at 1. now rewrite E, Hc.
Qed.

Lemma send_failed response :
  lightning.SendPayment (lightningClient m) (MeltQuote_InvoiceRequest meltQuote)
    (MeltQuote_Amount meltQuote) = (response, None) ->
  lightning.Status response = lightning.Failed ->
  MeltTokens_sendPayment L m Ys proofs meltQuote st
  = MeltTokens_probe L m Ys proofs meltQuote sent.
Proof.
  intros E Hs. unfold MeltTokens_sendPayment, ln_SendPayment.
  unfold mbind at 1, M_bind at 1, bind at 1. now rewrite E, Hs.
Qed.

(** [SendPayment] reports Succeeded: settled, Paid with the preimage. *)
Lemma send_succeeded response :
  lightning.SendPayment (lightningClient m) (MeltQuote_InvoiceRequest meltQuote)
    (MeltQuote_Amount meltQuote) = (response, None) ->
  lightning.Status response = lightning.Succeeded ->
  MeltTokens_sendPayment L m Ys proofs meltQuote st
  = (inr (MeltQuote_with (lightning.PaymentPreimage response) nut05.Paid meltQuote),
     settled L (MeltQuote_Id meltQuote) (lightning.PaymentPreimage response) Ys proofs sent).
Proof.
  intros E Hs. unfold MeltTokens_sendPayment, ln_SendPayment.
  unfold mbind at 1, M_bind at 1, bind at 1. rewrite E, Hs.
  db_step settleProofs_healthy healthy. db_step UpdateMeltQuote_healthy healthy. reflexivity.
Qed.

(** [SendPayment] reports Pending: nothing is written. *)
Lemma send_pending response :
  lightning.SendPayment (lightningClient m) (MeltQuote_InvoiceRequest meltQuote)
    (MeltQuote_Amount meltQuote) = (response, None) ->
  lightning.Status response = lightning.Pending ->
  MeltTokens_sendPayment L m Ys proofs meltQuote st = (inr meltQuote, sent).
Proof.
  intros E Hs. unfold MeltTokens_sendPayment, ln_SendPayment.
  unfold mbind at 1, M_bind at 1, bind at 1. now rewrite E, Hs.
Qed.
End SendPayment.

(** C3, at the failing input.  [SendPayment] reports Failed and the probe
    of the outgoing payment reports Failed, both without an error (what the
    CLN client returns for a failed payment): [MeltTokens] writes nothing
    after the lock, so the quote stays Pending and the proofs stay in the
    pending table, instead of the quote being Unpaid and the proofs
    unlocked. *)
Theorem MeltTokens_failed_payment_stays_pending :
  lightning.SendPayment failingClient "inv" 6
  = ({| lightning.PaymentPreimage := ""; lightning.Status := lightning.Failed |}, None)
  /\ lightning.OutgoingPaymentStatus failingClient "hash-inv"
     = ({| lightning.PaymentPreimage := ""; lightning.Status := lightning.Failed |}, None)
  /\ MeltTokens toyLibs (toyMint 0) "bolt11" "melt-1" [toyProof 4 "s1"; toyProof 2 "s2"]
       meltStore
     = (inr (toyMeltQuote "melt-1" "inv" 6 nut05.Pending),
        log_call (lightning.CallOutgoingPaymentStatus "hash-inv")
          (log_call (lightning.CallSendPayment "inv" 6)
             (locked toyLibs "melt-1" [toyProof 4 "s1"; toyProof 2 "s2"] meltStore)))
  /\ map DBProof_Y
       (pending_proofs
          (MeltTokens toyLibs (toyMint 0) "bolt11" "melt-1" [toyProof 4 "s1"; toyProof 2 "s2"]
             meltStore).2) = ["Y(s1)"; "Y(s2)"]
  /\ find_melt_quote "melt-1"
       (MeltTokens toyLibs (toyMint 0) "bolt11" "melt-1" [toyProof 4 "s1"; toyProof 2 "s2"]
          meltStore).2 = Some (toyMeltQuote "melt-1" "inv" 6 nut05.Pending).
Proof. repeat split; vm_compute; reflexivity. Qed.

(** ** Internal settlement *)

Lemma settleQuotesInternally_healthy m mintQuote meltQuote invoice st :
  db_faults st = [] ->
  lightning.InvoiceStatus (lightningClient m) (MintQuote_PaymentHash mintQuote)
  = (invoice, None) ->
  settleQuotesInternally m mintQuote meltQuote st
  = (inr (MeltQuote_with (lightning.Preimage invoice) nut05.Paid meltQuote),
     update_mint_quote (MintQuote_Id mintQuote) nut04.Paid
       (update_melt_quote (MeltQuote_Id meltQuote) (lightning.Preimage invoice) nut05.Paid
          (log_call (lightning.CallInvoiceStatus (MintQuote_PaymentHash mintQuote)) st))).
Proof.
  intros Hh E. unfold settleQuotesInternally, ln_InvoiceStatus.
  unfold mbind at 1, M_bind at 1, bind at 1. rewrite E.
  db_step UpdateMeltQuote_healthy Hh. db_step UpdateMintQuoteState_must_healthy Hh. reflexivity.
Qed.

(** An Issued mint quote that is settled internally is taken back to Paid. *)
Lemma settleQuotesInternally_reopens m mintQuote meltQuote invoice st :
  db_faults st = [] ->
  find_mint_quote (MintQuote_Id mintQuote) st = Some mintQuote ->
  MintQuote_State mintQuote = nut04.Issued ->
  lightning.InvoiceStatus (lightningClient m) (MintQuote_PaymentHash mintQuote)
  = (invoice, None) ->
  find_mint_quote (MintQuote_Id mintQuote) (settleQuotesInternally m mintQuote meltQuote st).2
  = Some (MintQuote_with_State nut04.Paid mintQuote).
Proof.
  intros Hh Hq Hs E. rewrite (settleQuotesInternally_healthy m _ _ invoice st Hh E).
  unfold find_mint_quote, update_mint_quote in *. cbn.
  rewrite find_mint_quote_update, Hq. cbn. now rewrite String.eqb_refl.
Qed.

(** An Issued quote is issued again after an internal melt: the mint quote
    of 6000 is minted (4), a melt quote for the same invoice is settled
    internally, which writes Paid over the Issued mint quote, and
    [MintTokens] succeeds a second time. *)
Lemma MintTokens_again_after_internal_melt :
  let minted :=
    MintTokens toyLibs (toyMint 0) "bolt11" "quote-1" [toyMessage 4 "B1"]
      (internalStore nut04.Paid []) in
  let melted :=
    MeltTokens toyLibs (toyMint 0) "bolt11" "melt-1" [toyProof 8192 "s1"] minted.2 in
  let again :=
    MintTokens toyLibs (toyMint 0) "bolt11" "quote-1" [toyMessage 4 "B2"] melted.2 in
  minted.1 = inr [toySignature 4 "B1"]
  /\ (MintQuote_State <$> find_mint_quote "quote-1" minted.2) = Some nut04.Issued
  /\ melted.1
     = inr (MeltQuote_with "preimage-hash-quote-1" nut05.Paid
              (toyMeltQuote "melt-1" "quote-1" 6000 nut05.Unpaid))
  /\ (MintQuote_State <$> find_mint_quote "quote-1" melted.2) = Some nut04.Paid
  /\ again.1 = inr [toySignature 4 "B2"].
Proof. repeat split; vm_compute; reflexivity. Qed.

Lemma find_melt_quote_update id id' preimage s l :
  find (fun q => String.eqb (MeltQuote_Id q) id')
    (map (fun q => if String.eqb (MeltQuote_Id q) id then MeltQuote_with preimage s q else q) l)
  = (fun q => if String.eqb (MeltQuote_Id q) id then MeltQuote_with preimage s q else q)
      <$> find (fun q => String.eqb (MeltQuote_Id q) id') l.
Proof.
  induction l as [|q l IH]; [reflexivity|].
  cbn [map find]. destruct (String.eqb (MeltQuote_Id q) id) eqn:E; cbn.
  - destruct (String.eqb (MeltQuote_Id q) id') eqn:E'; cbn; [now rewrite E | exact IH].
  - destruct (String.eqb (MeltQuote_Id q) id') eqn:E'; cbn; [now rewrite E | exact IH].
Qed.

Lemma find_melt_quote_Id id st q :
  find_melt_quote id st = Some q -> MeltQuote_Id q = id.
Proof.
  unfold find_melt_quote. intros H. apply find_some in H as [_ H].
  now apply String.eqb_eq.
Qed.





(** ** P2PK spending conditions *)

Lemma expired_test L tags :
  (Tags_Locktime tags >? 0) && (time_Now_Unix L >? Tags_Locktime tags) = true
  <-> locktime_expired L tags.
Proof.
  unfold locktime_expired. rewrite andb_true_iff, !Z.gtb_ltb, !Z.ltb_lt. reflexivity.
Qed.

Ltac check_cases :=
  cbn [app];
  repeat match goal with
         | |- context [(?n <? 1)%nat] => destruct (n <? 1)%nat; [reflexivity|]
         | |- context [HasValidSignatures ?L ?h ?w ?n ?k] =>
           destruct (HasValidSignatures L h w n k); reflexivity
         end.

(** C7, as amended.  For a P2PK-locked proof whose secret and tags parse:
    with a positive locktime in the past, an empty refund list makes the
    proof spendable whatever its witness, and a non-empty one requires one
    valid signature by the refund keys over SHA256(secret); otherwise the
    number of required signatures is max(1, n_sigs), and the allowed keys
    are the data key together with the pubkeys tag when n_sigs is positive
    (an empty pubkeys tag is then refused), and the data key alone when
    n_sigs is absent or not positive. *)
Theorem verifyP2PKLockedProof_conditions L proof secret tags :
  DeserializeSecret L (Proof_Secret proof) = inr secret ->
  ParseP2PKTags L (Secret_Tags secret) = inr tags ->
  (locktime_expired L tags -> Tags_Refund tags = [] ->
   verifyP2PKLockedProof L proof = None)
  /\ (locktime_expired L tags -> Tags_Refund tags <> [] ->
      verifyP2PKLockedProof L proof = signature_check L proof 1 (Tags_Refund tags))
  /\ (~ locktime_expired L tags ->
      forall pubkey, ParsePublicKey L (Secret_Data secret) = inr pubkey ->
        (0 < Tags_NSigs tags -> Tags_Pubkeys tags <> [] ->
         verifyP2PKLockedProof L proof
         = signature_check L proof (Z.max 1 (Tags_NSigs tags)) (pubkey :: Tags_Pubkeys tags))
        /\ (0 < Tags_NSigs tags -> Tags_Pubkeys tags = [] ->
            verifyP2PKLockedProof L proof = Some EmptyPubkeysErr)
        /\ (Tags_NSigs tags <= 0 ->
            verifyP2PKLockedProof L proof
            = signature_check L proof (Z.max 1 (Tags_NSigs tags)) [pubkey])).
Proof.
  intros Hsec Htags. unfold verifyP2PKLockedProof, signature_check. rewrite Hsec, Htags.
  fold (p2pk_witness L proof).
  destruct ((Tags_Locktime tags >? 0) && (time_Now_Unix L >? Tags_Locktime tags)) eqn:Hexp.
  - apply expired_test in Hexp. split; [|split].
    + intros _ ->. reflexivity.
    + intros _ Hne. destruct (Tags_Refund tags); [contradiction|]. cbn [length Nat.eqb].
      check_cases.
    + intros Hn. contradiction.
  - assert (Hn : ~ locktime_expired L tags).
    { intros H. apply expired_test in H. congruence. }
    split; [intros H; contradiction|]. split; [intros H; contradiction|].
    intros _ pubkey Hkey. rewrite Hkey. split; [|split].
    + intros Hpos Hne. rewrite (proj2 (Z.gtb_lt _ _)) by exact Hpos.
      destruct (Tags_Pubkeys tags); [contradiction|]. cbn [length Nat.eqb].
      rewrite Z.max_r by lia.
      check_cases.
    + intros Hpos ->. now rewrite (proj2 (Z.gtb_lt _ _)) by exact Hpos.
    + intros Hle. replace (Tags_NSigs tags >? 0) with false
        by (symmetry; rewrite Z.gtb_ltb; apply Z.ltb_ge; exact Hle).
      rewrite Z.max_l by lia.
      check_cases.
Qed.

Lemma verifyP2PKLockedProof_conditions_witness :
  verifyP2PKLockedProof toyLibs (lockedProof "P2PK:expired" "") = None
  /\ verifyP2PKLockedProof toyLibs (lockedProof "P2PK:expired,refund" "")
     = signature_check toyLibs (lockedProof "P2PK:expired,refund" "") 1 ["refund-key"]
  /\ verifyP2PKLockedProof toyLibs secondKeyProof
     = signature_check toyLibs secondKeyProof (Z.max 1 0) ["data-key"].
Proof.
  split; [|split].
  - destruct (verifyP2PKLockedProof_conditions toyLibs (lockedProof "P2PK:expired" "")
                (toySecret "P2PK:expired") (toyTags 0 [] 1 []) eq_refl eq_refl)
      as (Hfree & _ & _).
    apply Hfree; [|reflexivity]. split; cbn; lia.
  - destruct (verifyP2PKLockedProof_conditions toyLibs
                (lockedProof "P2PK:expired,refund" "")
                (toySecret "P2PK:expired,refund") (toyTags 0 [] 1 ["refund-key"])
                eq_refl eq_refl) as (_ & Hrefund & _).
    apply Hrefund; [|discriminate]. split; cbn; lia.
  - destruct (verifyP2PKLockedProof_conditions toyLibs secondKeyProof
                (toySecret "P2PK:pubkeys") (toyTags 0 ["second-key"] 0 [])
                eq_refl eq_refl) as (_ & _ & Hlive).
    assert (Hn : ~ locktime_expired toyLibs (toyTags 0 ["second-key"] 0 [])).
    { intros [H _]. cbn in H. lia. }
    destruct (Hlive Hn "data-key" eq_refl) as (_ & _ & Habsent).
    apply Habsent. cbn. lia.
Defined.

(** C7 as stated fails in two places.  The keys of the [pubkeys] tag are not
    allowed keys when [n_sigs] is absent: a proof signed by one of them only
    is refused.  And after the locktime the refund keys need not reach the
    threshold: with [n_sigs] 2, one signature by a refund key is accepted. *)
Lemma pubkeys_and_threshold_ignored :
  ~ (forall L proof secret tags pubkey,
       DeserializeSecret L (Proof_Secret proof) = inr secret ->
       ParseP2PKTags L (Secret_Tags secret) = inr tags ->
       ~ locktime_expired L tags ->
       ParsePublicKey L (Secret_Data secret) = inr pubkey ->
       verifyP2PKLockedProof L proof
       = signature_check L proof (Z.max 1 (Tags_NSigs tags)) (pubkey :: Tags_Pubkeys tags))
  /\ ~ (forall L proof secret tags,
          DeserializeSecret L (Proof_Secret proof) = inr secret ->
          ParseP2PKTags L (Secret_Tags secret) = inr tags ->
          locktime_expired L tags ->
          Tags_Refund tags <> [] ->
          verifyP2PKLockedProof L proof
          = signature_check L proof (Z.max 1 (Tags_NSigs tags)) (Tags_Refund tags)).
Proof.
  split.
  - intros H.
    specialize (H toyLibs secondKeyProof (toySecret "P2PK:pubkeys")
                  (toyTags 0 ["second-key"] 0 []) "data-key" eq_refl eq_refl).
    assert (Hn : ~ locktime_expired toyLibs (toyTags 0 ["second-key"] 0 [])).
    { intros [Hl _]. cbn in Hl. lia. }
    specialize (H Hn eq_refl). vm_compute in H. discriminate H.
  - intros H.
    specialize (H toyLibs refundProof (toySecret "P2PK:expired,refund,n_sigs=2")
                  (toyTags 2 [] 1 ["refund-key"]) eq_refl eq_refl).
    assert (He : locktime_expired toyLibs (toyTags 2 [] 1 ["refund-key"])).
    { split; cbn; lia. }
    assert (Hr : Tags_Refund (toyTags 2 [] 1 ["refund-key"]) <> []) by discriminate.
    specialize (H He Hr). vm_compute in H. discriminate H.
Qed.

(** The two sides of the second place: the code accepts the proof, the
    threshold of the claim would refuse it. *)
Example refund_below_threshold :
  verifyP2PKLockedProof toyLibs refundProof = None
  /\ signature_check toyLibs refundProof 2 ["refund-key"] = Some NotEnoughSignaturesErr.
Proof. split; vm_compute; reflexivity. Qed.

(** ** Scenarios of mint_integration_test.go, on the closed instances *)

(** TestMintTokens: outputs over the quote amount, an unknown keyset, a
    first mint, a second mint, and blinded messages that are already
    signed. *)
Example mint_outputs_over_quote :
  (MintTokens toyLibs (toyMint 0) "bolt11" "quote-1" [toyMessage 8192 "B1"] paidStore).1
  = inl OutputsOverQuoteAmountErr.
Proof. vm_compute. reflexivity. Qed.

Example mint_unknown_keyset :
  (MintTokens toyLibs (toyMint 0) "bolt11" "quote-1"
     [{| BlindedMessage_Amount := 4; BlindedMessage_B_ := "B1";
         BlindedMessage_Id := "0192384aa"; BlindedMessage_Witness := "" |}] paidStore).1
  = inl UnknownKeysetErr.
Proof. vm_compute. reflexivity. Qed.

Example mint_then_already_issued :
  let minted :=
    MintTokens toyLibs (toyMint 0) "bolt11" "quote-1"
      [toyMessage 4 "B1"; toyMessage 4 "B2"] paidStore in
  minted.1 = inr [toySignature 4 "B1"; toySignature 4 "B2"]
  /\ (MintTokens toyLibs (toyMint 0) "bolt11" "quote-1"
        [toyMessage 4 "B1"; toyMessage 4 "B2"] minted.2).1
     = inl MintQuoteAlreadyIssued.
Proof. split; vm_compute; reflexivity. Qed.

Example mint_blinded_message_already_signed :
  (MintTokens toyLibs (toyMint 0) "bolt11" "quote-1" [toyMessage 4 "B1"]
     (set_mint_quotes (fun _ => [toyMintQuote "quote-1" 8 nut04.Paid]) signedStore)).1
  = inl BlindedMessageAlreadySigned.
Proof. vm_compute. reflexivity. Qed.

(** TestSwap: outputs over the inputs, duplicate proofs, a valid swap, the
    same proofs again, and a keyset with a fee of 100 ppk. *)
Example swap_outputs_over_inputs :
  (Swap toyLibs (toyMint 0) [toyProof 4 "s1"; toyProof 2 "s2"] [toyMessage 8192 "B1"]
     emptyStore).1 = inl InsufficientProofsAmount.
Proof. vm_compute. reflexivity. Qed.

Example swap_duplicate_proofs :
  (Swap toyLibs (toyMint 0) [toyProof 4 "s1"; toyProof 4 "s1"] [toyMessage 4 "B1"]
     emptyStore).1 = inl DuplicateProofs.
Proof. vm_compute. reflexivity. Qed.

Example swap_then_already_used :
  let swapped :=
    Swap toyLibs (toyMint 0) [toyProof 4 "s1"; toyProof 2 "s2"]
      [toyMessage 4 "B1"; toyMessage 2 "B2"] emptyStore in
  swapped.1 = inr [toySignature 4 "B1"; toySignature 2 "B2"]
  /\ (Swap toyLibs (toyMint 0) [toyProof 4 "s1"; toyProof 2 "s2"]
        [toyMessage 4 "B3"; toyMessage 2 "B4"] swapped.2).1
     = inl ProofAlreadyUsedErr.
Proof. split; vm_compute; reflexivity. Qed.

Example swap_with_fees :
  TransactionFees (toyMint 100) [toyProof 4 "s1"; toyProof 4 "s2"] = 1
  /\ (Swap toyLibs (toyMint 100) [toyProof 4 "s1"; toyProof 4 "s2"]
        [toyMessage 4 "B1"; toyMessage 4 "B2"] emptyStore).1
     = inl InsufficientProofsAmount
  /\ (Swap toyLibs (toyMint 100) [toyProof 4 "s1"; toyProof 4 "s2"]
        [toyMessage 4 "B1"; toyMessage 2 "B2"; toyMessage 1 "B3"] emptyStore).1
     = inr [toySignature 4 "B1"; toySignature 2 "B2"; toySignature 1 "B3"].
Proof. repeat split; vm_compute; reflexivity. Qed.

(** TestNUT11P2PK: a locked proof without a witness, signed by another
    key, and signed by the key it is locked to. *)
Example swap_locked_proofs :
  (Swap toyLibs (toyMint 0) [lockedProof "P2PK:" ""] [toyMessage 1 "B1"] emptyStore).1
  = inl InvalidWitness
  /\ (Swap toyLibs (toyMint 0) [lockedProof "P2PK:" "another-key/H(P2PK:)"]
        [toyMessage 1 "B1"] emptyStore).1 = inl NotEnoughSignaturesErr
  /\ (Swap toyLibs (toyMint 0) [lockedProof "P2PK:" "data-key/H(P2PK:)"]
        [toyMessage 1 "B1"] emptyStore).1 = inr [toySignature 1 "B1"].
Proof. repeat split; vm_compute; reflexivity. Qed.

(** ** What a computation does to the tables *)

Lemma tables_faults fs st : tables (set_db_faults fs st) = tables st.
Proof. reflexivity. Qed.

Lemma tables_idem st T : tables st = T -> tables T = T.
Proof. now intros <-. Qed.

Lemma outcome_ret {A} (a : A) T (Q : Error + A -> Store -> Prop) :
  (tables T = T -> Q (inr a) T) -> outcome (mret a) T Q.
Proof. intros H st Hst. cbn. rewrite Hst. apply H. now apply (tables_idem st). Qed.

Lemma outcome_throw {A} e T (Q : Error + A -> Store -> Prop) :
  (tables T = T -> Q (inl e) T) -> outcome (throw e) T Q.
Proof. intros H st Hst. cbn. rewrite Hst. apply H. now apply (tables_idem st). Qed.

Lemma outcome_bind {A B} (c : M A) (k : A -> M B) T R (Q : Error + B -> Store -> Prop) :
  outcome c T R ->
  (forall e T', tables T' = T' -> R (inl e) T' -> Q (inl e) T') ->
  (forall a T', tables T' = T' -> R (inr a) T' -> outcome (k a) T' Q) ->
  outcome (c ≫= k) T Q.
Proof.
  intros Hc He Hk st Hst. unfold mbind, M_bind, bind.
  specialize (Hc st Hst). destruct (c st) as [[e|a] st1]; cbn in *.
  - now apply He.
  - now apply (Hk a (tables st1)).
Qed.

Lemma outcome_db_call {A} (f : Store -> DBResult A * Store) T
    (Q : Error + DBResult A -> Store -> Prop) :
  (tables T = T -> Q (inr DBFail) T) ->
  (forall st, tables st = T -> Q (inr (f st).1) (tables (f st).2)) ->
  outcome (db_call f) T Q.
Proof.
  intros Hfail Hf st Hst. unfold db_call.
  destruct (db_faults st) as [|[] fs]; cbn.
  - specialize (Hf st Hst). now destruct (f st).
  - rewrite tables_faults, Hst. apply Hfail. now apply (tables_idem st).
  - specialize (Hf (set_db_faults fs st) Hst). now destruct (f (set_db_faults fs st)).
Qed.

Lemma outcome_ret_bind {A B} (a : A) (k : A -> M B) T (Q : Error + B -> Store -> Prop) :
  outcome (k a) T Q -> outcome (mret a ≫= k) T Q.
Proof. intros H st Hst. exact (H st Hst). Qed.

Lemma outcome_weaken {A} (c : M A) T (Q Q' : Error + A -> Store -> Prop) :
  outcome c T Q -> (forall r T', tables T' = T' -> Q r T' -> Q' r T') -> outcome c T Q'.
Proof. intros Hc HQ st Hst. apply HQ; [reflexivity|]. apply Hc, Hst. Qed.

Lemma outcome_run {A} (c : M A) st r st' (Q : Error + A -> Store -> Prop) :
  outcome c (tables st) Q -> c st = (r, st') -> Q r (tables st').
Proof. intros Hc E. specialize (Hc st eq_refl). now rewrite E in Hc. Qed.

Lemma store_eq (a b : Store) :
  mint_quotes a = mint_quotes b -> melt_quotes a = melt_quotes b ->
  pending_proofs a = pending_proofs b -> used_proofs a = used_proofs b ->
  blind_signatures a = blind_signatures b -> db_faults a = db_faults b ->
  ln_calls a = ln_calls b -> a = b.
Proof. destruct a, b; cbn; intros; subst; reflexivity. Qed.

Lemma tables_no_faults T : tables T = T -> db_faults T = [].
Proof. intros H. now rewrite <- H. Qed.

Lemma add_signatures_nil T : tables T = T -> add_signatures [] T = T.
Proof.
  intros H. apply store_eq; cbn; try reflexivity. apply app_nil_r.
Qed.

Lemma add_signatures_none st : add_signatures [] st = st.
Proof. destruct st. unfold add_signatures, set_blind_signatures. cbn. now rewrite app_nil_r. Qed.

Lemma add_signatures_app a b T :
  add_signatures b (add_signatures a T) = add_signatures (a ++ b) T.
Proof. apply store_eq; cbn; try reflexivity. now rewrite app_assoc. Qed.

Lemma tables_add_signatures a T : tables T = T -> tables (add_signatures a T) = add_signatures a T.
Proof. intros H. apply store_eq; cbn; try reflexivity. now rewrite (tables_no_faults T H). Qed.

(** ** The signer *)

Lemma SaveBlindSignature_outcome B_ sig T :
  outcome (SaveBlindSignature B_ sig) T
    (fun r T' => r = inr DBFail /\ T' = T
                 \/ r = inr (DBOk tt) /\ T' = add_signatures [(B_, sig)] T).
Proof.
  apply outcome_db_call; [now left|]. intros st <-. right. split; reflexivity.
Qed.

Lemma signBlindedMessages_outcome L m bms T :
  outcome (signBlindedMessages L m bms) T
    (fun r T' => exists saved,
       Forall2 (signs L m) (take (length saved) bms) saved
       /\ T' = add_signatures (zip (map BlindedMessage_B_ bms) saved) T
       /\ forall sigs, r = inr sigs -> sigs = saved /\ length sigs = length bms).
Proof.
  revert T. induction bms as [|msg rest IH]; intros T.
  - apply outcome_ret. intros HT. exists []. rewrite add_signatures_nil by exact HT.
    split; [apply Forall2_nil_2; reflexivity|]. split; [reflexivity|].
    intros sigs E. injection E as <-. now split.
  - assert (Hnone : forall e, tables T = T ->
              exists saved,
                Forall2 (signs L m) (take (length saved) (msg :: rest)) saved
                /\ T = add_signatures (zip (map BlindedMessage_B_ (msg :: rest)) saved) T
                /\ forall sigs, @inl Error (list BlindedSignature) e = inr sigs ->
                     sigs = saved /\ length sigs = length (msg :: rest)).
    { intros e HT. exists []. rewrite add_signatures_nil by exact HT.
      split; [apply Forall2_nil_2; reflexivity|]. split; [reflexivity|]. discriminate. }
    cbn [signBlindedMessages].
    destruct (keysets m !! BlindedMessage_Id msg) as [known|] eqn:Eknown;
      [|apply outcome_throw, Hnone].
    destruct (activeKeysets m !! BlindedMessage_Id msg) as [keyset|] eqn:Eactive;
      [|apply outcome_throw, Hnone].
    destruct (MintKeyset_Keys keyset !! BlindedMessage_Amount msg) as [key|] eqn:Ekey;
      [|apply outcome_throw, Hnone].
    destruct (hex_DecodeString L (BlindedMessage_B_ msg)) as [?|B_bytes] eqn:Ehex;
      [apply outcome_throw, Hnone|].
    destruct (ParsePubKey L B_bytes) as [?|B_] eqn:Eparse;
      [apply outcome_throw, Hnone|].
    destruct (GenerateDLEQ L (PrivateKey key) B_ (SignBlindedMessage L B_ (PrivateKey key)))
      as [e s] eqn:Edleq.
    set (sig := {| BlindedSignature_Amount := BlindedMessage_Amount msg;
                   BlindedSignature_C_ := SignBlindedMessage L B_ (PrivateKey key);
                   BlindedSignature_Id := MintKeyset_Id keyset;
                   BlindedSignature_DLEQ := {| DLEQ_E := e; DLEQ_S := s |} |}).
    assert (Hsig : signs L m msg sig).
    { exists keyset, key, B_bytes, B_. repeat split; eauto. now rewrite Edleq. }
    eapply outcome_bind; [apply SaveBlindSignature_outcome| |].
    + intros e0 T' _ [[? _]|[? _]]; discriminate.
    + intros a T' _ [[[= ->] ->]|[[= ->] ->]].
      * apply outcome_throw, Hnone.
      * eapply outcome_bind; [apply IH| |].
        -- intros e0 T' _ (saved & Hsaved & -> & _). exists (sig :: saved). cbn.
           rewrite add_signatures_app. split; [now constructor|].
           split; [reflexivity|discriminate].
        -- intros sigs T' _ (saved & Hsaved & -> & Hok).
           destruct (Hok sigs eq_refl) as [-> Hlen].
           apply outcome_ret. intros _. exists (sig :: saved). cbn.
           rewrite add_signatures_app. split; [now constructor|]. split; [reflexivity|].
           intros sigs E. injection E as <-. cbn. now rewrite Hlen.
Qed.

(** ** The validator, whatever the fault schedule *)

Lemma GetPendingProofs_outcome Ys T :
  outcome (GetPendingProofs Ys) T
    (fun r T' => T' = T
       /\ (r = inr DBFail
           \/ r = inr (DBOk (filter (fun p => mem_string (DBProof_Y p) Ys = true)
                               (pending_proofs T))))).
Proof.
  apply outcome_db_call; [intros; split; [reflexivity|now left]|].
  intros st <-. split; [reflexivity|now right].
Qed.

Lemma GetProofsUsed_outcome Ys T :
  outcome (GetProofsUsed Ys) T
    (fun r T' => T' = T
       /\ (r = inr DBFail
           \/ r = inr (DBOk (filter (fun p => mem_string (DBProof_Y p) Ys = true)
                               (used_proofs T))))).
Proof.
  apply outcome_db_call; [intros; split; [reflexivity|now left]|].
  intros st <-. split; [reflexivity|now right].
Qed.

Lemma length_eqb_0_nil {A} (l : list A) : (length l =? 0)%nat = true <-> l = [].
Proof. destruct l; cbn; split; congruence. Qed.

Lemma verifyProofs_outcome L m proofs Ys T :
  outcome (verifyProofs L m proofs Ys) T
    (fun r T' => T' = T
       /\ (r = inr tt ->
           proofs <> []
           /\ filter (fun p => mem_string (DBProof_Y p) Ys = true) (pending_proofs T) = []
           /\ filter (fun p => mem_string (DBProof_Y p) Ys = true) (used_proofs T) = []
           /\ CheckDuplicateProofs L proofs = false
           /\ first_error (verifyProof L m) proofs = None)).
Proof.
  unfold verifyProofs.
  destruct (length proofs =? 0)%nat eqn:Elen;
    [apply outcome_throw; intros _; split; [reflexivity|discriminate]|].
  assert (Hne : proofs <> []).
  { intros ->. discriminate. }
  eapply outcome_bind; [apply GetPendingProofs_outcome| |].
  { intros e T' _ [_ [?|?]]; discriminate. }
  intros r T' _ [-> [[= ->]|[= ->]]];
    [apply outcome_throw; intros _; split; [reflexivity|discriminate]|].
  cbn [rows].
  destruct (length (filter _ (pending_proofs T)) =? 0)%nat eqn:Epending; cbn [negb];
    [|apply outcome_throw; intros _; split; [reflexivity|discriminate]].
  apply length_eqb_0_nil in Epending.
  eapply outcome_bind; [apply GetProofsUsed_outcome| |].
  { intros e T' _ [_ [?|?]]; discriminate. }
  intros r T' _ [-> [[= ->]|[= ->]]];
    [apply outcome_throw; intros _; split; [reflexivity|discriminate]|].
  cbn [rows].
  destruct (length (filter _ (used_proofs T)) =? 0)%nat eqn:Eused; cbn [negb];
    [|apply outcome_throw; intros _; split; [reflexivity|discriminate]].
  apply length_eqb_0_nil in Eused.
  destruct (CheckDuplicateProofs L proofs) eqn:Edup;
    [apply outcome_throw; intros _; split; [reflexivity|discriminate]|].
  destruct (first_error (verifyProof L m) proofs) eqn:Efirst;
    [apply outcome_throw; intros _; split; [reflexivity|discriminate]|].
  apply outcome_ret. intros _. split; [reflexivity|]. intros _. repeat split; assumption.
Qed.

Lemma GetBlindSignatures_outcome B_s T :
  outcome (GetBlindSignatures B_s) T
    (fun r T' => T' = T
       /\ (r = inr DBFail
           \/ r = inr (DBOk (snd <$> filter (fun r => mem_string (fst r) B_s = true)
                                       (blind_signatures T))))).
Proof.
  apply outcome_db_call; [intros; split; [reflexivity|now left]|].
  intros st <-. split; [reflexivity|now right].
Qed.

Lemma SaveProofs_outcome L proofs Ys T :
  hashProofs L proofs = Some Ys ->
  outcome (SaveProofs L proofs) T
    (fun r T' => r = inr DBFail /\ T' = T
                 \/ r = inr (DBOk tt) /\ T' = add_used (proof_rows L "" proofs) T).
Proof.
  intros Hys. apply outcome_db_call; [now left|].
  intros st <-. right. unfold insert_rows.
  destruct (proof_rows_mapM L "" proofs Ys Hys) as [-> _]. split; reflexivity.
Qed.

(** ** Swap, whatever the fault schedule *)

Lemma Swap_outcome L m proofs blindedMessages T :
  outcome (Swap L m proofs blindedMessages) T
    (fun r T' =>
       match r with
       | inl _ =>
         T' = T
         \/ exists Ys saved,
              hashProofs L proofs = Some Ys
              /\ filter (fun p => mem_string (DBProof_Y p) Ys = true) (pending_proofs T) = []
              /\ filter (fun p => mem_string (DBProof_Y p) Ys = true) (used_proofs T) = []
              /\ T' = add_signatures saved T
       | inr sigs =>
         exists Ys,
           hashProofs L proofs = Some Ys
           /\ proofs <> []
           /\ filter (fun p => mem_string (DBProof_Y p) Ys = true) (pending_proofs T) = []
           /\ filter (fun p => mem_string (DBProof_Y p) Ys = true) (used_proofs T) = []
           /\ CheckDuplicateProofs L proofs = false
           /\ first_error (verifyProof L m) proofs = None
           /\ existsb (fun msg => sum64 BlindedMessage_Amount blindedMessages
                                    <? BlindedMessage_Amount msg) blindedMessages = false
           /\ (sub64 (sum64 Proof_Amount proofs) (TransactionFees m proofs)
                 <? sum64 BlindedMessage_Amount blindedMessages) = false
           /\ filter (fun r => mem_string (fst r) (map BlindedMessage_B_ blindedMessages) = true)
                (blind_signatures T) = []
           /\ (ProofsSigAll L proofs = true ->
               verifyP2PKBlindedMessages L proofs blindedMessages = None)
           /\ Forall2 (signs L m) blindedMessages sigs
           /\ T' = add_used (proof_rows L "" proofs)
                     (add_signatures (zip (map BlindedMessage_B_ blindedMessages) sigs) T)
       end).
Proof.
  unfold Swap.
  destruct (hashProofs L proofs) as [Ys|] eqn:Hys; [|apply outcome_throw; now left].
  destruct (existsb _ blindedMessages) eqn:Eover; [apply outcome_throw; now left|].
  destruct (sub64 _ _ <? _) eqn:Efee; [apply outcome_throw; now left|].
  eapply outcome_bind; [apply verifyProofs_outcome| |].
  { intros e T' HT [-> _]. now left. }
  intros [] T' _ [-> Hverify].
  destruct (Hverify eq_refl) as (Hne & Hpending & Hused & Hdup & Hfirst).
  eapply outcome_bind; [apply GetBlindSignatures_outcome| |].
  { intros e T' _ [_ [?|?]]; discriminate. }
  intros r T' _ [-> [[= ->]|[= ->]]]; [apply outcome_throw; now left|].
  destruct (0 <? length _)%nat eqn:Esigned; [apply outcome_throw; now left|].
  assert (Hunsigned :
    filter (fun r => mem_string (fst r) (map BlindedMessage_B_ blindedMessages) = true)
      (blind_signatures T) = []).
  { apply Nat.ltb_ge in Esigned. rewrite length_fmap in Esigned.
    destruct (filter _ (blind_signatures T)); [reflexivity|cbn in Esigned; lia]. }
  eapply outcome_bind with
    (R := fun r T' => T' = T /\ (r = inr tt ->
            ProofsSigAll L proofs = true ->
            verifyP2PKBlindedMessages L proofs blindedMessages = None)).
  { destruct (ProofsSigAll L proofs) eqn:Esigall.
    - destruct (verifyP2PKBlindedMessages L proofs blindedMessages) eqn:Ep2pk.
      + apply outcome_throw. intros _. split; [reflexivity|discriminate].
      + apply outcome_ret. intros _. split; [reflexivity|]. intros _ _. reflexivity.
    - apply outcome_ret. intros _. split; [reflexivity|]. intros _. discriminate. }
  { intros e T' HT [-> _]. now left. }
  intros [] T' _ [-> Hsigall]. specialize (Hsigall eq_refl).
  eapply outcome_bind; [apply signBlindedMessages_outcome| |].
  { intros e T' _ (saved & _ & -> & _). right. exists Ys. now eexists. }
  intros sigs T' _ (saved & Hsaved & -> & Hok). destruct (Hok sigs eq_refl) as [<- Hlen].
  rewrite Hlen, firstn_all in Hsaved.
  eapply outcome_bind; [apply (SaveProofs_outcome L proofs Ys), Hys| |].
  { intros e T' _ [[? _]|[? _]]; discriminate. }
  intros r T' _ [[[= ->] ->]|[[= ->] ->]].
  - apply outcome_throw. intros _. right. exists Ys. now eexists.
  - apply outcome_ret. intros _. exists Ys. repeat split; assumption.
Qed.

Lemma CheckDuplicateProofs_false L proofs Ys :
  hashProofs L proofs = Some Ys -> CheckDuplicateProofs L proofs = false -> NoDup Ys.
Proof.
  intros Hys Hdup. destruct (decide (NoDup Ys)) as [H|H]; [exact H|].
  apply (CheckDuplicateProofs_Ys L proofs Ys Hys) in H. congruence.
Qed.

Lemma not_in_rows (Ys : list string) (l : list DBProof) Y :
  filter (fun p => mem_string (DBProof_Y p) Ys = true) l = [] ->
  Y ∈ Ys -> ~ exists row, row ∈ l /\ DBProof_Y row = Y.
Proof.
  intros Hnil HY (row & Hrow & <-).
  exact (proj1 (filter_rows_nil Ys l) Hnil row Hrow HY).
Qed.

Lemma in_proof_rows L quoteId proofs Ys Y :
  hashProofs L proofs = Some Ys -> Y ∈ Ys ->
  exists row, row ∈ proof_rows L quoteId proofs /\ DBProof_Y row = Y.
Proof.
  intros Hys HY. destruct (proof_rows_mapM L quoteId proofs Ys Hys) as [_ Hmap].
  rewrite <- Hmap in HY. apply list_elem_of_fmap in HY as (row & -> & Hrow). now exists row.
Qed.

(** X1. [Swap] spends its inputs exactly when it succeeds.  Whatever
    the repository does, a swap never touches the pending table, the quotes
    or the backend; when it fails the spent table is as before; when it
    succeeds the inputs were distinct, neither pending nor spent, and the
    spent table has grown by exactly their rows. *)
Theorem Swap_spends_exactly_on_success L m proofs blindedMessages st :
  let r := (Swap L m proofs blindedMessages st).1 in
  let st' := (Swap L m proofs blindedMessages st).2 in
  pending_proofs st' = pending_proofs st
  /\ mint_quotes st' = mint_quotes st
  /\ melt_quotes st' = melt_quotes st
  /\ ln_calls st' = ln_calls st
  /\ (forall e, r = inl e -> used_proofs st' = used_proofs st)
  /\ (forall sigs, r = inr sigs ->
        exists Ys,
          hashProofs L proofs = Some Ys
          /\ proofs <> []
          /\ NoDup Ys
          /\ (forall Y, Y ∈ Ys -> ~ is_pending Y st /\ ~ is_spent Y st /\ is_spent Y st')
          /\ used_proofs st' = (used_proofs st ++ proof_rows L "" proofs)%list).
Proof.
  intros r st'. subst r st'.
  pose proof (Swap_outcome L m proofs blindedMessages (tables st) st eq_refl) as H.
  destruct (Swap L m proofs blindedMessages st) as [[e|sigs] st']; cbn [fst snd] in *.
  - assert (H' : exists saved, tables st' = add_signatures saved (tables st)).
    { destruct H as [H|(Ys & saved & _ & _ & _ & H)]; [|now exists saved].
      exists []. now rewrite add_signatures_none. }
    clear H. destruct H' as (saved & H).
    repeat split; try (now apply (f_equal _ H)); try discriminate.
    + apply (f_equal pending_proofs) in H. exact H.
    + apply (f_equal mint_quotes) in H. exact H.
    + apply (f_equal melt_quotes) in H. exact H.
    + apply (f_equal ln_calls) in H. exact H.
    + intros _ _. apply (f_equal used_proofs) in H. exact H.
  - destruct H as (Ys & Hys & Hne & Hpending & Hused & Hdup & _ & _ & _ & _ & _ & _ & H).
    repeat split; try discriminate.
    + apply (f_equal pending_proofs) in H. exact H.
    + apply (f_equal mint_quotes) in H. exact H.
    + apply (f_equal melt_quotes) in H. exact H.
    + apply (f_equal ln_calls) in H. exact H.
    + intros sigs' _. exists Ys. apply (f_equal used_proofs) in H. cbn in H.
      split; [exact Hys|]. split; [exact Hne|].
      split; [now apply (CheckDuplicateProofs_false L proofs)|].
      split; [|exact H]. intros Y HY. split; [|split].
      * exact (not_in_rows Ys _ Y Hpending HY).
      * exact (not_in_rows Ys _ Y Hused HY).
      * destruct (in_proof_rows L "" proofs Ys Y Hys HY) as (row & Hrow & HYrow).
        exists row. split; [|exact HYrow]. rewrite H. apply elem_of_app. now right.
Qed.

Lemma signs_Amount L m msg sig :
  signs L m msg sig -> BlindedSignature_Amount sig = BlindedMessage_Amount msg.
Proof. intros (keyset & key & B_bytes & B_ & _ & _ & _ & _ & _ & ->). reflexivity. Qed.

Lemma total_cons {A} (f : A -> Z) x l : total f (x :: l) = f x + total f l.
Proof. reflexivity. Qed.

Lemma signs_amounts L m blindedMessages sigs :
  Forall2 (signs L m) blindedMessages sigs ->
  map BlindedSignature_Amount sigs = map BlindedMessage_Amount blindedMessages
  /\ total BlindedSignature_Amount sigs = total BlindedMessage_Amount blindedMessages.
Proof.
  induction 1 as [|msg sig bms sigs Hsig _ [IHmap IHtotal]]; [now split|].
  cbn [map]. rewrite !total_cons, (signs_Amount L m msg sig Hsig), IHmap, IHtotal. now split.
Qed.

Lemma TransactionFees_nonneg m inputs : 0 <= TransactionFees m inputs.
Proof.
  unfold TransactionFees, add64, wrap64, uint64_modulus.
  apply Z.div_pos; [|lia]. apply Z.mod_pos_bound. lia.
Qed.

(** X2. A successful [Swap] creates no value.  When the sums of the
    inputs and of the outputs fit in 64 bits and the fee does not exceed the
    inputs, every signature carries the amount of its message, and the
    amounts signed plus the fee are at most the amounts spent. *)
Theorem Swap_conserves_value L m proofs blindedMessages st sigs st' :
  Swap L m proofs blindedMessages st = (inr sigs, st') ->
  Forall (fun proof => 0 <= Proof_Amount proof) proofs ->
  Forall (fun bm => 0 <= BlindedMessage_Amount bm) blindedMessages ->
  total Proof_Amount proofs < uint64_modulus ->
  total BlindedMessage_Amount blindedMessages < uint64_modulus ->
  TransactionFees m proofs <= total Proof_Amount proofs ->
  map BlindedSignature_Amount sigs = map BlindedMessage_Amount blindedMessages
  /\ total BlindedSignature_Amount sigs + TransactionFees m proofs
     <= total Proof_Amount proofs.
Proof.
  intros Hswap Hin Hout Hin64 Hout64 Hfee.
  pose proof (outcome_run _ _ _ _ _ (Swap_outcome L m proofs blindedMessages (tables st)) Hswap)
    as (Ys & _ & _ & _ & _ & _ & _ & _ & Htest & _ & _ & Hsigs & _).
  destruct (signs_amounts L m blindedMessages sigs Hsigs) as [Hmap Htotal].
  split; [exact Hmap|]. rewrite Htotal.
  rewrite (Swap_fee_test_exact m proofs blindedMessages Hin Hout Hin64 Hout64) in Htest
    by (split; [apply TransactionFees_nonneg|exact Hfee]).
  apply Z.ltb_ge in Htest. lia.
Qed.

Lemma Swap_conserves_value_witness :
  map BlindedSignature_Amount
    [toySignature 4 "B1"; toySignature 2 "B2"; toySignature 1 "B3"]
  = map BlindedMessage_Amount [toyMessage 4 "B1"; toyMessage 2 "B2"; toyMessage 1 "B3"]
  /\ total BlindedSignature_Amount
       [toySignature 4 "B1"; toySignature 2 "B2"; toySignature 1 "B3"]
     + TransactionFees (toyMint 100) [toyProof 4 "s1"; toyProof 4 "s2"]
     <= total Proof_Amount [toyProof 4 "s1"; toyProof 4 "s2"].
Proof.
  apply (Swap_conserves_value toyLibs (toyMint 100) [toyProof 4 "s1"; toyProof 4 "s2"]
           [toyMessage 4 "B1"; toyMessage 2 "B2"; toyMessage 1 "B3"] emptyStore _
           (Swap toyLibs (toyMint 100) [toyProof 4 "s1"; toyProof 4 "s2"]
              [toyMessage 4 "B1"; toyMessage 2 "B2"; toyMessage 1 "B3"] emptyStore).2).
  - vm_compute. reflexivity.
  - repeat constructor; vm_compute; discriminate.
  - repeat constructor; vm_compute; discriminate.
  - vm_compute. reflexivity.
  - vm_compute. reflexivity.
  - vm_compute. discriminate.
Defined.

(** ** Issuing, whatever the fault schedule *)

Lemma quiet_refl T : quiet T T.
Proof.
  repeat split; try reflexivity; [exists []; now rewrite app_nil_r|now exists []].
Qed.

Lemma quiet_trans T1 T2 T3 : quiet T1 T2 -> quiet T2 T3 -> quiet T1 T3.
Proof.
  intros (Ha & Hb & Hc & Hd & [s1 He] & [c1 Hf]) (Ha' & Hb' & Hc' & Hd' & [s2 He'] & [c2 Hf']).
  repeat split; try congruence.
  - exists (s1 ++ s2)%list. now rewrite He', He, app_assoc.
  - exists (c2 ++ c1)%list. now rewrite Hf', Hf, app_assoc.
Qed.

Lemma quiet_log c T : quiet T (log_call c T).
Proof.
  repeat split; try reflexivity; [exists []; cbn; now rewrite app_nil_r|now exists [c]].
Qed.

Lemma quiet_add_signatures saved T : quiet T (add_signatures saved T).
Proof. repeat split; try reflexivity; [now exists saved|now exists []]. Qed.

Lemma GetMintQuote_outcome id T :
  outcome (GetMintQuote id) T
    (fun r T' => T' = T /\ (r = inr DBFail \/ r = inr (find_result (find_mint_quote id T)))).
Proof.
  apply outcome_db_call; [intros; split; [reflexivity|now left]|].
  intros st <-. split; [reflexivity|now right].
Qed.

Lemma UpdateMintQuoteState_outcome id s T :
  outcome (UpdateMintQuoteState id s) T
    (fun r T' => r = inr DBFail /\ T' = T
                 \/ r = inr (DBOk tt) /\ T' = update_mint_quote id s T).
Proof.
  apply outcome_db_call; [now left|]. intros st <-. right. split; reflexivity.
Qed.

Lemma ln_InvoiceStatus_outcome m hash T :
  outcome (ln_InvoiceStatus m hash) T
    (fun r T' => r = inr (lightning.InvoiceStatus (lightningClient m) hash)
                 /\ T' = log_call (lightning.CallInvoiceStatus hash) T).
Proof. intros st <-. split; reflexivity. Qed.

Lemma find_result_DBOk {A} (o : option A) a : find_result o = DBOk a -> o = Some a.
Proof. destruct o; cbn; congruence. Qed.

Lemma MintTokens_paid_outcome L m mintQuote blindedMessages T :
  outcome (MintTokens_paid L m mintQuote blindedMessages) T
    (fun r T' =>
       match r with
       | inl _ => quiet T T'
       | inr sigs =>
         MintQuote_State mintQuote <> nut04.Issued
         /\ existsb (fun msg => sum64 BlindedMessage_Amount blindedMessages
                                  <? BlindedMessage_Amount msg) blindedMessages = false
         /\ sum64 BlindedMessage_Amount blindedMessages <= MintQuote_Amount mintQuote
         /\ filter (fun r => mem_string (fst r) (map BlindedMessage_B_ blindedMessages) = true)
              (blind_signatures T) = []
         /\ Forall2 (signs L m) blindedMessages sigs
         /\ T' = update_mint_quote (MintQuote_Id mintQuote) nut04.Issued
                   (add_signatures (zip (map BlindedMessage_B_ blindedMessages) sigs) T)
       end).
Proof.
  unfold MintTokens_paid.
  destruct (nut04.State_eqb (MintQuote_State mintQuote) nut04.Issued) eqn:Estate;
    [apply outcome_throw; intros _; apply quiet_refl|].
  assert (Hstate : MintQuote_State mintQuote <> nut04.Issued).
  { intros E. rewrite E in Estate. discriminate. }
  destruct (existsb _ blindedMessages) eqn:Eover;
    [apply outcome_throw; intros _; apply quiet_refl|].
  destruct (_ >? MintQuote_Amount mintQuote) eqn:Eamount;
    [apply outcome_throw; intros _; apply quiet_refl|].
  rewrite Z.gtb_ltb in Eamount. apply Z.ltb_ge in Eamount.
  eapply outcome_bind; [apply GetBlindSignatures_outcome| |].
  { intros e T' _ [_ [?|?]]; discriminate. }
  intros r T' _ [-> [[= ->]|[= ->]]]; [apply outcome_throw; intros _; apply quiet_refl|].
  destruct (0 <? length _)%nat eqn:Esigned;
    [apply outcome_throw; intros _; apply quiet_refl|].
  assert (Hunsigned :
    filter (fun r => mem_string (fst r) (map BlindedMessage_B_ blindedMessages) = true)
      (blind_signatures T) = []).
  { apply Nat.ltb_ge in Esigned. rewrite length_fmap in Esigned.
    destruct (filter _ (blind_signatures T)); [reflexivity|cbn in Esigned; lia]. }
  eapply outcome_bind; [apply signBlindedMessages_outcome| |].
  { intros e T' _ (saved & _ & -> & _). apply quiet_add_signatures. }
  intros sigs T' _ (saved & Hsaved & -> & Hok). destruct (Hok sigs eq_refl) as [<- Hlen].
  rewrite Hlen, firstn_all in Hsaved.
  eapply outcome_bind; [apply UpdateMintQuoteState_outcome| |].
  { intros e T' _ [[? _]|[? _]]; discriminate. }
  intros r T' _ [[[= ->] ->]|[[= ->] ->]].
  - apply outcome_throw. intros _. apply quiet_add_signatures.
  - apply outcome_ret. intros _. repeat split; assumption.
Qed.

Lemma MintTokens_outcome L m method id blindedMessages T :
  outcome (MintTokens L m method id blindedMessages) T
    (fun r T' =>
       match r with
       | inl _ => quiet T T'
       | inr sigs =>
         exists mintQuote T1,
           method = BOLT11_METHOD
           /\ find_mint_quote id T = Some mintQuote
           /\ paid_not_issued m mintQuote
           /\ quiet T T1 /\ blind_signatures T1 = blind_signatures T
           /\ existsb (fun msg => sum64 BlindedMessage_Amount blindedMessages
                                    <? BlindedMessage_Amount msg) blindedMessages = false
           /\ sum64 BlindedMessage_Amount blindedMessages <= MintQuote_Amount mintQuote
           /\ filter (fun r => mem_string (fst r) (map BlindedMessage_B_ blindedMessages)
                                 = true) (blind_signatures T) = []
           /\ Forall2 (signs L m) blindedMessages sigs
           /\ T' = update_mint_quote (MintQuote_Id mintQuote) nut04.Issued
                     (add_signatures (zip (map BlindedMessage_B_ blindedMessages) sigs) T1)
       end).
Proof.
  unfold MintTokens.
  destruct (String.eqb method BOLT11_METHOD) eqn:Emethod; cbn [negb];
    [|apply outcome_throw; intros _; apply quiet_refl].
  apply String.eqb_eq in Emethod.
  eapply outcome_bind; [apply GetMintQuote_outcome| |].
  { intros e T' _ [_ [?|?]]; discriminate. }
  intros r T' _ [-> [[= ->]|[= ->]]]; [apply outcome_throw; intros _; apply quiet_refl|].
  destruct (find_mint_quote id T) as [mintQuote|] eqn:Efind; cbn [find_result];
    [|apply outcome_throw; intros _; apply quiet_refl].
  eapply outcome_bind with
    (R := fun r T1 => quiet T T1 /\ blind_signatures T1 = blind_signatures T
                      /\ (r = inr true -> paid_not_issued m mintQuote
                                          \/ MintQuote_State mintQuote = nut04.Issued)).
  { destruct (MintQuote_State mintQuote) eqn:Estate; cbn [nut04.State_eqb].
    - eapply outcome_bind; [apply ln_InvoiceStatus_outcome| |].
      { intros e T' _ [? _]. discriminate. }
      intros [invoice err] T' _ [[= Hinvoice] ->].
      destruct err as [msg|].
      + apply outcome_throw. intros _. split; [apply quiet_log|]. split; [reflexivity|].
        discriminate.
      + apply outcome_ret. intros _. split; [apply quiet_log|]. split; [reflexivity|].
        intros [= Hsettled]. left. unfold paid_not_issued. rewrite Estate.
        exists invoice. now split.
    - apply outcome_ret. intros _. split; [apply quiet_refl|]. split; [reflexivity|].
      intros _. left. unfold paid_not_issued. now rewrite Estate.
    - apply outcome_ret. intros _. split; [apply quiet_refl|]. split; [reflexivity|].
      intros _. now right. }
  { intros e T' _ [Hq _]. exact Hq. }
  intros [|] T1 _ (Hquiet & Hsigs & Hpaid); [|apply outcome_throw; intros _; exact Hquiet].
  specialize (Hpaid eq_refl).
  eapply outcome_weaken; [apply MintTokens_paid_outcome|].
  intros [e|sigs] T' _ H; [exact (quiet_trans _ _ _ Hquiet H)|].
  destruct H as (Hstate & Hover & Hamount & Hunsigned & Hsigned & ->).
  destruct Hpaid as [Hpaid|Hissued]; [|contradiction].
  exists mintQuote, T1. rewrite Hsigs in Hunsigned.
  do 9 (split; [assumption || reflexivity|]). reflexivity.
Qed.

Lemma find_mint_quote_issued id q T :
  find_mint_quote id T = Some q ->
  find_mint_quote id (update_mint_quote (MintQuote_Id q) nut04.Issued T)
  = Some (MintQuote_with_State nut04.Issued q).
Proof.
  intros Hq. unfold find_mint_quote, update_mint_quote in *. cbn.
  rewrite find_mint_quote_update. unfold find_mint_quote in Hq. rewrite Hq. cbn.
  now rewrite String.eqb_refl.
Qed.

(** X3. [MintTokens] issues no more than the quote.  When it
    succeeds, the quote was stored, paid and not yet issued, every
    signature is the one of its message, with the amount of the message,
    and, if the sum of the outputs fits in 64 bits, the amounts signed are
    at most the amount of the quote, which is now stored as Issued. *)
Theorem MintTokens_bounded_by_quote L m method id blindedMessages st sigs st' :
  MintTokens L m method id blindedMessages st = (inr sigs, st') ->
  Forall (fun bm => 0 <= BlindedMessage_Amount bm) blindedMessages ->
  total BlindedMessage_Amount blindedMessages < uint64_modulus ->
  exists mintQuote,
    find_mint_quote id st = Some mintQuote
    /\ paid_not_issued m mintQuote
    /\ Forall2 (signs L m) blindedMessages sigs
    /\ map BlindedSignature_Amount sigs = map BlindedMessage_Amount blindedMessages
    /\ total BlindedSignature_Amount sigs <= MintQuote_Amount mintQuote
    /\ find_mint_quote id st' = Some (MintQuote_with_State nut04.Issued mintQuote).
Proof.
  intros Hmint Hnonneg Hfits.
  pose proof (outcome_run _ _ _ _ _
                (MintTokens_outcome L m method id blindedMessages (tables st)) Hmint)
    as (q & T1 & _ & Hq & Hpaid & Hquiet & _ & _ & Hamount & _ & Hsigs & HT).
  destruct (signs_amounts L m blindedMessages sigs Hsigs) as [Hmap Htotal].
  exists q. split; [exact Hq|]. split; [exact Hpaid|]. split; [exact Hsigs|].
  split; [exact Hmap|]. split.
  - rewrite Htotal. now rewrite <- (sum64_exact BlindedMessage_Amount blindedMessages).
  - destruct Hquiet as (Hquotes & _).
    assert (Hq1 : find_mint_quote id (add_signatures
                    (zip (map BlindedMessage_B_ blindedMessages) sigs) T1) = Some q).
    { unfold find_mint_quote in *. cbn. now rewrite Hquotes. }
    apply find_mint_quote_issued in Hq1. rewrite <- HT in Hq1. exact Hq1.
Qed.

Lemma MintTokens_bounded_by_quote_witness :
  exists mintQuote,
    find_mint_quote "quote-1" paidStore = Some mintQuote
    /\ paid_not_issued (toyMint 0) mintQuote
    /\ Forall2 (signs toyLibs (toyMint 0)) [toyMessage 4 "B1"; toyMessage 2 "B2"]
         [toySignature 4 "B1"; toySignature 2 "B2"]
    /\ map BlindedSignature_Amount [toySignature 4 "B1"; toySignature 2 "B2"]
       = map BlindedMessage_Amount [toyMessage 4 "B1"; toyMessage 2 "B2"]
    /\ total BlindedSignature_Amount [toySignature 4 "B1"; toySignature 2 "B2"]
       <= MintQuote_Amount mintQuote
    /\ find_mint_quote "quote-1"
         (MintTokens toyLibs (toyMint 0) "bolt11" "quote-1"
            [toyMessage 4 "B1"; toyMessage 2 "B2"] paidStore).2
       = Some (MintQuote_with_State nut04.Issued mintQuote).
Proof.
  apply (MintTokens_bounded_by_quote toyLibs (toyMint 0) "bolt11" "quote-1"
           [toyMessage 4 "B1"; toyMessage 2 "B2"] paidStore).
  - vm_compute. reflexivity.
  - repeat constructor; vm_compute; discriminate.
  - vm_compute. reflexivity.
Defined.

(** ** Restore after issuing *)

Lemma find_app_none {A} (f : A -> bool) (old l : list A) :
  (forall r, r ∈ old -> f r = false) -> find f (old ++ l) = find f l.
Proof.
  induction old as [|x old IH]; intros H; [reflexivity|].
  cbn. rewrite (H x) by (apply elem_of_cons; now left).
  apply IH. intros r Hr. apply H, elem_of_cons. now right.
Qed.

Lemma find_app_zip (B_s : list string) :
  forall (sigs : list BlindedSignature) (old : list (string * BlindedSignature)),
    length B_s = length sigs -> NoDup B_s ->
    (forall r, r ∈ old -> fst r ∉ B_s) ->
    Forall2 (fun B_ sig =>
               snd <$> find (fun r => String.eqb (fst r) B_) (old ++ zip B_s sigs) = Some sig)
      B_s sigs.
Proof.
  induction B_s as [|B rest IH]; intros [|sig sigs] old Hlen Hnodup Hold;
    try discriminate; constructor.
  - rewrite find_app_none.
    + cbn. now rewrite String.eqb_refl.
    + intros r Hr. apply String.eqb_neq. intros E. apply (Hold r Hr).
      rewrite E. apply elem_of_cons. now left.
  - cbn [zip zip_with].
    replace (old ++ (B, sig) :: zip rest sigs)%list
      with ((old ++ [(B, sig)]) ++ zip rest sigs)%list by now rewrite <- app_assoc.
    apply NoDup_cons in Hnodup as [HB Hrest].
    apply IH; [now injection Hlen|exact Hrest|].
    intros r Hr. apply elem_of_app in Hr as [Hr|Hr].
    + intros Hin. apply (Hold r Hr). apply elem_of_cons. now right.
    + apply list_elem_of_singleton in Hr. now subst r.
Qed.

Lemma filter_signatures_nil (B_s : list string) (l : list (string * BlindedSignature)) :
  filter (fun r => mem_string (fst r) B_s = true) l = [] ->
  forall r, r ∈ l -> fst r ∉ B_s.
Proof.
  induction l as [|x l IH]; intros Hnil r Hr; [now apply elem_of_nil in Hr|].
  rewrite filter_cons in Hnil. destruct (decide (mem_string x.1 B_s = true)) as [E|E];
    [discriminate|].
  apply elem_of_cons in Hr as [->|Hr]; [|now apply IH].
  intros Hin. apply E, mem_string_elem_of, Hin.
Qed.

Lemma restore_all (blindedMessages : list BlindedMessage) sigs st :
  Forall2 (fun bm sig => lookup_signature (BlindedMessage_B_ bm) st = Some sig)
    blindedMessages sigs ->
  filter (fun bm => is_Some (lookup_signature (BlindedMessage_B_ bm) st)) blindedMessages
  = blindedMessages
  /\ omap (fun bm => lookup_signature (BlindedMessage_B_ bm) st) blindedMessages = sigs.
Proof.
  induction 1 as [|bm sig bms sigs Hbm _ [IHf IHo]]; [now split|].
  rewrite filter_cons. cbn [omap list_omap]. rewrite Hbm.
  destruct (decide _) as [_|E]; [|exfalso; apply E; now eexists].
  change (omap ?f bms) with (omap f bms). now rewrite IHf, IHo.
Qed.

Lemma restore_after_issue L m (blindedMessages : list BlindedMessage) sigs old st' :
  Forall2 (signs L m) blindedMessages sigs ->
  NoDup (map BlindedMessage_B_ blindedMessages) ->
  filter (fun r => mem_string (fst r) (map BlindedMessage_B_ blindedMessages) = true) old = [] ->
  blind_signatures st' = (old ++ zip (map BlindedMessage_B_ blindedMessages) sigs)%list ->
  db_faults st' = [] ->
  RestoreSignatures blindedMessages st' = (inr (blindedMessages, sigs), st').
Proof.
  intros Hsigs Hnodup Hold Htable Hhealthy.
  rewrite (RestoreSignatures_healthy blindedMessages st' Hhealthy).
  assert (Hall : Forall2 (fun bm sig => lookup_signature (BlindedMessage_B_ bm) st' = Some sig)
                   blindedMessages sigs).
  { unfold lookup_signature. rewrite Htable.
    assert (Hlen : length (map BlindedMessage_B_ blindedMessages) = length sigs).
    { rewrite length_map. exact (Forall2_length _ _ _ Hsigs). }
    pose proof (find_app_zip (map BlindedMessage_B_ blindedMessages) sigs old Hlen Hnodup
                  (filter_signatures_nil _ _ Hold)) as H.
    apply Forall2_fmap_l in H. exact H. }
  destruct (restore_all blindedMessages sigs st' Hall) as [-> ->]. reflexivity.
Qed.

(** X4. What [MintTokens] and [Swap] sign, [RestoreSignatures] gives
    back.  After a successful mint or swap of outputs with distinct [B_], a
    restore of the same outputs on a repository that answers returns all of
    them, each with the signature that was issued for it. *)
Theorem issued_signatures_are_restored L m blindedMessages st sigs st' :
  NoDup (map BlindedMessage_B_ blindedMessages) ->
  db_faults st' = [] ->
  (forall method id,
     MintTokens L m method id blindedMessages st = (inr sigs, st') ->
     RestoreSignatures blindedMessages st' = (inr (blindedMessages, sigs), st'))
  /\ (forall proofs,
        Swap L m proofs blindedMessages st = (inr sigs, st') ->
        RestoreSignatures blindedMessages st' = (inr (blindedMessages, sigs), st')).
Proof.
  intros Hnodup Hhealthy. split.
  - intros method id Hmint.
    pose proof (outcome_run _ _ _ _ _
                  (MintTokens_outcome L m method id blindedMessages (tables st)) Hmint)
      as (q & T1 & _ & _ & _ & _ & Hsame & _ & _ & Hold & Hsigs & HT).
    apply (restore_after_issue L m blindedMessages sigs (blind_signatures st));
      try assumption.
    apply (f_equal blind_signatures) in HT. cbn in HT. now rewrite Hsame in HT.
  - intros proofs Hswap.
    pose proof (outcome_run _ _ _ _ _
                  (Swap_outcome L m proofs blindedMessages (tables st)) Hswap)
      as (Ys & _ & _ & _ & _ & _ & _ & _ & _ & Hold & _ & Hsigs & HT).
    apply (restore_after_issue L m blindedMessages sigs (blind_signatures st));
      try assumption.
    apply (f_equal blind_signatures) in HT. exact HT.
Qed.

Lemma issued_signatures_are_restored_witness :
  RestoreSignatures [toyMessage 4 "B1"; toyMessage 2 "B2"]
    (MintTokens toyLibs (toyMint 0) "bolt11" "quote-1"
       [toyMessage 4 "B1"; toyMessage 2 "B2"] paidStore).2
  = (inr ([toyMessage 4 "B1"; toyMessage 2 "B2"], [toySignature 4 "B1"; toySignature 2 "B2"]),
     (MintTokens toyLibs (toyMint 0) "bolt11" "quote-1"
        [toyMessage 4 "B1"; toyMessage 2 "B2"] paidStore).2).
Proof.
  refine (proj1 (issued_signatures_are_restored toyLibs (toyMint 0)
                   [toyMessage 4 "B1"; toyMessage 2 "B2"] paidStore
                   [toySignature 4 "B1"; toySignature 2 "B2"] _ _ _) "bolt11" "quote-1" _).
  - apply NoDup_cons. split; [|apply NoDup_singleton].
    intros H. apply list_elem_of_singleton in H. discriminate.
  - vm_compute. reflexivity.
  - vm_compute. reflexivity.
Defined.

(** ** Signing on a repository that answers *)

Lemma SaveBlindSignature_healthy B_ sig st :
  db_faults st = [] ->
  SaveBlindSignature B_ sig st = (inr (DBOk tt), add_signatures [(B_, sig)] st).
Proof. intros H. unfold SaveBlindSignature. now rewrite db_call_healthy. Qed.

Lemma signBlindedMessages_prefix L m good sigs rest st :
  db_faults st = [] ->
  Forall2 (signs L m) good sigs ->
  signBlindedMessages L m (good ++ rest) st
  = match signBlindedMessages L m rest
            (add_signatures (zip (map BlindedMessage_B_ good) sigs) st) with
    | (inl e, st') => (inl e, st')
    | (inr sigs', st') => (inr (sigs ++ sigs')%list, st')
    end.
Proof.
  intros Hh Hgood. revert st Hh.
  induction Hgood as [|msg sig good sigs Hsig _ IH]; intros st Hh.
  - cbn [app map zip zip_with]. rewrite add_signatures_none.
    now destruct (signBlindedMessages L m rest st) as [[e|sigs'] st'].
  - destruct Hsig as (keyset & key & B_bytes & B_ & [known Hknown] & Hactive & Hkey & Hhex
                      & Hparse & ->).
    cbn [app signBlindedMessages]. rewrite Hknown, Hactive, Hkey, Hhex, Hparse.
    destruct (GenerateDLEQ L (PrivateKey key) B_ (SignBlindedMessage L B_ (PrivateKey key)))
      as [e s] eqn:Edleq.
    cbn [fst snd].
    rewrite (bind_ok _ _ _ _ _ (SaveBlindSignature_healthy _ _ st Hh)).
    unfold mbind at 1, M_bind, bind. rewrite IH by exact Hh.
    cbn [map zip zip_with]. rewrite add_signatures_app. cbn [app].
    now destruct (signBlindedMessages L m rest _) as [[e'|sigs'] st'].
Qed.

Lemma signBlindedMessages_unknown L m bad rest st :
  keysets m !! BlindedMessage_Id bad = None ->
  signBlindedMessages L m (bad :: rest) st = (inl UnknownKeysetErr, st).
Proof. intros H. cbn [signBlindedMessages]. now rewrite H. Qed.

Lemma unsigned_filter (B_s : list string) st :
  (forall B_, B_ ∈ B_s -> lookup_signature B_ st = None) ->
  filter (fun r => mem_string (fst r) B_s = true) (blind_signatures st) = [].
Proof.
  intros H. unfold lookup_signature in H.
  assert (Hin : forall r, r ∈ blind_signatures st -> fst r ∉ B_s).
  { intros r Hr HB. specialize (H _ HB).
    destruct (find _ (blind_signatures st)) eqn:E; [discriminate|].
    apply list_elem_of_In in Hr. pose proof (find_none _ _ E r Hr) as Hf. cbn in Hf.
    now rewrite String.eqb_refl in Hf. }
  clear H. induction (blind_signatures st) as [|x l IH]; [reflexivity|].
  rewrite filter_cons. destruct (decide _) as [E|_].
  - exfalso. apply (Hin x); [apply elem_of_cons; now left|].
    now apply mem_string_elem_of.
  - apply IH. intros r Hr. apply Hin, elem_of_cons. now right.
Qed.

Lemma GetBlindSignatures_healthy B_s st :
  db_faults st = [] ->
  GetBlindSignatures B_s st
  = (inr (DBOk (snd <$> filter (fun r => mem_string (fst r) B_s = true) (blind_signatures st))),
     st).
Proof. intros H. unfold GetBlindSignatures. now rewrite db_call_healthy. Qed.

(** X5. A mint that fails while signing burns the outputs signed so
    far.  On a repository that answers, for a paid quote and outputs that
    pass the amount checks and were never signed, if the outputs [good] are
    signed and the next one names an unknown keyset, [MintTokens] answers
    UnknownKeysetErr, the quote is stored as before, the signatures of
    [good] stay in the signature table, and the same request made again is
    answered BlindedMessageAlreadySigned. *)
Theorem MintTokens_failure_burns_outputs L m id mintQuote good bad rest sigs st :
  db_faults st = [] ->
  find_mint_quote id st = Some mintQuote ->
  MintQuote_State mintQuote = nut04.Paid ->
  existsb (fun msg => sum64 BlindedMessage_Amount (good ++ bad :: rest)
                        <? BlindedMessage_Amount msg) (good ++ bad :: rest) = false ->
  sum64 BlindedMessage_Amount (good ++ bad :: rest) <= MintQuote_Amount mintQuote ->
  (forall B_, B_ ∈ map BlindedMessage_B_ (good ++ bad :: rest) ->
              lookup_signature B_ st = None) ->
  good <> [] ->
  Forall2 (signs L m) good sigs ->
  keysets m !! BlindedMessage_Id bad = None ->
  exists st1,
    MintTokens L m BOLT11_METHOD id (good ++ bad :: rest) st = (inl UnknownKeysetErr, st1)
    /\ find_mint_quote id st1 = Some mintQuote
    /\ blind_signatures st1
       = (blind_signatures st ++ zip (map BlindedMessage_B_ good) sigs)%list
    /\ MintTokens L m BOLT11_METHOD id (good ++ bad :: rest) st1
       = (inl BlindedMessageAlreadySigned, st1).
Proof.
  intros Hh Hq Hpaid Hover Hamount Hunsigned Hgood Hsigs Hbad.
  apply Z.ltb_ge in Hamount. rewrite <- Z.gtb_ltb in Hamount.
  assert (Hpaid_run : forall st0, db_faults st0 = [] -> find_mint_quote id st0 = Some mintQuote ->
            MintTokens L m BOLT11_METHOD id (good ++ bad :: rest) st0
            = MintTokens_paid L m mintQuote (good ++ bad :: rest) st0).
  { intros st0 Hh0 Hq0. unfold MintTokens. rewrite String.eqb_refl. cbn [negb].
    rewrite (bind_ok _ _ _ _ _ (GetMintQuote_healthy id st0 Hh0)), Hq0. cbn [find_result].
    rewrite Hpaid. cbn [nut04.State_eqb]. now rewrite (bind_ok _ _ st0 true st0). }
  exists (add_signatures (zip (map BlindedMessage_B_ good) sigs) st).
  split; [|split; [exact Hq|split; [reflexivity|]]].
  - rewrite (Hpaid_run st Hh Hq). unfold MintTokens_paid.
    rewrite Hpaid. cbn [nut04.State_eqb]. rewrite Hover, Hamount.
    rewrite (bind_ok _ _ _ _ _ (GetBlindSignatures_healthy _ st Hh)).
    rewrite (unsigned_filter _ st Hunsigned). cbn [fmap list_fmap length Nat.ltb Nat.leb].
    unfold mbind at 1, M_bind, bind.
    rewrite (signBlindedMessages_prefix L m good sigs (bad :: rest) st Hh Hsigs).
    now rewrite (signBlindedMessages_unknown L m bad rest _ Hbad).
  - set (st1 := add_signatures (zip (map BlindedMessage_B_ good) sigs) st).
    assert (Hh1 : db_faults st1 = []) by exact Hh.
    assert (Hq1 : find_mint_quote id st1 = Some mintQuote) by exact Hq.
    rewrite (Hpaid_run st1 Hh1 Hq1). unfold MintTokens_paid.
    rewrite Hpaid. cbn [nut04.State_eqb]. rewrite Hover, Hamount.
    rewrite (bind_ok _ _ _ _ _ (GetBlindSignatures_healthy _ st1 Hh1)).
    subst st1.
    cbn [blind_signatures add_signatures set_blind_signatures].
    rewrite filter_app, (unsigned_filter _ st Hunsigned). cbn [app].
    destruct good as [|msg good']; [contradiction|].
    inversion Hsigs as [|? sig ? sigs' _ _]; subst.
    cbn [map zip zip_with]. rewrite filter_cons.
    destruct (decide _) as [_|E]; [reflexivity|].
    exfalso. apply E. apply mem_string_elem_of. cbn. apply elem_of_cons. now left.
Qed.

Lemma toy_signs_4 B_ : signs toyLibs (toyMint 0) (toyMessage 4 B_) (toySignature 4 B_).
Proof.
  exists (toyKeyset 0), {| PrivateKey := 13; PublicKey := "K4" |}, B_, B_.
  split; [eexists; reflexivity|]. repeat split; reflexivity.
Qed.

Lemma MintTokens_failure_burns_outputs_witness :
  exists st1,
    MintTokens toyLibs (toyMint 0) BOLT11_METHOD "quote-1"
      ([toyMessage 4 "B1"] ++ strangerMessage 2 "B2" :: []) paidStore
    = (inl UnknownKeysetErr, st1)
    /\ find_mint_quote "quote-1" st1 = Some (toyMintQuote "quote-1" 8 nut04.Paid)
    /\ blind_signatures st1
       = (blind_signatures paidStore
            ++ zip (map BlindedMessage_B_ [toyMessage 4 "B1"]) [toySignature 4 "B1"])%list
    /\ MintTokens toyLibs (toyMint 0) BOLT11_METHOD "quote-1"
         ([toyMessage 4 "B1"] ++ strangerMessage 2 "B2" :: []) st1
       = (inl BlindedMessageAlreadySigned, st1).
Proof.
  apply (MintTokens_failure_burns_outputs toyLibs (toyMint 0) "quote-1"
           (toyMintQuote "quote-1" 8 nut04.Paid) [toyMessage 4 "B1"] (strangerMessage 2 "B2") []
           [toySignature 4 "B1"] paidStore).
  - reflexivity.
  - reflexivity.
  - reflexivity.
  - vm_compute. reflexivity.
  - vm_compute. discriminate.
  - intros B_ _. reflexivity.
  - discriminate.
  - constructor; [apply toy_signs_4|constructor].
  - reflexivity.
Defined.

(** ** The state of proofs *)

Lemma existsb_spent (Ys : list string) y (used : list DBProof) :
  y ∈ Ys ->
  existsb (fun proof => String.eqb (DBProof_Y proof) y)
    (filter (fun p => mem_string (DBProof_Y p) Ys = true) used) = true
  <-> exists row, row ∈ used /\ DBProof_Y row = y.
Proof.
  intros Hy. rewrite existsb_exists. split.
  - intros (row & Hrow & E). apply list_elem_of_In, list_elem_of_filter in Hrow as [_ Hrow].
    apply String.eqb_eq in E. now exists row.
  - intros (row & Hrow & E). exists row. split; [|now apply String.eqb_eq].
    apply list_elem_of_In, list_elem_of_filter. split; [|exact Hrow].
    apply mem_string_elem_of. now rewrite E.
Qed.

Lemma ProofsStateCheck_states (Ys : list string) (used : list DBProof) st :
  used = used_proofs st ->
  let states :=
    map (fun y =>
           {| nut07.Y := y;
              nut07.ProofState_State :=
                if existsb (fun proof => String.eqb (DBProof_Y proof) y)
                     (filter (fun p => mem_string (DBProof_Y p) Ys = true) used)
                then nut07.Spent else nut07.Unspent |}) Ys in
  map nut07.Y states = Ys
  /\ Forall (fun s =>
               nut07.ProofState_State s = nut07.Spent /\ is_spent (nut07.Y s) st
               \/ nut07.ProofState_State s = nut07.Unspent /\ ~ is_spent (nut07.Y s) st)
       states.
Proof.
  intros -> states. subst states. split.
  - rewrite map_map. cbn. apply map_id.
  - apply Forall_forall. intros s Hs. apply list_elem_of_fmap in Hs as (y & -> & Hy). cbn.
    pose proof (existsb_spent Ys y (used_proofs st) Hy) as Hspent.
    destruct (existsb _ _).
    + left. split; [reflexivity|]. now apply Hspent.
    + right. split; [reflexivity|]. intros H. apply Hspent in H. discriminate.
Qed.

(** X6. [ProofsStateCheck] reports Spent exactly for the [Y] of the
    spent table.  It changes no table; unless the repository fails it
    answers with one state per [Y], in the order asked, where a [Y] is
    Spent when a row of the spent table has it and Unspent otherwise, also
    when the proof is locked in the pending table: Pending is never
    reported.  On a repository that answers it does not fail. *)
Theorem ProofsStateCheck_reports Ys st :
  tables (ProofsStateCheck Ys st).2 = tables st
  /\ ((ProofsStateCheck Ys st).1
      = inl (BuildCashuError "could not get used proofs from db" DBErrCode)
      \/ exists states,
           (ProofsStateCheck Ys st).1 = inr states
           /\ map nut07.Y states = Ys
           /\ Forall (fun s =>
                        nut07.ProofState_State s = nut07.Spent /\ is_spent (nut07.Y s) st
                        \/ nut07.ProofState_State s = nut07.Unspent
                           /\ ~ is_spent (nut07.Y s) st) states)
  /\ (db_faults st = [] -> exists states, (ProofsStateCheck Ys st).1 = inr states).
Proof.
  unfold ProofsStateCheck, GetProofsUsed, db_call, mbind, M_bind, bind.
  destruct (db_faults st) as [|[] fs] eqn:Efaults; cbn.
  - split; [reflexivity|]. split; [|intros _; now eexists].
    right. eexists. split; [reflexivity|].
    now apply (ProofsStateCheck_states Ys (used_proofs st) st).
  - split; [reflexivity|]. split; [now left|discriminate].
  - split; [reflexivity|]. split; [|discriminate].
    right. eexists. split; [reflexivity|].
    now apply (ProofsStateCheck_states Ys (used_proofs st) st).
Qed.

Lemma ProofsStateCheck_healthy Ys st :
  db_faults st = [] ->
  ProofsStateCheck Ys st
  = (inr (map (fun y =>
                 {| nut07.Y := y;
                    nut07.ProofState_State :=
                      if existsb (fun proof => String.eqb (DBProof_Y proof) y)
                           (filter (fun p => mem_string (DBProof_Y p) Ys = true)
                              (used_proofs st))
                      then nut07.Spent else nut07.Unspent |}) Ys), st).
Proof.
  intros Hh. unfold ProofsStateCheck.
  now rewrite (bind_ok _ _ _ _ _ (GetProofsUsed_healthy Ys st Hh)).
Qed.

Lemma ProofsStateCheck_all (state : nut07.State) (Ys : list string) st :
  db_faults st = [] ->
  (forall y, y ∈ Ys ->
     (if existsb (fun proof => String.eqb (DBProof_Y proof) y)
           (filter (fun p => mem_string (DBProof_Y p) Ys = true) (used_proofs st))
      then nut07.Spent else nut07.Unspent) = state) ->
  ProofsStateCheck Ys st
  = (inr (map (fun y => {| nut07.Y := y; nut07.ProofState_State := state |}) Ys), st).
Proof.
  intros Hh Hall. rewrite (ProofsStateCheck_healthy Ys st Hh). f_equal. f_equal.
  apply map_ext_in. intros y Hy. f_equal. apply Hall. now apply list_elem_of_In.
Qed.

(** X7. The state check follows a swap.  On a repository that
    answers, the inputs of a successful [Swap] are reported Unspent before
    the swap and Spent after it. *)
Theorem Swap_then_ProofsStateCheck L m proofs blindedMessages Ys st sigs st' :
  Swap L m proofs blindedMessages st = (inr sigs, st') ->
  hashProofs L proofs = Some Ys ->
  db_faults st = [] ->
  db_faults st' = [] ->
  ProofsStateCheck Ys st
  = (inr (map (fun y => {| nut07.Y := y; nut07.ProofState_State := nut07.Unspent |}) Ys), st)
  /\ ProofsStateCheck Ys st'
     = (inr (map (fun y => {| nut07.Y := y; nut07.ProofState_State := nut07.Spent |}) Ys), st').
Proof.
  intros Hswap Hys Hh Hh'.
  pose proof (outcome_run _ _ _ _ _ (Swap_outcome L m proofs blindedMessages (tables st)) Hswap)
    as (Ys' & Hys' & _ & _ & Hused & _ & _ & _ & _ & _ & _ & _ & HT).
  rewrite Hys in Hys'. injection Hys' as <-.
  apply (f_equal used_proofs) in HT. cbn in HT. cbn in Hused.
  split; apply ProofsStateCheck_all; try assumption; intros y Hy.
  - now rewrite Hused.
  - replace (existsb _ _) with true; [reflexivity|]. symmetry.
    apply (existsb_spent Ys y (used_proofs st') Hy).
    destruct (in_proof_rows L "" proofs Ys y Hys Hy) as (row & Hrow & HY).
    exists row. split; [|exact HY]. rewrite HT. apply elem_of_app. now right.
Qed.

Lemma Swap_then_ProofsStateCheck_witness :
  ProofsStateCheck ["Y(s1)"; "Y(s2)"] emptyStore
  = (inr (map (fun y => {| nut07.Y := y; nut07.ProofState_State := nut07.Unspent |})
            ["Y(s1)"; "Y(s2)"]), emptyStore)
  /\ ProofsStateCheck ["Y(s1)"; "Y(s2)"]
       (Swap toyLibs (toyMint 0) [toyProof 4 "s1"; toyProof 2 "s2"]
          [toyMessage 4 "B1"; toyMessage 2 "B2"] emptyStore).2
     = (inr (map (fun y => {| nut07.Y := y; nut07.ProofState_State := nut07.Spent |})
               ["Y(s1)"; "Y(s2)"]),
        (Swap toyLibs (toyMint 0) [toyProof 4 "s1"; toyProof 2 "s2"]
           [toyMessage 4 "B1"; toyMessage 2 "B2"] emptyStore).2).
Proof.
  apply (Swap_then_ProofsStateCheck toyLibs (toyMint 0) [toyProof 4 "s1"; toyProof 2 "s2"]
           [toyMessage 4 "B1"; toyMessage 2 "B2"] ["Y(s1)"; "Y(s2)"] emptyStore
           [toySignature 4 "B1"; toySignature 2 "B2"]).
  - vm_compute. reflexivity.
  - vm_compute. reflexivity.
  - reflexivity.
  - vm_compute. reflexivity.
Defined.

(** ** Fees *)

Lemma total_le_length {A} (f : A -> Z) (l : list A) bound :
  Forall (fun x => f x <= bound) l -> total f l <= bound * Z.of_nat (length l).
Proof.
  induction 1 as [|x l Hx _ IH]; [cbn; lia|].
  rewrite total_cons. cbn [length]. lia.
Qed.

(** X8. [TransactionFees] is the ceiling of the summed fee rates.
    When the rates of the keysets of the inputs are not negative and their
    sum plus 999 fits in 64 bits, the fee is the least number of units whose
    thousandfold covers the sum of the rates; it is zero exactly when the
    sum is zero, and at most one unit per input when no rate exceeds
    1000. *)
Theorem TransactionFees_bounds m inputs :
  Forall (fun proof => 0 <= feePpk m proof) inputs ->
  total (feePpk m) inputs + 999 < uint64_modulus ->
  1000 * (TransactionFees m inputs - 1) < total (feePpk m) inputs
  /\ total (feePpk m) inputs <= 1000 * TransactionFees m inputs
  /\ (TransactionFees m inputs = 0 <-> total (feePpk m) inputs = 0)
  /\ (Forall (fun proof => feePpk m proof <= 1000) inputs ->
      TransactionFees m inputs <= Z.of_nat (length inputs)).
Proof.
  intros Hnonneg Hfits.
  pose proof (total_nonneg (feePpk m) inputs Hnonneg) as Hpos.
  rewrite (TransactionFees_ceiling m inputs Hnonneg Hfits).
  fold (feePpk m).
  set (t := total (feePpk m) inputs) in *.
  pose proof (Z.div_mod (t + 999) 1000 ltac:(lia)) as Hdiv.
  pose proof (Z.mod_pos_bound (t + 999) 1000 ltac:(lia)) as Hmod.
  repeat split; try lia.
  intros Hle. pose proof (total_le_length (feePpk m) inputs 1000 Hle) as Hbound.
  fold t in Hbound. lia.
Qed.

Lemma TransactionFees_bounds_witness :
  1000 * (TransactionFees (toyMint 100) [toyProof 4 "s1"; toyProof 4 "s2"] - 1)
  < total (feePpk (toyMint 100)) [toyProof 4 "s1"; toyProof 4 "s2"]
  /\ total (feePpk (toyMint 100)) [toyProof 4 "s1"; toyProof 4 "s2"]
     <= 1000 * TransactionFees (toyMint 100) [toyProof 4 "s1"; toyProof 4 "s2"]
  /\ (TransactionFees (toyMint 100) [toyProof 4 "s1"; toyProof 4 "s2"] = 0
      <-> total (feePpk (toyMint 100)) [toyProof 4 "s1"; toyProof 4 "s2"] = 0)
  /\ (Forall (fun proof => feePpk (toyMint 100) proof <= 1000)
        [toyProof 4 "s1"; toyProof 4 "s2"] ->
      TransactionFees (toyMint 100) [toyProof 4 "s1"; toyProof 4 "s2"]
      <= Z.of_nat (length [toyProof 4 "s1"; toyProof 4 "s2"])).
Proof.
  apply (TransactionFees_bounds (toyMint 100) [toyProof 4 "s1"; toyProof 4 "s2"]).
  - repeat constructor; vm_compute; discriminate.
  - vm_compute. reflexivity.
Defined.

(** ** Melting, whatever the fault schedule and the backend *)

Lemma db_must_outcome msg (c : M (DBResult unit)) T T1 :
  outcome c T (fun r T' => r = inr DBFail /\ T' = T \/ r = inr (DBOk tt) /\ T' = T1) ->
  outcome (db_must msg c) T
    (fun r T' => r = inl (BuildCashuError msg DBErrCode) /\ T' = T \/ r = inr tt /\ T' = T1).
Proof.
  intros Hc. unfold db_must. eapply outcome_bind; [exact Hc| |].
  - intros e T' _ [[? _]|[? _]]; discriminate.
  - intros r T' _ [[[= ->] ->]|[[= ->] ->]].
    + apply outcome_throw. intros _. now left.
    + apply outcome_ret. intros _. now right.
Qed.

Lemma UpdateMeltQuote_outcome msg id preimage s T :
  outcome (db_must msg (UpdateMeltQuote id preimage s)) T
    (fun r T' => r = inl (BuildCashuError msg DBErrCode) /\ T' = T
                 \/ r = inr tt /\ T' = update_melt_quote id preimage s T).
Proof.
  apply db_must_outcome, outcome_db_call; [now left|]. intros st <-. right. now split.
Qed.

Lemma UpdateMintQuoteState_must_outcome msg id s T :
  outcome (db_must msg (UpdateMintQuoteState id s)) T
    (fun r T' => r = inl (BuildCashuError msg DBErrCode) /\ T' = T
                 \/ r = inr tt /\ T' = update_mint_quote id s T).
Proof.
  apply db_must_outcome, outcome_db_call; [now left|]. intros st <-. right. now split.
Qed.

Lemma RemovePendingProofs_outcome msg Ys T :
  outcome (db_must msg (RemovePendingProofs Ys)) T
    (fun r T' => r = inl (BuildCashuError msg DBErrCode) /\ T' = T
                 \/ r = inr tt /\ T' = remove_pending Ys T).
Proof.
  apply db_must_outcome, outcome_db_call; [now left|]. intros st <-. right. now split.
Qed.

Lemma SaveProofs_must_outcome msg L proofs Ys T :
  hashProofs L proofs = Some Ys ->
  outcome (db_must msg (SaveProofs L proofs)) T
    (fun r T' => r = inl (BuildCashuError msg DBErrCode) /\ T' = T
                 \/ r = inr tt /\ T' = add_used (proof_rows L "" proofs) T).
Proof. intros Hys. apply db_must_outcome. now apply (SaveProofs_outcome L proofs Ys). Qed.

Lemma AddPendingProofs_outcome msg L proofs Ys quoteId T :
  hashProofs L proofs = Some Ys ->
  outcome (db_must msg (AddPendingProofs L proofs quoteId)) T
    (fun r T' => r = inl (BuildCashuError msg DBErrCode) /\ T' = T
                 \/ r = inr tt /\ T' = add_pending (proof_rows L quoteId proofs) T).
Proof.
  intros Hys. apply db_must_outcome, outcome_db_call; [now left|].
  intros st <-. right. unfold insert_rows.
  destruct (proof_rows_mapM L quoteId proofs Ys Hys) as [-> _]. now split.
Qed.

Lemma ln_OutgoingPaymentStatus_outcome m hash T :
  outcome (ln_OutgoingPaymentStatus m hash) T
    (fun r T' => r = inr (lightning.OutgoingPaymentStatus (lightningClient m) hash)
                 /\ T' = log_call (lightning.CallOutgoingPaymentStatus hash) T).
Proof. intros st <-. split; reflexivity. Qed.

Lemma ln_SendPayment_outcome m request maxFee T :
  outcome (ln_SendPayment m request maxFee) T
    (fun r T' => r = inr (lightning.SendPayment (lightningClient m) request maxFee)
                 /\ T' = log_call (lightning.CallSendPayment request maxFee) T).
Proof. intros st <-. split; reflexivity. Qed.

Lemma stored_state_update id preimage s T :
  is_Some (find_melt_quote id T) ->
  stored_state id (update_melt_quote id preimage s T) = Some s
  /\ is_Some (find_melt_quote id (update_melt_quote id preimage s T)).
Proof.
  intros [q Hq]. pose proof (find_melt_quote_Id id T q Hq) as Hid.
  unfold stored_state, find_melt_quote, update_melt_quote in *. cbn.
  rewrite find_melt_quote_update, Hq. cbn. rewrite Hid, String.eqb_refl. cbn.
  split; [reflexivity|now eexists].
Qed.

Lemma released_twice Ys T : released Ys (remove_pending Ys T) = released Ys T.
Proof.
  unfold released, remove_pending. cbn.
  induction (pending_proofs T) as [|row l IH]; [reflexivity|].
  rewrite filter_cons. destruct (decide _) as [E|E]; [|exact IH].
  rewrite filter_cons. destruct (decide _) as [_|E']; [|contradiction]. now rewrite IH.
Qed.

Lemma released_idem Ys T T' :
  pending_proofs T' = released Ys T -> released Ys T' = released Ys T.
Proof.
  intros H. unfold released in *. rewrite H. clear H.
  induction (pending_proofs T) as [|row l IH]; [reflexivity|].
  rewrite filter_cons. destruct (decide _) as [E|E]; [|exact IH].
  rewrite filter_cons. destruct (decide _) as [_|E']; [|contradiction]. now rewrite IH.
Qed.

(** The block that marks the quote Unpaid and releases the proofs. *)
Lemma unlock_block_outcome msg1 msg2 Ys meltQuote T :
  is_Some (find_melt_quote (MeltQuote_Id meltQuote) T) ->
  outcome
    (_ ← db_must msg1 (UpdateMeltQuote (MeltQuote_Id meltQuote) "" nut05.Unpaid);
     _ ← db_must msg2 (RemovePendingProofs Ys);
     mret (MeltQuote_with (MeltQuote_Preimage meltQuote) nut05.Unpaid meltQuote)) T
    (fun r T' =>
       is_Some (find_melt_quote (MeltQuote_Id meltQuote) T')
       /\ used_proofs T' = used_proofs T
       /\ match r with
          | inl _ => pending_proofs T' = pending_proofs T
          | inr q' =>
            q' = MeltQuote_with (MeltQuote_Preimage meltQuote) nut05.Unpaid meltQuote
            /\ pending_proofs T' = released Ys T
            /\ stored_state (MeltQuote_Id meltQuote) T' = Some nut05.Unpaid
          end).
Proof.
  intros Hfound.
  destruct (stored_state_update (MeltQuote_Id meltQuote) "" nut05.Unpaid T Hfound)
    as [Hstored Hfound'].
  eapply outcome_bind; [apply UpdateMeltQuote_outcome| |].
  { intros e T' _ [[_ ->]|[? _]]; [|discriminate]. now repeat split. }
  intros [] T' _ [[? _]|[_ ->]]; [discriminate|].
  eapply outcome_bind; [apply RemovePendingProofs_outcome| |].
  { intros e T' _ [[_ ->]|[? _]]; [|discriminate]. now repeat split. }
  intros [] T' _ [[? _]|[_ ->]]; [discriminate|].
  apply outcome_ret. intros _. now repeat split.
Qed.

(** The block that moves the proofs to the spent table and marks the quote
    Paid. *)
Lemma settle_block_outcome msg L Ys proofs preimage meltQuote T :
  hashProofs L proofs = Some Ys ->
  is_Some (find_melt_quote (MeltQuote_Id meltQuote) T) ->
  outcome
    (_ ← settleProofs L Ys proofs;
     _ ← db_must msg (UpdateMeltQuote (MeltQuote_Id meltQuote) preimage nut05.Paid);
     mret (MeltQuote_with preimage nut05.Paid meltQuote)) T
    (fun r T' =>
       is_Some (find_melt_quote (MeltQuote_Id meltQuote) T')
       /\ match r with
          | inl _ =>
            pending_proofs T' = pending_proofs T /\ used_proofs T' = used_proofs T
            \/ pending_proofs T' = released Ys T /\ used_proofs T' = used_proofs T
            \/ pending_proofs T' = released Ys T
               /\ used_proofs T' = (used_proofs T ++ proof_rows L "" proofs)%list
          | inr q' =>
            q' = MeltQuote_with preimage nut05.Paid meltQuote
            /\ pending_proofs T' = released Ys T
            /\ used_proofs T' = (used_proofs T ++ proof_rows L "" proofs)%list
            /\ stored_state (MeltQuote_Id meltQuote) T' = Some nut05.Paid
          end).
Proof.
  intros Hys Hfound.
  eapply outcome_bind with
    (R := fun r T' =>
            is_Some (find_melt_quote (MeltQuote_Id meltQuote) T')
            /\ match r with
               | inl _ =>
                 pending_proofs T' = pending_proofs T /\ used_proofs T' = used_proofs T
                 \/ pending_proofs T' = released Ys T /\ used_proofs T' = used_proofs T
               | inr _ =>
                 pending_proofs T' = released Ys T
                 /\ used_proofs T' = (used_proofs T ++ proof_rows L "" proofs)%list
               end).
  { unfold settleProofs.
    eapply outcome_bind; [apply RemovePendingProofs_outcome| |].
    { intros e T' _ [[_ ->]|[? _]]; [|discriminate]. split; [exact Hfound|]. now left. }
    intros [] T' _ [[? _]|[_ ->]]; [discriminate|].
    eapply outcome_weaken; [apply (SaveProofs_must_outcome _ L proofs Ys _ Hys)|].
    intros r T' _ [[-> ->]|[-> ->]]; (split; [exact Hfound|]); [now right|now split]. }
  { intros e T' _ [Hf H]. split; [exact Hf|]. destruct H as [H|H]; [now left|right; now left]. }
  intros [] T1 _ (Hfound1 & Hpending & Hused).
  destruct (stored_state_update (MeltQuote_Id meltQuote) preimage nut05.Paid T1 Hfound1)
    as [Hstored Hfound'].
  eapply outcome_bind; [apply UpdateMeltQuote_outcome| |].
  { intros e T' _ [[_ ->]|[? _]]; [|discriminate]. split; [exact Hfound1|]. right. now right. }
  intros [] T' _ [[? _]|[_ ->]]; [discriminate|].
  apply outcome_ret. intros _. now repeat split.
Qed.

Lemma MeltTokens_probe_outcome L m Ys proofs meltQuote T :
  hashProofs L proofs = Some Ys ->
  is_Some (find_melt_quote (MeltQuote_Id meltQuote) T) ->
  outcome (MeltTokens_probe L m Ys proofs meltQuote) T (melt_post L Ys proofs meltQuote T).
Proof.
  intros Hys Hfound. unfold MeltTokens_probe.
  eapply outcome_bind; [apply ln_OutgoingPaymentStatus_outcome| |].
  { intros e T' _ [? _]. discriminate. }
  intros [paymentStatus err] T1 _ [_ ->].
  set (T1 := log_call _ T).
  assert (Hkept : tables T1 = T1 -> melt_post L Ys proofs meltQuote T (inr meltQuote) T1).
  { intros _. split; [exact Hfound|]. left. now repeat split. }
  assert (Hsettle : forall base T2,
            is_Some (find_melt_quote (MeltQuote_Id meltQuote) T2) ->
            MeltQuote_Id base = MeltQuote_Id meltQuote ->
            used_proofs T2 = used_proofs T ->
            pending_proofs T2 = pending_proofs T \/ pending_proofs T2 = released Ys T ->
            outcome
              (_ ← settleProofs L Ys proofs;
               _ ← db_must "error updating melt quote state"
                     (UpdateMeltQuote (MeltQuote_Id base)
                        (lightning.PaymentPreimage paymentStatus) nut05.Paid);
               mret (MeltQuote_with (lightning.PaymentPreimage paymentStatus) nut05.Paid base))
              T2 (melt_post L Ys proofs meltQuote T)).
  { intros base T2 Hfound2 Hid Hused2 Hpending2.
    assert (Hrel : released Ys T2 = released Ys T).
    { destruct Hpending2 as [H|H]; [unfold released; now rewrite H|now apply released_idem]. }
    eapply outcome_weaken;
      [apply (settle_block_outcome _ L Ys proofs (lightning.PaymentPreimage paymentStatus)
                base T2 Hys); now rewrite Hid|].
    intros r T' _ [Hf H]. rewrite Hid in *. split; [exact Hf|].
    rewrite Hrel, Hused2 in H. destruct r as [e|q'].
    - destruct H as [[Hp Hu]|[[Hp Hu]|[Hp Hu]]].
      + rewrite Hp. destruct Hpending2 as [->| ->]; [left|right; left]; now split.
      + right. left. now split.
      + right. right. now split.
    - destruct H as (-> & Hp & Hu & Hs). right. right. now repeat split. }
  destruct (lightning.Status paymentStatus) eqn:Estatus.
  - (* Succeeded *)
    destruct err as [msg|].
    + eapply outcome_bind;
        [apply (unlock_block_outcome _ _ Ys meltQuote T1 Hfound)| |].
      { intros e T' _ (Hf & Hu & Hp). split; [exact Hf|]. left. now split. }
      intros q' T2 _ (Hf & Hu & -> & Hp & _). cbn beta iota.
      apply (Hsettle (MeltQuote_with (MeltQuote_Preimage meltQuote) nut05.Unpaid meltQuote)
               T2 Hf); [reflexivity|exact Hu|now right].
    + apply outcome_ret_bind. cbn beta iota.
      apply (Hsettle meltQuote T1 Hfound); [reflexivity|reflexivity|now left].
  - (* Failed *)
    destruct err as [msg|].
    + eapply outcome_bind;
        [apply (unlock_block_outcome _ _ Ys meltQuote T1 Hfound)| |].
      { intros e T' _ (Hf & Hu & Hp). split; [exact Hf|]. left. now split. }
      intros q' T2 _ (Hf & Hu & -> & Hp & Hs).
      apply outcome_ret. intros _. split; [exact Hf|]. right. left. now repeat split.
    + apply outcome_ret_bind. apply outcome_ret. exact Hkept.
  - (* Pending *)
    apply outcome_ret. exact Hkept.
Qed.

Lemma MeltTokens_sendPayment_outcome L m Ys proofs meltQuote T :
  hashProofs L proofs = Some Ys ->
  is_Some (find_melt_quote (MeltQuote_Id meltQuote) T) ->
  outcome (MeltTokens_sendPayment L m Ys proofs meltQuote) T
    (melt_post L Ys proofs meltQuote T).
Proof.
  intros Hys Hfound. unfold MeltTokens_sendPayment.
  eapply outcome_bind; [apply ln_SendPayment_outcome| |].
  { intros e T' _ [? _]. discriminate. }
  intros [response err] T1 _ [_ ->].
  set (T1 := log_call _ T).
  assert (Hprobe : outcome (MeltTokens_probe L m Ys proofs meltQuote) T1
                     (melt_post L Ys proofs meltQuote T)).
  { eapply outcome_weaken;
      [apply (MeltTokens_probe_outcome L m Ys proofs meltQuote T1 Hys Hfound)|].
    intros r T' _ H. exact H. }
  destruct err as [msg|].
  - destruct (strings_Contains msg "payment error"); [|exact Hprobe].
    eapply outcome_weaken; [apply (unlock_block_outcome _ _ Ys meltQuote T1 Hfound)|].
    intros [e|q'] T' _ (Hf & Hu & H); (split; [exact Hf|]).
    + left. now split.
    + destruct H as (-> & Hp & Hs). right. left. now repeat split.
  - destruct (lightning.Status response) eqn:Estatus; [|exact Hprobe|].
    + eapply outcome_weaken;
        [apply (settle_block_outcome _ L Ys proofs (lightning.PaymentPreimage response)
                  meltQuote T1 Hys Hfound)|].
      intros [e|q'] T' _ (Hf & H); (split; [exact Hf|]).
      * exact H.
      * destruct H as (-> & Hp & Hu & Hs). right. right. now repeat split.
    + apply outcome_ret. intros _. split; [exact Hfound|]. left. now repeat split.
Qed.

Lemma GetMintQuoteByPaymentHash_outcome hash T :
  outcome (GetMintQuoteByPaymentHash hash) T
    (fun r T' => T' = T
       /\ (r = inr DBFail \/ r = inr (find_result (find_mint_quote_by_hash hash T)))).
Proof.
  apply outcome_db_call; [intros; split; [reflexivity|now left]|].
  intros st <-. split; [reflexivity|now right].
Qed.

Lemma settleQuotesInternally_outcome m mintQuote meltQuote T :
  is_Some (find_melt_quote (MeltQuote_Id meltQuote) T) ->
  outcome (settleQuotesInternally m mintQuote meltQuote) T
    (fun r T' =>
       pending_proofs T' = pending_proofs T
       /\ used_proofs T' = used_proofs T
       /\ is_Some (find_melt_quote (MeltQuote_Id meltQuote) T')
       /\ forall q', r = inr q' ->
            MeltQuote_State q' = nut05.Paid
            /\ MeltQuote_Id q' = MeltQuote_Id meltQuote
            /\ stored_state (MeltQuote_Id meltQuote) T' = Some nut05.Paid).
Proof.
  intros Hfound. unfold settleQuotesInternally.
  eapply outcome_bind; [apply ln_InvoiceStatus_outcome| |].
  { intros e T' _ [? _]. discriminate. }
  intros [invoice err] T1 _ [_ ->]. set (T1 := log_call _ T).
  destruct err as [msg|]; [apply outcome_throw; intros _; now repeat split|].
  destruct (stored_state_update (MeltQuote_Id meltQuote) (lightning.Preimage invoice)
              nut05.Paid T1 Hfound) as [Hstored Hfound'].
  eapply outcome_bind; [apply UpdateMeltQuote_outcome| |].
  { intros e T' _ [[_ ->]|[? _]]; [|discriminate]. now repeat split. }
  intros [] T' _ [[? _]|[_ ->]]; [discriminate|].
  eapply outcome_bind; [apply UpdateMintQuoteState_must_outcome| |].
  { intros e T' _ [[_ ->]|[? _]]; [|discriminate]. now repeat split. }
  intros [] T' _ [[? _]|[_ ->]]; [discriminate|].
  apply outcome_ret. intros _. split; [reflexivity|]. split; [reflexivity|].
  split; [exact Hfound'|]. intros q' [= <-]. now repeat split.
Qed.

Lemma MeltTokens_pay_outcome L m Ys proofs meltQuote T :
  hashProofs L proofs = Some Ys ->
  is_Some (find_melt_quote (MeltQuote_Id meltQuote) T) ->
  outcome (MeltTokens_pay L m Ys proofs meltQuote) T
    (fun r T' =>
       (exists e, r = inl e /\ T' = T)
       \/ melt_post L Ys proofs
            (MeltQuote_with (MeltQuote_Preimage meltQuote) nut05.Pending meltQuote)
            (locked L (MeltQuote_Id meltQuote) proofs T) r T').
Proof.
  intros Hys Hfound. unfold MeltTokens_pay.
  eapply outcome_bind; [apply (AddPendingProofs_outcome _ L proofs Ys _ _ Hys)| |].
  { intros e T' _ [[_ ->]|[? _]]; [|discriminate]. left. exists e. now split. }
  intros [] T1 _ [[? _]|[_ ->]]; [discriminate|].
  set (T1 := add_pending _ T).
  assert (Hfound1 : is_Some (find_melt_quote (MeltQuote_Id meltQuote) T1)) by exact Hfound.
  destruct (stored_state_update (MeltQuote_Id meltQuote) "" nut05.Pending T1 Hfound1)
    as [Hstored Hfound2].
  eapply outcome_bind; [apply UpdateMeltQuote_outcome| |].
  { intros e T' _ [[_ ->]|[? _]]; [|discriminate]. right. split; [exact Hfound1|].
    left. now split. }
  intros [] T2 _ [[? _]|[_ ->]]; [discriminate|].
  change (update_melt_quote (MeltQuote_Id meltQuote) "" nut05.Pending T1)
    with (locked L (MeltQuote_Id meltQuote) proofs T) in *.
  set (T2 := locked L (MeltQuote_Id meltQuote) proofs T) in *.
  set (mq := MeltQuote_with (MeltQuote_Preimage meltQuote) nut05.Pending meltQuote).
  assert (Hsend : outcome (MeltTokens_sendPayment L m Ys proofs mq) T2
                    (fun r T' => (exists e, r = inl e /\ T' = T)
                                 \/ melt_post L Ys proofs mq T2 r T')).
  { eapply outcome_weaken;
      [apply (MeltTokens_sendPayment_outcome L m Ys proofs mq T2 Hys Hfound2)|].
    intros r T' _ H. now right. }
  eapply outcome_bind; [apply GetMintQuoteByPaymentHash_outcome| |].
  { intros e T' _ [_ [?|?]]; discriminate. }
  intros r T' _ [-> [[= ->]|[= ->]]]; [exact Hsend|].
  match goal with
  | |- context [find_result ?found] => destruct found as [mintQuote|]
  end; cbn [find_result]; [|exact Hsend].
  eapply outcome_bind; [apply (settleQuotesInternally_outcome m mintQuote mq T2 Hfound2)| |].
  { intros e T' _ (Hp & Hu & Hf & _). right. split; [exact Hf|]. left. now split. }
  intros q' T3 _ (Hp & Hu & Hf & Hq). destruct (Hq q' eq_refl) as (Hpaid & Hid & Hs).
  eapply outcome_bind; [apply RemovePendingProofs_outcome| |].
  { intros e T' _ [[_ ->]|[? _]]; [|discriminate]. right. split; [exact Hf|]. left. now split. }
  intros [] T' _ [[? _]|[_ ->]]; [discriminate|].
  assert (Hrel : pending_proofs (remove_pending Ys T3) = released Ys T2).
  { unfold released. cbn. now rewrite Hp. }
  eapply outcome_bind; [apply (SaveProofs_must_outcome _ L proofs Ys _ Hys)| |].
  { intros e T' _ [[_ ->]|[? _]]; [|discriminate]. right. split; [exact Hf|].
    right. left. now split. }
  intros [] T' _ [[? _]|[_ ->]]; [discriminate|].
  apply outcome_ret. intros _. right. split; [exact Hf|]. right. right.
  split; [exact Hpaid|]. split; [exact Hrel|]. split; [cbn; now rewrite Hu|exact Hs].
Qed.

Lemma GetMeltQuote_outcome id T :
  outcome (GetMeltQuote id) T
    (fun r T' => T' = T /\ (r = inr DBFail \/ r = inr (find_result (find_melt_quote id T)))).
Proof.
  apply outcome_db_call; [intros; split; [reflexivity|now left]|].
  intros st <-. split; [reflexivity|now right].
Qed.

Lemma MeltTokens_outcome L m method quoteId proofs T :
  outcome (MeltTokens L m method quoteId proofs) T
    (fun r T' =>
       (exists e, r = inl e /\ T' = T)
       \/ exists Ys meltQuote,
            hashProofs L proofs = Some Ys
            /\ method = BOLT11_METHOD
            /\ find_melt_quote quoteId T = Some meltQuote
            /\ MeltQuote_State meltQuote = nut05.Unpaid
            /\ proofs <> []
            /\ filter (fun p => mem_string (DBProof_Y p) Ys = true) (pending_proofs T) = []
            /\ filter (fun p => mem_string (DBProof_Y p) Ys = true) (used_proofs T) = []
            /\ CheckDuplicateProofs L proofs = false
            /\ first_error (verifyProof L m) proofs = None
            /\ (sum64 Proof_Amount proofs
                  <? add64 (add64 (MeltQuote_Amount meltQuote) (MeltQuote_FeeReserve meltQuote))
                       (TransactionFees m proofs)) = false
            /\ ProofsSigAll L proofs = false
            /\ melt_post L Ys proofs
                 (MeltQuote_with (MeltQuote_Preimage meltQuote) nut05.Pending meltQuote)
                 (locked L quoteId proofs T) r T').
Proof.
  assert (Hreject : forall e : Error, tables T = T ->
            (exists e0, @inl Error MeltQuote e = inl e0 /\ T = T)
            \/ exists Ys meltQuote,
                 hashProofs L proofs = Some Ys
                 /\ method = BOLT11_METHOD
                 /\ find_melt_quote quoteId T = Some meltQuote
                 /\ MeltQuote_State meltQuote = nut05.Unpaid
                 /\ proofs <> []
                 /\ filter (fun p => mem_string (DBProof_Y p) Ys = true) (pending_proofs T) = []
                 /\ filter (fun p => mem_string (DBProof_Y p) Ys = true) (used_proofs T) = []
                 /\ CheckDuplicateProofs L proofs = false
                 /\ first_error (verifyProof L m) proofs = None
                 /\ (sum64 Proof_Amount proofs
                       <? add64 (add64 (MeltQuote_Amount meltQuote)
                                   (MeltQuote_FeeReserve meltQuote))
                            (TransactionFees m proofs)) = false
                 /\ ProofsSigAll L proofs = false
                 /\ melt_post L Ys proofs
                      (MeltQuote_with (MeltQuote_Preimage meltQuote) nut05.Pending meltQuote)
                      (locked L quoteId proofs T) (inl e) T).
  { intros e _. left. now exists e. }
  unfold MeltTokens.
  destruct (hashProofs L proofs) as [Ys|] eqn:Hys; [|apply outcome_throw, Hreject].
  destruct (String.eqb method BOLT11_METHOD) eqn:Emethod; cbn [negb];
    [|apply outcome_throw, Hreject].
  apply String.eqb_eq in Emethod.
  eapply outcome_bind; [apply GetMeltQuote_outcome| |].
  { intros e T' _ [_ [?|?]]; discriminate. }
  intros r T' _ [-> [[= ->]|[= ->]]]; [apply outcome_throw, Hreject|].
  destruct (find_melt_quote quoteId T) as [meltQuote|] eqn:Hfind; cbn [find_result];
    [|apply outcome_throw, Hreject].
  destruct (MeltQuote_State meltQuote) eqn:Hstate; cbn [nut05.State_eqb];
    [|apply outcome_throw, Hreject|apply outcome_throw, Hreject].
  eapply outcome_bind; [apply verifyProofs_outcome| |].
  { intros e T' HT [-> _]. now apply Hreject. }
  intros [] T' _ [-> Hverify].
  destruct (Hverify eq_refl) as (Hne & Hpending & Hused & Hdup & Hfirst).
  destruct (_ <? _) eqn:Eamount; [apply outcome_throw, Hreject|].
  destruct (ProofsSigAll L proofs) eqn:Esigall; [apply outcome_throw, Hreject|].
  pose proof (find_melt_quote_Id quoteId T meltQuote Hfind) as Hid.
  eapply outcome_weaken;
    [apply (MeltTokens_pay_outcome L m Ys proofs meltQuote T Hys); rewrite Hid, Hfind;
     now eexists|].
  intros r T' _ [H|H]; [now left|]. right. exists Ys, meltQuote. rewrite Hid in H.
  do 11 (split; [assumption || reflexivity|]). exact H.
Qed.

Lemma filter_complement (Ys : list string) (l : list DBProof) :
  filter (fun p => mem_string (DBProof_Y p) Ys = true) l = [] ->
  filter (fun p => mem_string (DBProof_Y p) Ys = false) l = l.
Proof.
  induction l as [|row l IH]; [reflexivity|].
  rewrite !filter_cons. destruct (decide (_ = true)) as [E|E]; [discriminate|].
  intros Hnil. destruct (decide (_ = false)) as [_|E']; [now rewrite IH|].
  destruct (mem_string (DBProof_Y row) Ys); congruence.
Qed.

Lemma filter_own_rows (Ys : list string) (l : list DBProof) :
  (forall row, row ∈ l -> DBProof_Y row ∈ Ys) ->
  filter (fun p => mem_string (DBProof_Y p) Ys = false) l = [].
Proof.
  induction l as [|row l IH]; intros H; [reflexivity|].
  rewrite filter_cons. destruct (decide _) as [E|_].
  - assert (Hin : mem_string (DBProof_Y row) Ys = true).
    { apply mem_string_elem_of, H, elem_of_cons. now left. }
    congruence.
  - apply IH. intros r Hr. apply H, elem_of_cons. now right.
Qed.

Lemma released_locked L quoteId proofs Ys T :
  hashProofs L proofs = Some Ys ->
  filter (fun p => mem_string (DBProof_Y p) Ys = true) (pending_proofs T) = [] ->
  released Ys (locked L quoteId proofs T) = pending_proofs T.
Proof.
  intros Hys Hfresh. unfold released, locked. cbn.
  rewrite filter_app, (filter_complement Ys _ Hfresh), filter_own_rows; [apply app_nil_r|].
  intros row Hrow. destruct (proof_rows_mapM L quoteId proofs Ys Hys) as [_ <-].
  now apply list_elem_of_fmap_2.
Qed.

(** X9. When [MeltTokens] answers with a quote, the proofs are where
    the state of the quote says.  Whatever the repository and the backend
    do, if the call returns a quote, then the quote was stored as Unpaid
    and the inputs were neither locked nor spent; the quote is now stored in
    the state that is returned; and for Paid the inputs have entered the
    spent table, for Pending they are locked in the pending table under the
    id of the quote, for Unpaid both tables are as before.  The inputs
    covered the amount, the fee reserve and the fee. *)
Theorem MeltTokens_answer_matches_tables L m method quoteId proofs st answer st' :
  MeltTokens L m method quoteId proofs st = (inr answer, st') ->
  exists Ys meltQuote,
    hashProofs L proofs = Some Ys
    /\ find_melt_quote quoteId st = Some meltQuote
    /\ MeltQuote_State meltQuote = nut05.Unpaid
    /\ (forall Y, Y ∈ Ys -> ~ is_pending Y st /\ ~ is_spent Y st)
    /\ add64 (add64 (MeltQuote_Amount meltQuote) (MeltQuote_FeeReserve meltQuote))
         (TransactionFees m proofs) <= sum64 Proof_Amount proofs
    /\ stored_state quoteId st' = Some (MeltQuote_State answer)
    /\ match MeltQuote_State answer with
       | nut05.Paid =>
         pending_proofs st' = pending_proofs st
         /\ used_proofs st' = (used_proofs st ++ proof_rows L "" proofs)%list
       | nut05.Pending =>
         pending_proofs st' = (pending_proofs st ++ proof_rows L quoteId proofs)%list
         /\ used_proofs st' = used_proofs st
       | nut05.Unpaid =>
         pending_proofs st' = pending_proofs st /\ used_proofs st' = used_proofs st
       end.
Proof.
  intros Hmelt.
  pose proof (outcome_run _ _ _ _ _ (MeltTokens_outcome L m method quoteId proofs (tables st))
                Hmelt) as [(e & ? & _)|H]; [discriminate|].
  destruct H as (Ys & meltQuote & Hys & _ & Hfind & Hstate & _ & Hpending & Hused & _ & _
                 & Hamount & _ & Hfound & Hpost).
  pose proof (released_locked L quoteId proofs Ys (tables st) Hys Hpending) as Hrel.
  pose proof (find_melt_quote_Id quoteId _ meltQuote Hfind) as Hid.
  exists Ys, meltQuote. split; [exact Hys|]. split; [exact Hfind|]. split; [exact Hstate|].
  split.
  { intros Y HY. split; [exact (not_in_rows Ys _ Y Hpending HY)|
                          exact (not_in_rows Ys _ Y Hused HY)]. }
  split; [now apply Z.ltb_ge|].
  cbn [MeltQuote_Id MeltQuote_with] in Hpost. rewrite Hid in Hpost.
  destruct Hpost as [(-> & Hp & Hu & Hq)|[(Hs & Hp & Hu & Hq)|(Hs & Hp & Hu & Hq)]].
  - cbn [MeltQuote_State MeltQuote_with]. split; [|split; [exact Hp|exact Hu]].
    change (melt_quotes (tables st')) with (melt_quotes st') in Hq.
    unfold stored_state, find_melt_quote. rewrite Hq.
    destruct (stored_state_update quoteId "" nut05.Pending
                (add_pending (proof_rows L quoteId proofs) (tables st))) as [Hstored _].
    { exists meltQuote. exact Hfind. }
    exact Hstored.
  - rewrite Hs. split; [exact Hq|]. rewrite Hrel in Hp. now split.
  - rewrite Hs. split; [exact Hq|]. rewrite Hrel in Hp. now split.
Qed.

Lemma MeltTokens_answer_matches_tables_witness :
  exists Ys meltQuote,
    hashProofs toyLibs [toyProof 8192 "s1"] = Some Ys
    /\ find_melt_quote "melt-1" (internalStore nut04.Unpaid []) = Some meltQuote
    /\ MeltQuote_State meltQuote = nut05.Unpaid
    /\ (forall Y, Y ∈ Ys -> ~ is_pending Y (internalStore nut04.Unpaid [])
                            /\ ~ is_spent Y (internalStore nut04.Unpaid []))
    /\ add64 (add64 (MeltQuote_Amount meltQuote) (MeltQuote_FeeReserve meltQuote))
         (TransactionFees (toyMint 0) [toyProof 8192 "s1"])
       <= sum64 Proof_Amount [toyProof 8192 "s1"]
    /\ stored_state "melt-1"
         (MeltTokens toyLibs (toyMint 0) "bolt11" "melt-1" [toyProof 8192 "s1"]
            (internalStore nut04.Unpaid [])).2 = Some nut05.Paid
    /\ pending_proofs
         (MeltTokens toyLibs (toyMint 0) "bolt11" "melt-1" [toyProof 8192 "s1"]
            (internalStore nut04.Unpaid [])).2
       = pending_proofs (internalStore nut04.Unpaid [])
    /\ used_proofs
         (MeltTokens toyLibs (toyMint 0) "bolt11" "melt-1" [toyProof 8192 "s1"]
            (internalStore nut04.Unpaid [])).2
       = (used_proofs (internalStore nut04.Unpaid [])
            ++ proof_rows toyLibs "" [toyProof 8192 "s1"])%list.
Proof.
  apply (MeltTokens_answer_matches_tables toyLibs (toyMint 0) "bolt11" "melt-1"
           [toyProof 8192 "s1"] (internalStore nut04.Unpaid [])
           (MeltQuote_with "preimage-hash-quote-1" nut05.Paid
              (toyMeltQuote "melt-1" "quote-1" 6000 nut05.Unpaid))).
  vm_compute. reflexivity.
Defined.

Lemma hashProofs_elem L proofs Ys proof Y :
  hashProofs L proofs = Some Ys -> proof ∈ proofs ->
  HashToCurve L (Proof_Secret proof) = Some Y -> Y ∈ Ys.
Proof.
  unfold hashProofs. intros Hys Hin HY. apply mapM_Some in Hys.
  induction Hys as [|p y ps ys Hp _ IH]; [now apply elem_of_nil in Hin|].
  apply elem_of_cons in Hin as [->|Hin].
  - rewrite HY in Hp. injection Hp as ->. apply elem_of_cons. now left.
  - apply elem_of_cons. right. now apply IH.
Qed.

Lemma taken_not_fresh (Ys : list string) (l : list DBProof) Y :
  Y ∈ Ys -> (exists row, row ∈ l /\ DBProof_Y row = Y) ->
  filter (fun p => mem_string (DBProof_Y p) Ys = true) l <> [].
Proof. intros HY Hrow Hnil. exact (not_in_rows Ys l Y Hnil HY Hrow). Qed.

(** X10. A proof that is locked or spent is refused, and the refusal
    leaves no trace.  If one of the inputs has a [Y] that is in the pending
    table or in the spent table, then, whatever the repository does, [Swap]
    and [MeltTokens] fail, and the tables and the log of backend calls are
    as before: nothing is signed, locked or spent, and no payment is
    attempted. *)
Theorem taken_proof_is_refused L m proofs proof Y st :
  proof ∈ proofs ->
  HashToCurve L (Proof_Secret proof) = Some Y ->
  is_pending Y st \/ is_spent Y st ->
  (forall blindedMessages,
     exists e, (Swap L m proofs blindedMessages st).1 = inl e
               /\ tables (Swap L m proofs blindedMessages st).2 = tables st)
  /\ (forall method quoteId,
        exists e, (MeltTokens L m method quoteId proofs st).1 = inl e
                  /\ tables (MeltTokens L m method quoteId proofs st).2 = tables st).
Proof.
  intros Hin HY Htaken.
  assert (Hclash : forall Ys,
            hashProofs L proofs = Some Ys ->
            filter (fun p => mem_string (DBProof_Y p) Ys = true) (pending_proofs (tables st)) = [] ->
            filter (fun p => mem_string (DBProof_Y p) Ys = true) (used_proofs (tables st)) = [] ->
            False).
  { intros Ys Hys Hpending Hused.
    pose proof (hashProofs_elem L proofs Ys proof Y Hys Hin HY) as HYs.
    destruct Htaken as [H|H].
    - exact (taken_not_fresh Ys _ Y HYs H Hpending).
    - exact (taken_not_fresh Ys _ Y HYs H Hused). }
  split.
  - intros blindedMessages.
    pose proof (Swap_outcome L m proofs blindedMessages (tables st) st eq_refl) as H.
    destruct (Swap L m proofs blindedMessages st) as [[e|sigs] st']; cbn [fst snd] in *.
    + exists e. split; [reflexivity|].
      destruct H as [H|(Ys & saved & Hys & Hp & Hu & _)]; [exact H|].
      destruct (Hclash Ys Hys Hp Hu).
    + destruct H as (Ys & Hys & _ & Hp & Hu & _). destruct (Hclash Ys Hys Hp Hu).
  - intros method quoteId.
    pose proof (MeltTokens_outcome L m method quoteId proofs (tables st) st eq_refl) as H.
    destruct (MeltTokens L m method quoteId proofs st) as [r st']; cbn [fst snd] in *.
    destruct H as [(e & -> & H)|(Ys & q & Hys & _ & _ & _ & _ & Hp & Hu & _)].
    + now exists e.
    + destruct (Hclash Ys Hys Hp Hu).
Qed.

Lemma taken_proof_is_refused_witness :
  (forall blindedMessages,
     exists e,
       (Swap toyLibs (toyMint 0) [toyProof 1 "s0"; toyProof 4 "s1"] blindedMessages
          (Swap toyLibs (toyMint 0) [toyProof 4 "s1"] [toyMessage 4 "B1"] emptyStore).2).1
       = inl e
       /\ tables
            (Swap toyLibs (toyMint 0) [toyProof 1 "s0"; toyProof 4 "s1"] blindedMessages
               (Swap toyLibs (toyMint 0) [toyProof 4 "s1"] [toyMessage 4 "B1"] emptyStore).2).2
          = tables (Swap toyLibs (toyMint 0) [toyProof 4 "s1"] [toyMessage 4 "B1"] emptyStore).2)
  /\ (forall method quoteId,
        exists e,
          (MeltTokens toyLibs (toyMint 0) method quoteId [toyProof 1 "s0"; toyProof 4 "s1"]
             (Swap toyLibs (toyMint 0) [toyProof 4 "s1"] [toyMessage 4 "B1"] emptyStore).2).1
          = inl e
          /\ tables
               (MeltTokens toyLibs (toyMint 0) method quoteId
                  [toyProof 1 "s0"; toyProof 4 "s1"]
                  (Swap toyLibs (toyMint 0) [toyProof 4 "s1"] [toyMessage 4 "B1"]
                     emptyStore).2).2
             = tables (Swap toyLibs (toyMint 0) [toyProof 4 "s1"] [toyMessage 4 "B1"]
                         emptyStore).2).
Proof.
  apply (taken_proof_is_refused toyLibs (toyMint 0) [toyProof 1 "s0"; toyProof 4 "s1"]
           (toyProof 4 "s1") "Y(s1)").
  - apply elem_of_cons. right. apply elem_of_cons. now left.
  - reflexivity.
  - right. eexists. split; [vm_compute; left|reflexivity].
Defined.

(** X11. A melt that cannot start leaves no trace.  When the method
    is not bolt11, or the quote is not stored as Unpaid (unknown, Pending
    or already Paid), or the inputs are empty, do not hash to the curve or
    carry the SIG_ALL flag, [MeltTokens] fails whatever the repository
    does, and the tables and the log of backend calls are as before: the
    proofs are not locked and no payment is attempted. *)
Theorem MeltTokens_refusal_leaves_no_trace L m method quoteId proofs st :
  method <> BOLT11_METHOD
  \/ stored_state quoteId st <> Some nut05.Unpaid
  \/ proofs = []
  \/ hashProofs L proofs = None
  \/ ProofsSigAll L proofs = true ->
  exists e, (MeltTokens L m method quoteId proofs st).1 = inl e
            /\ tables (MeltTokens L m method quoteId proofs st).2 = tables st.
Proof.
  intros Hcause.
  pose proof (MeltTokens_outcome L m method quoteId proofs (tables st) st eq_refl) as H.
  destruct (MeltTokens L m method quoteId proofs st) as [r st']; cbn [fst snd] in *.
  destruct H as [(e & -> & H)|(Ys & q & Hys & Hmethod & Hfind & Hstate & Hne & _ & _ & _ & _
                               & _ & Hsigall & _)]; [now exists e|].
  exfalso. destruct Hcause as [H|[H|[H|[H|H]]]]; try congruence.
  apply H. unfold stored_state. change (find_melt_quote quoteId st) with
    (find_melt_quote quoteId (tables st)). now rewrite Hfind, <- Hstate.
Qed.

Lemma MeltTokens_refusal_leaves_no_trace_witness :
  exists e,
    (MeltTokens toyLibs (toyMint 0) "bolt11" "melt-1" [toyProof 8192 "s2"]
       (MeltTokens toyLibs (toyMint 0) "bolt11" "melt-1" [toyProof 8192 "s1"]
          (internalStore nut04.Unpaid [])).2).1 = inl e
    /\ tables
         (MeltTokens toyLibs (toyMint 0) "bolt11" "melt-1" [toyProof 8192 "s2"]
            (MeltTokens toyLibs (toyMint 0) "bolt11" "melt-1" [toyProof 8192 "s1"]
               (internalStore nut04.Unpaid [])).2).2
       = tables
           (MeltTokens toyLibs (toyMint 0) "bolt11" "melt-1" [toyProof 8192 "s1"]
              (internalStore nut04.Unpaid [])).2.
Proof.
  apply (MeltTokens_refusal_leaves_no_trace toyLibs (toyMint 0) "bolt11" "melt-1"
           [toyProof 8192 "s2"]).
  right. left. vm_compute. discriminate.
Defined.

(** ** What no request undoes *)

Lemma preserves_log (I : Store -> Prop) {A} (a : A) c :
  (forall st, I st -> I (log_call c st)) ->
  preserves I (fun st => (inr a, log_call c st)).
Proof. intros H st Hst. now apply H. Qed.

(** The rules by which a computation keeps an invariant [I]: for a result,
    an error, a sequence, a write that must succeed, a call of the
    repository and a call of the backend. *)
Lemma preserves_rules (I : Store -> Prop) :
  (forall A (a : A), preserves I (mret a))
  /\ (forall A e, preserves I (@throw A e))
  /\ (forall A B (c : M A) (k : A -> M B),
        preserves I c -> (forall a, preserves I (k a)) -> preserves I (c ≫= k))
  /\ (forall msg (c : M (DBResult unit)), preserves I c -> preserves I (db_must msg c))
  /\ (forall A (f : Store -> DBResult A * Store),
        (forall fs st, I st -> I (set_db_faults fs st)) ->
        (forall st, I st -> I (f st).2) ->
        preserves I (db_call f))
  /\ (forall A (a : A) c,
        (forall st, I st -> I (log_call c st)) ->
        preserves I (fun st => (inr a, log_call c st))).
Proof.
  repeat split; intros.
  - apply preserves_ret.
  - apply preserves_throw.
  - now apply preserves_bind.
  - now apply preserves_db_must.
  - now apply preserves_db_call.
  - now apply preserves_log.
Qed.

(** One step of a proof that a computation keeps an invariant, by the rules
    [rules]; [solve_state] proves that the invariant survives a write. *)
Ltac preserves_step rules solve_state :=
  lazymatch goal with
  | |- _ (mret _) => apply (proj1 (rules _))
  | |- _ (throw _) => apply (proj1 (proj2 (rules _)))
  | |- _ (db_must _ _) => apply (proj1 (proj2 (proj2 (proj2 (rules _)))))
  | |- _ (_ ≫= _) => apply (proj1 (proj2 (proj2 (rules _)))); [|intros ?]
  | |- _ (db_call _) =>
    apply (proj1 (proj2 (proj2 (proj2 (proj2 (rules _)))))); [solve_state|solve_state]
  | |- _ (match ?x with _ => _ end) => destruct x
  | |- _ (fun _ => _) =>
    apply (proj2 (proj2 (proj2 (proj2 (proj2 (rules _)))))); solve_state
  end.

(** A write keeps an invariant when the hypotheses say so. *)
Ltac keeps_write :=
  intros;
  repeat match goal with
         | |- context [match ?x with _ => _ end] => destruct x
         end;
  cbn [fst snd]; auto.

(** The writes that keep an invariant [inv] made of prefixes of tables. *)
Ltac grown_state inv :=
  unfold inv; intros; cbn;
  repeat match goal with
         | H : _ /\ _ |- _ => destruct H
         end;
  try (split; try assumption; now apply prefix_app_r).

Lemma RestoreSignatures_preserves (I : Store -> Prop) blindedMessages :
  (forall fs st, I st -> I (set_db_faults fs st)) ->
  preserves I (RestoreSignatures blindedMessages).
Proof.
  intros Hfs. induction blindedMessages as [|bm rest IH]; cbn [RestoreSignatures].
  - apply preserves_ret.
  - apply preserves_bind.
    + apply preserves_db_call; [exact Hfs|]. intros st Hst. exact Hst.
    + intros [sig| |]; [|exact IH|apply preserves_throw].
      apply preserves_bind; [exact IH|]. intros [outputs signatures]. apply preserves_ret.
Qed.

Lemma signBlindedMessages_keeps (I : Store -> Prop) L m blindedMessages :
  (forall fs st, I st -> I (set_db_faults fs st)) ->
  (forall row st, I st -> I (add_signatures [row] st)) ->
  preserves I (signBlindedMessages L m blindedMessages).
Proof.
  intros Hfs Hsig. induction blindedMessages as [|msg rest IH]; cbn [signBlindedMessages].
  - apply preserves_ret.
  - repeat (case_match; try apply preserves_throw).
    apply preserves_bind.
    + apply preserves_db_call; [exact Hfs|]. intros st Hst. now apply Hsig.
    + intros []; try apply preserves_throw.
      apply preserves_bind; [exact IH|]. intros sigs. apply preserves_ret.
Qed.

(** What each operation may write: an invariant that survives these writes
    survives the operation, whatever the repository and the backend do. *)
Lemma verifyProofs_keeps (I : Store -> Prop) L m proofs Ys :
  (forall fs st, I st -> I (set_db_faults fs st)) ->
  preserves I (verifyProofs L m proofs Ys).
Proof.
  intros Hfs. unfold verifyProofs, GetPendingProofs, GetProofsUsed.
  repeat preserves_step preserves_rules keeps_write.
Qed.

Lemma GetMintQuoteState_keeps (I : Store -> Prop) m method quoteId :
  (forall fs st, I st -> I (set_db_faults fs st)) ->
  (forall c st, I st -> I (log_call c st)) ->
  (forall id s st, I st -> I (update_mint_quote id s st)) ->
  preserves I (GetMintQuoteState m method quoteId).
Proof.
  intros Hfs Hlog Hmint.
  unfold GetMintQuoteState, GetMintQuote, ln_InvoiceStatus, UpdateMintQuoteState.
  repeat preserves_step preserves_rules keeps_write.
Qed.

Lemma MintTokens_keeps (I : Store -> Prop) L m method id blindedMessages :
  (forall fs st, I st -> I (set_db_faults fs st)) ->
  (forall c st, I st -> I (log_call c st)) ->
  (forall row st, I st -> I (add_signatures [row] st)) ->
  (forall id s st, I st -> I (update_mint_quote id s st)) ->
  preserves I (MintTokens L m method id blindedMessages).
Proof.
  intros Hfs Hlog Hsig Hmint.
  unfold MintTokens, MintTokens_paid, GetMintQuote, ln_InvoiceStatus, GetBlindSignatures,
    UpdateMintQuoteState.
  repeat first [apply signBlindedMessages_keeps; assumption
               | preserves_step preserves_rules keeps_write].
Qed.

Lemma Swap_keeps (I : Store -> Prop) L m proofs blindedMessages :
  (forall fs st, I st -> I (set_db_faults fs st)) ->
  (forall row st, I st -> I (add_signatures [row] st)) ->
  (forall rows st, I st -> I (add_used rows st)) ->
  preserves I (Swap L m proofs blindedMessages).
Proof.
  intros Hfs Hsig Hused. unfold Swap, GetBlindSignatures, SaveProofs, insert_rows.
  repeat first [apply signBlindedMessages_keeps; assumption
               | apply verifyProofs_keeps; assumption
               | preserves_step preserves_rules keeps_write].
Qed.

Lemma RequestMeltQuote_keeps (I : Store -> Prop) L m method request unit :
  (forall fs st, I st -> I (set_db_faults fs st)) ->
  (forall q st, I st -> I (set_melt_quotes (fun l => (l ++ [q])%list) st)) ->
  preserves I (RequestMeltQuote L m method request unit).
Proof.
  intros Hfs Hsave. unfold RequestMeltQuote, GetMintQuoteByPaymentHash, SaveMeltQuote.
  repeat preserves_step preserves_rules keeps_write.
Qed.

Lemma MeltTokens_keeps (I : Store -> Prop) L m method quoteId proofs :
  (forall fs st, I st -> I (set_db_faults fs st)) ->
  (forall c st, I st -> I (log_call c st)) ->
  (forall rows st, I st -> I (add_pending rows st)) ->
  (forall Ys st, I st -> I (remove_pending Ys st)) ->
  (forall rows st, I st -> I (add_used rows st)) ->
  (forall id preimage s st, I st -> I (update_melt_quote id preimage s st)) ->
  (forall id s st, I st -> I (update_mint_quote id s st)) ->
  preserves I (MeltTokens L m method quoteId proofs).
Proof.
  intros Hfs Hlog Hlock Hrelease Hused Hmelt Hmint.
  unfold MeltTokens, MeltTokens_pay, MeltTokens_sendPayment, MeltTokens_probe,
    settleQuotesInternally, settleProofs, GetMeltQuote, AddPendingProofs, UpdateMeltQuote,
    GetMintQuoteByPaymentHash, RemovePendingProofs, SaveProofs, UpdateMintQuoteState,
    ln_InvoiceStatus, ln_SendPayment, ln_OutgoingPaymentStatus, insert_rows.
  repeat first [apply verifyProofs_keeps; assumption
               | preserves_step preserves_rules keeps_write].
Qed.

Lemma GetMeltQuoteState_keeps (I : Store -> Prop) L m method quoteId :
  (forall fs st, I st -> I (set_db_faults fs st)) ->
  (forall c st, I st -> I (log_call c st)) ->
  (forall Ys st, I st -> I (remove_pending Ys st)) ->
  (forall rows st, I st -> I (add_used rows st)) ->
  (forall id preimage s st, I st -> I (update_melt_quote id preimage s st)) ->
  preserves I (GetMeltQuoteState L m method quoteId).
Proof.
  intros Hfs Hlog Hrelease Hused Hmelt.
  unfold GetMeltQuoteState, removePendingProofsForQuote, GetMeltQuote, UpdateMeltQuote,
    GetPendingProofsByQuote, RemovePendingProofs, SaveProofs, ln_OutgoingPaymentStatus,
    insert_rows.
  repeat preserves_step preserves_rules keeps_write.
Qed.

Lemma ProofsStateCheck_keeps (I : Store -> Prop) Ys :
  (forall fs st, I st -> I (set_db_faults fs st)) ->
  preserves I (ProofsStateCheck Ys).
Proof.
  intros Hfs. unfold ProofsStateCheck, GetProofsUsed.
  repeat preserves_step preserves_rules keeps_write.
Qed.

Lemma MQ_bind_keeps (I : Store -> Prop) {A B} (c : MQ A) (k : A -> MQ B) :
  (forall st, I st -> I (c st).2) ->
  (forall a st, I st -> I (k a st).2) ->
  forall st, I st -> I ((c ≫= k) st).2.
Proof.
  intros Hc Hk st Hst. unfold mbind, MQ_bind. specialize (Hc st Hst).
  destruct (c st) as [[e|a] st1]; [exact Hc|]. now apply Hk.
Qed.

Lemma liftQ_keeps (I : Store -> Prop) {A} (c : M A) :
  preserves I c -> forall st, I st -> I (liftQ c st).2.
Proof.
  intros Hc st Hst. unfold liftQ. specialize (Hc st Hst).
  now destruct (c st) as [[e|a] st1].
Qed.

Lemma RequestMintQuote_keeps (I : Store -> Prop) L B m method amount unit :
  (forall fs st, I st -> I (set_db_faults fs st)) ->
  (forall q st, I st -> I (set_mint_quotes (fun l => (l ++ [q])%list) st)) ->
  forall st, I st -> I (RequestMintQuote L B m method amount unit st).2.
Proof.
  intros Hfs Hsave. unfold RequestMintQuote.
  destruct (negb _); [intros st Hst; exact Hst|].
  destruct (negb _); [intros st Hst; exact Hst|].
  destruct (_ && _); [intros st Hst; exact Hst|].
  apply MQ_bind_keeps.
  - unfold RequestMintQuote_balance. destruct (_ >? 0); [|intros st Hst; exact Hst].
    apply MQ_bind_keeps.
    + apply liftQ_keeps. unfold GetBalance. apply preserves_db_call; [exact Hfs|].
      intros st Hst. exact Hst.
    + intros [balance| |] st Hst; [|exact Hst|exact Hst].
      destruct (_ >? _); exact Hst.
  - intros [].
    destruct (requestInvoice B amount) as [err|invoice]; [intros st Hst; exact Hst|].
    destruct (GenerateRandomQuoteId L) as [quoteId|]; [|intros st Hst; exact Hst].
    apply MQ_bind_keeps.
    + apply liftQ_keeps. unfold SaveMintQuote. apply preserves_db_call; [exact Hfs|].
      intros st Hst. now apply Hsave.
    + intros [[]| |] st Hst; exact Hst.
Qed.

Lemma serve_grown T L B m request st : grown T st -> grown T (serve L B m request st).
Proof.
  destruct request; cbn [serve].
  - apply RequestMintQuote_keeps; grown_state grown.
  - apply (GetMintQuoteState_keeps (grown T)); grown_state grown.
  - apply (MintTokens_keeps (grown T)); grown_state grown.
  - apply (Swap_keeps (grown T)); grown_state grown.
  - apply (RequestMeltQuote_keeps (grown T)); grown_state grown.
  - apply (GetMeltQuoteState_keeps (grown T)); grown_state grown.
  - apply (MeltTokens_keeps (grown T)); grown_state grown.
  - apply (ProofsStateCheck_keeps (grown T)); grown_state grown.
  - apply RestoreSignatures_preserves. grown_state grown.
Qed.

Lemma serve_all_grown L B m requests st : grown st (serve_all L B m requests st).
Proof.
  assert (H : forall T st0, grown T st0 -> grown T (serve_all L B m requests st0)).
  { intros T. induction requests as [|request rest IH]; intros st0 Hst0; [exact Hst0|].
    cbn. apply IH. now apply serve_grown. }
  apply H. split; reflexivity.
Qed.

Lemma find_prefix {A} (f : A -> bool) (l l' : list A) a :
  l `prefix_of` l' -> find f l = Some a -> find f l' = Some a.
Proof.
  intros [k ->] Hfind. induction l as [|x l IH]; [discriminate|].
  cbn in *. destruct (f x); [exact Hfind|now apply IH].
Qed.

(** X12. No request takes back a spent proof or a stored signature.
    After any sequence of requests, whatever their answers, the repository
    and the backend do, the spent table and the signature table begin with
    what they held before: a [Y] that was spent is still spent, and a [B_]
    that had a signature still has the same one. *)
Theorem spent_and_signed_for_good L B m requests st :
  used_proofs st `prefix_of` used_proofs (serve_all L B m requests st)
  /\ blind_signatures st `prefix_of` blind_signatures (serve_all L B m requests st)
  /\ (forall Y, is_spent Y st -> is_spent Y (serve_all L B m requests st))
  /\ (forall B_ sig,
        lookup_signature B_ st = Some sig ->
        lookup_signature B_ (serve_all L B m requests st) = Some sig).
Proof.
  destruct (serve_all_grown L B m requests st) as [Hused Hsigs].
  split; [exact Hused|]. split; [exact Hsigs|]. split.
  - intros Y (row & Hrow & HY). exists row. split; [|exact HY].
    destruct Hused as [k ->]. apply elem_of_app. now left.
  - intros B_ sig. unfold lookup_signature.
    destruct (find _ (blind_signatures st)) as [row|] eqn:Hfind; [|discriminate].
    intros [= <-]. now rewrite (find_prefix _ _ _ row Hsigs Hfind).
Qed.

(** ** Polling a melt quote *)

Lemma GetPendingProofsByQuote_healthy id st :
  db_faults st = [] ->
  GetPendingProofsByQuote id st = (inr (DBOk (quote_rows id st)), st).
Proof. intros H. unfold GetPendingProofsByQuote. now rewrite db_call_healthy. Qed.

Lemma removePendingProofsForQuote_healthy id st :
  db_faults st = [] ->
  removePendingProofsForQuote id st
  = (inr (DBOk (map proofOfRow (quote_rows id st))),
     remove_pending (map DBProof_Y (quote_rows id st)) st).
Proof.
  intros Hh. unfold removePendingProofsForQuote.
  rewrite (bind_ok _ _ _ _ _ (GetPendingProofsByQuote_healthy id st Hh)).
  unfold RemovePendingProofs. now rewrite (bind_ok _ _ _ _ _ (db_call_healthy _ st Hh)).
Qed.

Lemma well_keyed_rows L (rows : list DBProof) :
  Forall (well_keyed L) rows ->
  mapM (toDBProof L "") (map proofOfRow rows) = Some (map spent_row rows).
Proof.
  induction 1 as [|row rows Hrow _ IH]; [reflexivity|].
  assert (Hrow' : toDBProof L "" (proofOfRow row) = Some (spent_row row)).
  { unfold toDBProof, well_keyed in *. cbn. now rewrite Hrow. }
  cbn [map mapM]. now rewrite Hrow', IH.
Qed.

Lemma SaveProofs_rows_healthy msg L rows st :
  db_faults st = [] -> Forall (well_keyed L) rows ->
  db_must msg (SaveProofs L (map proofOfRow rows)) st
  = (inr tt, add_used (map spent_row rows) st).
Proof.
  intros Hh Hrows. unfold SaveProofs.
  rewrite db_must_healthy; unfold insert_rows; rewrite ?(well_keyed_rows L rows Hrows); auto.
Qed.

Section Polling.
Context (L : Libs) (m : Mint) (quoteId : string) (meltQuote : MeltQuote) (st : Store).
Context (response : lightning.PaymentStatus) (err : option string).
Hypothesis healthy : db_faults st = [].
Hypothesis stored : find_melt_quote quoteId st = Some meltQuote.
Hypothesis pending : MeltQuote_State meltQuote = nut05.Pending.
Hypothesis answer :
  lightning.OutgoingPaymentStatus (lightningClient m) (MeltQuote_PaymentHash meltQuote)
  = (response, err).

Let polled : Store :=
  log_call (lightning.CallOutgoingPaymentStatus (MeltQuote_PaymentHash meltQuote)) st.

Lemma poll_asks (k : lightning.PaymentStatus * option string -> M MeltQuote) :
  (ln_OutgoingPaymentStatus m (MeltQuote_PaymentHash meltQuote) ≫= k) st
  = k (response, err) polled.
Proof.
  apply bind_ok. unfold ln_OutgoingPaymentStatus. now rewrite answer.
Qed.

(** The start of the poll [poll] on a stored, pending quote, up to the
    answer of the backend; the arguments are the lemma for the lookup of
    the quote, the facts about the quote and the lemma for the call to the
    backend. *)
Ltac poll_enter poll found healthy stored pending asks :=
  unfold poll; rewrite String.eqb_refl; cbn [negb];
  erewrite bind_ok by (apply found; exact healthy); rewrite stored;
  cbn [find_result]; rewrite pending; cbn [nut05.State_eqb]; rewrite asks.

Lemma poll_pending :
  lightning.Status response = lightning.Pending ->
  GetMeltQuoteState L m BOLT11_METHOD quoteId st = (inr meltQuote, polled).
Proof.
  intros Hstatus.
  poll_enter GetMeltQuoteState GetMeltQuote_healthy healthy stored pending poll_asks.
  now rewrite Hstatus.
Qed.

Lemma poll_failed_silently :
  lightning.Status response = lightning.Failed ->
  (forall msg, err = Some msg -> strings_Contains msg "payment failed" = false) ->
  GetMeltQuoteState L m BOLT11_METHOD quoteId st = (inr meltQuote, polled).
Proof.
  intros Hstatus Herr.
  poll_enter GetMeltQuoteState GetMeltQuote_healthy healthy stored pending poll_asks.
  rewrite Hstatus.
  destruct err as [msg|]; [rewrite (Herr msg eq_refl)|]; reflexivity.
Qed.

Lemma poll_failed msg :
  lightning.Status response = lightning.Failed ->
  err = Some msg -> strings_Contains msg "payment failed" = true ->
  GetMeltQuoteState L m BOLT11_METHOD quoteId st
  = (inr (MeltQuote_with (MeltQuote_Preimage meltQuote) nut05.Unpaid meltQuote),
     remove_pending (map DBProof_Y (quote_rows quoteId st))
       (update_melt_quote quoteId "" nut05.Unpaid polled)).
Proof.
  intros Hstatus Herr Hmsg.
  poll_enter GetMeltQuoteState GetMeltQuote_healthy healthy stored pending poll_asks.
  rewrite Hstatus, Herr, Hmsg.
  pose proof (find_melt_quote_Id quoteId st meltQuote stored) as Hid.
  cbn [MeltQuote_Id MeltQuote_State MeltQuote_with]. rewrite Hid.
  assert (Hh : db_faults polled = []) by exact healthy.
  unfold mbind at 1, M_bind, bind.
  rewrite (bind_ok _ _ _ _ _ (UpdateMeltQuote_healthy _ quoteId "" nut05.Unpaid polled Hh)).
  rewrite (bind_ok _ _ _ _ _
             (removePendingProofsForQuote_healthy quoteId
                (update_melt_quote quoteId "" nut05.Unpaid polled) Hh)).
  reflexivity.
Qed.

Lemma poll_succeeded :
  lightning.Status response = lightning.Succeeded ->
  Forall (well_keyed L) (quote_rows quoteId st) ->
  GetMeltQuoteState L m BOLT11_METHOD quoteId st
  = (inr (MeltQuote_with (lightning.PaymentPreimage response) nut05.Paid meltQuote),
     update_melt_quote quoteId (lightning.PaymentPreimage response) nut05.Paid
       (add_used (map spent_row (quote_rows quoteId st))
          (remove_pending (map DBProof_Y (quote_rows quoteId st)) polled))).
Proof.
  intros Hstatus Hrows.
  poll_enter GetMeltQuoteState GetMeltQuote_healthy healthy stored pending poll_asks.
  rewrite Hstatus.
  pose proof (find_melt_quote_Id quoteId st meltQuote stored) as Hid.
  assert (Hh : db_faults polled = []) by exact healthy.
  assert (Hskip : forall (c : M MeltQuote) (k : MeltQuote -> M MeltQuote),
            c polled = (inr meltQuote, polled) -> (c ≫= k) polled = k meltQuote polled).
  { intros c k Hc. now apply bind_ok. }
  rewrite Hskip by now destruct err.
  rewrite Hid.
  rewrite (bind_ok _ _ _ _ _ (removePendingProofsForQuote_healthy quoteId polled Hh)).
  rewrite (bind_ok _ _ _ _ _
             (SaveProofs_rows_healthy _ L (quote_rows quoteId st)
                (remove_pending (map DBProof_Y (quote_rows quoteId st)) polled) Hh Hrows)).
  cbn [MeltQuote_Id MeltQuote_with]. rewrite Hid.
  erewrite bind_ok by (apply UpdateMeltQuote_healthy; exact healthy). reflexivity.
Qed.
End Polling.

(** X13. What [GetMeltQuoteState] does with a pending quote.  On a
    repository that answers, for a quote stored as Pending the backend is
    asked once.  If the payment is still pending, or has failed without an
    error whose text contains "payment failed", the quote is returned as it
    is and no table changes: the proofs stay locked.  If it has failed with
    such an error, the quote becomes Unpaid and the rows of the pending table
    with a [Y] of a row of this quote are deleted.  If it has succeeded and
    the rows of the quote are keyed by the hash of their secret, these rows
    leave the pending table and enter the spent table, and the quote becomes
    Paid with the preimage of the payment. *)
Theorem GetMeltQuoteState_resolves_pending L m quoteId meltQuote st response err :
  db_faults st = [] ->
  find_melt_quote quoteId st = Some meltQuote ->
  MeltQuote_State meltQuote = nut05.Pending ->
  lightning.OutgoingPaymentStatus (lightningClient m) (MeltQuote_PaymentHash meltQuote)
  = (response, err) ->
  (lightning.Status response = lightning.Succeeded ->
   Forall (well_keyed L) (quote_rows quoteId st)) ->
  let polled :=
    log_call (lightning.CallOutgoingPaymentStatus (MeltQuote_PaymentHash meltQuote)) st in
  let Ys := map DBProof_Y (quote_rows quoteId st) in
  GetMeltQuoteState L m BOLT11_METHOD quoteId st
  = match lightning.Status response with
    | lightning.Pending => (inr meltQuote, polled)
    | lightning.Failed =>
      if match err with
         | Some msg => strings_Contains msg "payment failed"
         | None => false
         end
      then (inr (MeltQuote_with (MeltQuote_Preimage meltQuote) nut05.Unpaid meltQuote),
            remove_pending Ys (update_melt_quote quoteId "" nut05.Unpaid polled))
      else (inr meltQuote, polled)
    | lightning.Succeeded =>
      (inr (MeltQuote_with (lightning.PaymentPreimage response) nut05.Paid meltQuote),
       update_melt_quote quoteId (lightning.PaymentPreimage response) nut05.Paid
         (add_used (map spent_row (quote_rows quoteId st)) (remove_pending Ys polled)))
    end.
Proof.
  intros Hh Hfind Hpending Hanswer Hrows polled Ys.
  destruct (lightning.Status response) eqn:Hstatus.
  - exact (poll_succeeded L m quoteId meltQuote st response err Hh Hfind Hpending Hanswer
             Hstatus (Hrows eq_refl)).
  - destruct err as [msg|].
    + destruct (strings_Contains msg "payment failed") eqn:Hmsg.
      * now apply (poll_failed L m quoteId meltQuote st response (Some msg) Hh Hfind Hpending
                     Hanswer msg).
      * apply (poll_failed_silently L m quoteId meltQuote st response (Some msg));
          try assumption. now intros ? [= <-].
    + apply (poll_failed_silently L m quoteId meltQuote st response None); try assumption.
      discriminate.
  - now apply (poll_pending L m quoteId meltQuote st response err).
Qed.

Lemma GetMeltQuoteState_resolves_pending_witness :
  GetMeltQuoteState toyLibs
    (pollingMint ({| lightning.PaymentPreimage := "preimage-inv";
                     lightning.Status := lightning.Succeeded |}, None))
    BOLT11_METHOD "melt-1" stuckStore
  = (inr (MeltQuote_with "preimage-inv" nut05.Paid
            (toyMeltQuote "melt-1" "inv" 6 nut05.Pending)),
     update_melt_quote "melt-1" "preimage-inv" nut05.Paid
       (add_used (map spent_row (quote_rows "melt-1" stuckStore))
          (remove_pending (map DBProof_Y (quote_rows "melt-1" stuckStore))
             (log_call (lightning.CallOutgoingPaymentStatus "hash-inv") stuckStore)))).
Proof.
  apply (GetMeltQuoteState_resolves_pending toyLibs
           (pollingMint ({| lightning.PaymentPreimage := "preimage-inv";
                            lightning.Status := lightning.Succeeded |}, None))
           "melt-1" (toyMeltQuote "melt-1" "inv" 6 nut05.Pending) stuckStore
           {| lightning.PaymentPreimage := "preimage-inv";
              lightning.Status := lightning.Succeeded |} None).
  - vm_compute. reflexivity.
  - vm_compute. reflexivity.
  - reflexivity.
  - reflexivity.
  - intros _. vm_compute. repeat constructor.
Defined.

Lemma proof_rows_cons L quoteId proof proofs :
  proof_rows L quoteId (proof :: proofs)
  = match toDBProof L quoteId proof with
    | Some row => row :: proof_rows L quoteId proofs
    | None => proof_rows L quoteId proofs
    end.
Proof. reflexivity. Qed.

Lemma proof_rows_own L quoteId proofs :
  Forall (fun row => DBProof_MeltQuoteId row = quoteId /\ well_keyed L row)
    (proof_rows L quoteId proofs).
Proof.
  induction proofs as [|proof proofs IH]; [constructor|].
  rewrite proof_rows_cons. unfold toDBProof.
  destruct (HashToCurve L (Proof_Secret proof)) as [Y|] eqn:HY; [|exact IH].
  constructor; [|exact IH]. split; [reflexivity|exact HY].
Qed.

Lemma spent_row_proof_rows L quoteId proofs :
  map spent_row (proof_rows L quoteId proofs) = proof_rows L "" proofs.
Proof.
  induction proofs as [|proof proofs IH]; [reflexivity|].
  rewrite !proof_rows_cons. unfold toDBProof.
  destruct (HashToCurve L (Proof_Secret proof)) as [Y|]; [|exact IH].
  cbn [map]. now rewrite IH.
Qed.

Lemma filter_all_tagged (quoteId : string) (rows : list DBProof) :
  Forall (fun row => DBProof_MeltQuoteId row = quoteId) rows ->
  filter (fun p => String.eqb (DBProof_MeltQuoteId p) quoteId = true) rows = rows.
Proof.
  induction 1 as [|row rows Hrow _ IH]; [reflexivity|].
  rewrite filter_cons. destruct (decide _) as [_|E]; [now rewrite IH|].
  exfalso. apply E. now apply String.eqb_eq.
Qed.

(** X14. A melt left pending is resolved by polling, with the same
    result as a melt that settles at once.  Let [MeltTokens] have answered
    with a Pending quote, whether the payment itself or the probe after it
    was reported pending, on a repository without older rows of that quote,
    and let the repository answer.  The poll has a mint [m'] of its own:
    its backend need not answer as the backend of the melt did.  Then
    [GetMeltQuoteState] with a backend that reports the payment as
    succeeded answers with the quote Paid and the preimage, and the inputs
    of the melt, and nothing else, have moved from the pending table to the
    spent table; with a backend that reports it as failed, with an error
    whose text contains "payment failed", the quote is Unpaid again and the
    inputs are released; in every other case the quote stays Pending and
    the inputs stay locked. *)
Theorem pending_melt_is_resolved_by_polling L m m' method quoteId proofs st answer st1
    response err :
  MeltTokens L m method quoteId proofs st = (inr answer, st1) ->
  MeltQuote_State answer = nut05.Pending ->
  db_faults st1 = [] ->
  quote_rows quoteId st = [] ->
  lightning.OutgoingPaymentStatus (lightningClient m') (MeltQuote_PaymentHash answer)
  = (response, err) ->
  exists polledQuote st2,
    GetMeltQuoteState L m' BOLT11_METHOD quoteId st1 = (inr polledQuote, st2)
    /\ stored_state quoteId st2 = Some (MeltQuote_State polledQuote)
    /\ match lightning.Status response with
       | lightning.Succeeded =>
         MeltQuote_State polledQuote = nut05.Paid
         /\ MeltQuote_Preimage polledQuote = lightning.PaymentPreimage response
         /\ pending_proofs st2 = pending_proofs st
         /\ used_proofs st2 = (used_proofs st ++ proof_rows L "" proofs)%list
       | lightning.Failed =>
         if match err with
            | Some msg => strings_Contains msg "payment failed"
            | None => false
            end
         then MeltQuote_State polledQuote = nut05.Unpaid
              /\ pending_proofs st2 = pending_proofs st
              /\ used_proofs st2 = used_proofs st
         else MeltQuote_State polledQuote = nut05.Pending
              /\ pending_proofs st2 = pending_proofs st1
              /\ used_proofs st2 = used_proofs st1
       | lightning.Pending =>
         MeltQuote_State polledQuote = nut05.Pending
         /\ pending_proofs st2 = pending_proofs st1
         /\ used_proofs st2 = used_proofs st1
       end.
Proof.
  intros Hmelt Hpending Hh Hnone Hanswer.
  pose proof (outcome_run _ _ _ _ _ (MeltTokens_outcome L m method quoteId proofs (tables st))
                Hmelt) as [(e & ? & _)|H]; [discriminate|].
  destruct H as (Ys & meltQuote & Hys & _ & Hfind & _ & _ & Hfresh & _ & _ & _ & _ & _
                 & _ & Hpost).
  destruct Hpost as [(-> & Hp & Hu & Hq)|[(Hs & _)|(Hs & _)]]; try congruence.
  change (pending_proofs (tables st1)) with (pending_proofs st1) in Hp.
  change (used_proofs (tables st1)) with (used_proofs st1) in Hu.
  change (melt_quotes (tables st1)) with (melt_quotes st1) in Hq.
  cbn in Hp, Hu.
  set (stored := MeltQuote_with "" nut05.Pending meltQuote).
  pose proof (find_melt_quote_Id quoteId _ meltQuote Hfind) as Hid.
  assert (Hstored : find_melt_quote quoteId st1 = Some stored).
  { unfold find_melt_quote in *. rewrite Hq. cbn.
    rewrite find_melt_quote_update. cbn in Hfind. rewrite Hfind. cbn.
    now rewrite Hid, String.eqb_refl. }
  assert (Hrows : quote_rows quoteId st1 = proof_rows L quoteId proofs).
  { unfold quote_rows in *. rewrite Hp, filter_app, Hnone. cbn [app].
    apply filter_all_tagged. eapply Forall_impl; [apply proof_rows_own|].
    now intros row [Htag _]. }
  assert (Hkeyed : Forall (well_keyed L) (quote_rows quoteId st1)).
  { rewrite Hrows. eapply Forall_impl; [apply proof_rows_own|]. now intros row [_ Hk]. }
  assert (HYs : map DBProof_Y (quote_rows quoteId st1) = Ys).
  { rewrite Hrows. now destruct (proof_rows_mapM L quoteId proofs Ys Hys). }
  assert (Hreleased : filter (fun p => mem_string (DBProof_Y p) Ys = false) (pending_proofs st1)
                      = pending_proofs st).
  { rewrite Hp. exact (released_locked L quoteId proofs Ys (tables st) Hys Hfresh). }
  assert (Hsome : is_Some (find_melt_quote quoteId st1)) by (exists stored; exact Hstored).
  assert (Hquiet : stored_state quoteId
                     (log_call (lightning.CallOutgoingPaymentStatus
                                  (MeltQuote_PaymentHash stored)) st1)
                   = Some nut05.Pending).
  { unfold stored_state.
    change (find_melt_quote quoteId (log_call _ st1)) with (find_melt_quote quoteId st1).
    now rewrite Hstored. }
  destruct (lightning.Status response) eqn:Hstatus.
  - pose proof (poll_succeeded L m' quoteId stored st1 response err Hh Hstored eq_refl
                  Hanswer Hstatus Hkeyed) as Hpoll.
    cbv zeta in Hpoll. rewrite HYs, Hrows in Hpoll.
    eexists _, _. split; [exact Hpoll|]. cbn [MeltQuote_State MeltQuote_with MeltQuote_Preimage].
    split; [|split; [reflexivity|split; [reflexivity|]]].
    + now apply stored_state_update.
    + split; [exact Hreleased|]. cbn. now rewrite Hu, spent_row_proof_rows.
  - destruct err as [msg|]; [destruct (strings_Contains msg "payment failed") eqn:Hmsg|].
    + pose proof (poll_failed L m' quoteId stored st1 response (Some msg) Hh Hstored eq_refl
                    Hanswer msg Hstatus eq_refl Hmsg) as Hpoll.
      cbv zeta in Hpoll. rewrite HYs in Hpoll.
      eexists _, _. split; [exact Hpoll|]. cbn [MeltQuote_State MeltQuote_with].
      split; [|split; [reflexivity|split; [exact Hreleased|exact Hu]]].
      pose proof (stored_state_update quoteId "" nut05.Unpaid
                    (log_call (lightning.CallOutgoingPaymentStatus
                                 (MeltQuote_PaymentHash stored)) st1) Hsome) as [Hs _].
      exact Hs.
    + assert (Herr : forall msg', Some msg = Some msg' ->
                                  strings_Contains msg' "payment failed" = false)
        by (now intros ? [= <-]).
      pose proof (poll_failed_silently L m' quoteId stored st1 response (Some msg) Hh Hstored
                    eq_refl Hanswer Hstatus Herr) as Hpoll.
      eexists _, _. split; [exact Hpoll|]. split; [exact Hquiet|now repeat split].
    + assert (Herr : forall msg', @None string = Some msg' ->
                                  strings_Contains msg' "payment failed" = false)
        by discriminate.
      pose proof (poll_failed_silently L m' quoteId stored st1 response None Hh Hstored
                    eq_refl Hanswer Hstatus Herr) as Hpoll.
      eexists _, _. split; [exact Hpoll|]. split; [exact Hquiet|now repeat split].
  - pose proof (poll_pending L m' quoteId stored st1 response err Hh Hstored eq_refl
                  Hanswer Hstatus) as Hpoll.
    eexists _, _. split; [exact Hpoll|]. split; [exact Hquiet|now repeat split].
Qed.

Lemma pending_melt_is_resolved_by_polling_witness :
  (MeltTokens toyLibs (pollingMint stillPending) "bolt11" "melt-1"
     [toyProof 4 "s1"; toyProof 2 "s2"] meltStore).1
  = inr (toyMeltQuote "melt-1" "inv" 6 nut05.Pending)
  /\ ln_calls (MeltTokens toyLibs (pollingMint stillPending) "bolt11" "melt-1"
                 [toyProof 4 "s1"; toyProof 2 "s2"] meltStore).2
     = [lightning.CallOutgoingPaymentStatus "hash-inv"; lightning.CallSendPayment "inv" 6]
  /\ exists polledQuote st2,
       GetMeltQuoteState toyLibs (pollingMint nowSucceeded) BOLT11_METHOD "melt-1"
         (MeltTokens toyLibs (pollingMint stillPending) "bolt11" "melt-1"
            [toyProof 4 "s1"; toyProof 2 "s2"] meltStore).2 = (inr polledQuote, st2)
       /\ stored_state "melt-1" st2 = Some (MeltQuote_State polledQuote)
       /\ MeltQuote_State polledQuote = nut05.Paid
       /\ MeltQuote_Preimage polledQuote = "preimage-inv"
       /\ pending_proofs st2 = pending_proofs meltStore
       /\ used_proofs st2
          = (used_proofs meltStore
               ++ proof_rows toyLibs "" [toyProof 4 "s1"; toyProof 2 "s2"])%list.
Proof.
  split; [vm_compute; reflexivity|]. split; [vm_compute; reflexivity|].
  apply (pending_melt_is_resolved_by_polling toyLibs (pollingMint stillPending)
           (pollingMint nowSucceeded) "bolt11" "melt-1"
           [toyProof 4 "s1"; toyProof 2 "s2"] meltStore
           (toyMeltQuote "melt-1" "inv" 6 nut05.Pending)
           (MeltTokens toyLibs (pollingMint stillPending) "bolt11" "melt-1"
              [toyProof 4 "s1"; toyProof 2 "s2"] meltStore).2
           {| lightning.PaymentPreimage := "preimage-inv";
              lightning.Status := lightning.Succeeded |} None).
  - vm_compute. reflexivity.
  - reflexivity.
  - vm_compute. reflexivity.
  - reflexivity.
  - reflexivity.
Defined.

(** ** Mint quotes *)

Lemma find_mint_quote_paid id q T :
  find_mint_quote id T = Some q ->
  find_mint_quote id (update_mint_quote (MintQuote_Id q) nut04.Paid T)
  = Some (MintQuote_with_State nut04.Paid q).
Proof.
  intros Hq. unfold find_mint_quote, update_mint_quote in *. cbn.
  rewrite find_mint_quote_update. rewrite Hq. cbn. now rewrite String.eqb_refl.
Qed.

Lemma GetMintQuoteState_outcome m method quoteId T :
  outcome (GetMintQuoteState m method quoteId) T
    (fun r T' =>
       match r with
       | inl _ =>
         T' = T
         \/ exists hash, T' = log_call (lightning.CallInvoiceStatus hash) T
       | inr answer =>
         exists mintQuote,
           method = BOLT11_METHOD
           /\ find_mint_quote quoteId T = Some mintQuote
           /\ find_mint_quote quoteId T' = Some answer
           /\ match MintQuote_State mintQuote with
              | nut04.Unpaid =>
                exists invoice,
                  lightning.InvoiceStatus (lightningClient m) (MintQuote_PaymentHash mintQuote)
                  = (invoice, None)
                  /\ if lightning.Settled invoice
                     then answer = MintQuote_with_State nut04.Paid mintQuote
                          /\ T' = update_mint_quote (MintQuote_Id mintQuote) nut04.Paid
                                    (log_call (lightning.CallInvoiceStatus
                                                 (MintQuote_PaymentHash mintQuote)) T)
                     else answer = mintQuote
                          /\ T' = log_call (lightning.CallInvoiceStatus
                                              (MintQuote_PaymentHash mintQuote)) T
              | _ => answer = mintQuote /\ T' = T
              end
       end).
Proof.
  unfold GetMintQuoteState.
  destruct (String.eqb method BOLT11_METHOD) eqn:Emethod; cbn [negb];
    [|apply outcome_throw; now left].
  apply String.eqb_eq in Emethod.
  eapply outcome_bind; [apply GetMintQuote_outcome| |].
  { intros e T' _ [_ [?|?]]; discriminate. }
  intros r T' _ [-> [[= ->]|[= ->]]]; [apply outcome_throw; now left|].
  destruct (find_mint_quote quoteId T) as [mintQuote|] eqn:Hfind; cbn [find_result];
    [|apply outcome_throw; now left].
  destruct (MintQuote_State mintQuote) eqn:Hstate; cbn [nut04.State_eqb].
  - eapply outcome_bind; [apply ln_InvoiceStatus_outcome| |].
    { intros e T' _ [? _]. discriminate. }
    intros [invoice err] T1 _ [[= Hinvoice] ->].
    destruct err as [msg|]; [apply outcome_throw; intros _; right; now eexists|].
    destruct (lightning.Settled invoice) eqn:Hsettled.
    + eapply outcome_bind; [apply UpdateMintQuoteState_must_outcome| |].
      { intros e T' _ [[_ ->]|[? _]]; [|discriminate]. right. now eexists. }
      intros [] T' _ [[? _]|[_ ->]]; [discriminate|].
      apply outcome_ret. intros _. exists mintQuote.
      split; [exact Emethod|]. split; [reflexivity|]. split.
      * now apply (find_mint_quote_paid quoteId mintQuote).
      * rewrite Hstate. exists invoice. split; [now symmetry|]. rewrite Hsettled. now split.
    + apply outcome_ret. intros _. exists mintQuote.
      split; [exact Emethod|]. split; [reflexivity|]. split; [exact Hfind|].
      rewrite Hstate. exists invoice. split; [now symmetry|]. rewrite Hsettled. now split.
  - apply outcome_ret. intros _. exists mintQuote. rewrite Hstate. now repeat split.
  - apply outcome_ret. intros _. exists mintQuote. rewrite Hstate. now repeat split.
Qed.

(** X15. [GetMintQuoteState] answers with the quote as it is stored
    afterwards, and only ever turns Unpaid into Paid.  Whatever the
    repository does: an answer is the stored quote with that id; for a quote
    stored as Paid or Issued it is that quote, no table changes and the
    backend is not asked; for a quote stored as Unpaid the backend is asked
    once, and the quote becomes Paid, in the answer and in the repository,
    exactly when its invoice is settled.  A failure changes no table. *)
Theorem GetMintQuoteState_polls_unpaid_only m method quoteId st :
  (forall answer st',
     GetMintQuoteState m method quoteId st = (inr answer, st') ->
     exists mintQuote,
       find_mint_quote quoteId st = Some mintQuote
       /\ find_mint_quote quoteId st' = Some answer
       /\ match MintQuote_State mintQuote with
          | nut04.Unpaid =>
            exists invoice,
              lightning.InvoiceStatus (lightningClient m) (MintQuote_PaymentHash mintQuote)
              = (invoice, None)
              /\ ln_calls st'
                 = lightning.CallInvoiceStatus (MintQuote_PaymentHash mintQuote) :: ln_calls st
              /\ answer = (if lightning.Settled invoice
                           then MintQuote_with_State nut04.Paid mintQuote else mintQuote)
          | _ => answer = mintQuote /\ tables st' = tables st
          end)
  /\ (forall e st',
        GetMintQuoteState m method quoteId st = (inl e, st') ->
        mint_quotes st' = mint_quotes st /\ melt_quotes st' = melt_quotes st
        /\ pending_proofs st' = pending_proofs st /\ used_proofs st' = used_proofs st
        /\ blind_signatures st' = blind_signatures st).
Proof.
  split.
  - intros answer st' Hrun.
    pose proof (outcome_run _ _ _ _ _ (GetMintQuoteState_outcome m method quoteId (tables st))
                  Hrun) as (mintQuote & _ & Hfind & Hfind' & H).
    exists mintQuote. split; [exact Hfind|]. split; [exact Hfind'|].
    destruct (MintQuote_State mintQuote); [|exact H|exact H].
    destruct H as (invoice & Hinvoice & H). exists invoice. split; [exact Hinvoice|].
    destruct (lightning.Settled invoice); destruct H as [-> H];
      apply (f_equal ln_calls) in H; now split.
  - intros e st' Hrun.
    pose proof (outcome_run _ _ _ _ _ (GetMintQuoteState_outcome m method quoteId (tables st))
                  Hrun) as [H|[hash H]].
    + repeat split; [apply (f_equal mint_quotes) in H|apply (f_equal melt_quotes) in H
                     |apply (f_equal pending_proofs) in H|apply (f_equal used_proofs) in H
                     |apply (f_equal blind_signatures) in H]; exact H.
    + repeat split; [apply (f_equal mint_quotes) in H|apply (f_equal melt_quotes) in H
                     |apply (f_equal pending_proofs) in H|apply (f_equal used_proofs) in H
                     |apply (f_equal blind_signatures) in H]; exact H.
Qed.

Lemma db_call_cases {A} (f : Store -> DBResult A * Store) st :
  exists st0,
    tables st0 = tables st
    /\ (db_call f st = (inr DBFail, st0) \/ db_call f st = (inr (f st0).1, (f st0).2)).
Proof.
  unfold db_call. destruct (db_faults st) as [|[] fs].
  - exists st. split; [reflexivity|]. right. now destruct (f st).
  - exists (set_db_faults fs st). split; [reflexivity|]. now left.
  - exists (set_db_faults fs st). split; [reflexivity|]. right.
    now destruct (f (set_db_faults fs st)).
Qed.

Lemma MQ_bind_inv {A B} (c : MQ A) (k : A -> MQ B) st r st' :
  (c ≫= k) st = (r, st') ->
  (exists e, c st = (inl e, st') /\ r = inl e)
  \/ exists a st1, c st = (inr a, st1) /\ k a st1 = (r, st').
Proof.
  unfold mbind, MQ_bind. destruct (c st) as [[e|a] st1].
  - intros [= <- <-]. left. now exists e.
  - intros H. right. now exists a, st1.
Qed.

Lemma RequestMintQuote_balance_run B m amount st r st1 :
  RequestMintQuote_balance B m amount st = (r, st1) ->
  tables st1 = tables st
  /\ (r = inr tt -> 0 < MaxBalance (limits m) ->
      add64 (balance B (tables st)) amount <= MaxBalance (limits m)).
Proof.
  unfold RequestMintQuote_balance.
  destruct (MaxBalance (limits m) >? 0) eqn:Ebal.
  - intros H. apply MQ_bind_inv in H as [(e & Hc & ->)|(r' & st0 & Hc & Hk)].
    + unfold liftQ, GetBalance in Hc.
      match type of Hc with
      | context [db_call ?f st] =>
        destruct (db_call_cases f st) as (st0 & Ht & [E|E]); rewrite E in Hc
      end; discriminate.
    + unfold liftQ, GetBalance in Hc.
      match type of Hc with
      | context [db_call ?f st] =>
        destruct (db_call_cases f st) as (st2 & Ht & [E|E]); rewrite E in Hc;
          cbn [fst snd] in Hc; injection Hc as <- <-
      end.
      * injection Hk as <- <-. split; [exact Ht|discriminate].
      * rewrite Ht in Hk.
        destruct (add64 _ amount >? MaxBalance (limits m)) eqn:Eover;
          injection Hk as <- <-; (split; [exact Ht|]); [discriminate|].
        intros _ _. rewrite Z.gtb_ltb in Eover. now apply Z.ltb_ge in Eover.
  - intros [= <- <-]. split; [reflexivity|]. intros _ Hpos.
    rewrite Z.gtb_ltb in Ebal. apply Z.ltb_ge in Ebal. lia.
Qed.

Lemma RequestMintQuote_run L B m method amount unit st r st' :
  RequestMintQuote L B m method amount unit st = (r, st') ->
  match r with
  | inl _ => tables st' = tables st
  | inr quote =>
    method = BOLT11_METHOD /\ unit = SAT_UNIT
    /\ (0 < MaxAmount (MintingSettings (limits m)) ->
        amount <= MaxAmount (MintingSettings (limits m)))
    /\ (0 < MaxBalance (limits m) ->
        add64 (balance B (tables st)) amount <= MaxBalance (limits m))
    /\ (exists invoice quoteId,
          CreateInvoice B amount = (invoice, None)
          /\ GenerateRandomQuoteId L = Some quoteId
          /\ quote = {| MintQuote_Id := quoteId; MintQuote_Amount := amount;
                        MintQuote_PaymentRequest := lightning.PaymentRequest invoice;
                        MintQuote_PaymentHash := lightning.PaymentHash invoice;
                        MintQuote_State := nut04.Unpaid;
                        MintQuote_Expiry := lightning.Expiry invoice |})
    /\ tables st' = set_mint_quotes (fun l => (l ++ [quote])%list) (tables st)
  end.
Proof.
  unfold RequestMintQuote.
  destruct (String.eqb method BOLT11_METHOD) eqn:Emethod; cbn [negb];
    [|intros [= <- <-]; reflexivity].
  destruct (String.eqb unit SAT_UNIT) eqn:Eunit; cbn [negb];
    [|intros [= <- <-]; reflexivity].
  apply String.eqb_eq in Emethod, Eunit.
  destruct (_ && _) eqn:Emax; [intros [= <- <-]; reflexivity|].
  assert (Hmax : 0 < MaxAmount (MintingSettings (limits m)) ->
                 amount <= MaxAmount (MintingSettings (limits m))).
  { intros Hpos. apply andb_false_iff in Emax as [E|E].
    - rewrite Z.gtb_ltb in E. apply Z.ltb_ge in E. lia.
    - rewrite Z.gtb_ltb in E. now apply Z.ltb_ge in E. }
  intros H. apply MQ_bind_inv in H as [(e & Hc & ->)|([] & st1 & Hc & Hk)].
  { now destruct (RequestMintQuote_balance_run B m amount st _ _ Hc). }
  destruct (RequestMintQuote_balance_run B m amount st _ _ Hc) as [Ht1 Hbal].
  specialize (Hbal eq_refl). revert Hk. unfold requestInvoice.
  destruct (CreateInvoice B amount) as [invoice [err|]] eqn:Einvoice;
    [intros [= <- <-]; exact Ht1|].
  destruct (GenerateRandomQuoteId L) as [quoteId|] eqn:Eid;
    [|intros [= <- <-]; exact Ht1].
  intros H. apply MQ_bind_inv in H as [(e & Hc' & ->)|(r' & st2 & Hc' & Hk)].
  { unfold liftQ, SaveMintQuote in Hc'.
    match type of Hc' with
    | context [db_call ?f st1] =>
      destruct (db_call_cases f st1) as (st0 & Ht & [E|E]); rewrite E in Hc'
    end; discriminate. }
  unfold liftQ, SaveMintQuote in Hc'.
  match type of Hc' with
  | context [db_call ?f st1] =>
    destruct (db_call_cases f st1) as (st0 & Ht & [E|E]); rewrite E in Hc';
      cbn [fst snd] in Hc'; injection Hc' as <- <-
  end.
  - injection Hk as <- <-. now rewrite Ht.
  - injection Hk as <- <-. split; [exact Emethod|]. split; [exact Eunit|].
    split; [exact Hmax|]. split; [exact Hbal|]. split; [now exists invoice, quoteId|].
    change (tables (set_mint_quotes ?f st0)) with (set_mint_quotes f (tables st0)).
    now rewrite Ht, Ht1.
Qed.

(** X16. [RequestMintQuote] creates a quote only within the limits.
    Whatever the repository does: when it answers with a quote, the method
    is bolt11 and the unit sat; the amount is at most [MaxAmount] when that
    limit is set; the balance of the repository plus the amount, added in 64
    bits, is at most [MaxBalance] when that limit is set; the quote is
    Unpaid, carries the amount asked for and the invoice the backend
    created for it, and has been added at the end of the quote table, which
    is the only change.  When it fails no table changes.  On a repository
    that answers, an amount over [MaxAmount] is refused with
    MintAmountExceeded, and otherwise a balance over [MaxBalance] with
    MintingDisabled. *)
Theorem RequestMintQuote_enforces_limits L B m method amount unit st :
  (forall quote st',
     RequestMintQuote L B m method amount unit st = (inr quote, st') ->
     method = BOLT11_METHOD /\ unit = SAT_UNIT
     /\ (0 < MaxAmount (MintingSettings (limits m)) ->
         amount <= MaxAmount (MintingSettings (limits m)))
     /\ (0 < MaxBalance (limits m) ->
         add64 (balance B (tables st)) amount <= MaxBalance (limits m))
     /\ (exists invoice quoteId,
           CreateInvoice B amount = (invoice, None)
           /\ GenerateRandomQuoteId L = Some quoteId
           /\ quote = {| MintQuote_Id := quoteId; MintQuote_Amount := amount;
                         MintQuote_PaymentRequest := lightning.PaymentRequest invoice;
                         MintQuote_PaymentHash := lightning.PaymentHash invoice;
                         MintQuote_State := nut04.Unpaid;
                         MintQuote_Expiry := lightning.Expiry invoice |})
     /\ tables st' = set_mint_quotes (fun l => (l ++ [quote])%list) (tables st))
  /\ (forall e st',
        RequestMintQuote L B m method amount unit st = (inl e, st') ->
        tables st' = tables st)
  /\ (db_faults st = [] -> method = BOLT11_METHOD -> unit = SAT_UNIT ->
      (0 < MaxAmount (MintingSettings (limits m)) ->
       MaxAmount (MintingSettings (limits m)) < amount ->
       RequestMintQuote L B m method amount unit st = (inl MintAmountExceededErr, st))
      /\ ((0 < MaxAmount (MintingSettings (limits m)) ->
           amount <= MaxAmount (MintingSettings (limits m))) ->
          0 < MaxBalance (limits m) ->
          MaxBalance (limits m) < add64 (balance B (tables st)) amount ->
          RequestMintQuote L B m method amount unit st = (inl MintingDisabled, st))).
Proof.
  pose proof (RequestMintQuote_run L B m method amount unit st) as Hrun.
  split; [intros quote st' H; exact (Hrun _ _ H)|].
  split; [intros e st' H; exact (Hrun _ _ H)|].
  intros Hh -> ->. split.
  - intros Hpos Hover. unfold RequestMintQuote. cbn [String.eqb negb].
    rewrite !String.eqb_refl. cbn [negb].
    replace (MaxAmount (MintingSettings (limits m)) >? 0) with true
      by (symmetry; rewrite Z.gtb_ltb; now apply Z.ltb_lt).
    replace (amount >? MaxAmount (MintingSettings (limits m))) with true
      by (symmetry; rewrite Z.gtb_ltb; now apply Z.ltb_lt).
    reflexivity.
  - intros Hmax Hpos Hover. unfold RequestMintQuote.
    rewrite !String.eqb_refl. cbn [negb].
    replace ((MaxAmount (MintingSettings (limits m)) >? 0)
             && (amount >? MaxAmount (MintingSettings (limits m)))) with false.
    2:{ symmetry. apply andb_false_iff.
        destruct (MaxAmount (MintingSettings (limits m)) >? 0) eqn:E; [right|now left].
        rewrite Z.gtb_ltb in E. apply Z.ltb_lt in E.
        rewrite Z.gtb_ltb. apply Z.ltb_ge. now apply Hmax. }
    unfold RequestMintQuote_balance.
    replace (MaxBalance (limits m) >? 0) with true
      by (symmetry; rewrite Z.gtb_ltb; now apply Z.ltb_lt).
    unfold mbind, MQ_bind, liftQ, GetBalance. rewrite db_call_healthy by exact Hh.
    cbn [fst snd].
    replace (add64 (balance B (tables st)) amount >? MaxBalance (limits m)) with true
      by (symmetry; rewrite Z.gtb_ltb; now apply Z.ltb_lt).
    reflexivity.
Qed.

(** ** SIG_ALL *)

Lemma first_error_None {A} (f : A -> option Error) (l : list A) :
  first_error f l = None -> Forall (fun x => f x = None) l.
Proof.
  induction l as [|x l IH]; [constructor|].
  cbn. destruct (f x) eqn:E; [discriminate|]. intros H. constructor; auto.
Qed.

Lemma required_max n : (if n >? 0 then n else 1) = Z.max 1 n.
Proof.
  destruct (n >? 0) eqn:E; rewrite Z.gtb_ltb in E;
    [apply Z.ltb_lt in E|apply Z.ltb_ge in E]; lia.
Qed.

Lemma sameConditions_None L pubkeys required proof :
  sameConditions L pubkeys required proof = None -> sig_all_input L pubkeys required proof.
Proof.
  intros H. unfold sameConditions in H.
  destruct (DeserializeSecret L (Proof_Secret proof)) as [?|secret] eqn:Esecret; [discriminate|].
  destruct (IsSigAll L secret) eqn:Eflag; [|discriminate]. cbn [negb] in H.
  destruct (ParseP2PKTags L (Secret_Tags secret)) as [?|tags] eqn:Etags; [discriminate|].
  destruct (PublicKeys L secret) as [?|keys] eqn:Ekeys; [discriminate|].
  destruct (bool_decide (pubkeys = keys)) eqn:Esame; [|discriminate]. cbn [negb] in H.
  apply bool_decide_eq_true in Esame. subst keys.
  destruct (required =? _) eqn:Ereq; [|discriminate].
  apply Z.eqb_eq in Ereq. rewrite required_max in Ereq.
  exists secret, tags. now repeat split.
Qed.

Lemma signedOutput_None L pubkeys required bm :
  signedOutput L pubkeys required bm = None -> signed_output L pubkeys required bm.
Proof.
  unfold signedOutput, signed_output. intros H.
  destruct (hex_DecodeString L (BlindedMessage_B_ bm)) as [?|B_bytes]; [discriminate|].
  destruct (json_Unmarshal_witness L (BlindedMessage_Witness bm)) as [witness|]; [|discriminate].
  destruct (length (Signatures witness) <? 1)%nat eqn:Elen; [discriminate|].
  destruct (HasValidSignatures L _ witness required pubkeys) eqn:Evalid; [|discriminate].
  exists B_bytes, witness. repeat split; try assumption.
  intros Hnil. rewrite Hnil in Elen. discriminate.
Qed.

(** X17. A swap of SIG_ALL inputs succeeds only when every output is
    signed.  If [Swap] succeeds on inputs for which [ProofsSigAll] holds,
    then there are inputs, the first of them is a well-known secret locked
    to some keys and asking for some number of signatures, every input
    carries the SIG_ALL flag with the same keys and the same number, and
    every output has a witness with that number of valid signatures by
    those keys over its [B_]. *)
Theorem Swap_enforces_SIG_ALL L m proofs blindedMessages st sigs st' :
  Swap L m proofs blindedMessages st = (inr sigs, st') ->
  ProofsSigAll L proofs = true ->
  exists pubkeys required,
    1 <= required
    /\ proofs <> []
    /\ Forall (sig_all_input L pubkeys required) proofs
    /\ Forall (signed_output L pubkeys required) blindedMessages.
Proof.
  intros Hswap Hflag.
  pose proof (outcome_run _ _ _ _ _ (Swap_outcome L m proofs blindedMessages (tables st)) Hswap)
    as (Ys & _ & Hne & _ & _ & _ & _ & _ & _ & _ & Hp2pk & _).
  specialize (Hp2pk Hflag). unfold verifyP2PKBlindedMessages in Hp2pk.
  destruct proofs as [|proof0 rest]; [discriminate|].
  destruct (DeserializeSecret L (Proof_Secret proof0)) as [?|secret]; [discriminate|].
  destruct (PublicKeys L secret) as [?|pubkeys]; [discriminate|].
  destruct (ParseP2PKTags L (Secret_Tags secret)) as [?|tags]; [discriminate|].
  cbv zeta in Hp2pk. rewrite required_max in Hp2pk.
  destruct (first_error (sameConditions L pubkeys _) (proof0 :: rest)) eqn:Einputs;
    [discriminate|].
  exists pubkeys, (Z.max 1 (Tags_NSigs tags)). split; [lia|]. split; [exact Hne|]. split.
  - apply first_error_None in Einputs. eapply Forall_impl; [exact Einputs|].
    intros proof. apply sameConditions_None.
  - apply first_error_None in Hp2pk. eapply Forall_impl; [exact Hp2pk|].
    intros bm. apply signedOutput_None.
Qed.

Lemma Swap_enforces_SIG_ALL_witness :
  exists pubkeys required,
    1 <= required
    /\ [lockedProof "P2PK:SIG_ALL" "data-key/H(P2PK:SIG_ALL)"] <> []
    /\ Forall (sig_all_input toyLibsSigAll pubkeys required)
         [lockedProof "P2PK:SIG_ALL" "data-key/H(P2PK:SIG_ALL)"]
    /\ Forall (signed_output toyLibsSigAll pubkeys required)
         [signedMessage 1 "B1" "data-key/H(B1)"].
Proof.
  apply (Swap_enforces_SIG_ALL toyLibsSigAll (toyMint 0)
           [lockedProof "P2PK:SIG_ALL" "data-key/H(P2PK:SIG_ALL)"]
           [signedMessage 1 "B1" "data-key/H(B1)"] emptyStore [toySignature 1 "B1"]
           (Swap toyLibsSigAll (toyMint 0)
              [lockedProof "P2PK:SIG_ALL" "data-key/H(P2PK:SIG_ALL)"]
              [signedMessage 1 "B1" "data-key/H(B1)"] emptyStore).2).
  - vm_compute. reflexivity.
  - vm_compute. reflexivity.
Defined.

Lemma Forall2_signs_active L m blindedMessages sigs msg :
  Forall2 (signs L m) blindedMessages sigs -> msg ∈ blindedMessages ->
  is_Some (activeKeysets m !! BlindedMessage_Id msg).
Proof.
  induction 1 as [|x sig bms sigs Hx _ IH]; intros Hin; [now apply elem_of_nil in Hin|].
  apply elem_of_cons in Hin as [->|Hin]; [|now apply IH].
  destruct Hx as (keyset & _ & _ & _ & _ & Hactive & _). now exists keyset.
Qed.

(** X18. [signBlindedMessages] signs in order, with active keysets
    only, and stores what it signs.  Whatever the repository does, the
    signatures stored by a call are those of a prefix of the messages, each
    made with the key for the amount of its message in the active keyset
    the message names, stored under the [B_] of the message, after the rows
    already there; no other table changes.  When the call succeeds the
    prefix is the whole list and the signatures returned are the stored
    ones, one per message, in the order and with the amounts of the
    messages.  A message that names a keyset that is not active makes the
    call fail. *)
Theorem signBlindedMessages_in_order L m blindedMessages st :
  exists saved,
    Forall2 (signs L m) (take (length saved) blindedMessages) saved
    /\ tables (signBlindedMessages L m blindedMessages st).2
       = add_signatures (zip (map BlindedMessage_B_ blindedMessages) saved) (tables st)
    /\ (forall sigs,
          (signBlindedMessages L m blindedMessages st).1 = inr sigs ->
          sigs = saved
          /\ length sigs = length blindedMessages
          /\ map BlindedSignature_Amount sigs = map BlindedMessage_Amount blindedMessages)
    /\ (forall msg,
          msg ∈ blindedMessages ->
          activeKeysets m !! BlindedMessage_Id msg = None ->
          exists e, (signBlindedMessages L m blindedMessages st).1 = inl e).
Proof.
  destruct (signBlindedMessages_outcome L m blindedMessages (tables st) st eq_refl)
    as (saved & Hsaved & Htables & Hok).
  exists saved. split; [exact Hsaved|]. split; [exact Htables|].
  assert (Hall : forall sigs,
            (signBlindedMessages L m blindedMessages st).1 = inr sigs ->
            sigs = saved /\ Forall2 (signs L m) blindedMessages sigs).
  { intros sigs Hsigs. destruct (Hok sigs Hsigs) as [-> Hlen]. split; [reflexivity|].
    now rewrite Hlen, firstn_all in Hsaved. }
  split.
  - intros sigs Hsigs. destruct (Hall sigs Hsigs) as [-> Hsigned].
    split; [reflexivity|]. split; [now apply Hok|].
    now destruct (signs_amounts L m blindedMessages saved Hsigned).
  - intros msg Hin Hinactive.
    destruct (signBlindedMessages L m blindedMessages st).1 as [e|sigs] eqn:Hrun;
      [now exists e|].
    destruct (Hall sigs eq_refl) as [_ Hsigned].
    destruct (Forall2_signs_active L m blindedMessages sigs msg Hsigned Hin) as [keyset Hk].
    congruence.
Qed.

(** ** Pending and spent never overlap *)

Lemma consistent_same L st st' :
  pending_proofs st' = pending_proofs st -> used_proofs st' = used_proofs st ->
  consistent L st -> consistent L st'.
Proof.
  intros Hp Hu [Hkeyed Hnever]. unfold consistent, is_pending, is_spent in *.
  rewrite Hp, Hu. now split.
Qed.

Lemma consistent_released L (Ys : list string) st st' :
  pending_proofs st' = filter (fun p => mem_string (DBProof_Y p) Ys = false) (pending_proofs st) ->
  used_proofs st' = used_proofs st ->
  consistent L st -> consistent L st'.
Proof.
  intros Hp Hu [Hkeyed Hnever]. unfold consistent, is_pending, is_spent in *.
  rewrite Hp, Hu. split.
  - apply Forall_forall. intros row Hrow. apply list_elem_of_filter in Hrow as [_ Hrow].
    rewrite Forall_forall in Hkeyed. now apply Hkeyed.
  - intros Y (row & Hrow & HY). apply list_elem_of_filter in Hrow as [_ Hrow].
    apply Hnever. now exists row.
Qed.

Lemma consistent_spent L (Ys : list string) (rows : list DBProof) st st' :
  pending_proofs st' = filter (fun p => mem_string (DBProof_Y p) Ys = false) (pending_proofs st) ->
  used_proofs st' = (used_proofs st ++ rows)%list ->
  (forall row, row ∈ rows -> DBProof_Y row ∈ Ys) ->
  consistent L st -> consistent L st'.
Proof.
  intros Hp Hu Hrows [Hkeyed Hnever]. unfold consistent, is_pending, is_spent in *.
  rewrite Hp, Hu. split.
  - apply Forall_forall. intros row Hrow. apply list_elem_of_filter in Hrow as [_ Hrow].
    rewrite Forall_forall in Hkeyed. now apply Hkeyed.
  - intros Y (row & Hrow & HY) (row' & Hrow' & HY').
    apply list_elem_of_filter in Hrow as [Hout Hrow].
    apply elem_of_app in Hrow' as [Hrow'|Hrow'].
    + apply (Hnever Y); [now exists row|now exists row'].
    + specialize (Hrows row' Hrow'). rewrite HY', <- HY in Hrows.
      apply mem_string_elem_of in Hrows. congruence.
Qed.

Lemma consistent_locked L (Ys : list string) (rows : list DBProof) st st' :
  pending_proofs st' = (pending_proofs st ++ rows)%list ->
  used_proofs st' = used_proofs st ->
  Forall (well_keyed L) rows ->
  (forall row, row ∈ rows -> DBProof_Y row ∈ Ys) ->
  filter (fun p => mem_string (DBProof_Y p) Ys = true) (used_proofs st) = [] ->
  consistent L st -> consistent L st'.
Proof.
  intros Hp Hu Hrows HYs Hfresh [Hkeyed Hnever]. unfold consistent, is_pending, is_spent in *.
  rewrite Hp, Hu. split; [now apply Forall_app|].
  intros Y (row & Hrow & HY) Hspent. apply elem_of_app in Hrow as [Hrow|Hrow].
  - apply (Hnever Y); [now exists row|exact Hspent].
  - apply (not_in_rows Ys (used_proofs st) Y Hfresh); [|exact Hspent].
    rewrite <- HY. now apply HYs.
Qed.

Lemma proof_rows_Ys L quoteId proofs Ys :
  hashProofs L proofs = Some Ys ->
  forall row, row ∈ proof_rows L quoteId proofs -> DBProof_Y row ∈ Ys.
Proof.
  intros Hys row Hrow. destruct (proof_rows_mapM L quoteId proofs Ys Hys) as [_ <-].
  now apply list_elem_of_fmap_2.
Qed.

Lemma Swap_consistent L m proofs blindedMessages st :
  consistent L st -> consistent L (Swap L m proofs blindedMessages st).2.
Proof.
  intros Hst.
  pose proof (Swap_outcome L m proofs blindedMessages (tables st) st eq_refl) as H.
  destruct (Swap L m proofs blindedMessages st) as [[e|sigs] st']; cbn [fst snd] in *.
  - assert (H' : exists saved, tables st' = add_signatures saved (tables st)).
    { destruct H as [H|(Ys & saved & _ & _ & _ & H)]; [|now exists saved].
      exists []. now rewrite add_signatures_none. }
    destruct H' as (saved & H').
    apply (consistent_same L st); [|
      |exact Hst].
    + now apply (f_equal pending_proofs) in H'.
    + now apply (f_equal used_proofs) in H'.
  - destruct H as (Ys & Hys & _ & Hpending & _ & _ & _ & _ & _ & _ & _ & _ & H).
    apply (consistent_spent L Ys (proof_rows L "" proofs) st); [| | |exact Hst].
    + apply (f_equal pending_proofs) in H. cbn in H. rewrite H.
      symmetry. now apply filter_complement.
    + now apply (f_equal used_proofs) in H.
    + now apply proof_rows_Ys.
Qed.

Lemma MeltTokens_consistent L m method quoteId proofs st :
  consistent L st -> consistent L (MeltTokens L m method quoteId proofs st).2.
Proof.
  intros Hst.
  pose proof (MeltTokens_outcome L m method quoteId proofs (tables st) st eq_refl) as H.
  destruct (MeltTokens L m method quoteId proofs st) as [r st']; cbn [fst snd] in *.
  destruct H as [(e & _ & H)|(Ys & q & Hys & _ & _ & _ & _ & Hpending & Hused & _ & _ & _ & _
                             & _ & H)].
  { apply (consistent_same L st);
      [now apply (f_equal pending_proofs) in H|now apply (f_equal used_proofs) in H|exact Hst]. }
  pose proof (released_locked L quoteId proofs Ys (tables st) Hys Hpending) as Hrel.
  pose proof (filter_complement Ys _ Hpending) as Hsame.
  change (pending_proofs (tables st)) with (pending_proofs st) in *.
  assert (Hlocked : forall st0,
            pending_proofs st0 = pending_proofs (locked L quoteId proofs (tables st)) ->
            used_proofs st0 = used_proofs (locked L quoteId proofs (tables st)) ->
            consistent L st0).
  { intros st0 Hp Hu.
    apply (consistent_locked L Ys (proof_rows L quoteId proofs) st);
      [exact Hp|exact Hu| |now apply proof_rows_Ys|exact Hused|exact Hst].
    eapply Forall_impl; [apply proof_rows_own|]. now intros row [_ Hk]. }
  assert (Hreleased : forall st0,
            pending_proofs st0 = released Ys (locked L quoteId proofs (tables st)) ->
            used_proofs st0 = used_proofs (locked L quoteId proofs (tables st)) ->
            consistent L st0).
  { intros st0 Hp Hu. rewrite Hrel in Hp. now apply (consistent_same L st). }
  assert (Hspent : forall st0,
            pending_proofs st0 = released Ys (locked L quoteId proofs (tables st)) ->
            used_proofs st0
            = (used_proofs (locked L quoteId proofs (tables st)) ++ proof_rows L "" proofs)%list ->
            consistent L st0).
  { intros st0 Hp Hu. rewrite Hrel in Hp.
    apply (consistent_spent L Ys (proof_rows L "" proofs) st);
      [now rewrite Hsame|exact Hu|now apply proof_rows_Ys|exact Hst]. }
  destruct r as [e|answer].
  - destruct H as [[Hp Hu]|[[Hp Hu]|[Hp Hu]]];
      [now apply Hlocked|now apply Hreleased|now apply Hspent].
  - destruct H as [(_ & Hp & Hu & _)|[(_ & Hp & Hu & _)|(_ & Hp & Hu & _)]];
      [now apply Hlocked|now apply Hreleased|now apply Hspent].
Qed.

Lemma SaveProofs_rows_outcome msg L rows T :
  Forall (well_keyed L) rows ->
  outcome (db_must msg (SaveProofs L (map proofOfRow rows))) T
    (fun r T' => r = inl (BuildCashuError msg DBErrCode) /\ T' = T
                 \/ r = inr tt /\ T' = add_used (map spent_row rows) T).
Proof.
  intros Hrows. apply db_must_outcome, outcome_db_call; [now left|].
  intros st <-. right. unfold insert_rows. rewrite (well_keyed_rows L rows Hrows). now split.
Qed.

Lemma removePendingProofsForQuote_outcome id T :
  outcome (removePendingProofsForQuote id) T
    (fun r T' =>
       r = inr DBFail /\ T' = T
       \/ r = inr (DBOk (map proofOfRow (quote_rows id T)))
          /\ T' = remove_pending (map DBProof_Y (quote_rows id T)) T).
Proof.
  unfold removePendingProofsForQuote, GetPendingProofsByQuote.
  eapply outcome_bind with
    (R := fun r T' => T' = T /\ (r = inr DBFail \/ r = inr (DBOk (quote_rows id T)))).
  - apply outcome_db_call; [intros; split; [reflexivity|now left]|].
    intros st <-. split; [reflexivity|now right].
  - intros e T' _ [_ [?|?]]; discriminate.
  - intros r T' _ [-> [[= ->]|[= ->]]].
    + apply outcome_ret. intros _. now left.
    + eapply outcome_bind with
        (R := fun r T' => r = inr DBFail /\ T' = T
                          \/ r = inr (DBOk tt)
                             /\ T' = remove_pending (map DBProof_Y (quote_rows id T)) T).
      * apply outcome_db_call; [now left|]. intros st <-. right. now split.
      * intros e T' _ [[? _]|[? _]]; discriminate.
      * intros r T' _ [[[= ->] ->]|[[= ->] ->]]; apply outcome_ret; intros _;
          [now left|now right].
Qed.

Lemma quote_rows_well_keyed L id st :
  consistent L st -> Forall (well_keyed L) (quote_rows id st).
Proof.
  intros [Hkeyed _]. apply Forall_forall. intros row Hrow.
  apply list_elem_of_filter in Hrow as [_ Hrow].
  rewrite Forall_forall in Hkeyed. now apply Hkeyed.
Qed.

Lemma GetMeltQuoteState_consistent L m method quoteId st :
  consistent L st -> consistent L (GetMeltQuoteState L m method quoteId st).2.
Proof.
  intros Hst.
  assert (Hframe : forall T T', consistent L T -> pending_proofs T' = pending_proofs T ->
                                used_proofs T' = used_proofs T -> consistent L T').
  { intros T T' HT Hp Hu. now apply (consistent_same L T). }
  assert (Hout : outcome (GetMeltQuoteState L m method quoteId) (tables st)
                   (fun _ T' => consistent L T')).
  { assert (HT : consistent L (tables st)) by (now apply (Hframe st)).
    revert HT. generalize (tables st). clear st Hst. intros T HT.
    unfold GetMeltQuoteState.
    destruct (negb _); [apply outcome_throw; intros _; exact HT|].
    eapply outcome_bind; [apply GetMeltQuote_outcome| |].
    { intros e T' _ [-> _]. exact HT. }
    intros r T' _ [-> _].
    destruct r as [meltQuote| |]; [|apply outcome_throw; intros _; exact HT..].
    destruct (nut05.State_eqb _ _); [|apply outcome_ret; intros _; exact HT].
    eapply outcome_bind; [apply ln_OutgoingPaymentStatus_outcome| |].
    { intros e T' _ [? _]. discriminate. }
    intros [paymentStatus err] T1 _ [_ ->].
    set (T1 := log_call _ T).
    assert (HT1 : consistent L T1) by (now apply (Hframe T)).
    clearbody T1. clear T HT.
    assert (Hrelease : forall id T, consistent L T ->
              outcome (removePendingProofsForQuote id) T
                (fun r T' => consistent L T'
                             /\ (r = inr DBFail
                                 \/ r = inr (DBOk (map proofOfRow (quote_rows id T)))
                                    /\ T' = remove_pending (map DBProof_Y (quote_rows id T)) T))).
    { intros id T HT. eapply outcome_weaken; [apply removePendingProofsForQuote_outcome|].
      intros r T' _ [[-> ->]|[-> ->]].
      - split; [exact HT|now left].
      - split; [|now right].
        now apply (consistent_released L (map DBProof_Y (quote_rows id T)) T). }
    assert (Hunlock : forall q : MeltQuote,
              outcome
                (_ ← db_must "error updating melt quote state"
                       (UpdateMeltQuote (MeltQuote_Id q) "" (MeltQuote_State q));
                 r ← removePendingProofsForQuote (MeltQuote_Id q);
                 match r with
                 | DBOk _ => mret q
                 | _ => throw (BuildCashuError "error removing pending proofs for quote"
                                 DBErrCode)
                 end) T1 (fun _ T' => consistent L T')).
    { intros q. eapply outcome_bind; [apply UpdateMeltQuote_outcome| |].
      { intros e T' _ [[_ ->]|[? _]]; [exact HT1|discriminate]. }
      intros [] T' _ [[? _]|[_ ->]]; [discriminate|].
      eapply outcome_bind; [apply Hrelease; now apply (Hframe T1)| |].
      { intros e T' _ [H _]. exact H. }
      intros r T' _ [H _].
      destruct r; [apply outcome_ret|apply outcome_throw..]; intros _; exact H. }
    assert (Hsettle : forall (q : MeltQuote) T, consistent L T ->
              outcome
                (r ← removePendingProofsForQuote (MeltQuote_Id q);
                 match r with
                 | DBOk proofs =>
                   _ ← db_must "error invalidating proofs. Could not save proofs to db"
                         (SaveProofs L proofs);
                   _ ← db_must "error updating melt quote state"
                         (UpdateMeltQuote (MeltQuote_Id q)
                            (lightning.PaymentPreimage paymentStatus) nut05.Paid);
                   mret (MeltQuote_with (lightning.PaymentPreimage paymentStatus) nut05.Paid q)
                 | _ => throw (BuildCashuError "error removing pending proofs for quote"
                                 DBErrCode)
                 end) T (fun _ T' => consistent L T')).
    { intros q T HT. eapply outcome_bind; [apply Hrelease; exact HT| |].
      { intros e T' _ [H _]. exact H. }
      intros r T' _ [H [[= ->]|[[= ->] ->]]]; [apply outcome_throw; intros _; exact H|].
      eapply outcome_bind;
        [apply SaveProofs_rows_outcome; now apply quote_rows_well_keyed| |].
      { intros e T' _ [[_ ->]|[? _]]; [exact H|discriminate]. }
      intros [] T' _ [[? _]|[_ ->]]; [discriminate|].
      set (rows := quote_rows (MeltQuote_Id q) T) in *.
      assert (Hspent : consistent L (add_used (map spent_row rows)
                                       (remove_pending (map DBProof_Y rows) T))).
      { apply (consistent_spent L (map DBProof_Y rows) (map spent_row rows) T);
          [reflexivity|reflexivity| |exact HT].
        intros row Hrow. apply list_elem_of_fmap in Hrow as (row0 & -> & Hrow0).
        cbn. now apply list_elem_of_fmap_2. }
      eapply outcome_bind; [apply UpdateMeltQuote_outcome| |].
      { intros e T' _ [[_ ->]|[? _]]; [exact Hspent|discriminate]. }
      intros [] T' _ [[? _]|[_ ->]]; [discriminate|].
      apply outcome_ret. intros _. now apply (Hframe _ _ Hspent). }
    destruct (lightning.Status paymentStatus) eqn:Hstatus; cbn beta iota.
    - destruct err as [msg|].
      + apply outcome_ret_bind. exact (Hsettle meltQuote T1 HT1).
      + apply outcome_ret_bind. exact (Hsettle meltQuote T1 HT1).
    - destruct err as [msg|].
      + destruct (strings_Contains msg "payment failed").
        * eapply outcome_bind; [apply Hunlock| |].
          { intros e T' _ H. exact H. }
          intros q T' _ H. apply outcome_ret. intros _. exact H.
        * apply outcome_ret_bind, outcome_ret. intros _. exact HT1.
      + apply outcome_ret_bind, outcome_ret. intros _. exact HT1.
    - apply outcome_ret. intros _. exact HT1. }
  specialize (Hout st eq_refl). cbn beta in Hout.
  now apply (Hframe _ _ Hout).
Qed.

Lemma consistent_faults L fs st : consistent L st -> consistent L (set_db_faults fs st).
Proof. intros H. now apply (consistent_same L st). Qed.

(** The writes that touch neither proof table keep an invariant of the
    proof tables; [same] is the lemma that says so. *)
Ltac frame_state same :=
  intros; eapply same; [| |eassumption]; reflexivity.

Lemma serve_consistent L B m request st :
  consistent L st -> consistent L (serve L B m request st).
Proof.
  destruct request; cbn [serve].
  - apply RequestMintQuote_keeps; frame_state consistent_same.
  - apply (GetMintQuoteState_keeps (consistent L)); frame_state consistent_same.
  - apply (MintTokens_keeps (consistent L)); frame_state consistent_same.
  - apply Swap_consistent.
  - apply (RequestMeltQuote_keeps (consistent L)); frame_state consistent_same.
  - apply GetMeltQuoteState_consistent.
  - apply MeltTokens_consistent.
  - apply (ProofsStateCheck_keeps (consistent L)); frame_state consistent_same.
  - apply RestoreSignatures_preserves. frame_state consistent_same.
Qed.

(** X19. No proof is ever both pending and spent.  When every
    pending row is keyed by the hash of its secret and no [Y] is both in
    the pending table and in the spent table, the same holds after any
    sequence of requests, whatever their answers, the repository and the
    backend do. *)
Theorem pending_and_spent_stay_apart L B m requests st :
  Forall (well_keyed L) (pending_proofs st) ->
  (forall Y, is_pending Y st -> ~ is_spent Y st) ->
  Forall (well_keyed L) (pending_proofs (serve_all L B m requests st))
  /\ forall Y, is_pending Y (serve_all L B m requests st) ->
               ~ is_spent Y (serve_all L B m requests st).
Proof.
  intros Hkeyed Hapart.
  assert (H : consistent L st) by (split; assumption). clear Hkeyed Hapart.
  revert st H. induction requests as [|request rest IH]; intros st H; [exact H|].
  cbn. apply IH. now apply serve_consistent.
Qed.

Lemma pending_and_spent_stay_apart_witness :
  Forall (well_keyed toyLibs)
    (pending_proofs (serve_all toyLibs toyIssuer slowMint meltPollSwap meltStore))
  /\ forall Y, is_pending Y (serve_all toyLibs toyIssuer slowMint meltPollSwap meltStore) ->
               ~ is_spent Y (serve_all toyLibs toyIssuer slowMint meltPollSwap meltStore).
Proof.
  apply (pending_and_spent_stay_apart toyLibs toyIssuer slowMint meltPollSwap meltStore).
  - vm_compute. constructor.
  - intros Y (row & Hrow & _). vm_compute in Hrow. now apply elem_of_nil in Hrow.
Defined.

(** ** Valid requests are served *)

Lemma amount_le_total {A} (f : A -> Z) (l : list A) x :
  Forall (fun y => 0 <= f y) l -> x ∈ l -> f x <= total f l.
Proof.
  induction 1 as [|y l Hy Hl IH]; intros Hin; [now apply elem_of_nil in Hin|].
  rewrite total_cons. pose proof (total_nonneg f l Hl).
  apply elem_of_cons in Hin as [->|Hin]; [lia|]. specialize (IH Hin). lia.
Qed.

Lemma no_output_over_sum (blindedMessages : list BlindedMessage) :
  Forall (fun bm => 0 <= BlindedMessage_Amount bm) blindedMessages ->
  total BlindedMessage_Amount blindedMessages < uint64_modulus ->
  existsb (fun msg => sum64 BlindedMessage_Amount blindedMessages <? BlindedMessage_Amount msg)
    blindedMessages = false.
Proof.
  intros Hpos Hfit. rewrite (sum64_exact _ _ Hpos Hfit).
  apply not_true_is_false. intros H. apply existsb_exists in H as (msg & Hin & Hlt).
  apply list_elem_of_In in Hin. apply Z.ltb_lt in Hlt.
  pose proof (amount_le_total BlindedMessage_Amount blindedMessages msg Hpos Hin). lia.
Qed.

Lemma signBlindedMessages_all L m blindedMessages sigs st :
  db_faults st = [] ->
  Forall2 (signs L m) blindedMessages sigs ->
  signBlindedMessages L m blindedMessages st
  = (inr sigs, add_signatures (zip (map BlindedMessage_B_ blindedMessages) sigs) st).
Proof.
  intros Hh Hsigs.
  pose proof (signBlindedMessages_prefix L m blindedMessages sigs [] st Hh Hsigs) as H.
  rewrite !app_nil_r in H. rewrite H. cbn [signBlindedMessages]. cbn.
  now rewrite app_nil_r.
Qed.

(** The repository after the check of the invoice that [MintTokens] makes
    for a quote stored as Unpaid. *)
Lemma MintTokens_valid_run L m id mintQuote blindedMessages sigs st :
  db_faults st = [] ->
  find_mint_quote id st = Some mintQuote ->
  paid_not_issued m mintQuote ->
  Forall (fun bm => 0 <= BlindedMessage_Amount bm) blindedMessages ->
  total BlindedMessage_Amount blindedMessages <= MintQuote_Amount mintQuote ->
  MintQuote_Amount mintQuote < uint64_modulus ->
  (forall B_, B_ ∈ map BlindedMessage_B_ blindedMessages -> lookup_signature B_ st = None) ->
  Forall2 (signs L m) blindedMessages sigs ->
  MintTokens L m BOLT11_METHOD id blindedMessages st
  = (inr sigs,
     update_mint_quote id nut04.Issued
       (add_signatures (zip (map BlindedMessage_B_ blindedMessages) sigs)
          match MintQuote_State mintQuote with
          | nut04.Unpaid =>
            log_call (lightning.CallInvoiceStatus (MintQuote_PaymentHash mintQuote)) st
          | _ => st
          end)).
Proof.
  intros Hh Hq Hpaid Hpos Hamount Hfit Hunsigned Hsigs.
  pose proof (find_mint_quote_Id id st mintQuote Hq) as Hid.
  assert (Htotal : total BlindedMessage_Amount blindedMessages < uint64_modulus) by lia.
  pose proof (no_output_over_sum blindedMessages Hpos Htotal) as Hover.
  assert (Hsum : (sum64 BlindedMessage_Amount blindedMessages >? MintQuote_Amount mintQuote)
                 = false).
  { rewrite (sum64_exact _ _ Hpos Htotal), Z.gtb_ltb. apply Z.ltb_ge. lia. }
  assert (Hrun : forall st0, db_faults st0 = [] ->
            blind_signatures st0 = blind_signatures st ->
            MintQuote_State mintQuote <> nut04.Issued ->
            MintTokens_paid L m mintQuote blindedMessages st0
            = (inr sigs,
               update_mint_quote id nut04.Issued
                 (add_signatures (zip (map BlindedMessage_B_ blindedMessages) sigs) st0))).
  { intros st0 Hh0 Hsame Hstate. unfold MintTokens_paid.
    replace (nut04.State_eqb (MintQuote_State mintQuote) nut04.Issued) with false
      by (now destruct (MintQuote_State mintQuote)).
    rewrite Hover, Hsum.
    rewrite (bind_ok _ _ _ _ _ (GetBlindSignatures_healthy _ st0 Hh0)).
    assert (Hnone : filter (fun r => mem_string (fst r) (map BlindedMessage_B_ blindedMessages)
                                     = true) (blind_signatures st0) = []).
    { rewrite Hsame. now apply unsigned_filter. }
    rewrite Hnone. cbn [fmap list_fmap length Nat.ltb Nat.leb].
    rewrite (bind_ok _ _ _ _ _ (signBlindedMessages_all L m blindedMessages sigs st0 Hh0 Hsigs)).
    rewrite Hid.
    erewrite bind_ok by (apply UpdateMintQuoteState_healthy; exact Hh0). reflexivity. }
  unfold MintTokens. rewrite String.eqb_refl. cbn [negb].
  rewrite (bind_ok _ _ _ _ _ (GetMintQuote_healthy id st Hh)), Hq. cbn [find_result].
  unfold paid_not_issued in Hpaid.
  destruct (MintQuote_State mintQuote) eqn:Hstate; cbn [nut04.State_eqb].
  - destruct Hpaid as (invoice & Hinvoice & Hsettled).
    unfold ln_InvoiceStatus, mbind, M_bind, bind. rewrite Hinvoice, Hsettled.
    apply Hrun; [exact Hh|reflexivity|discriminate].
  - unfold mbind at 1, M_bind, bind. cbn [mret M_ret].
    apply Hrun; [exact Hh|reflexivity|discriminate].
  - contradiction.
Qed.

(** X20. A valid mint request is served.  On a repository that answers,
    for a stored quote that is Paid, or Unpaid while the backend reports its
    invoice settled, and outputs that were never signed, whose amounts are
    not negative and add up to at most the amount of the quote, each with a
    key for its amount in the active keyset it names and a [B_] that parses:
    [MintTokens] answers with the signature of every output, in order,
    stores each under its [B_] and the quote as Issued, and leaves the
    proof tables and the melt quotes as they are. *)
Theorem MintTokens_serves_valid_request L m id mintQuote blindedMessages sigs st :
  db_faults st = [] ->
  find_mint_quote id st = Some mintQuote ->
  paid_not_issued m mintQuote ->
  Forall (fun bm => 0 <= BlindedMessage_Amount bm) blindedMessages ->
  total BlindedMessage_Amount blindedMessages <= MintQuote_Amount mintQuote ->
  MintQuote_Amount mintQuote < uint64_modulus ->
  (forall B_, B_ ∈ map BlindedMessage_B_ blindedMessages -> lookup_signature B_ st = None) ->
  Forall2 (signs L m) blindedMessages sigs ->
  exists st',
    MintTokens L m BOLT11_METHOD id blindedMessages st = (inr sigs, st')
    /\ find_mint_quote id st' = Some (MintQuote_with_State nut04.Issued mintQuote)
    /\ blind_signatures st'
       = (blind_signatures st ++ zip (map BlindedMessage_B_ blindedMessages) sigs)%list
    /\ pending_proofs st' = pending_proofs st
    /\ used_proofs st' = used_proofs st
    /\ melt_quotes st' = melt_quotes st.
Proof.
  intros Hh Hq Hpaid Hpos Hamount Hfit Hunsigned Hsigs.
  eexists. split.
  { exact (MintTokens_valid_run L m id mintQuote blindedMessages sigs st Hh Hq Hpaid Hpos
             Hamount Hfit Hunsigned Hsigs). }
  pose proof (find_mint_quote_Id id st mintQuote Hq) as Hid.
  split.
  - pose proof (find_mint_quote_issued id mintQuote st Hq) as Hissued.
    rewrite Hid in Hissued.
    destruct (MintQuote_State mintQuote); exact Hissued.
  - destruct (MintQuote_State mintQuote); now repeat split.
Qed.

Lemma MintTokens_serves_valid_request_witness :
  exists st',
    MintTokens toyLibs (toyMint 0) BOLT11_METHOD "quote-1"
      [toyMessage 4 "B1"; toyMessage 4 "B2"] paidStore
    = (inr [toySignature 4 "B1"; toySignature 4 "B2"], st')
    /\ find_mint_quote "quote-1" st'
       = Some (MintQuote_with_State nut04.Issued (toyMintQuote "quote-1" 8 nut04.Paid))
    /\ blind_signatures st'
       = (blind_signatures paidStore
            ++ zip (map BlindedMessage_B_ [toyMessage 4 "B1"; toyMessage 4 "B2"])
                 [toySignature 4 "B1"; toySignature 4 "B2"])%list
    /\ pending_proofs st' = pending_proofs paidStore
    /\ used_proofs st' = used_proofs paidStore
    /\ melt_quotes st' = melt_quotes paidStore.
Proof.
  apply (MintTokens_serves_valid_request toyLibs (toyMint 0) "quote-1"
           (toyMintQuote "quote-1" 8 nut04.Paid) [toyMessage 4 "B1"; toyMessage 4 "B2"]
           [toySignature 4 "B1"; toySignature 4 "B2"] paidStore).
  - reflexivity.
  - reflexivity.
  - exact I.
  - repeat constructor; vm_compute; discriminate.
  - vm_compute. discriminate.
  - vm_compute. reflexivity.
  - intros B_ _. reflexivity.
  - repeat (constructor; [apply toy_signs_4|]). constructor.
Defined.

Lemma fresh_rows (Ys : list string) (l : list DBProof) :
  (forall Y, Y ∈ Ys -> ~ exists row, row ∈ l /\ DBProof_Y row = Y) ->
  filter (fun p => mem_string (DBProof_Y p) Ys = true) l = [].
Proof.
  intros H. apply filter_rows_nil. intros row Hrow HY. apply (H _ HY). now exists row.
Qed.

(** X21. A valid swap is served.  On a repository that answers, for
    inputs that are not empty, hash to distinct [Y], are neither pending nor
    spent and pass the check of each proof, and outputs that were never
    signed, each with a key for its amount in the active keyset it names and
    a [B_] that parses, when the amounts are not negative, the inputs add up
    to less than 2^64 and cover the outputs plus the fee, and the inputs
    either do not carry the SIG_ALL flag or pass its check: [Swap] answers
    with the signature of every output, in order, and the repository has
    exactly these signatures and the rows of the inputs in the spent table
    more than before. *)
Theorem Swap_serves_valid_request L m proofs blindedMessages Ys sigs st :
  db_faults st = [] ->
  hashProofs L proofs = Some Ys ->
  proofs <> [] ->
  NoDup Ys ->
  (forall Y, Y ∈ Ys -> ~ is_pending Y st /\ ~ is_spent Y st) ->
  Forall (fun proof => verifyProof L m proof = None) proofs ->
  (ProofsSigAll L proofs = true ->
   verifyP2PKBlindedMessages L proofs blindedMessages = None) ->
  Forall (fun proof => 0 <= Proof_Amount proof) proofs ->
  total Proof_Amount proofs < uint64_modulus ->
  Forall (fun bm => 0 <= BlindedMessage_Amount bm) blindedMessages ->
  total BlindedMessage_Amount blindedMessages + TransactionFees m proofs
  <= total Proof_Amount proofs ->
  (forall B_, B_ ∈ map BlindedMessage_B_ blindedMessages -> lookup_signature B_ st = None) ->
  Forall2 (signs L m) blindedMessages sigs ->
  Swap L m proofs blindedMessages st
  = (inr sigs,
     add_used (proof_rows L "" proofs)
       (add_signatures (zip (map BlindedMessage_B_ blindedMessages) sigs) st)).
Proof.
  intros Hh Hys Hne Hnodup Hfresh Hverify Hp2pk Hpos Hfit Hpos' Hcover Hunsigned Hsigs.
  pose proof (TransactionFees_nonneg m proofs) as Hfee.
  pose proof (total_nonneg _ _ Hpos') as Hout.
  assert (Hfit' : total BlindedMessage_Amount blindedMessages < uint64_modulus) by lia.
  unfold Swap. rewrite Hys.
  rewrite (no_output_over_sum blindedMessages Hpos' Hfit').
  rewrite (sum64_exact _ _ Hpos Hfit), (sum64_exact _ _ Hpos' Hfit').
  replace (sub64 (total Proof_Amount proofs) (TransactionFees m proofs)
           <? total BlindedMessage_Amount blindedMessages) with false.
  2:{ symmetry. apply Z.ltb_ge. unfold sub64. rewrite wrap64_small; [lia|].
      unfold is_uint64. lia. }
  assert (Hchecked : verifyProofs L m proofs Ys st = (inr tt, st)).
  { rewrite (verifyProofs_healthy L m proofs Ys st Hh).
    rewrite (bool_decide_eq_false_2 _ Hne).
    rewrite (fresh_rows Ys (pending_proofs st)) by (intros Y HY; now apply Hfresh).
    rewrite (fresh_rows Ys (used_proofs st)) by (intros Y HY; now apply Hfresh).
    rewrite bool_decide_eq_true_2 by reflexivity. cbn [negb].
    replace (CheckDuplicateProofs L proofs) with false.
    2:{ symmetry. apply not_true_is_false. intros Hdup.
        now apply (CheckDuplicateProofs_Ys L proofs Ys Hys) in Hdup. }
    now rewrite (first_error_Forall _ _ Hverify). }
  rewrite (bind_ok _ _ _ _ _ Hchecked).
  rewrite (bind_ok _ _ _ _ _ (GetBlindSignatures_healthy _ st Hh)).
  rewrite (unsigned_filter _ st Hunsigned). cbn [fmap list_fmap length Nat.ltb Nat.leb].
  assert (Hflag : (if ProofsSigAll L proofs
                   then match verifyP2PKBlindedMessages L proofs blindedMessages with
                        | Some e => throw e
                        | None => mret tt
                        end
                   else mret tt) st = (inr tt, st)).
  { destruct (ProofsSigAll L proofs); [|reflexivity]. now rewrite (Hp2pk eq_refl). }
  rewrite (bind_ok _ _ _ _ _ Hflag).
  rewrite (bind_ok _ _ _ _ _ (signBlindedMessages_all L m blindedMessages sigs st Hh Hsigs)).
  unfold SaveProofs. erewrite bind_ok by (apply db_call_healthy; exact Hh).
  unfold insert_rows. destruct (proof_rows_mapM L "" proofs Ys Hys) as [-> _]. reflexivity.
Qed.

Lemma toy_signs amount key B_ :
  MintKeyset_Keys (toyKeyset 100) !! amount = Some key ->
  signs toyLibs (toyMint 100) (toyMessage amount B_)
    {| BlindedSignature_Amount := amount;
       BlindedSignature_C_ := SignBlindedMessage toyLibs B_ (PrivateKey key);
       BlindedSignature_Id := MintKeyset_Id (toyKeyset 100);
       BlindedSignature_DLEQ :=
         {| DLEQ_E := (GenerateDLEQ toyLibs (PrivateKey key) B_
                         (SignBlindedMessage toyLibs B_ (PrivateKey key))).1;
            DLEQ_S := (GenerateDLEQ toyLibs (PrivateKey key) B_
                         (SignBlindedMessage toyLibs B_ (PrivateKey key))).2 |} |}.
Proof.
  intros Hkey. exists (toyKeyset 100), key, B_, B_.
  split; [eexists; reflexivity|]. repeat split; try reflexivity. exact Hkey.
Qed.

Lemma Swap_serves_valid_request_witness :
  Swap toyLibs (toyMint 100) [toyProof 4 "s1"; toyProof 4 "s2"]
    [toyMessage 4 "B1"; toyMessage 2 "B2"; toyMessage 1 "B3"] emptyStore
  = (inr [toySignature 4 "B1"; toySignature 2 "B2"; toySignature 1 "B3"],
     add_used (proof_rows toyLibs "" [toyProof 4 "s1"; toyProof 4 "s2"])
       (add_signatures
          (zip (map BlindedMessage_B_
                  [toyMessage 4 "B1"; toyMessage 2 "B2"; toyMessage 1 "B3"])
             [toySignature 4 "B1"; toySignature 2 "B2"; toySignature 1 "B3"]) emptyStore)).
Proof.
  apply (Swap_serves_valid_request toyLibs (toyMint 100) [toyProof 4 "s1"; toyProof 4 "s2"]
           [toyMessage 4 "B1"; toyMessage 2 "B2"; toyMessage 1 "B3"] ["Y(s1)"; "Y(s2)"]
           [toySignature 4 "B1"; toySignature 2 "B2"; toySignature 1 "B3"] emptyStore).
  - reflexivity.
  - vm_compute. reflexivity.
  - discriminate.
  - apply NoDup_cons. split; [|apply NoDup_singleton].
    intros H. apply list_elem_of_singleton in H. discriminate.
  - intros Y _. split; intros (row & Hrow & _); now apply elem_of_nil in Hrow.
  - repeat (constructor; [vm_compute; reflexivity|]). constructor.
  - intros H. vm_compute in H. discriminate.
  - repeat constructor; vm_compute; discriminate.
  - vm_compute. reflexivity.
  - repeat constructor; vm_compute; discriminate.
  - vm_compute. discriminate.
  - intros B_ _. reflexivity.
  - constructor; [exact (toy_signs 4 _ "B1" eq_refl)|].
    constructor; [exact (toy_signs 2 _ "B2" eq_refl)|].
    constructor; [exact (toy_signs 1 _ "B3" eq_refl)|]. constructor.
Defined.

(** ** Melt quotes *)

Lemma RequestMeltQuote_outcome L m method request unit T :
  outcome (RequestMeltQuote L m method request unit) T
    (fun r T' =>
       match r with
       | inl _ => T' = T
       | inr quote =>
         method = BOLT11_METHOD /\ unit = SAT_UNIT
         /\ melt_quote_for L m request T quote
         /\ T' = set_melt_quotes (fun l => (l ++ [quote])%list) T
       end).
Proof.
  unfold RequestMeltQuote.
  destruct (String.eqb method BOLT11_METHOD) eqn:Emethod; cbn [negb];
    [|apply outcome_throw; reflexivity].
  destruct (String.eqb unit SAT_UNIT) eqn:Eunit; cbn [negb];
    [|apply outcome_throw; reflexivity].
  apply String.eqb_eq in Emethod, Eunit.
  destruct (Decodepay L request) as [err|bolt11] eqn:Edecode;
    [apply outcome_throw; reflexivity|].
  destruct (MSatoshi bolt11 =? 0) eqn:Ezero; [apply outcome_throw; reflexivity|].
  apply Z.eqb_neq in Ezero.
  destruct (_ && _) eqn:Emax; [apply outcome_throw; reflexivity|].
  assert (Hmax : 0 < MaxAmount (MeltingSettings (limits m)) ->
                 wrap64 (MSatoshi bolt11) / 1000 <= MaxAmount (MeltingSettings (limits m))).
  { intros Hpos. apply andb_false_iff in Emax as [E|E].
    - rewrite Z.gtb_ltb in E. apply Z.ltb_ge in E. lia.
    - rewrite Z.gtb_ltb in E. now apply Z.ltb_ge in E. }
  destruct (GenerateRandomQuoteId L) as [quoteId|] eqn:Eid;
    [|apply outcome_throw; reflexivity].
  eapply outcome_bind; [apply GetMintQuoteByPaymentHash_outcome| |].
  { intros e T' _ [_ [?|?]]; discriminate. }
  intros r T' _ [-> Hr].
  match goal with
  | |- outcome (SaveMeltQuote ?q ≫= _) _ _ =>
    assert (Hquote : melt_quote_for L m request T q); [|set (quote := q) in *]
  end.
  { exists bolt11, quoteId.
    destruct Hr as [[= ->]|[= ->]]; [|destruct (find_mint_quote_by_hash _ T) eqn:Efound];
      cbn [find_result]; repeat split; auto;
      solve [left; repeat split | right; eexists; repeat split; reflexivity]. }
  clearbody quote.
  eapply outcome_bind with
    (R := fun r T' => r = inr DBFail /\ T' = T
                      \/ r = inr (DBOk tt)
                         /\ T' = set_melt_quotes (fun l => (l ++ [quote])%list) T).
  - unfold SaveMeltQuote. apply outcome_db_call; [now left|]. intros st <-. right. now split.
  - intros e T' _ [[? _]|[? _]]; discriminate.
  - intros r' T' _ [[[= ->] ->]|[[= ->] ->]].
    + apply outcome_throw. reflexivity.
    + apply outcome_ret. intros _. now repeat split.
Qed.

(** X22. [RequestMeltQuote] creates a quote only for a priced invoice
    within the limit.  Whatever the repository does: when it answers with a
    quote, the method is bolt11 and the unit sat, the request decodes to an
    invoice with an amount, the quote is Unpaid for a thousandth of the
    millisatoshi amount, rounded down, which is at most [MaxAmount] when
    that limit is set; its fee reserve is the estimate of the backend, or it
    is zero and the quote carries the payment hash and request of a stored
    mint quote for the same invoice; and the quote has been added at the end
    of the melt quotes, which is the only change.  When it fails no table
    changes.  An invoice without an amount and an amount over the limit are
    refused before the repository is asked. *)
Theorem RequestMeltQuote_enforces_limits L m method request unit st :
  (forall quote st',
     RequestMeltQuote L m method request unit st = (inr quote, st') ->
     method = BOLT11_METHOD /\ unit = SAT_UNIT
     /\ melt_quote_for L m request st quote
     /\ tables st' = set_melt_quotes (fun l => (l ++ [quote])%list) (tables st))
  /\ (forall e st',
        RequestMeltQuote L m method request unit st = (inl e, st') ->
        tables st' = tables st)
  /\ (forall bolt11,
        Decodepay L request = inr bolt11 ->
        (MSatoshi bolt11 = 0 ->
         RequestMeltQuote L m BOLT11_METHOD request SAT_UNIT st
         = (inl (BuildCashuError "invoice has no amount" StandardErrCode), st))
        /\ (MSatoshi bolt11 <> 0 ->
            0 < MaxAmount (MeltingSettings (limits m)) ->
            MaxAmount (MeltingSettings (limits m)) < wrap64 (MSatoshi bolt11) / 1000 ->
            RequestMeltQuote L m BOLT11_METHOD request SAT_UNIT st
            = (inl MeltAmountExceededErr, st))).
Proof.
  split; [|split].
  - intros quote st' H.
    exact (outcome_run _ _ _ _ _ (RequestMeltQuote_outcome L m method request unit (tables st)) H).
  - intros e st' H.
    exact (outcome_run _ _ _ _ _ (RequestMeltQuote_outcome L m method request unit (tables st)) H).
  - intros bolt11 Hdecode. unfold RequestMeltQuote. rewrite !String.eqb_refl. cbn [negb].
    rewrite Hdecode. split.
    + intros ->. reflexivity.
    + intros Hamount Hpos Hover. apply Z.eqb_neq in Hamount. rewrite Hamount.
      replace (MaxAmount (MeltingSettings (limits m)) >? 0) with true
        by (symmetry; rewrite Z.gtb_ltb; now apply Z.ltb_lt).
      replace (wrap64 (MSatoshi bolt11) / 1000 >? MaxAmount (MeltingSettings (limits m)))
        with true by (symmetry; rewrite Z.gtb_ltb; now apply Z.ltb_lt).
      reflexivity.
Qed.

(** ** From the request of a quote to the tokens *)

(** X23. A new mint quote can be minted once its invoice is settled, and
    not before.  Let [RequestMintQuote] have answered with a quote whose id
    was not in use, let the repository answer, and let the outputs be valid
    for the amount asked for (never signed, amounts not negative and within
    the amount, keys and [B_] in order).  Then the quote is found under its
    id; while the backend reports its invoice as not settled, [MintTokens]
    answers MintQuoteRequestNotPaid, signs nothing and leaves the quote
    Unpaid; once the backend reports it settled, [MintTokens] answers with
    the signatures of the outputs and the quote is stored as Issued. *)
Theorem mint_quote_life_cycle L B m method amount unit st quote st1 invoice
    blindedMessages sigs :
  RequestMintQuote L B m method amount unit st = (inr quote, st1) ->
  find_mint_quote (MintQuote_Id quote) st = None ->
  db_faults st1 = [] ->
  lightning.InvoiceStatus (lightningClient m) (MintQuote_PaymentHash quote) = (invoice, None) ->
  Forall (fun bm => 0 <= BlindedMessage_Amount bm) blindedMessages ->
  total BlindedMessage_Amount blindedMessages <= amount ->
  amount < uint64_modulus ->
  (forall B_, B_ ∈ map BlindedMessage_B_ blindedMessages -> lookup_signature B_ st = None) ->
  Forall2 (signs L m) blindedMessages sigs ->
  find_mint_quote (MintQuote_Id quote) st1 = Some quote
  /\ MintQuote_State quote = nut04.Unpaid
  /\ MintQuote_Amount quote = amount
  /\ if lightning.Settled invoice
     then exists st2,
            MintTokens L m BOLT11_METHOD (MintQuote_Id quote) blindedMessages st1
            = (inr sigs, st2)
            /\ find_mint_quote (MintQuote_Id quote) st2
               = Some (MintQuote_with_State nut04.Issued quote)
            /\ blind_signatures st2
               = (blind_signatures st ++ zip (map BlindedMessage_B_ blindedMessages) sigs)%list
     else MintTokens L m BOLT11_METHOD (MintQuote_Id quote) blindedMessages st1
          = (inl MintQuoteRequestNotPaid,
             log_call (lightning.CallInvoiceStatus (MintQuote_PaymentHash quote)) st1).
Proof.
  intros Hrequest Hfresh Hh Hinvoice Hpos Hamount Hfit Hunsigned Hsigs.
  pose proof (RequestMintQuote_run L B m method amount unit st _ _ Hrequest)
    as (_ & _ & _ & _ & (created & quoteId & _ & _ & Hquote) & Htables).
  assert (Hquotes : mint_quotes st1 = (mint_quotes st ++ [quote])%list)
    by exact (f_equal mint_quotes Htables).
  assert (Hsame : blind_signatures st1 = blind_signatures st)
    by exact (f_equal blind_signatures Htables).
  assert (Hstate : MintQuote_State quote = nut04.Unpaid) by (now rewrite Hquote).
  assert (Hasked : MintQuote_Amount quote = amount) by (now rewrite Hquote).
  assert (Hfound : find_mint_quote (MintQuote_Id quote) st1 = Some quote).
  { unfold find_mint_quote in *. rewrite Hquotes, find_app_none.
    - cbn. now rewrite String.eqb_refl.
    - intros r Hr. apply list_elem_of_In in Hr. exact (find_none _ _ Hfresh r Hr). }
  split; [exact Hfound|]. split; [exact Hstate|]. split; [exact Hasked|].
  destruct (lightning.Settled invoice) eqn:Hsettled.
  - assert (Hpaid : paid_not_issued m quote).
    { unfold paid_not_issued. rewrite Hstate. now exists invoice. }
    assert (Hunsigned1 : forall B_, B_ ∈ map BlindedMessage_B_ blindedMessages ->
                                    lookup_signature B_ st1 = None).
    { intros B_ HB. unfold lookup_signature. rewrite Hsame. now apply Hunsigned. }
    rewrite <- Hasked in Hamount, Hfit.
    eexists. split.
    { exact (MintTokens_valid_run L m _ quote blindedMessages sigs st1 Hh Hfound Hpaid Hpos
               Hamount Hfit Hunsigned1 Hsigs). }
    rewrite Hstate. split.
    + exact (find_mint_quote_issued _ quote _ Hfound).
    + cbn. now rewrite Hsame.
  - unfold MintTokens. rewrite String.eqb_refl. cbn [negb].
    rewrite (bind_ok _ _ _ _ _ (GetMintQuote_healthy _ st1 Hh)), Hfound. cbn [find_result].
    rewrite Hstate. cbn [nut04.State_eqb].
    unfold ln_InvoiceStatus, mbind, M_bind, bind. now rewrite Hinvoice, Hsettled.
Qed.

Lemma mint_quote_life_cycle_witness :
  find_mint_quote (MintQuote_Id requestedQuote) requestedStore = Some requestedQuote
  /\ MintQuote_State requestedQuote = nut04.Unpaid
  /\ MintQuote_Amount requestedQuote = 8
  /\ exists st2,
       MintTokens toyLibs (invoiceMint true) BOLT11_METHOD (MintQuote_Id requestedQuote)
         [toyMessage 4 "B1"; toyMessage 4 "B2"] requestedStore
       = (inr [toySignature 4 "B1"; toySignature 4 "B2"], st2)
       /\ find_mint_quote (MintQuote_Id requestedQuote) st2
          = Some (MintQuote_with_State nut04.Issued requestedQuote)
       /\ blind_signatures st2
          = (blind_signatures emptyStore
               ++ zip (map BlindedMessage_B_ [toyMessage 4 "B1"; toyMessage 4 "B2"])
                    [toySignature 4 "B1"; toySignature 4 "B2"])%list.
Proof.
  apply (mint_quote_life_cycle toyLibs toyIssuer (invoiceMint true) "bolt11" 8 "sat" emptyStore
           requestedQuote requestedStore
           (lightning.InvoiceStatus (invoiceClient true) "hash-toy").1
           [toyMessage 4 "B1"; toyMessage 4 "B2"] [toySignature 4 "B1"; toySignature 4 "B2"]).
  - vm_compute. reflexivity.
  - reflexivity.
  - reflexivity.
  - reflexivity.
  - repeat constructor; vm_compute; discriminate.
  - vm_compute. discriminate.
  - vm_compute. reflexivity.
  - intros B_ _. reflexivity.
  - repeat (constructor; [apply toy_signs_4|]). constructor.
Defined.

(** ** A paid melt quote is final *)

Lemma kept_ret (K : Store -> Prop) {A} (P : A -> Prop) a T :
  K T -> P a -> outcome (mret a) T (kept K P).
Proof. intros HK HP. apply outcome_ret. intros _. now split. Qed.

Lemma kept_throw (K : Store -> Prop) {A} (P : A -> Prop) e T :
  K T -> outcome (throw e) T (kept K P).
Proof. intros HK. apply outcome_throw. intros _. now split. Qed.

Lemma kept_bind (K : Store -> Prop) {A B} (P : A -> Prop) (Q : B -> Prop)
    (c : M A) (k : A -> M B) T :
  outcome c T (kept K P) ->
  (forall a T', K T' -> P a -> outcome (k a) T' (kept K Q)) ->
  outcome (c ≫= k) T (kept K Q).
Proof.
  intros Hc Hk. eapply outcome_bind; [exact Hc| |].
  - intros e T' _ [HK _]. now split.
  - intros a T' _ [HK HP]. now apply Hk.
Qed.

Lemma kept_db_call (K : Store -> Prop) {A} (f : Store -> DBResult A * Store) T :
  K T -> (forall st, tables st = T -> K (tables (f st).2)) ->
  outcome (db_call f) T (kept K (fun _ => True)).
Proof.
  intros HK Hf. apply outcome_db_call; [intros _; now split|].
  intros st Hst. split; [now apply Hf|exact I].
Qed.

Lemma kept_db_must (K : Store -> Prop) msg (f : Store -> DBResult unit * Store) T :
  K T -> (forall st, tables st = T -> K (tables (f st).2)) ->
  outcome (db_must msg (db_call f)) T (kept K (fun _ => True)).
Proof.
  intros HK Hf. unfold db_must. eapply kept_bind; [now apply kept_db_call|].
  intros r T' HK' _. destruct r as [[]| |]; [now apply kept_ret|now apply kept_throw..].
Qed.

Lemma kept_log (K : Store -> Prop) {A} (a : A) c T :
  K (log_call c T) -> outcome (fun st => (inr a, log_call c st)) T (kept K (fun _ => True)).
Proof. intros HK st <-. split; [exact HK|exact I]. Qed.

Lemma kept_any (K : Store -> Prop) {A} (P : A -> Prop) (c : M A) T :
  outcome c T (kept K P) -> outcome c T (kept K (fun _ => True)).
Proof.
  intros Hc. eapply outcome_weaken; [exact Hc|]. intros r T' _ [HK _]. split; [exact HK|].
  now destruct r.
Qed.

Lemma stored_as_updated id q id2 preimage s T T' :
  melt_quotes T' = melt_quotes (update_melt_quote id2 preimage s T) ->
  id2 <> id -> stored_as id q T -> stored_as id q T'.
Proof.
  unfold stored_as, find_melt_quote. intros -> Hne Hq. cbn.
  rewrite find_melt_quote_update, Hq. cbn.
  pose proof (find_melt_quote_Id id T q Hq) as Hid. rewrite Hid.
  now rewrite (proj2 (String.eqb_neq id id2)) by congruence.
Qed.

Lemma stored_as_appended id q new T T' :
  melt_quotes T' = (melt_quotes T ++ [new])%list ->
  stored_as id q T -> stored_as id q T'.
Proof.
  unfold stored_as, find_melt_quote. intros -> Hq.
  induction (melt_quotes T) as [|x l IH]; [discriminate|].
  cbn in *. destruct (String.eqb (MeltQuote_Id x) id); [exact Hq|now apply IH].
Qed.

(** The writes that leave a stored melt quote as it is: those to other
    tables, to the melt quote with another id (lemma [updated], with the
    proof [Hne] that the ids differ), and a new melt quote (lemma
    [appended]). *)
Ltac stored_write updated appended Hne :=
  intros; subst;
  repeat match goal with
         | |- context [match ?x with _ => _ end] => destruct x
         end;
  cbn [fst snd];
  match goal with
  | H : ?K ?T |- ?K _ =>
    first [ exact H
          | eapply (updated _ _ _ _ _ T); [reflexivity|exact Hne|exact H]
          | eapply (appended _ _ _ T); [reflexivity|exact H] ]
  end.

Section PaidQuote.
Context (L : Libs) (m : Mint) (id : string) (q : MeltQuote).

Lemma settleQuotesInternally_stored mintQuote meltQuote T :
  MeltQuote_Id meltQuote <> id -> stored_as id q T ->
  outcome (settleQuotesInternally m mintQuote meltQuote) T
    (kept (stored_as id q) (fun _ => True)).
Proof.
  intros Hne HK. unfold settleQuotesInternally.
  eapply kept_bind; [apply kept_log; exact HK|]. intros [invoice err] T1 HK1 _.
  destruct err; [now apply kept_throw|]. cbn [MeltQuote_Id MeltQuote_with].
  eapply kept_bind; [apply kept_db_must;
    [exact HK1|stored_write stored_as_updated stored_as_appended Hne]|].
  intros [] T2 HK2 _.
  eapply kept_bind; [apply kept_db_must;
    [exact HK2|stored_write stored_as_updated stored_as_appended Hne]|].
  intros [] T3 HK3 _.
  now apply kept_ret.
Qed.

Lemma settleProofs_stored Ys proofs T :
  stored_as id q T ->
  outcome (settleProofs L Ys proofs) T (kept (stored_as id q) (fun _ => True)).
Proof.
  intros HK. unfold settleProofs, SaveProofs, insert_rows.
  eapply kept_bind; [apply kept_db_must;
    [exact HK|stored_write stored_as_updated stored_as_appended HK]|].
  intros [] T2 HK2 _.
  apply kept_db_must; [exact HK2|stored_write stored_as_updated stored_as_appended HK].
Qed.

Lemma MeltTokens_probe_stored Ys proofs meltQuote T :
  MeltQuote_Id meltQuote <> id -> stored_as id q T ->
  outcome (MeltTokens_probe L m Ys proofs meltQuote) T
    (kept (stored_as id q) (fun _ => True)).
Proof.
  intros Hne HK. unfold MeltTokens_probe.
  eapply kept_bind; [apply kept_log; exact HK|]. intros [paymentStatus err] T1 HK1 _.
  assert (Hblock : outcome
            (match err with
             | Some _ =>
               let meltQuote' :=
                 MeltQuote_with (MeltQuote_Preimage meltQuote) nut05.Unpaid meltQuote in
               _ ← db_must "error updating melt quote state"
                     (UpdateMeltQuote (MeltQuote_Id meltQuote') ""
                        (MeltQuote_State meltQuote'));
               _ ← db_must "error removing proofs from pending" (RemovePendingProofs Ys);
               mret meltQuote'
             | None => mret meltQuote
             end) T1
            (kept (stored_as id q) (fun q' => MeltQuote_Id q' = MeltQuote_Id meltQuote))).
  { destruct err; [|now apply kept_ret]. cbn zeta. cbn [MeltQuote_Id MeltQuote_with].
    eapply kept_bind; [apply kept_db_must;
      [exact HK1|stored_write stored_as_updated stored_as_appended Hne]|].
    intros [] T2 HK2 _.
    eapply kept_bind; [apply kept_db_must;
      [exact HK2|stored_write stored_as_updated stored_as_appended Hne]|].
    intros [] T3 HK3 _.
    now apply kept_ret. }
  destruct (lightning.Status paymentStatus); cbn beta iota.
  - eapply kept_bind; [exact Hblock|]. intros q' T2 HK2 Hid. cbn beta.
    eapply kept_bind; [now apply settleProofs_stored|]. intros [] T3 HK3 _.
    cbn [MeltQuote_Id MeltQuote_with]. rewrite Hid.
    eapply kept_bind; [apply kept_db_must;
      [exact HK3|stored_write stored_as_updated stored_as_appended Hne]|].
    intros [] T4 HK4 _.
    now apply kept_ret.
  - eapply kept_bind; [exact Hblock|]. intros q' T2 HK2 Hid. now apply kept_ret.
  - now apply kept_ret.
Qed.

Lemma MeltTokens_sendPayment_stored Ys proofs meltQuote T :
  MeltQuote_Id meltQuote <> id -> stored_as id q T ->
  outcome (MeltTokens_sendPayment L m Ys proofs meltQuote) T
    (kept (stored_as id q) (fun _ => True)).
Proof.
  intros Hne HK. unfold MeltTokens_sendPayment.
  eapply kept_bind; [apply kept_log; exact HK|]. intros [response err] T1 HK1 _.
  destruct err as [msg|].
  - destruct (strings_Contains msg "payment error");
      [|now apply MeltTokens_probe_stored].
    cbn zeta. cbn [MeltQuote_Id MeltQuote_with].
    eapply kept_bind; [apply kept_db_must;
      [exact HK1|stored_write stored_as_updated stored_as_appended Hne]|].
    intros [] T2 HK2 _.
    eapply kept_bind; [apply kept_db_must;
      [exact HK2|stored_write stored_as_updated stored_as_appended Hne]|].
    intros [] T3 HK3 _.
    now apply kept_ret.
  - destruct (lightning.Status response).
    + cbn zeta. cbn [MeltQuote_Id MeltQuote_with].
      eapply kept_bind; [now apply settleProofs_stored|]. intros [] T2 HK2 _.
      eapply kept_bind; [apply kept_db_must;
        [exact HK2|stored_write stored_as_updated stored_as_appended Hne]|].
      intros [] T3 HK3 _. now apply kept_ret.
    + now apply MeltTokens_probe_stored.
    + now apply kept_ret.
Qed.

Lemma MeltTokens_pay_stored Ys proofs meltQuote T :
  MeltQuote_Id meltQuote <> id -> stored_as id q T ->
  outcome (MeltTokens_pay L m Ys proofs meltQuote) T
    (kept (stored_as id q) (fun _ => True)).
Proof.
  intros Hne HK. unfold MeltTokens_pay, AddPendingProofs, SaveProofs, insert_rows.
  eapply kept_bind; [apply kept_db_must;
    [exact HK|stored_write stored_as_updated stored_as_appended Hne]|].
  intros [] T1 HK1 _.
  cbn zeta. cbn [MeltQuote_Id MeltQuote_with MeltQuote_PaymentHash].
  eapply kept_bind; [apply kept_db_must;
    [exact HK1|stored_write stored_as_updated stored_as_appended Hne]|].
  intros [] T2 HK2 _.
  eapply kept_bind; [apply kept_db_call;
    [exact HK2|stored_write stored_as_updated stored_as_appended Hne]|].
  intros r T3 HK3 _.
  destruct r as [mintQuote| |]; try (now apply MeltTokens_sendPayment_stored).
  eapply kept_bind; [now apply settleQuotesInternally_stored|]. intros q' T4 HK4 _.
  eapply kept_bind; [apply kept_db_must;
    [exact HK4|stored_write stored_as_updated stored_as_appended Hne]|].
  intros [] T5 HK5 _.
  eapply kept_bind; [apply kept_db_must;
    [exact HK5|stored_write stored_as_updated stored_as_appended Hne]|].
  intros [] T6 HK6 _.
  now apply kept_ret.
Qed.

Lemma MeltTokens_stored method quoteId proofs T :
  MeltQuote_State q = nut05.Paid -> stored_as id q T ->
  outcome (MeltTokens L m method quoteId proofs) T (kept (stored_as id q) (fun _ => True)).
Proof.
  intros Hpaid HK. unfold MeltTokens.
  destruct (hashProofs L proofs) as [Ys|]; [|now apply kept_throw].
  destruct (negb _); [now apply kept_throw|].
  eapply outcome_bind; [apply GetMeltQuote_outcome| |].
  { intros e T' _ [-> _]. now split. }
  intros r T' _ [-> Hr].
  destruct r as [meltQuote| |]; [|now apply kept_throw..].
  assert (Hfound : find_melt_quote quoteId T = Some meltQuote).
  { destruct Hr as [?|[= Hr]]; [discriminate|].
    destruct (find_melt_quote quoteId T); [now injection Hr as ->|discriminate]. }
  pose proof (find_melt_quote_Id quoteId T meltQuote Hfound) as Hid.
  destruct (String.eqb quoteId id) eqn:Esame.
  - apply String.eqb_eq in Esame. rewrite Esame in Hfound.
    pose proof HK as Hq. unfold stored_as in Hq. rewrite Hq in Hfound.
    injection Hfound as Hsame. rewrite <- Hsame, Hpaid. cbn [nut05.State_eqb].
    now apply kept_throw.
  - apply String.eqb_neq in Esame. rewrite <- Hid in Esame.
    destruct (nut05.State_eqb _ nut05.Paid); [now apply kept_throw|].
    destruct (nut05.State_eqb _ nut05.Pending); [now apply kept_throw|].
    eapply outcome_bind; [apply verifyProofs_outcome| |].
    { intros e T' _ [-> _]. now split. }
    intros [] T' _ [-> _].
    destruct (_ <? _); [now apply kept_throw|].
    destruct (ProofsSigAll L proofs); [now apply kept_throw|].
    now apply MeltTokens_pay_stored.
Qed.

Lemma GetMeltQuoteState_stored method quoteId T :
  MeltQuote_State q = nut05.Paid -> stored_as id q T ->
  outcome (GetMeltQuoteState L m method quoteId) T (kept (stored_as id q) (fun _ => True)).
Proof.
  intros Hpaid HK. unfold GetMeltQuoteState.
  destruct (negb _); [now apply kept_throw|].
  eapply outcome_bind; [apply GetMeltQuote_outcome| |].
  { intros e T' _ [-> _]. now split. }
  intros r T' _ [-> Hr].
  destruct r as [meltQuote| |]; [|now apply kept_throw..].
  assert (Hfound : find_melt_quote quoteId T = Some meltQuote).
  { destruct Hr as [?|[= Hr]]; [discriminate|].
    destruct (find_melt_quote quoteId T); [now injection Hr as ->|discriminate]. }
  pose proof (find_melt_quote_Id quoteId T meltQuote Hfound) as Hid.
  destruct (String.eqb quoteId id) eqn:Esame.
  - apply String.eqb_eq in Esame. rewrite Esame in Hfound.
    pose proof HK as Hq. unfold stored_as in Hq. rewrite Hq in Hfound.
    injection Hfound as Hsame. rewrite <- Hsame, Hpaid. cbn [nut05.State_eqb].
    now apply kept_ret.
  - apply String.eqb_neq in Esame. rewrite <- Hid in Esame.
    destruct (nut05.State_eqb _ nut05.Pending); [|now apply kept_ret].
    eapply kept_bind; [apply kept_log; exact HK|]. intros [paymentStatus err] T1 HK1 _.
    assert (Hrelease : forall T0 (P : list Proof -> Prop), stored_as id q T0 ->
              (forall proofs, P proofs) ->
              outcome (removePendingProofsForQuote (MeltQuote_Id meltQuote)) T0
                (kept (stored_as id q)
                   (fun r => match r with DBOk proofs => P proofs | _ => True end))).
    { intros T0 P HK0 HP. eapply outcome_weaken; [apply removePendingProofsForQuote_outcome|].
      intros r T2 _ [[-> ->]|[-> ->]]; (split; [|cbn; auto]); [exact HK0|exact HK0]. }
    assert (Hblock : outcome
              (match err with
               | Some msg =>
                 if match lightning.Status paymentStatus with
                    | lightning.Failed => strings_Contains msg "payment failed"
                    | _ => false
                    end
                 then
                   let meltQuote' :=
                     MeltQuote_with (MeltQuote_Preimage meltQuote) nut05.Unpaid meltQuote in
                   _ ← db_must "error updating melt quote state"
                         (UpdateMeltQuote (MeltQuote_Id meltQuote') ""
                            (MeltQuote_State meltQuote'));
                   r ← removePendingProofsForQuote (MeltQuote_Id meltQuote');
                   match r with
                   | DBOk _ => mret meltQuote'
                   | _ => throw (BuildCashuError "error removing pending proofs for quote"
                                   DBErrCode)
                   end
                 else mret meltQuote
               | None => mret meltQuote
               end) T1
              (kept (stored_as id q) (fun q' => MeltQuote_Id q' = MeltQuote_Id meltQuote))).
    { destruct err as [msg|]; [|now apply kept_ret].
      destruct (match lightning.Status paymentStatus with
                | lightning.Failed => strings_Contains msg "payment failed"
                | _ => false
                end); [|now apply kept_ret].
      cbn zeta. cbn [MeltQuote_Id MeltQuote_with].
      eapply kept_bind; [apply kept_db_must;
        [exact HK1|stored_write stored_as_updated stored_as_appended Esame]|].
      intros [] T2 HK2 _.
      eapply kept_bind; [apply (Hrelease T2 (fun _ => True) HK2); auto|].
      intros r T3 HK3 _. destruct r; [now apply kept_ret|now apply kept_throw..]. }
    destruct (lightning.Status paymentStatus); cbn beta iota.
    + eapply kept_bind; [exact Hblock|]. intros q' T2 HK2 Hid'. cbn beta. rewrite Hid'.
      eapply kept_bind; [apply (Hrelease T2 (fun _ => True) HK2); auto|].
      intros r T3 HK3 _. destruct r as [proofs| |]; [|now apply kept_throw..].
      unfold SaveProofs, insert_rows.
      eapply kept_bind; [apply kept_db_must;
        [exact HK3|stored_write stored_as_updated stored_as_appended Esame]|].
      intros [] T4 HK4 _. cbn [MeltQuote_Id MeltQuote_with]. rewrite Hid'.
      eapply kept_bind; [apply kept_db_must;
        [exact HK4|stored_write stored_as_updated stored_as_appended Esame]|].
      intros [] T5 HK5 _. now apply kept_ret.
    + eapply kept_bind; [exact Hblock|]. intros q' T2 HK2 Hid'. now apply kept_ret.
    + now apply kept_ret.
Qed.
End PaidQuote.

Lemma serve_stored L B m id q request st :
  MeltQuote_State q = nut05.Paid ->
  stored_as id q st -> stored_as id q (serve L B m request st).
Proof.
  intros Hpaid. destruct request; cbn [serve].
  - apply RequestMintQuote_keeps; stored_write stored_as_updated stored_as_appended I.
  - apply (GetMintQuoteState_keeps (stored_as id q));
      stored_write stored_as_updated stored_as_appended I.
  - apply (MintTokens_keeps (stored_as id q));
      stored_write stored_as_updated stored_as_appended I.
  - apply (Swap_keeps (stored_as id q));
      stored_write stored_as_updated stored_as_appended I.
  - apply (RequestMeltQuote_keeps (stored_as id q));
      stored_write stored_as_updated stored_as_appended I.
  - intros HK.
    now destruct (GetMeltQuoteState_stored L m id q method quoteId (tables st) Hpaid HK st
                    eq_refl).
  - intros HK.
    now destruct (MeltTokens_stored L m id q method quoteId proofs (tables st) Hpaid HK st
                    eq_refl).
  - apply (ProofsStateCheck_keeps (stored_as id q));
      stored_write stored_as_updated stored_as_appended I.
  - apply RestoreSignatures_preserves. stored_write stored_as_updated stored_as_appended I.
Qed.

(** X24. A paid melt quote is final.  A melt quote that is stored as
    Paid is found unchanged, with its preimage, after any sequence of
    requests, whatever their answers, the repository and the backend do: no
    melt and no poll of this or of another quote writes to it, and a new
    quote does not hide it. *)
Theorem paid_melt_quote_is_final L B m requests st id q :
  find_melt_quote id st = Some q ->
  MeltQuote_State q = nut05.Paid ->
  find_melt_quote id (serve_all L B m requests st) = Some q.
Proof.
  intros Hq Hpaid. change (stored_as id q (serve_all L B m requests st)).
  change (stored_as id q st) in Hq. revert st Hq.
  induction requests as [|request rest IH]; intros st Hq; [exact Hq|].
  cbn. apply IH. now apply serve_stored.
Qed.

Lemma paid_melt_quote_is_final_witness :
  find_melt_quote "melt-1"
    (serve_all toyLibs toyIssuer slowMint
       (DoRequestMeltQuote "bolt11" "inv" "sat" :: meltPollSwap) paidMeltStore)
  = Some (toyMeltQuote "melt-1" "inv" 6 nut05.Paid).
Proof.
  apply (paid_melt_quote_is_final toyLibs toyIssuer slowMint
           (DoRequestMeltQuote "bolt11" "inv" "sat" :: meltPollSwap) paidMeltStore "melt-1"
           (toyMeltQuote "melt-1" "inv" 6 nut05.Paid)).
  - reflexivity.
  - reflexivity.
Defined.

(** ** Internal settlement and the failures of the repository *)













Section FailingWrite.
Context (L : Libs) (m : Mint) (quoteId : string) (proofs : list Proof) (Ys : list string)
        (meltQuote : MeltQuote) (mintQuote : MintQuote) (invoice : lightning.Invoice).
Hypothesis hashed : hashProofs L proofs = Some Ys.
Hypothesis backend :
  lightning.InvoiceStatus (lightningClient m) (MintQuote_PaymentHash mintQuote)
  = (invoice, None).



End FailingWrite.



